(* ===== verification/_CoqProject ===== *)
-Q . S2P
Prelude.v
JsValue.v
Lodash.v
Loader.v
Options.v
Reconcile.v
Remote.v
Client.v
Update.v
Registry.v
Service.v
Commands.v
Cli.v
Sim.v
EndToEnd.v
Lifecycle.v
Frame.v
Sync.v
Reach.v
Faults.v
Resume.v
Recreate.v
Reserved.v
Cost.v
Session.v
Order.v
Others.v
