(* ===== verification/Prelude.v ===== *)
(** * custom-object-manager: a verification development

    The program, [src/src/cli.ts], keeps the custom-object schemas of a
    remote CRM registry in step with schema files on disk.  It has three
    commands.  [create] posts every schema file and then the associations
    the files declare; [delete] removes the object types the files name;
    [update] compares the properties of each file with those of the remote
    record and deletes, creates and patches properties until they agree.
    All data is typed [any]: whatever [JSON.parse] or the HTTP client
    returned.

    ** The parts of the program and the files that model them

    - JavaScript values and the language operations the program applies to
      them: [JsValue] ([value], [get_prop], [strict_eq], [to_boolean],
      [own_keys], [delete_prop], [assoc_set], [to_string], [js_includes]).
      A [TypeError] is a value of [result]; nothing is assumed of the shape
      of the data.
    - The two lodash functions of line 8: [Lodash] ([keyBy],
      [lodash_get]).
    - The local schema loader (lines 10, 21-22, 76-77): [Loader].  The
      pattern [objectTypeRegex] is a term of [regex], matched by the
      backtracking matcher [rmatch]; [objectTypes] is the array the loops
      iterate over, [destructure_pair] their array pattern, [readJSON] the
      read of a file.  The file system is the read-only parameter [disk].
    - The option-list comparison (lines 133-146): [Options]
      ([shouldContainAll], [validateOptions]).
    - The reconciliation engine (lines 68-72 and 148-176): [Reconcile]
      ([pick], the filters [toDelete], [toCreate], [toUpdate] with one
      definition per callback, and [reconcile], the three together).
    - The remote service and the effects of the program (lines 14-19):
      [Remote].  The service is the interface [Remote]: a request is
      answered by a body or a rejection and may change the service.  A run
      acts on a [world]: the service, the console and the trace of the
      requests issued.  [M] is the monad of the [async] functions, with
      [try_catch], [for_of] and [for_fold] for the constructs of the source.
    - The remote schema client (lines 24-66): [Client]
      ([getExistingSchemas], [createSchema], [createAssociation],
      [deleteSchema]).
    - The application of the diff (lines 178-207): [Update]
      ([deleteProperty], [createProperty], [updateProperty] and
      [updateSchema], lines 148-208 as a whole).
    - The registry after an update: [Registry] ([apply_plan], what the
      registry holds once the requests of a plan were accepted, stated
      from the specification).
    - The association resolver and the three commands (lines 74-131 and
      210-223): [Commands] ([create_one], [associate], [resolve],
      [createSchemas], [delete_one], [deleteSchemas], [update_one],
      [updateSchemas]).  The index [meta] is the state of the loops; the
      entry [updateSchema] mutates is written back under its key, which is
      the aliasing of the source made explicit.
    - The command line (lines 225-229): [Cli] ([program], the table of the
      three commands, and [parse], the dispatch on the arguments).
    - A reference registry: [Service].  The program is written against a
      service it does not implement; [Service] gives one in full, from the
      specification and the protocol, as an instance of the interface
      [Remote]: it routes the paths ([endpoint_of]), validates schemas and
      properties, issues identifiers ([mk_id]) and keeps the records
      ([registry], [serve_registry]).
    - The commands against the reference registry: [EndToEnd] ([update],
      and [run], the process as a whole), [Lifecycle] ([create] and
      [delete]) and [Frame] (what each command leaves alone).
    - What [update] promises, as a specification: [Sync].  The properties
      of a schema are a finite map from names ([prop_map], a [gmap]), and
      the promise is the merge of the local and the remote map under
      [sync], which says what becomes of one name.
    - The states of the registry as a step relation: [Reach]
      ([reachable], from [empty_registry] by requests).
    - A transport that fails: [Faults].  [flaky_remote] is a second
      instance of [Remote], the registry behind a script of faults (a
      request passes, is lost, or reaches the registry and loses its
      answer, [deliver]).  The commands run on it unchanged; [retries]
      runs a command again and again, each time with faults of its own.
    - The registries a failed [update] leaves, and the run that resumes:
      [Resume] ([halfway], [partial]); the same for [create]: [Recreate]
      ([batch_request], [from_batch]).
    - The reserved properties of the records under [update], for files
      of any content: [Reserved] ([spares_reserved], [guards],
      [index_ok]).
    - The number of requests of a command: [Cost] ([costs], a judgement
      that counts requests and carries a postcondition; [declared] and
      [listed], what a file contributes to the bound of [create] and of
      [update]).
    - The commands in sequence: [Session] ([session], the runs of a list
      of command lines, each a process on the registry the one before
      left).
    - The order in which the files are listed: [Order]
      ([foldl_permutation], the changes of two files that commute).
    - One program on two services: [Sim] ([sim], a relational judgement
      on the runs of a program against two instances of [Remote] whose
      states are related, with one rule for each construct of the monad;
      [alike], the requests that related services answer alike).
    - Other clients of the registry: [Others].  [busy_remote] is a third
      instance of [Remote], the registry shared with clients whose
      requests arrive between those of the command ([busy]); [target] is
      the object type a request addresses, [watched] the object types
      the files name, and [agree] the relation between the shared
      registry and the registry alone.

    The files depend on one another in this order: [Prelude], [JsValue],
    [Lodash], [Loader], [Options], [Reconcile], [Remote], [Client],
    [Update], [Registry], [Service], [Commands], [Cli], [Sim],
    [EndToEnd], [Lifecycle], [Frame], [Sync], [Reach], [Faults], [Resume],
    [Recreate], [Reserved], [Cost], [Session], [Order], [Others].  The client
    code is proved against the interface [Remote]; [Service], [Faults] and
    [Others] are the instances that discharge what the theorems about a
    whole run assume of the service.

    Each function of the source is one definition of the same name, and
    each callback and loop body one definition; they are composed as the
    source composes them.  Every definition is executable, and the worked
    scenarios are evaluated by the kernel.

    ** What is proved

    - Refinement.  On well-formed input the code computes what the
      specification promises: [validateOptions] is mutual inclusion of the
      option lists ([Options.validateOptions_refines]), whatever their
      order when their elements are truthy
      ([Options.validateOptions_reorder]), while next to a [null] element
      the order decides whether it throws
      ([Options.validateOptions_asymmetric_error]); the three filters
      are the promised diff ([Reconcile.reconcile_refines]); the pattern
      yields the path and the identifier of a well-named file
      ([Loader.objectTypes_resolved]); [get] on the index is the lookup of
      the identifier ([Commands.resolve_spec]); [keyBy] files each record
      under its name ([Client.getExistingSchemas_index]).
    - Safety on arbitrary input, by inversion of the code: reserved
      properties are never deleted, no property is both created and
      updated, the plan keeps the order of the arrays, a matched identifier
      is a non-empty string of [[a-z_]].
    - Order and kind of the requests, whatever the service answers:
      deletes, then creates, then updates in [updateSchema]
      ([Update.updateSchema_order]); the fetch, then creations, then
      associations in [createSchemas] ([Commands.createSchemas_order]); the
      purge only after an accepted soft delete.  These are read off the
      code with the predicate [emits] of [Remote] and its rules.
    - Errors as results: which failures are caught ([createSchema],
      [createAssociation], [deleteSchema], the [PATCH] of a property) and
      which end a command (a rejected fetch, a rejected property [DELETE]
      or [POST], a file that does not match the pattern, an identifier
      missing from the index in [delete], an array-valued field the remote
      property lacks).
    - Idempotence ([Registry.updateSchema_idempotent]): with the plan of a
      first run applied, a second [updateSchema] requests nothing, for
      local properties with distinct names whose fields are primitives or
      option lists; a nested object breaks it.
    - The commands against the reference registry.  The registry stays
      well formed under every command line ([EndToEnd.run_keeps_registry]):
      its records are accepted schemas, one per identifier and per name,
      with identifiers it issued.  [update] brings every record to the
      promised diff ([EndToEnd.updateSchemas_applied]), which is the
      synchronisation of its properties by name
      ([Sync.updateSchemas_sync], from [Sync.apply_plan_sync]), and a
      second run fetches the index and does nothing else
      ([EndToEnd.update_twice]).
      [create] has every schema and every association accepted, whatever
      the order of the files ([Lifecycle.createSchemas_completes]);
      [delete] removes and purges every record the files name
      ([Lifecycle.deleteSchemas_completes]); [create] followed by [delete]
      leaves the registry as it was
      ([Lifecycle.create_delete_roundtrip]).  Whatever the files hold,
      [create] only adds records, [update] only changes properties and
      [delete] only removes records ([Frame.commands_frame]).
    - Reachability.  The registries that requests build from the empty
      one are well formed and give no identifier twice, by rule induction
      on [Reach.reachable] ([Reach.reachable_invariant]); every command
      line keeps the registry among them ([Reach.run_reachable]), and so
      does every session ([Session.session_reachable]).
    - The commands in pairs, on one batch of files.  [update] after
      [create] fetches the index and does nothing else
      ([Session.create_then_update]); [update] after [update] likewise
      ([EndToEnd.update_twice]); [delete] after [create] restores the
      registry ([Lifecycle.create_delete_roundtrip]); [delete] after
      [delete] throws at its first file ([Session.delete_twice]);
      [update] after [delete] skips every file
      ([Session.delete_then_update]); [create] after [create] leaves one
      record for each file ([Recreate.create_resumes]).
    - The order of the files.  [update] and [delete] leave the same
      registry in whatever order the pattern lists the files, with the
      same requests and lines up to their order
      ([Order.update_any_order], [Order.delete_any_order]); [create]
      gives the identifiers in the order of the files
      ([Order.create_order_matters]) and leaves the same records but for
      the identifiers ([Order.create_any_order]).
    - One program on two services.  Services that answer every request
      alike run every command line alike ([Sim.run_alike]): the transport
      without faults and the shared registry with nobody else are the
      registry ([Faults.reliable_run], [Others.nobody_else]).
    - Failures in transit.  Behind the failing transport the commands
      leave alone what they leave alone without failures
      ([Faults.faults_frame]).  A purge that is lost leaves a record
      that [delete] cannot reach again ([Faults.purge_lost]).  An
      [update] that failed, wherever it failed, leaves every name as it
      was or as it shall be; this is an invariant of the runs, which
      holds at the start and which every run preserves, whatever fails
      ([Resume.partial_invariant]), and so it holds after any number of
      failed runs ([Resume.retries_partial]); the first
      run that meets no failure completes the synchronisation
      ([Resume.update_resumes]).  A [create] that failed any number of
      times is completed by the first run that meets no failure as well
      ([Recreate.create_resumes]); a [delete] is not.  Whatever the
      files hold, whatever fails and however often it is run, [update]
      removes no reserved property from the registry
      ([Reserved.reserved_survive]).
    - Other clients.  Whatever they send and whatever the command line,
      the shared registry stays well formed
      ([Others.others_keep_registry]).  [update] and [delete] are isolated
      from their requests on other object types: whatever the files hold,
      and whether the registry accepts the requests of the command or
      not, the run ends as it does alone, with the same result, lines and
      requests, and the registry holds for the object types of the files
      what it holds after the run alone ([Others.update_isolated],
      [Others.delete_isolated]); so the two commands achieve among the
      others what they achieve alone ([Others.update_among_others],
      [Others.delete_among_others]).  The proof is
      a simulation, read off the code with the rules of [Sim]: the
      requests of the two commands are answered alike
      ([Others.alike_properties], [Others.alike_deletion]).  [create] is
      not isolated, since its identifiers depend on what the others
      created ([Others.create_not_isolated]).  A request of another client
      on an object type of the files, after the fetch, is what the index
      cannot show: [update] throws ([Others.update_stale]) or returns with
      a property the file does not have ([Others.update_stale_silent]),
      and [delete] leaves a record awaiting its purge
      ([Others.delete_among_others_run]).
    - Types and bounds.  The index stays typed throughout a command:
      when every entry carries a truthy [objectTypeId], the loop bodies
      that assign to the index keep it so, whatever the service answers,
      and every identifier resolves to a truthy value
      ([Commands.index_typed]); [updateSchema]
      issues at most one request per property of the two schemas
      ([Update.updateSchema_bound]), and each command at most a number of
      requests that its files and the fetched index determine, for any
      service ([Cost.commands_bound]: the fetch, and one request per file
      and per declared association for [create], two per file for
      [delete], one per property of a file and of its record for
      [update]); the worked runs of [Cost] meet the three bounds.
    - The command line ([Cli.parse_requests], [Cli.parse_fetch_rejected]):
      whatever the arguments, the command that runs fetches the index
      first, issues requests of the protocol only, and ends with the error
      of a rejected fetch.
    - The scenarios of the specification as runs against a scripted
      service ([scripted]) and against the reference registry.

    ** Bounds

    - Numbers are integers ([Z]), where [===] is equality and the decimal
      rendering is the plain one.
    - An object is the list of its own properties in enumeration order;
      keys are assumed not to be array indices (which enumerate first) nor
      members of the built-in prototypes other than [length].
    - [===] is the comparison of values of two different parsed documents:
      primitives by value, an array or an object equal to nothing.  This is
      the situation of every comparison in the program (a local file
      against a response).
    - Paths and names are ASCII.  A lodash path is split at its dots; the
      bracket syntax is not modelled.
    - The matcher runs a repetition with fuel one more than the length of
      the input.  Every iteration after the first consumes a character, so
      the fuel never runs out: [Loader.rmatch_plus_fuel] shows that any
      larger fuel gives the same result, whatever is repeated.  All other
      recursion is structural, and the loops of the commands are folds
      over the list of files.  Termination is therefore no theorem of its
      own here: every definition is a total function, and that a command
      returns, where it does, is part of the theorems about its runs.
    - The reference registry accepts names that are not empty and hold
      neither a slash nor a dot, so that a name is one segment of a path
      and of a lodash path; its identifiers are [2-] followed by a counter
      in decimal.  The theorems about whole runs assume that the files
      name different object types: the index is fetched once per command.
    - The other clients are a finite script as well: the requests that
      arrive after each request of the command, in the order of the
      command's requests, and none once the script is used up.  A request
      of another client is served between two requests of the command,
      never during one: the registry answers one request at a time.  The
      script is arbitrary in [Others.others_keep_registry], and arbitrary
      among the requests on other object types in
      [Others.update_isolated] and [Others.delete_isolated].
    - The faults of the transport are a finite script, one fault for each
      request in the order of the requests; when it is used up every
      request passes.  The script is arbitrary in the theorems about all
      failures, and so is the number of runs that fail, so that no bound
      on the number of failures is assumed.

    ** Not modelled

    What commander prints for a missing argument or an unknown command,
    its help and its options (no action runs in these cases, which is
    what [Cli.parse] returns); the loading of the environment (line 12)
    and the API key, a constant query parameter of every request; the
    text of [JSON.parse] and the expansion of a glob pattern, which [disk]
    stands for; the transport below the HTTP client, of which only the
    outcome of a request (a body or a rejection) is kept, and of its
    failures only whether the request reached the registry: timeouts and
    a request that never settles are left out, so every run ends.  For
    the registry, a run that hangs at a request is a run whose later
    requests are all lost, which the theorems of [Faults], [Resume],
    [Recreate] and [Reserved] cover; what such a run prints is not
    modelled.  The
    remote registry is not part of the program: the theorems of [Client],
    [Update], [Commands], [Cli] and [Cost] hold for every instance of
    [Remote], and those of [Sim] for every two;
    those of [Registry], [EndToEnd], [Lifecycle], [Frame], [Sync],
    [Reach], [Session] and [Order] are about [Service], those of
    [Faults], [Resume], [Recreate] and [Reserved] about [Service] behind
    the failing transport, and those of [Others] about [Service] shared
    with other clients, all written from the specification.  Other
    clients are not combined with transport failures.  Of the registry,
    the validation of the fields of a property beyond its name, paging of
    the index and rate limits are left out.  Every line of [src/src/cli.ts] that is code is modelled;
    the remaining lines are the imports and blank lines.

    ** This file

    The [result] type of fallible JavaScript computations with its monad
    instances, the iteration protocols of
    [Array.prototype.every/find/filter/reduce] for callbacks that may throw
    ([everyM], [findM], [filterM], [foldlM]), [String.prototype.includes]
    ([includes]), the split of a string at a separator ([split_on]),
    lookup by key in a list ([find_key]), lemmas on lists and strings the
    components share, and the hint databases and tactics of the
    development.
*)

From Stdlib Require Import Ascii.
From stdpp Require Import prelude strings.

(** ** Results of fallible computations *)

(** The exceptions the program can meet.  Every failure of the pure part
    (property access on [null]/[undefined], calling a method a value does
    not have, destructuring [null]) is a JavaScript [TypeError]. *)
Inductive error : Set :=
| TypeError
| SyntaxError
| IoError
| HttpError.

#[export] Instance error_eq_dec : EqDecision error.
Proof. solve_decision. Defined.

Inductive result (A : Type) : Type :=
| Ok (a : A)
| Err (e : error).
Arguments Ok {A} a.
Arguments Err {A} e.

#[export] Instance result_eq_dec `{EqDecision A} : EqDecision (result A).
Proof. solve_decision. Defined.

#[export] Instance result_ret : MRet result := @Ok.
#[export] Instance result_bind : MBind result := λ A B f m,
  match m with Ok a => f a | Err e => Err e end.
#[export] Instance result_fmap : FMap result := λ A B f m,
  match m with Ok a => Ok (f a) | Err e => Err e end.

Definition is_Ok {A} (m : result A) : Prop := ∃ a, m = Ok a.

#[export] Instance is_Ok_dec {A} (m : result A) : Decision (is_Ok m).
Proof.
  destruct m as [a|e]; [left; by exists a | right; by intros [a ?]].
Defined.

Section result_lemmas.
Context {A B : Type}.
Implicit Types (a : A) (m : result A) (f : A → result B).

Lemma bind_Ok a f : Ok a ≫= f = f a.
Proof. done. Qed.

Lemma bind_Err e f : Err e ≫= f = Err e.
Proof. done. Qed.

Lemma bind_Ok_iff m f b :
  m ≫= f = Ok b ↔ ∃ a, m = Ok a ∧ f a = Ok b.
Proof.
  destruct m as [a|e]; simpl; split.
  - eauto.
  - by intros (a' & [= <-] & ?).
  - done.
  - by intros (? & ? & ?).
Qed.

Lemma bind_Err_iff m f e :
  m ≫= f = Err e ↔ m = Err e ∨ ∃ a, m = Ok a ∧ f a = Err e.
Proof.
  destruct m as [a|e']; simpl; split.
  - eauto.
  - by intros [?|(a' & [= <-] & ?)].
  - intros [= ->]; by left.
  - by intros [[= ->]|(? & ? & ?)].
Qed.

Lemma fmap_Ok_iff (g : A → B) m b :
  g <$> m = Ok b ↔ ∃ a, m = Ok a ∧ b = g a.
Proof.
  destruct m as [a|e]; simpl; split.
  - intros [= <-]; eauto.
  - by intros (a' & [= <-] & ->).
  - done.
  - by intros (? & ? & ?).
Qed.

Lemma is_Ok_Ok a : is_Ok (Ok a).
Proof. by exists a. Qed.

Lemma is_Ok_Err e : ¬ is_Ok (@Err A e).
Proof. by intros [a ?]. Qed.

End result_lemmas.

(** ** Array iteration with callbacks that may throw

    [Array.prototype.every], [find], [filter] and [reduce] call their
    callback on the elements from left to right; an exception thrown by the
    callback leaves the loop at once.  [every] stops at the first falsy
    answer and [find] at the first truthy one, so elements after that point
    are never inspected (and cannot throw). *)

Section list_monadic.
Context {A : Type}.
Implicit Types (f g : A → result bool) (p : A → bool) (l : list A) (x : A).

Fixpoint everyM f l : result bool :=
  match l with
  | [] => Ok true
  | x :: l' => b ← f x; if b : bool then everyM f l' else Ok false
  end.

Fixpoint findM f l : result (option A) :=
  match l with
  | [] => Ok None
  | x :: l' => b ← f x; if b : bool then Ok (Some x) else findM f l'
  end.

Fixpoint filterM f l : result (list A) :=
  match l with
  | [] => Ok []
  | x :: l' => b ← f x; r ← filterM f l'; Ok (if b : bool then x :: r else r)
  end.

Fixpoint foldlM {B} (step : B → A → result B) (acc : B) l : result B :=
  match l with
  | [] => Ok acc
  | x :: l' => acc' ← step acc x; foldlM step acc' l'
  end.

Lemma foldlM_app {B} (step : B → A → result B) (acc : B) l1 l2 :
  foldlM step acc (l1 ++ l2) = acc' ← foldlM step acc l1; foldlM step acc' l2.
Proof.
  revert acc. induction l1 as [|x l1 IH]; intros acc; simpl; [done|].
  destruct (step acc x); simpl; auto.
Qed.

(** [every] over a concatenation reaches the second part only when the
    first part answered [true]; [find] only when it found nothing there. *)
Lemma everyM_app f l1 l2 :
  everyM f (l1 ++ l2) = b ← everyM f l1; if b : bool then everyM f l2 else Ok false.
Proof.
  induction l1 as [|x l1 IH]; simpl; [done|].
  destruct (f x) as [[]|]; simpl; auto.
Qed.

Lemma findM_app f l1 l2 :
  findM f (l1 ++ l2) =
  r ← findM f l1; match r with Some x => Ok (Some x) | None => findM f l2 end.
Proof.
  induction l1 as [|x l1 IH]; simpl; [done|].
  destruct (f x) as [[]|]; simpl; auto.
Qed.

Lemma everyM_ext f g l :
  Forall (λ x, f x = g x) l → everyM f l = everyM g l.
Proof.
  induction 1 as [|x l Hx _ IH]; simpl; [done|].
  rewrite Hx. destruct (g x) as [[]|]; simpl; auto.
Qed.

Lemma findM_ext f g l :
  Forall (λ x, f x = g x) l → findM f l = findM g l.
Proof.
  induction 1 as [|x l Hx _ IH]; simpl; [done|].
  rewrite Hx. destruct (g x) as [[]|]; simpl; auto.
Qed.

Lemma filterM_ext f g l :
  Forall (λ x, f x = g x) l → filterM f l = filterM g l.
Proof.
  induction 1 as [|x l Hx _ IH]; simpl; [done|]. by rewrite Hx, IH.
Qed.

Lemma everyM_pure p l : everyM (λ x, Ok (p x)) l = Ok (forallb p l).
Proof. induction l as [|x l IH]; simpl; [done|]. by destruct (p x). Qed.

Lemma findM_pure p l : findM (λ x, Ok (p x)) l = Ok (List.find p l).
Proof. induction l as [|x l IH]; simpl; [done|]. by destruct (p x). Qed.

Lemma filterM_pure p l : filterM (λ x, Ok (p x)) l = Ok (filter (λ x, p x) l).
Proof.
  induction l as [|x l IH]; simpl; [done|]. rewrite IH. simpl.
  rewrite filter_cons. by destruct (p x).
Qed.

Lemma everyM_true f l :
  everyM f l = Ok true ↔ Forall (λ x, f x = Ok true) l.
Proof.
  induction l as [|x l IH]; simpl; [by split|].
  rewrite Forall_cons, <- IH.
  destruct (f x) as [[]|]; simpl; naive_solver.
Qed.

Lemma findM_None f l :
  findM f l = Ok None ↔ Forall (λ x, f x = Ok false) l.
Proof.
  induction l as [|x l IH]; simpl; [by split|].
  rewrite Forall_cons, <- IH.
  destruct (f x) as [[]|]; simpl; naive_solver.
Qed.

Lemma findM_Some f l x :
  findM f l = Ok (Some x) ↔
  ∃ l1 l2, l = l1 ++ x :: l2 ∧ Forall (λ y, f y = Ok false) l1 ∧ f x = Ok true.
Proof.
  induction l as [|y l IH]; simpl.
  - split; [done|]. by intros ([|??] & ? & ? & _).
  - destruct (f y) as [[]|] eqn:Hy; simpl.
    + split.
      * intros [= ->]. by exists [], l.
      * intros ([|z l1] & l2 & [= -> ->] & Hl1 & ?); [done|].
        apply Forall_cons in Hl1 as [? _]. congruence.
    + rewrite IH. split.
      * intros (l1 & l2 & -> & ? & ?). exists (y :: l1), l2. by repeat constructor.
      * intros ([|z l1] & l2 & [= -> ->] & Hl1 & ?); [congruence|].
        apply Forall_cons in Hl1 as [_ ?]. eauto.
    + split; [done|].
      intros ([|z l1] & l2 & [= -> ->] & Hl1 & ?); [congruence|].
      apply Forall_cons in Hl1 as [? _]. congruence.
Qed.

Lemma findM_Some_elem_of f l x :
  findM f l = Ok (Some x) → x ∈ l ∧ f x = Ok true.
Proof.
  intros (l1 & l2 & -> & _ & ?)%findM_Some. split; [|done].
  apply elem_of_app. right. by left.
Qed.

Lemma filterM_is_Ok f l :
  is_Ok (filterM f l) ↔ Forall (λ x, is_Ok (f x)) l.
Proof.
  induction l as [|x l IH]; simpl.
  - split; [constructor | intros; apply is_Ok_Ok].
  - rewrite Forall_cons, <- IH. destruct (f x) as [b|e]; simpl.
    + destruct (filterM f l) as [r|e]; simpl.
      * split; intros; [split|]; apply is_Ok_Ok.
      * split; [by intros ?%is_Ok_Err | by intros [_ ?%is_Ok_Err]].
    + split; [by intros ?%is_Ok_Err | by intros [?%is_Ok_Err _]].
Qed.

Lemma filterM_elem_of f l r x :
  filterM f l = Ok r → x ∈ r ↔ x ∈ l ∧ f x = Ok true.
Proof.
  revert r. induction l as [|y l IH]; simpl; intros r.
  - intros [= <-]. rewrite !elem_of_nil. naive_solver.
  - destruct (f y) as [b|] eqn:Hy; simpl; [|done].
    destruct (filterM f l) as [r'|]; simpl; [|done].
    intros [= <-]. specialize (IH r' eq_refl).
    destruct b; rewrite ?elem_of_cons, IH; split.
    + intros [->|[??]]; auto.
    + intros [[->|?] ?]; auto.
    + intros [??]; auto.
    + intros [[->|?] ?]; [congruence | auto].
Qed.

Lemma filterM_sublist f l r : filterM f l = Ok r → sublist r l.
Proof.
  revert r. induction l as [|y l IH]; simpl; intros r.
  - by intros [= <-].
  - destruct (f y) as [b|]; simpl; [|done].
    destruct (filterM f l) as [r'|]; simpl; [|done].
    intros [= <-]. destruct b; constructor; auto.
Qed.

Lemma filterM_length f l r : filterM f l = Ok r → length r ≤ length l.
Proof. intros Hr. by apply sublist_length, (filterM_sublist f). Qed.

(** Two filters that never keep the same element keep, together, no more
    elements than the list has. *)
Lemma filterM_length_exclusive f g l r1 r2 :
  filterM f l = Ok r1 → filterM g l = Ok r2 →
  (∀ x, f x = Ok true → g x = Ok true → False) →
  length r1 + length r2 ≤ length l.
Proof.
  intros Hf Hg Hfg. revert r1 r2 Hf Hg. induction l as [|x l IH]; simpl; intros r1 r2.
  - by intros [= <-] [= <-].
  - destruct (f x) as [a|] eqn:Hfx; simpl; [|done].
    destruct (filterM f l) as [r1'|]; simpl; [|done].
    destruct (g x) as [b|] eqn:Hgx; simpl; [|done].
    destruct (filterM g l) as [r2'|]; simpl; [|done].
    intros [= <-] [= <-]. specialize (IH r1' r2' eq_refl eq_refl).
    destruct a, b; simpl; try lia. destruct (Hfg x); done.
Qed.

End list_monadic.

(** Boolean quantifiers over lists, as equations with [true]. *)
Lemma existsb_Exists {A} (p : A → bool) l :
  existsb p l = true ↔ Exists (λ x, p x = true) l.
Proof.
  induction l as [|x l IH]; simpl.
  - split; [done | by intros ?%Exists_nil].
  - by rewrite orb_true_iff, Exists_cons, IH.
Qed.

Lemma forallb_Forall {A} (p : A → bool) l :
  forallb p l = true ↔ Forall (λ x, p x = true) l.
Proof.
  induction l as [|x l IH]; simpl.
  - split; [constructor | done].
  - by rewrite andb_true_iff, Forall_cons, IH.
Qed.

Lemma NoDup_snoc {A} (l : list A) x : NoDup l → x ∉ l → NoDup (l ++ [x]).
Proof.
  intros Hl Hx. apply NoDup_app. split_and!; [done| |apply NoDup_singleton].
  by intros y Hy ->%list_elem_of_singleton.
Qed.

Lemma Forall_filter_1 {A} (P Q : A → Prop) `{!∀ x, Decision (Q x)} (l : list A) :
  Forall P l → Forall P (filter Q l).
Proof.
  rewrite !Forall_forall. intros Hl x [_ Hx]%list_elem_of_filter. by apply Hl.
Qed.

Lemma filter_all {A} (P : A → Prop) `{!∀ x, Decision (P x)} (l : list A) :
  (∀ x, x ∈ l → P x) → filter P l = l.
Proof.
  induction l as [|x l IH]; intros Hl; [done|].
  rewrite filter_cons_True by (apply Hl; left). f_equal. apply IH.
  intros. apply Hl. by right.
Qed.

Lemma filter_none {A} (P : A → Prop) `{!∀ x, Decision (P x)} (l : list A) :
  (∀ x, x ∈ l → ¬ P x) → filter P l = [].
Proof.
  induction l as [|x l IH]; intros Hl; [done|].
  rewrite filter_cons_False by (apply Hl; left). apply IH.
  intros. apply Hl. by right.
Qed.

Lemma fmap_const_replicate {A B} (f : A → B) (c : B) (l : list A) :
  (∀ x, f x = c) → f <$> l = replicate (length l) c.
Proof. intros Hf. induction l as [|x l IH]; csimpl; [done|]. by rewrite Hf, IH. Qed.

Lemma prefix_of_fmap {A B} (f : A → B) (l1 l2 : list A) :
  l1 `prefix_of` l2 → f <$> l1 `prefix_of` f <$> l2.
Proof. intros [k ->]. exists (f <$> k). apply fmap_app. Qed.

(** A prefix of three runs of constants is three runs of the same
    constants. *)
Lemma prefix_replicate3 {A} (x y z : A) a b c l :
  l `prefix_of` replicate a x ++ replicate b y ++ replicate c z →
  ∃ a' b' c', l = replicate a' x ++ replicate b' y ++ replicate c' z.
Proof.
  intros [k Hk]. rewrite <- (take_app_length l k), <- Hk.
  rewrite !take_app, !take_replicate. eauto.
Qed.

(** ** Lookup by key

    The first element of a list with a given key: the property of a given
    name, the record of a given identifier. *)
Definition find_key {A K} `{EqDecision K} (key : A → K) (k : K) (l : list A)
    : option A :=
  List.find (λ x, bool_decide (key x = k)) l.

Section find_key.
Context {A K : Type} `{EqDecision K} (key : A → K).
Implicit Types (l : list A) (k : K) (x : A).

Lemma find_key_Some l k x : find_key key k l = Some x → x ∈ l ∧ key x = k.
Proof.
  unfold find_key. intros [Hx Hk%bool_decide_eq_true]%find_some.
  by rewrite <- list_elem_of_In in Hx.
Qed.

Lemma find_key_None l k : find_key key k l = None ↔ k ∉ key <$> l.
Proof.
  unfold find_key. induction l as [|x l IH]; simpl.
  - split; [intros _; apply not_elem_of_nil | done].
  - rewrite not_elem_of_cons. case_bool_decide; [|rewrite IH]; naive_solver.
Qed.

Lemma find_key_is_Some l k : is_Some (find_key key k l) ↔ k ∈ key <$> l.
Proof.
  rewrite <- not_eq_None_Some, find_key_None.
  destruct (decide (k ∈ key <$> l)); naive_solver.
Qed.

Lemma find_key_NoDup l x :
  NoDup (key <$> l) → x ∈ l → find_key key (key x) l = Some x.
Proof.
  unfold find_key. induction l as [|y l IH]; intros Hnd Hx.
  - by apply elem_of_nil in Hx.
  - rewrite fmap_cons in Hnd. apply NoDup_cons in Hnd as [Hy Hnd]. simpl.
    apply elem_of_cons in Hx as [->|Hx]; [by rewrite bool_decide_eq_true_2|].
    rewrite bool_decide_eq_false_2; [by apply IH|].
    intros Hyx. apply Hy. rewrite Hyx. by apply list_elem_of_fmap_2.
Qed.

Lemma filter_key_NoDup l x :
  NoDup (key <$> l) → x ∈ l → filter (λ y, key y = key x) l = [x].
Proof.
  induction l as [|y l IH]; intros Hnd Hx; [by apply elem_of_nil in Hx|].
  rewrite fmap_cons in Hnd. apply NoDup_cons in Hnd as [Hy Hnd].
  apply elem_of_cons in Hx as [->|Hx].
  - rewrite filter_cons_True by done. f_equal. apply filter_none.
    intros z Hz Hzy. apply Hy. rewrite <- Hzy. by apply list_elem_of_fmap_2.
  - rewrite filter_cons_False; [by apply IH|].
    intros Hyx. apply Hy. rewrite Hyx. by apply list_elem_of_fmap_2.
Qed.

Lemma find_key_fmap (g : A → A) l k :
  (∀ x, key (g x) = key x) → find_key key k (g <$> l) = g <$> find_key key k l.
Proof.
  intros Hg. unfold find_key. induction l as [|x l IH]; simpl; [done|].
  rewrite Hg. by case_bool_decide.
Qed.

End find_key.

(** ** Strings *)

(** The characters of a string, for predicates on all of them. *)
Fixpoint chars (s : string) : list ascii :=
  match s with
  | EmptyString => []
  | String c s' => c :: chars s'
  end.

Lemma append_nil_l (t : string) : "" +:+ t = t.
Proof. done. Qed.

Lemma append_cons (c : ascii) (s t : string) :
  String c s +:+ t = String c (s +:+ t).
Proof. done. Qed.

Lemma chars_app (s t : string) : chars (s +:+ t) = chars s ++ chars t.
Proof. induction s as [|c s IH]; [done|]. rewrite append_cons. simpl. by rewrite IH. Qed.

Lemma append_nil_r (s : string) : s +:+ "" = s.
Proof. induction s as [|c s IH]; [done|]. by rewrite append_cons, IH. Qed.

Lemma append_assoc (s t u : string) : (s +:+ t) +:+ u = s +:+ t +:+ u.
Proof. induction s as [|c s IH]; [done|]. by rewrite !append_cons, IH. Qed.

Lemma length_append (s t : string) :
  String.length (s +:+ t) = String.length s + String.length t.
Proof. induction s as [|c s IH]; [done|]. rewrite append_cons. simpl. by rewrite IH. Qed.

(** [String.prototype.includes]: the needle occurs somewhere in the
    haystack.  [String.prototype.startsWith] is Stdlib's [String.prefix]. *)
Fixpoint includes (needle hay : string) : bool :=
  String.prefix needle hay ||
  match hay with
  | EmptyString => false
  | String _ hay' => includes needle hay'
  end.

Lemma prefix_app_iff (p s : string) :
  String.prefix p s = true ↔ ∃ t, s = p +:+ t.
Proof.
  revert p. induction s as [|b s IH]; intros [|a p]; simpl.
  - split; [by exists "" | done].
  - split; [done | by intros (t & ?)].
  - split; [by exists (String b s) | done].
  - destruct (Ascii.ascii_dec a b) as [->|Hab].
    + rewrite IH. split; intros (t & Ht); exists t; [by rewrite Ht | by injection Ht].
    + split; [done|]. by intros (t & [= ? _]).
Qed.

Lemma includes_nil (p : string) : includes p "" = String.prefix p "".
Proof. unfold includes. apply orb_false_r. Qed.

Lemma includes_cons (p : string) b s :
  includes p (String b s) = String.prefix p (String b s) || includes p s.
Proof. done. Qed.

Lemma includes_app_iff (p s : string) :
  includes p s = true ↔ ∃ t u, s = t +:+ p +:+ u.
Proof.
  induction s as [|b s IH].
  - rewrite includes_nil, prefix_app_iff. split.
    + intros (u & ->). by exists "", u.
    + intros ([|??] & u & Hs); [by exists u | done].
  - rewrite includes_cons, orb_true_iff, IH, prefix_app_iff. split.
    + intros [(u & ->)|(t & u & ->)]; [by exists "", u | by exists (String b t), u].
    + intros ([|c t] & u & Hs); [left; by exists u|].
      right. injection Hs as -> ->. by exists t, u.
Qed.

Lemma prefix_includes (p s : string) :
  String.prefix p s = true → includes p s = true.
Proof. intros Hp. destruct s; [by rewrite includes_nil | by rewrite includes_cons, Hp]. Qed.

(** ** Splitting at a separator

    The segments of a string between the occurrences of one character: the
    dots of a lodash path, the slashes of a request path.  [cur] holds the
    segment read so far. *)
Fixpoint split_on (sep : ascii) (s cur : string) : list string :=
  match s with
  | EmptyString => [cur]
  | String c s' =>
      if decide (c = sep) then cur :: split_on sep s' ""
      else split_on sep s' (cur +:+ String c EmptyString)
  end.

(** A string that is one segment. *)
Definition free_of (sep : ascii) (s : string) : Prop :=
  Forall (λ c, c ≠ sep) (chars s).

#[export] Instance free_of_dec sep s : Decision (free_of sep s).
Proof. unfold free_of. apply _. Defined.

Section split.
Context (sep : ascii).
Implicit Types (x rest cur : string) (xs : list string).

Lemma free_of_cons c x : free_of sep (String c x) ↔ c ≠ sep ∧ free_of sep x.
Proof. exact (Forall_cons (λ c, c ≠ sep) c (chars x)). Qed.

Lemma free_of_app x y : free_of sep (x +:+ y) ↔ free_of sep x ∧ free_of sep y.
Proof. unfold free_of. rewrite chars_app. apply Forall_app. Qed.

Lemma split_on_sep x rest cur :
  free_of sep x →
  split_on sep (x +:+ String sep rest) cur = (cur +:+ x) :: split_on sep rest "".
Proof.
  revert cur. induction x as [|c x IH]; intros cur Hx.
  - rewrite append_nil_l, append_nil_r. simpl. by rewrite decide_True.
  - apply free_of_cons in Hx as [Hc Hx]. rewrite append_cons. simpl.
    rewrite decide_False by done. rewrite IH by done.
    by rewrite append_assoc, append_cons, append_nil_l.
Qed.

Lemma split_on_last x cur : free_of sep x → split_on sep x cur = [cur +:+ x].
Proof.
  revert cur. induction x as [|c x IH]; intros cur Hx; simpl.
  - by rewrite append_nil_r.
  - apply free_of_cons in Hx as [Hc Hx]. rewrite decide_False by done.
    rewrite IH by done. by rewrite append_assoc, append_cons, append_nil_l.
Qed.

(** Joining segments and splitting again gives the segments back. *)
Lemma split_on_concat xs :
  xs ≠ [] → Forall (free_of sep) xs →
  split_on sep (String.concat (String sep "") xs) "" = xs.
Proof.
  intros Hxs Hfree. induction Hfree as [|x xs Hx Hfree IH]; [done|].
  destruct xs as [|y xs]; simpl.
  - by rewrite split_on_last.
  - rewrite append_cons, append_nil_l, split_on_sep, append_nil_l by done.
    f_equal. by apply IH.
Qed.

End split.

Example includes_ex1 : includes "hs_" "maths_score" = true.
Proof. reflexivity. Qed.
Example includes_ex2 : includes "hs_" "hs" = false.
Proof. reflexivity. Qed.

(** ** Automation *)

Create HintDb js discriminated.
Create Rewrite HintDb js.
#[export] Hint Rewrite @bind_Ok @bind_Err : js.
#[export] Hint Rewrite @everyM_pure @findM_pure @filterM_pure : js.
#[export] Hint Resolve is_Ok_Ok : js.

(** Invert hypotheses of the form [m ≫= f = Ok b] and equations between
    results. *)
Ltac inv_result :=
  repeat first
    [ progress simplify_eq/=
    | match goal with
      | H : _ ≫= _ = Ok _ |- _ => apply bind_Ok_iff in H as (? & ? & H)
      | H : is_Ok (Err _) |- _ => by apply is_Ok_Err in H
      end ].
