(* ===== verification/JsValue.v ===== *)
(** * JavaScript values as the program sees them

    The program is typed [any] throughout: every schema, property and option
    is whatever [JSON.parse] or the HTTP client returned.  This file models
    those values and the language operations [src/src/cli.ts] applies to
    them: property access (which throws on [null] and [undefined]),
    [Object.keys], [delete], [===], truthiness, [Array.isArray], string
    conversion in template literals, and the receiver check of a method call.

    Modelling bounds: numbers are the integers (a JSON integer literal within
    the safe range, where [===] is equality and the decimal rendering is the
    plain one); an object is the list of its own properties in enumeration
    order, first binding first; keys are assumed not to name members
    of the built-in prototypes other than [length]. *)

From Stdlib Require Import Ascii.
From stdpp Require Import prelude strings pretty.
From S2P Require Import Prelude.

Unset Elimination Schemes.
Inductive value : Type :=
| VUndefined
| VNull
| VBool (b : bool)
| VNum (n : Z)
| VStr (s : string)
| VArr (elems : list value)
| VObj (props : list (string * value)).
Set Elimination Schemes.

Section value_ind.
Context (P : value → Prop).
Context (Hundef : P VUndefined) (Hnull : P VNull).
Context (Hbool : ∀ b, P (VBool b)) (Hnum : ∀ n, P (VNum n)) (Hstr : ∀ s, P (VStr s)).
Context (Harr : ∀ l, Forall P l → P (VArr l)).
Context (Hobj : ∀ ps, Forall (λ kv, P kv.2) ps → P (VObj ps)).

Fixpoint value_ind (v : value) : P v :=
  match v with
  | VUndefined => Hundef
  | VNull => Hnull
  | VBool b => Hbool b
  | VNum n => Hnum n
  | VStr s => Hstr s
  | VArr l =>
      Harr l ((fix go (l : list value) : Forall P l :=
                 match l with
                 | [] => Forall_nil_2 P
                 | x :: l' => Forall_cons_2 P x l' (value_ind x) (go l')
                 end) l)
  | VObj ps =>
      Hobj ps ((fix go (ps : list (string * value)) : Forall (λ kv, P kv.2) ps :=
                  match ps with
                  | [] => Forall_nil_2 _
                  | kv :: ps' => Forall_cons_2 _ kv ps' (value_ind kv.2) (go ps')
                  end) ps)
  end.
End value_ind.

#[export] Instance value_eq_dec : EqDecision value.
Proof.
  refine (fix go (x y : value) {struct x} : Decision (x = y) :=
    match x, y with
    | VUndefined, VUndefined => left _
    | VNull, VNull => left _
    | VBool a, VBool b => cast_if (decide (a = b))
    | VNum a, VNum b => cast_if (decide (a = b))
    | VStr a, VStr b => cast_if (decide (a = b))
    | VArr a, VArr b => cast_if (@list_eq_dec _ go a b)
    | VObj a, VObj b =>
        cast_if (@list_eq_dec _ (@prod_eq_dec _ _ _ go) a b)
    | _, _ => right _
    end); abstract congruence.
Defined.


(** ** Primitive operations *)

(** [null] and [undefined]: the two values on which property access throws. *)

Definition is_nullish (v : value) : bool :=
  match v with VUndefined | VNull => true | _ => false end.

Definition to_boolean (v : value) : bool :=
  match v with
  | VUndefined | VNull => false
  | VBool b => b
  | VNum n => negb (n =? 0)%Z
  | VStr s => negb (String.eqb s "")
  | VArr _ | VObj _ => true
  end.

Definition strict_eq (v w : value) : bool :=
  match v, w with
  | VUndefined, VUndefined => true
  | VNull, VNull => true
  | VBool a, VBool b => bool_decide (a = b)
  | VNum a, VNum b => bool_decide (a = b)
  | VStr a, VStr b => bool_decide (a = b)
  | _, _ => false
  end.

Definition is_array (v : value) : bool :=
  match v with VArr _ => true | _ => false end.

Definition as_array (v : value) : result (list value) :=
  match v with VArr l => Ok l | _ => Err TypeError end.

Fixpoint assoc (ps : list (string * value)) (k : string) : option value :=
  match ps with
  | [] => None
  | (k', v) :: ps' => if decide (k = k') then Some v else assoc ps' k
  end.

Fixpoint digits_to_nat (s : string) (acc : nat) : option nat :=
  match s with
  | EmptyString => Some acc
  | String c s' => d ← Ascii.is_nat c; digits_to_nat s' (10 * acc + d)
  end.

Definition index_of_string (s : string) : option nat :=
  match s with
  | EmptyString => None
  | String "0"%char EmptyString => Some 0
  | String "0"%char _ => None
  | _ => digits_to_nat s 0
  end.

Definition get_prop (v : value) (k : string) : result value :=
  match v with
  | VUndefined | VNull => Err TypeError
  | VBool _ | VNum _ => Ok VUndefined
  | VStr s =>
      if decide (k = "length") then Ok (VNum (Z.of_nat (String.length s)))
      else Ok (default VUndefined
                 (i ← index_of_string k; c ← String.get i s;
                  Some (VStr (String c EmptyString))))
  | VArr l =>
      if decide (k = "length") then Ok (VNum (Z.of_nat (length l)))
      else Ok (default VUndefined (i ← index_of_string k; l !! i))
  | VObj ps => Ok (default VUndefined (assoc ps k))
  end.

Definition index_keys (n : nat) : list string := pretty <$> seq 0 n.

Definition own_keys (v : value) : result (list string) :=
  match v with
  | VUndefined | VNull => Err TypeError
  | VBool _ | VNum _ => Ok []
  | VStr s => Ok (index_keys (String.length s))
  | VArr l => Ok (index_keys (length l))
  | VObj ps => Ok (ps.*1)
  end.

Definition delete_prop (v : value) (k : string) : value :=
  match v with
  | VObj ps => VObj (filter (λ kv, kv.1 ≠ k) ps)
  | _ => v
  end.

Fixpoint to_string (v : value) : string :=
  match v with
  | VUndefined => "undefined"
  | VNull => "null"
  | VBool true => "true"
  | VBool false => "false"
  | VNum n => pretty n
  | VStr s => s
  | VArr l =>
      String.concat ","
        (map (λ x, if is_nullish x then "" else to_string x) l)
  | VObj _ => "[object Object]"
  end.

Definition js_includes (v : value) (needle : string) : result bool :=
  match v with
  | VStr s => Ok (includes needle s)
  | VArr l => Ok (existsb (strict_eq (VStr needle)) l)
  | _ => Err TypeError
  end.


(** [obj[k] = v] on the own properties of an object: an existing key keeps
    its place, a new key goes last. *)
Fixpoint assoc_set (ps : list (string * value)) (k : string) (v : value)
    : list (string * value) :=
  match ps with
  | [] => [(k, v)]
  | (k', v') :: ps' =>
      if decide (k = k') then (k, v) :: ps' else (k', v') :: assoc_set ps' k v
  end.

(** ** Facts about the primitive operations *)

Definition truthy (v : value) : Prop := to_boolean v = true.
Definition non_nullish (v : value) : Prop := is_nullish v = false.

#[export] Instance truthy_dec v : Decision (truthy v).
Proof. unfold truthy. apply _. Defined.
#[export] Instance non_nullish_dec v : Decision (non_nullish v).
Proof. unfold non_nullish. apply _. Defined.

Lemma truthy_non_nullish v : truthy v → non_nullish v.
Proof. by destruct v. Qed.

(** [o[k]] for a receiver known not to be nullish. *)
Definition field (o : value) (k : string) : value :=
  match get_prop o k with Ok v => v | Err _ => VUndefined end.

Definition is_primitive (v : value) : bool :=
  match v with VArr _ | VObj _ => false | _ => true end.

Lemma strict_eq_sym v w : strict_eq v w = strict_eq w v.
Proof.
  destruct v, w; simpl; try done; apply bool_decide_ext; split; congruence.
Qed.

Lemma strict_eq_true_iff v w :
  strict_eq v w = true ↔ v = w ∧ is_primitive v = true.
Proof.
  destruct v, w; simpl; rewrite ?bool_decide_eq_true;
    split; try done; try (intros [[=] _]; done); try (intros [_ [=]]; done);
    try (intros ->; done); intros [[= ->] _]; done.
Qed.

Lemma strict_eq_refl v : is_primitive v = true → strict_eq v v = true.
Proof. intros. by apply strict_eq_true_iff. Qed.

Lemma strict_eq_trans u v w :
  strict_eq u v = true → strict_eq v w = true → strict_eq u w = true.
Proof. rewrite !strict_eq_true_iff. by intros [-> ?] [-> _]. Qed.

Lemma get_prop_is_Ok v k : is_Ok (get_prop v k) ↔ is_nullish v = false.
Proof.
  destruct v; simpl; repeat case_decide;
    split; try done; try (intros; apply is_Ok_Ok); by intros ?%is_Ok_Err.
Qed.

Lemma field_get_prop o k : non_nullish o → get_prop o k = Ok (field o k).
Proof.
  intros Ho. destruct (proj2 (get_prop_is_Ok o k) Ho) as [v Hv].
  unfold field. by rewrite Hv.
Qed.

Lemma get_prop_obj ps k : get_prop (VObj ps) k = Ok (default VUndefined (assoc ps k)).
Proof. done. Qed.

Lemma get_prop_error v k e : get_prop v k = Err e → e = TypeError ∧ is_nullish v = true.
Proof. destruct v; simpl; repeat case_decide; by intros [= <-]. Qed.

Lemma to_boolean_nullish v : is_nullish v = true → to_boolean v = false.
Proof. by destruct v. Qed.

Lemma as_array_not_array {B} v (k : list value → result B) :
  is_array v = false → as_array v ≫= k = Err TypeError.
Proof. by destruct v. Qed.

Lemma as_array_Ok v l : as_array v = Ok l ↔ v = VArr l.
Proof. destruct v; simpl; split; congruence. Qed.

Lemma assoc_elem_of ps k v : assoc ps k = Some v → (k, v) ∈ ps.
Proof.
  induction ps as [|[k' v'] ps IH]; simpl; [done|].
  case_decide as Hk; [intros [= ->]; subst; left | right; auto].
Qed.

Lemma assoc_None ps k : assoc ps k = None ↔ k ∉ ps.*1.
Proof.
  induction ps as [|[k' v'] ps IH]; simpl.
  - split; [intros _; apply not_elem_of_nil | done].
  - rewrite not_elem_of_cons. case_decide; [|rewrite IH]; naive_solver.
Qed.

Lemma assoc_is_Some ps k : k ∈ ps.*1 → ∃ v, assoc ps k = Some v ∧ (k, v) ∈ ps.
Proof.
  intros Hk. destruct (assoc ps k) as [v|] eqn:Hv.
  - exists v. eauto using assoc_elem_of.
  - by apply assoc_None in Hv.
Qed.

Lemma assoc_delete ps k k' :
  assoc (filter (λ kv, kv.1 ≠ k) ps) k' = if decide (k' = k) then None else assoc ps k'.
Proof.
  induction ps as [|[k0 v0] ps IH]; simpl; [by case_decide|].
  rewrite filter_cons. simpl. repeat (case_decide; simpl; subst); try done.
Qed.

Lemma assoc_set_lookup ps k v k' :
  assoc (assoc_set ps k v) k' = if decide (k' = k) then Some v else assoc ps k'.
Proof.
  induction ps as [|[k0 v0] ps IH]; simpl; [by repeat case_decide|].
  repeat (case_decide; simpl; subst); try done.
Qed.

Lemma assoc_set_set ps k v v' :
  assoc_set (assoc_set ps k v) k v' = assoc_set ps k v'.
Proof.
  induction ps as [|[k0 v0] ps IH]; simpl; [by rewrite decide_True|].
  case_decide; simpl; [by rewrite decide_True|]. by rewrite decide_False, IH.
Qed.

Lemma assoc_set_same ps k v : assoc ps k = Some v → assoc_set ps k v = ps.
Proof.
  induction ps as [|[k0 v0] ps IH]; simpl; [done|].
  case_decide; [by intros [= ->]; subst | intros ?; by rewrite IH].
Qed.

Lemma assoc_set_keys ps k v :
  k ∈ ps.*1 → (assoc_set ps k v).*1 = ps.*1.
Proof.
  induction ps as [|[k0 v0] ps IH]; cbn [assoc_set fmap list_fmap fst].
  - by intros ?%elem_of_nil.
  - case_decide as Hk; [by subst|]. intros [?|?]%elem_of_cons; [done|].
    cbn [fmap list_fmap fst]. f_equal. by apply IH.
Qed.

Lemma assoc_set_keys_new ps k v :
  k ∉ ps.*1 → (assoc_set ps k v).*1 = ps.*1 ++ [k].
Proof.
  induction ps as [|[k0 v0] ps IH]; cbn [assoc_set fmap list_fmap fst app]; [done|].
  intros [? ?]%not_elem_of_cons. rewrite decide_False by done.
  cbn [fmap list_fmap fst]. f_equal. by apply IH.
Qed.

Lemma elem_of_assoc_set ps k v x : x ∈ assoc_set ps k v → x = (k, v) ∨ x ∈ ps.
Proof.
  induction ps as [|[k0 v0] ps IH]; simpl.
  - intros ->%list_elem_of_singleton. by left.
  - case_decide; intros [->|Hx]%elem_of_cons; auto using list_elem_of_here.
    + right. by right.
    + destruct (IH Hx); auto. right. by right.
Qed.

Lemma assoc_set_has_key ps k v k' : k' = k ∨ k' ∈ ps.*1 → k' ∈ (assoc_set ps k v).*1.
Proof.
  destruct (decide (k ∈ ps.*1)) as [Hk|Hk].
  - rewrite assoc_set_keys by done. by intros [->|?].
  - rewrite assoc_set_keys_new by done. rewrite elem_of_app, list_elem_of_singleton.
    tauto.
Qed.

Lemma assoc_set_NoDup ps k v : NoDup ps.*1 → NoDup (assoc_set ps k v).*1.
Proof.
  intros Hps. destruct (decide (k ∈ ps.*1)).
  - by rewrite assoc_set_keys.
  - rewrite assoc_set_keys_new by done. apply NoDup_app. repeat split; [done| |].
    + by intros x Hx [->|[]%elem_of_nil]%elem_of_cons.
    + apply NoDup_singleton.
Qed.

Lemma get_prop_delete_prop ps k k' :
  get_prop (delete_prop (VObj ps) k) k' =
  if decide (k' = k) then Ok VUndefined else get_prop (VObj ps) k'.
Proof. simpl. rewrite assoc_delete. by case_decide. Qed.

Lemma field_delete_other (o : value) (k k' : string) :
  k' ≠ k → field (delete_prop o k) k' = field o k'.
Proof.
  intros Hk. destruct o; try done. unfold field.
  by rewrite get_prop_delete_prop, decide_False.
Qed.
