(* ===== verification/Lodash.v ===== *)
(** * The two lodash functions the program imports

    [src/src/cli.ts] line 8 imports [keyBy] and [get].  [keyBy] builds the
    in-memory index of the remote schemas by name (line 26); [get] resolves
    an association end against that index with a dotted path (lines
    106-115).  Both are modelled from lodash's documented behaviour.

    Modelling bound: a path is split at its dots; the bracket syntax of
    lodash paths is not modelled, so the theorems about [get] speak of
    identifiers without dots (and the program's own identifiers, matched by
    [[a-z_]+], have none). *)

From Stdlib Require Import Ascii.
From stdpp Require Import prelude strings.
From S2P Require Import Prelude JsValue.

(** ** [keyBy] *)

(** The elements lodash iterates over: those of an array, the values of an
    object, the characters of a string, nothing otherwise. *)
Definition collection_values (c : value) : list value :=
  match c with
  | VArr l => l
  | VObj ps => ps.*2
  | VStr s => (λ ch, VStr (String ch EmptyString)) <$> chars s
  | _ => []
  end.

(** The key of an element under the iteratee [property(k)]: [x[k]], or
    [undefined] for a nullish element, converted to a property key. *)
Definition key_of (k : string) (x : value) : string := to_string (field x k).

(** [keyBy(collection, k)]: the own properties of the resulting object.  A
    later element replaces an earlier one with the same key. *)
Definition keyBy (collection : value) (k : string) : list (string * value) :=
  foldl (λ acc x, assoc_set acc (key_of k x) x) [] (collection_values collection).

(** ** [get] *)

(** [stringToPath] on a path without brackets: the segments between dots. *)
Definition string_to_path (s : string) : list string := split_on "."%char s "".

(** [baseGet]: walk the segments while the object is not nullish. *)
Fixpoint base_get (o : value) (path : list string) : value :=
  match path with
  | [] => o
  | k :: path' => if is_nullish o then VUndefined else base_get (field o k) path'
  end.

(** [path in Object(object)] on own properties. *)
Definition has_key (o : value) (k : string) : bool :=
  match o with
  | VObj ps => bool_decide (k ∈ ps.*1)
  | VArr l => bool_decide (k ∈ index_keys (length l)) || bool_decide (k = "length")
  | VStr s => bool_decide (k ∈ index_keys (String.length s)) || bool_decide (k = "length")
  | _ => false
  end.

(** [result === undefined ? defaultValue : result] *)
Definition or_default (result defaultValue : value) : value :=
  match result with VUndefined => defaultValue | _ => result end.

(** [get(object, path, defaultValue)] for a string [path]. *)
Definition lodash_get (object : value) (path : string) (defaultValue : value) : value :=
  or_default
    (if is_nullish object then VUndefined
     else if has_key object path then field object path
     else base_get object (string_to_path path))
    defaultValue.

(** ** The promised index *)

(** What [keyBy] promises: looking a key up gives the last element filed
    under it. *)
Definition last_keyed (k key : string) (l : list value) : option value :=
  last (filter (λ x, key_of k x = key) l).

(** An identifier that is one path segment. *)
Definition dotless (s : string) : Prop := free_of "."%char s.

#[export] Instance dotless_dec s : Decision (dotless s).
Proof. unfold dotless. apply _. Defined.

Section keyBy.
Implicit Types (l : list value) (x : value) (acc : list (string * value)).

Lemma keyBy_snoc l x k :
  keyBy (VArr (l ++ [x])) k = assoc_set (keyBy (VArr l) k) (key_of k x) x.
Proof. unfold keyBy. simpl. by rewrite foldl_app. Qed.

Lemma last_keyed_snoc k key l x :
  last_keyed k key (l ++ [x]) =
  if decide (key = key_of k x) then Some x else last_keyed k key l.
Proof.
  unfold last_keyed. rewrite filter_app, filter_cons, filter_nil.
  case_decide as Hx; case_decide as Hk; subst; try done.
  - by rewrite last_snoc.
  - by rewrite app_nil_r.
Qed.

(** Insert then look up. *)
Lemma keyBy_lookup l k key :
  assoc (keyBy (VArr l) k) key = last_keyed k key l.
Proof.
  induction l as [|x l IH] using rev_ind; [done|].
  by rewrite keyBy_snoc, assoc_set_lookup, last_keyed_snoc, IH.
Qed.

Lemma keyBy_elem_of l k key x :
  assoc (keyBy (VArr l) k) key = Some x → x ∈ l ∧ key_of k x = key.
Proof.
  rewrite keyBy_lookup. unfold last_keyed. intros Hl%last_Some_elem_of.
  by apply list_elem_of_filter in Hl as [? ?].
Qed.

Lemma keyBy_None l k key :
  assoc (keyBy (VArr l) k) key = None ↔ ∀ x, x ∈ l → key_of k x ≠ key.
Proof.
  rewrite keyBy_lookup. unfold last_keyed. rewrite last_None. split.
  - intros Hf x Hx Hk. by apply (filter_nil_not_elem_of _ _ x Hf).
  - intros Hall. destruct (filter _ l) as [|x l'] eqn:Hf; [done|].
    assert (x ∈ filter (λ x, key_of k x = key) l) as [? ?]%list_elem_of_filter
      by (rewrite Hf; left). by destruct (Hall x).
Qed.

(** Every element is filed, and what is filed is an element under its
    key. *)
Lemma keyBy_has_key l k x : x ∈ l → key_of k x ∈ (keyBy (VArr l) k).*1.
Proof.
  intros Hx. destruct (decide (key_of k x ∈ (keyBy (VArr l) k).*1)) as [|Hn]; [done|].
  apply assoc_None in Hn. rewrite keyBy_None in Hn. by destruct (Hn x Hx).
Qed.

Lemma keyBy_entry l k kv : kv ∈ keyBy (VArr l) k → kv.2 ∈ l ∧ kv.1 = key_of k kv.2.
Proof.
  induction l as [|x l IH] using rev_ind; [by intros ?%elem_of_nil|].
  rewrite keyBy_snoc. intros [->|Hkv]%elem_of_assoc_set.
  - split; [|done]. apply elem_of_app. right. by left.
  - destruct (IH Hkv). split; [|done]. apply elem_of_app. by left.
Qed.

(** The result of [keyBy] is an object: no key occurs twice. *)
Lemma keyBy_keys c k : NoDup (keyBy c k).*1.
Proof.
  unfold keyBy. generalize (collection_values c).
  assert (NoDup (@nil (string * value)).*1) as Hnil by constructor.
  revert Hnil. generalize (@nil (string * value)). intros acc Hacc l.
  revert acc Hacc. induction l as [|x l IH]; intros acc Hacc; [done|].
  simpl. by apply IH, assoc_set_NoDup.
Qed.

(** When no key occurs twice, every element is filed under its key. *)
Lemma keyBy_NoDup l k x :
  NoDup (key_of k <$> l) → x ∈ l → assoc (keyBy (VArr l) k) (key_of k x) = Some x.
Proof.
  intros Hnd Hx. rewrite keyBy_lookup. unfold last_keyed.
  by rewrite (filter_key_NoDup (key_of k)).
Qed.

Lemma keyBy_not_collection c k :
  is_array c = false → (∀ ps, c ≠ VObj ps) → (∀ s, c ≠ VStr s) → keyBy c k = [].
Proof. by destruct c; intros ? Ho Hs; try done; [destruct (Hs s)|destruct (Ho props)]. Qed.

End keyBy.

Section get.
Implicit Types (s x cur rest : string) (o entry d : value) (ps : list (string * value)).

(** The path the program builds for an identifier. *)
Lemma string_to_path_member x :
  dotless x → string_to_path (x +:+ ".objectTypeId") = [x; "objectTypeId"].
Proof.
  intros Hx. unfold string_to_path.
  change ".objectTypeId" with (String "."%char "objectTypeId").
  rewrite split_on_sep by done. by rewrite append_nil_l.
Qed.

Lemma has_key_obj ps k : has_key (VObj ps) k = bool_decide (k ∈ ps.*1).
Proof. done. Qed.

Lemma field_nullish o k : is_nullish o = true → field o k = VUndefined.
Proof. by destruct o. Qed.

(** Resolution against the index: the member of the entry filed under the
    identifier, the default when there is no such entry or member. *)
Lemma lodash_get_member ps x d :
  dotless x → (x +:+ ".objectTypeId") ∉ ps.*1 →
  lodash_get (VObj ps) (x +:+ ".objectTypeId") d =
  or_default (field (field (VObj ps) x) "objectTypeId") d.
Proof.
  intros Hx Hk. unfold lodash_get. cbn [is_nullish].
  rewrite has_key_obj, bool_decide_eq_false_2, string_to_path_member by done.
  cbn [base_get is_nullish].
  destruct (is_nullish (field (VObj ps) x)) eqn:Hn; [|done].
  by rewrite field_nullish.
Qed.

End get.
