(* ===== verification/Loader.v ===== *)
(** * The local schema loader

    [src/src/cli.ts], lines 10, 21-22 and the first statements of every
    command (lines 76-77, 122-123, 212-213): the files a glob pattern
    resolves to, the regular expression that takes the object type out of a
    path, and [readJSON].

    A regular expression is matched the way the language does it, by
    backtracking: alternatives are tried in order, [+] is greedy, and the
    first match found at the leftmost position is the result.  [regex] holds
    the constructs [objectTypeRegex] uses and [rmatch] is the matcher, in
    continuation-passing style; [greedy] is what a greedy class repetition
    amounts to and the lemmas about it carry the theorems.

    The file system is read only: it is a parameter of the commands
    ([disk]), which gives the paths of a pattern and the parsed content of
    a path.

    Modelling bounds: paths are ASCII; [JSON.parse] is not modelled (the
    disk holds parsed documents, or the error reading or parsing raises). *)

From Stdlib Require Import Ascii.
From stdpp Require Import prelude strings.
From S2P Require Import Prelude JsValue.

(** ** Regular expressions *)

Inductive regex : Type :=
| RClass (p : ascii → bool)
| RSeq (r1 r2 : regex)
| RPlus (r : regex)
| RGroup (r : regex).

(** The characters a match consumed: what is left is a suffix of the
    input. *)
Definition consumed (s rest : list ascii) : list ascii :=
  take (length s - length rest) s.

Section matcher.
Context {A : Type}.

(** A continuation takes the rest of the input and the captures so far. *)
Definition cont : Type := list ascii → list (list ascii) → option A.

Section plus.
Context (step : list ascii → list (list ascii) → cont → option A).

(** [r+]: one iteration, then as many more as possible, each of which must
    consume input; fewer are tried when the continuation fails. *)
Fixpoint plus_loop (fuel : nat) (s : list ascii) (caps : list (list ascii))
    (k : cont) : option A :=
  match fuel with
  | 0 => None
  | S n =>
      step s caps (λ s1 caps1,
        if decide (length s1 < length s)
        then match plus_loop n s1 caps1 k with
             | Some a => Some a
             | None => k s1 caps1
             end
        else k s1 caps1)
  end.
End plus.

Fixpoint rmatch (r : regex) (s : list ascii) (caps : list (list ascii))
    (k : cont) : option A :=
  match r with
  | RClass p =>
      match s with
      | c :: s' => if p c then k s' caps else None
      | [] => None
      end
  | RSeq r1 r2 => rmatch r1 s caps (λ s1 caps1, rmatch r2 s1 caps1 k)
  | RPlus r1 => plus_loop (rmatch r1) (S (length s)) s caps k
  | RGroup r1 => rmatch r1 s caps (λ s1 caps1, k s1 (caps1 ++ [consumed s s1]))
  end.

(** What a greedy repetition of a class amounts to: take a character of
    the class, try to take more, and fall back on the continuation. *)
Fixpoint greedy (p : ascii → bool) (s : list ascii) (k : list ascii → option A)
    : option A :=
  match s with
  | c :: s' =>
      if p c
      then match greedy p s' k with Some a => Some a | None => k s' end
      else None
  | [] => None
  end.

End matcher.
Arguments cont A : clear implicits.

(** A match at the start of the input: the matched text, then the groups. *)
Definition exec (r : regex) (s : list ascii) : option (list (list ascii)) :=
  rmatch r s [] (λ rest caps, Some (consumed s rest :: caps)).

(** The leftmost match. *)
Fixpoint search (r : regex) (s : list ascii) : option (list (list ascii)) :=
  match exec r s with
  | Some m => Some m
  | None => match s with [] => None | _ :: s' => search r s' end
  end.

Fixpoint unchars (l : list ascii) : string :=
  match l with
  | [] => EmptyString
  | c :: l' => String c (unchars l')
  end.

(** [s.match(r)] for a regular expression without the [g] flag: [null], or
    the array of the matched text and the groups. *)
Definition js_match (s : string) (r : regex) : value :=
  match search r (chars s) with
  | Some m => VArr ((λ x, VStr (unchars x)) <$> m)
  | None => VNull
  end.

(** ** The pattern of the program *)

Definition in_range (lo hi c : ascii) : bool :=
  (nat_of_ascii lo <=? nat_of_ascii c) && (nat_of_ascii c <=? nat_of_ascii hi).

(** [[/a-zA-Z0-9]] *)
Definition is_path_char (c : ascii) : bool :=
  Ascii.eqb c "/" || in_range "a" "z" c || in_range "A" "Z" c || in_range "0" "9" c.

(** [[a-z_]] *)
Definition is_ident_char (c : ascii) : bool :=
  in_range "a" "z" c || Ascii.eqb c "_".

(** [.]: any character but a line terminator. *)
Definition is_any_char (c : ascii) : bool :=
  negb (Ascii.eqb c "010" || Ascii.eqb c "013").

Definition lit (c : ascii) : regex := RClass (Ascii.eqb c).

(** Line 10: [RegExp("[/a-zA-Z0-9]+/([a-z_]+).json")].  The dot before
    [json] is not escaped, and the pattern is not anchored. *)
Definition objectTypeRegex : regex :=
  RSeq (RPlus (RClass is_path_char))
    (RSeq (lit "/")
       (RSeq (RGroup (RPlus (RClass is_ident_char)))
          (RSeq (RClass is_any_char)
             (RSeq (lit "j") (RSeq (lit "s") (RSeq (lit "o") (lit "n"))))))).

(** ** The files of a run *)

(** What the program reads of the file system: the paths a pattern
    resolves to ([glob.sync]) and the document at a path, or the error
    [readFileSync] or [JSON.parse] raises.  Every read yields a fresh
    document. *)
Record disk : Type := Disk {
  glob_sync : string → list string;
  read_json : string → result value }.

(** [readJSON] (lines 21-22). *)
Definition readJSON (d : disk) (filePath : value) : result value :=
  match filePath with
  | VStr path => read_json d path
  | _ => Err TypeError
  end.

(** [files.map((x) => x.match(objectTypeRegex)!)] over the files of the
    pattern (lines 76-77, and again 122-123 and 212-213).  The assertion
    [!] is erased by the compiler: a path that does not match leaves
    [null] in the array. *)
Definition objectTypes (d : disk) (fileGlob : string) : list value :=
  (λ x, js_match x objectTypeRegex) <$> glob_sync d fileGlob.

(** The array pattern [[filePath, objectType]] of the loops: the first two
    elements of an iterable, and a [TypeError] for anything else. *)
Definition destructure_pair (entry : value) : result (value * value) :=
  match entry with
  | VArr l => Ok (default VUndefined (l !! 0), default VUndefined (l !! 1))
  | VStr s => Ok (field entry "0", field entry "1")
  | _ => Err TypeError
  end.

(** ** Well-formed paths *)

Definition all_chars (p : ascii → bool) (s : string) : Prop :=
  Forall (λ c, p c = true) (chars s).

#[export] Instance all_chars_dec p s : Decision (all_chars p s).
Proof. unfold all_chars. apply _. Defined.

(** ** The matcher *)

Section greedy.
Context {A : Type}.
Implicit Types (p : ascii → bool) (s a b rest : list ascii)
  (k : list ascii → option A) (caps : list (list ascii)).

Lemma consumed_app a b : consumed (a ++ b) b = a.
Proof.
  unfold consumed. rewrite length_app, Nat.add_sub. by rewrite take_app_length.
Qed.

Lemma consumed_nil s : consumed s [] = s.
Proof. unfold consumed. simpl. rewrite Nat.sub_0_r. apply firstn_all. Qed.

(** With fuel beyond the length of the input, the repetition of a class is
    [greedy]: the fuel [rmatch] gives it is enough. *)
Lemma plus_class_greedy p fuel s caps (k : cont A) :
  length s < fuel →
  plus_loop (rmatch (RClass p)) fuel s caps k = greedy p s (λ s1, k s1 caps).
Proof.
  revert s. induction fuel as [|n IH]; intros s Hs; [lia|].
  destruct s as [|c s]; simpl; [done|].
  destruct (p c); [|done].
  rewrite decide_True by lia. by rewrite IH by (simpl in Hs; lia).
Qed.

(** No split of the input satisfies the continuation. *)
Lemma greedy_None p b k :
  (∀ a' b', b = a' ++ b' → a' ≠ [] → Forall (λ c, p c = true) a' → k b' = None) →
  greedy p b k = None.
Proof.
  induction b as [|c b IH]; intros Hk; simpl; [done|].
  destruct (p c) eqn:Hc; [|done].
  rewrite IH.
  - apply (Hk [c]); [done..|]. by constructor.
  - intros a' b' -> Ha' Hp. apply (Hk (c :: a')); [done..|]. by constructor.
Qed.

(** The longest split that satisfies the continuation wins. *)
Lemma greedy_split p a b k x :
  a ≠ [] → Forall (λ c, p c = true) a →
  k b = Some x →
  (∀ a' b', b = a' ++ b' → a' ≠ [] → Forall (λ c, p c = true) a' → k b' = None) →
  greedy p (a ++ b) k = Some x.
Proof.
  intros Ha Hp Hb Hk. induction Hp as [|c a Hc Hp IH]; [done|]. simpl.
  rewrite Hc. destruct a as [|c' a].
  - simpl. by rewrite greedy_None.
  - by rewrite IH.
Qed.

Lemma greedy_inv p s k x :
  greedy p s k = Some x →
  ∃ a b, s = a ++ b ∧ a ≠ [] ∧ Forall (λ c, p c = true) a ∧ k b = Some x.
Proof.
  induction s as [|c s IH]; simpl; [done|].
  destruct (p c) eqn:Hc; [|done].
  destruct (greedy p s k) as [y|] eqn:Hg.
  - intros [= ->]. destruct (IH eq_refl) as (a & b & -> & _ & Ha & Hk).
    exists (c :: a), b. by repeat split; [|constructor|].
  - intros Hk. exists [c], s. by repeat split; [|constructor|].
Qed.

End greedy.

Section equations.
Context {A : Type}.
Implicit Types (k : cont A) (s : list ascii) (caps : list (list ascii)).

Lemma rmatch_seq r1 r2 s caps k :
  rmatch (RSeq r1 r2) s caps k = rmatch r1 s caps (λ s1 caps1, rmatch r2 s1 caps1 k).
Proof. done. Qed.

Lemma rmatch_class p c s caps k :
  rmatch (RClass p) (c :: s) caps k = if p c then k s caps else None.
Proof. done. Qed.

Lemma rmatch_lit c s caps k : rmatch (lit c) (c :: s) caps k = k s caps.
Proof. unfold lit. by rewrite rmatch_class, Ascii.eqb_refl. Qed.

Lemma rmatch_group r s caps k :
  rmatch (RGroup r) s caps k =
  rmatch r s caps (λ s1 caps1, k s1 (caps1 ++ [consumed s s1])).
Proof. done. Qed.

Lemma rmatch_plus_class p s caps k :
  rmatch (RPlus (RClass p)) s caps k = greedy p s (λ s1, k s1 caps).
Proof. refine (plus_class_greedy p (S (length s)) s caps k _). lia. Qed.

Lemma rmatch_lit_other c r s caps k :
  head s ≠ Some c → rmatch (RSeq (lit c) r) s caps k = None.
Proof.
  intros Hs. rewrite rmatch_seq. destruct s as [|c' s]; [done|].
  unfold lit. rewrite rmatch_class. destruct (Ascii.eqb_spec c c') as [->|]; [|done].
  by destruct Hs.
Qed.

Lemma rmatch_class_inv p s caps k x :
  rmatch (RClass p) s caps k = Some x →
  ∃ c s', s = c :: s' ∧ p c = true ∧ k s' caps = Some x.
Proof.
  destruct s as [|c s]; [done|]. rewrite rmatch_class.
  destruct (p c) eqn:Hc; [|done]. eauto.
Qed.

Lemma rmatch_lit_inv c s caps k x :
  rmatch (lit c) s caps k = Some x → ∃ s', s = c :: s' ∧ k s' caps = Some x.
Proof.
  intros (c' & s' & -> & Hc & Hk)%rmatch_class_inv.
  apply Ascii.eqb_eq in Hc as ->. eauto.
Qed.

End equations.

(** ** Fuel *)

Section fuel.
Context {A : Type}.
Implicit Types (k : cont A) (s : list ascii) (caps : list (list ascii)) (r : regex).

(** A matcher step calls its continuation on what is left of its input and
    in no other way depends on it. *)
Definition local (step : list ascii → list (list ascii) → cont A → option A) : Prop :=
  ∀ s caps k k',
    (∀ s1 caps1, length s1 ≤ length s → k s1 caps1 = k' s1 caps1) →
    step s caps k = step s caps k'.

Lemma plus_loop_local step fuel : local step → local (plus_loop step fuel).
Proof.
  intros Hstep. induction fuel as [|n IH]; intros s caps k k' Hk; [done|].
  simpl. apply Hstep. intros s1 caps1 Hs1.
  case_decide; [|by apply Hk].
  rewrite (IH s1 caps1 k k'); [by rewrite Hk|].
  intros s2 caps2 Hs2. apply Hk. lia.
Qed.

Lemma rmatch_local r : local (rmatch r).
Proof.
  induction r as [p|r1 IH1 r2 IH2|r IH|r IH]; intros s caps k k' Hk.
  - destruct s as [|c s]; [done|]. simpl. destruct (p c); [|done]. apply Hk. simpl. lia.
  - simpl. apply IH1. intros s1 caps1 Hs1. apply IH2. intros s2 caps2 Hs2. apply Hk. lia.
  - by apply (plus_loop_local (rmatch r) (S (length s)) IH).
  - simpl. apply IH. intros s1 caps1 Hs1. by rewrite Hk.
Qed.

Lemma plus_loop_fuel step fuel1 fuel2 s caps k :
  local step → length s < fuel1 → length s < fuel2 →
  plus_loop step fuel1 s caps k = plus_loop step fuel2 s caps k.
Proof.
  intros Hstep. revert fuel2 s caps.
  induction fuel1 as [|n1 IH]; intros [|n2] s caps H1 H2; try lia.
  simpl. apply Hstep. intros s1 caps1 Hs1.
  case_decide; [|done]. by rewrite (IH n2) by lia.
Qed.

(** The fuel of a repetition is enough: any larger amount gives the same
    result, whatever is repeated. *)
Lemma rmatch_plus_fuel r s caps k n :
  rmatch (RPlus r) s caps k = plus_loop (rmatch r) (S (length s) + n) s caps k.
Proof.
  apply (plus_loop_fuel (rmatch r) (S (length s)) (S (length s) + n));
    [apply rmatch_local|lia..].
Qed.
End fuel.

(** ** Strings and character lists *)

Lemma unchars_chars (s : string) : unchars (chars s) = s.
Proof. induction s as [|c s IH]; simpl; congruence. Qed.

Lemma chars_unchars (l : list ascii) : chars (unchars l) = l.
Proof. induction l as [|c l IH]; simpl; congruence. Qed.

Lemma unchars_app (l1 l2 : list ascii) : unchars (l1 ++ l2) = unchars l1 +:+ unchars l2.
Proof. induction l1 as [|c l1 IH]; [done|]. simpl. by rewrite append_cons, IH. Qed.

Lemma chars_nil_iff (s : string) : chars s = [] ↔ s = "".
Proof. by destruct s. Qed.

(** ** The pattern on paths *)

Section pattern.
Implicit Types (s dir id rest pre : list ascii) (m : list (list ascii)).

Lemma search_exec r s m : exec r s = Some m → search r s = Some m.
Proof. intros Hm. destruct s; cbn [search]; by rewrite Hm. Qed.

Lemma search_inv r s m :
  search r s = Some m → ∃ pre s', s = pre ++ s' ∧ exec r s' = Some m.
Proof.
  induction s as [|c s IH]; cbn [search].
  - destruct (exec r []) eqn:He; [|done]. intros [= ->]. by exists [], [].
  - destruct (exec r (c :: s)) eqn:He.
    + intros [= ->]. by exists [], (c :: s).
    + intros (pre & s' & -> & ?)%IH. by exists (c :: pre), s'.
Qed.

Lemma ident_not_slash c : is_ident_char c = true → c ≠ "/"%char.
Proof. by intros Hc ->. Qed.

Lemma ident_not_dot c : is_ident_char c = true → c ≠ "."%char.
Proof. by intros Hc ->. Qed.

(** A directory, a slash, an identifier and [.json]: the whole path is
    matched and the identifier captured. *)
Lemma exec_objectTypeRegex dir id :
  dir ≠ [] → Forall (λ c, is_path_char c = true) dir →
  id ≠ [] → Forall (λ c, is_ident_char c = true) id →
  exec objectTypeRegex (dir ++ "/"%char :: id ++ chars ".json") =
  Some [dir ++ "/"%char :: id ++ chars ".json"; id].
Proof.
  intros Hdir Hpath Hid Hident. unfold exec, objectTypeRegex.
  rewrite rmatch_seq, rmatch_plus_class.
  apply greedy_split; [done..| |].
  - rewrite rmatch_seq, rmatch_lit, rmatch_seq, rmatch_group, rmatch_plus_class.
    apply greedy_split; [done..| |].
    + rewrite consumed_app. simpl. by rewrite consumed_nil.
    + intros [|c a'] b' Heq ? Hf; [done|]. injection Heq as <- _.
      by apply Forall_cons_1 in Hf as [? _].
  - intros [|c a'] b' Heq ? _; [done|]. injection Heq as <- Heq.
    apply rmatch_lit_other. intros Hb.
    assert (Forall (λ c, c ≠ "/"%char) (a' ++ b')) as [_ Hall]%Forall_app.
    { rewrite <- Heq. apply Forall_app. split.
      - eapply Forall_impl; [exact Hident|]. apply ident_not_slash.
      - repeat constructor; done. }
    destruct b' as [|c b']; [done|]. injection Hb as ->.
    by apply Forall_cons_1 in Hall as [? _].
Qed.

(** Whatever is matched has that shape, up to the character before
    [json]. *)
Lemma exec_objectTypeRegex_inv s m :
  exec objectTypeRegex s = Some m →
  ∃ dir id c rest,
    s = dir ++ "/"%char :: id ++ c :: chars "json" ++ rest ∧
    m = [dir ++ "/"%char :: id ++ c :: chars "json"; id] ∧
    dir ≠ [] ∧ Forall (λ c, is_path_char c = true) dir ∧
    id ≠ [] ∧ Forall (λ c, is_ident_char c = true) id.
Proof.
  unfold exec, objectTypeRegex. rewrite rmatch_seq, rmatch_plus_class.
  intros (dir & b & -> & Hdir & Hpath & Hk)%greedy_inv.
  rewrite rmatch_seq in Hk. apply rmatch_lit_inv in Hk as (b1 & -> & Hk).
  rewrite rmatch_seq, rmatch_group, rmatch_plus_class in Hk.
  apply greedy_inv in Hk as (id & b2 & -> & Hid & Hident & Hk).
  rewrite rmatch_seq in Hk. apply rmatch_class_inv in Hk as (c & b3 & -> & _ & Hk).
  rewrite rmatch_seq in Hk. apply rmatch_lit_inv in Hk as (b4 & -> & Hk).
  rewrite rmatch_seq in Hk. apply rmatch_lit_inv in Hk as (b5 & -> & Hk).
  rewrite rmatch_seq in Hk. apply rmatch_lit_inv in Hk as (b6 & -> & Hk).
  apply rmatch_lit_inv in Hk as (rest & -> & Hk).
  exists dir, id, c, rest. injection Hk as <-. repeat split; try done.
  f_equal; [|f_equal; apply consumed_app].
  transitivity (consumed ((dir ++ "/"%char :: id ++ c :: chars "json") ++ rest) rest);
    [|apply consumed_app].
  f_equal. rewrite <- app_assoc. simpl. do 2 f_equal. by rewrite <- app_assoc.
Qed.

Lemma exec_no_slash s : "/"%char ∉ s → exec objectTypeRegex s = None.
Proof.
  intros Hs. unfold exec, objectTypeRegex. rewrite rmatch_seq, rmatch_plus_class.
  apply greedy_None. intros a' b' -> _ _. apply rmatch_lit_other.
  destruct b' as [|c b']; [done|]. intros [= ->]. apply Hs.
  apply elem_of_app. right. left.
Qed.

(** A run of the class cannot pass a character outside it. *)
Lemma class_run_stops (p : ascii → bool) l c rest a b :
  l ++ c :: rest = a ++ b → Forall (λ x, p x = true) a → p c = false →
  ∃ l', l = a ++ l' ∧ b = l' ++ c :: rest.
Proof.
  intros Heq Ha Hc. revert l Heq. induction Ha as [|x a Hx _ IH]; intros l Heq.
  - by exists l.
  - destruct l as [|y l]; injection Heq as -> Heq; [congruence|].
    destruct (IH l Heq) as (l' & -> & ->). by exists l'.
Qed.

(** No match starts before a character outside the directory class when
    no slash comes before it. *)
Lemma exec_blocked l c rest :
  "/"%char ∉ l → is_path_char c = false →
  exec objectTypeRegex (l ++ c :: rest) = None.
Proof.
  intros Hl Hc. unfold exec, objectTypeRegex. rewrite rmatch_seq, rmatch_plus_class.
  apply greedy_None. intros a b Heq _ Ha. apply rmatch_lit_other.
  destruct (class_run_stops _ _ _ _ _ _ Heq Ha Hc) as ([|x l'] & -> & ->); simpl.
  - by intros [= ->].
  - intros [= ->]. apply Hl, elem_of_app. right. left.
Qed.

Lemma search_blocked l c rest :
  "/"%char ∉ l → is_path_char c = false →
  search objectTypeRegex (l ++ c :: rest) = search objectTypeRegex rest.
Proof.
  intros Hl Hc. induction l as [|x l IH];
    pose proof (exec_blocked _ c rest Hl Hc) as He; cbn [app search] in *; rewrite He.
  - done.
  - apply IH. intros ?. apply Hl. by right.
Qed.

Lemma search_no_slash s : "/"%char ∉ s → search objectTypeRegex s = None.
Proof.
  induction s as [|c s IH]; intros Hs; cbn [search].
  - by rewrite exec_no_slash.
  - rewrite exec_no_slash by done. apply IH. intros ?. apply Hs. by right.
Qed.

End pattern.

(** ** Paths as strings *)

(** The path of an object type's file in a directory. *)
Definition path_of (dir id : string) : string := dir +:+ "/" +:+ id +:+ ".json".

Definition wf_dir (dir : string) : Prop := dir ≠ "" ∧ all_chars is_path_char dir.
Definition wf_ident (id : string) : Prop := id ≠ "" ∧ all_chars is_ident_char id.

#[export] Instance wf_dir_dec dir : Decision (wf_dir dir).
Proof. unfold wf_dir. apply _. Defined.
#[export] Instance wf_ident_dec id : Decision (wf_ident id).
Proof. unfold wf_ident. apply _. Defined.

(** What the loops of the commands see of a well-formed file. *)
Definition resolved (file : string * string) : value :=
  VArr [VStr (path_of file.1 file.2); VStr file.2].

Section paths.
Implicit Types (dir id path : string) (d : disk).

Lemma chars_path_of dir id :
  chars (path_of dir id) = chars dir ++ "/"%char :: chars id ++ chars ".json".
Proof. unfold path_of. by rewrite !chars_app. Qed.

Lemma js_match_path dir id :
  wf_dir dir → wf_ident id →
  js_match (path_of dir id) objectTypeRegex = resolved (dir, id).
Proof.
  intros [Hdir Hpath] [Hid Hident]. unfold js_match, resolved.
  rewrite chars_path_of.
  erewrite search_exec; [|apply exec_objectTypeRegex; by rewrite ?chars_nil_iff].
  simpl. by rewrite <- chars_path_of, !unchars_chars.
Qed.

(** The text before the directory is lost. *)
Lemma js_match_cut pre c dir id :
  "/"%char ∉ chars pre → is_path_char c = false → wf_dir dir → wf_ident id →
  js_match (pre +:+ String c (path_of dir id)) objectTypeRegex = resolved (dir, id).
Proof.
  intros Hpre Hc Hdir Hid. rewrite <- (js_match_path dir id) by done.
  unfold js_match. rewrite chars_app. cbn [chars]. by rewrite search_blocked.
Qed.

Lemma js_match_inv path :
  js_match path objectTypeRegex = VNull ∨
  ∃ pre dir id c rest,
    path = pre +:+ (dir +:+ "/" +:+ id +:+ String c "json") +:+ rest ∧
    js_match path objectTypeRegex =
      VArr [VStr (dir +:+ "/" +:+ id +:+ String c "json"); VStr id] ∧
    wf_dir dir ∧ wf_ident id.
Proof.
  unfold js_match. destruct (search _ _) as [m|] eqn:Hm; [right|by left].
  apply search_inv in Hm as (pre & s' & Hpath & Hm).
  apply exec_objectTypeRegex_inv in Hm
    as (dir & id & c & rest & -> & -> & Hdir & Hp & Hid & Hi).
  exists (unchars pre), (unchars dir), (unchars id), c, (unchars rest).
  assert (unchars (dir ++ "/"%char :: id ++ c :: chars "json") =
          unchars dir +:+ "/" +:+ unchars id +:+ String c "json") as Hm.
  { rewrite unchars_app. simpl. by rewrite unchars_app. }
  split_and!.
  - rewrite <- (unchars_chars path), Hpath, <- Hm, <- !unchars_app.
    do 2 f_equal. rewrite <- app_assoc. simpl. do 2 f_equal. by rewrite <- app_assoc.
  - cbn [fmap list_fmap]. by rewrite Hm.
  - split; [by intros ?%(f_equal chars); rewrite chars_unchars in *|].
    unfold all_chars. by rewrite chars_unchars.
  - split; [by intros ?%(f_equal chars); rewrite chars_unchars in *|].
    unfold all_chars. by rewrite chars_unchars.
Qed.

(** The identifier the pattern captures is made of lower-case letters and
    underscores. *)
Lemma resolved_ident path f : js_match path objectTypeRegex = resolved f → wf_ident f.2.
Proof.
  destruct (js_match_inv path) as [->|(pre & dir & id & c & rest & _ & -> & _ & Hid)];
    [done|].
  unfold resolved. by intros [= _ <-].
Qed.

Lemma wf_ident_dotless id : wf_ident id → Forall (λ c, c ≠ "."%char) (chars id).
Proof. intros [_ Hi]. eapply Forall_impl; [exact Hi|]. apply ident_not_dot. Qed.

End paths.

(** ** Theorems *)

Section theorems.
Implicit Types (dir id path : string) (d : disk) (files : list (string * string)).

(** C17. When the pattern resolves to files named [<dir>/<id>.json], with
    [dir] made of letters, digits and slashes and [id] of lower-case letters
    and underscores, the loops of the commands see, in the order of the
    files, each file's path and its identifier. *)
Theorem objectTypes_resolved d g files :
  glob_sync d g = (λ f, path_of f.1 f.2) <$> files →
  Forall (λ f, wf_dir f.1 ∧ wf_ident f.2) files →
  objectTypes d g = resolved <$> files.
Proof.
  unfold objectTypes. intros -> Hwf. rewrite <- list_fmap_compose.
  apply Forall_fmap_ext_1. eapply Forall_impl; [exact Hwf|].
  intros [dir id] [? ?]. by apply js_match_path.
Qed.

(** Whatever the files are called, an entry the loops see is [null] or
    a pair of strings: a part of the file's path that ends in the
    identifier, one more character and [json], and the identifier, which is
    a non-empty string of lower-case letters and underscores. *)
Theorem objectTypes_sound d g entry :
  entry ∈ objectTypes d g →
  entry = VNull ∨
  ∃ path filePath id,
    path ∈ glob_sync d g ∧ entry = VArr [VStr filePath; VStr id] ∧
    includes filePath path = true ∧ wf_ident id ∧
    ∃ dir c, filePath = dir +:+ "/" +:+ id +:+ String c "json".
Proof.
  unfold objectTypes. intros (path & -> & Hpath)%list_elem_of_fmap.
  destruct (js_match_inv path)
    as [?|(pre & dir & id & c & rest & Hp & -> & _ & Hid)]; [by left|right].
  exists path, (dir +:+ "/" +:+ id +:+ String c "json"), id.
  split_and!; [done..| |done|by eauto].
  apply includes_app_iff. by exists pre, rest.
Qed.

(** A file outside any directory does not match the pattern: its entry
    is [null], and the loop that reaches it throws a [TypeError]. *)
Theorem objectTypes_no_directory d g i path :
  glob_sync d g !! i = Some path → "/"%char ∉ chars path →
  (destructure_pair <$> objectTypes d g) !! i = Some (Err TypeError).
Proof.
  intros Hi Hpath. unfold objectTypes. rewrite !list_lookup_fmap, Hi. simpl.
  unfold js_match. by rewrite search_no_slash.
Qed.

(** C38. The path that is read is the matched text, not the path the
    pattern resolved to.  The match begins after the last character that
    is not a letter, a digit or a slash: whatever stands before it, with
    that character, is cut off, and the file read is another one, or
    none. *)
Theorem objectTypeRegex_truncates d g pre c dir id i :
  glob_sync d g !! i = Some (pre +:+ String c (path_of dir id)) →
  "/"%char ∉ chars pre → is_path_char c = false → wf_dir dir → wf_ident id →
  objectTypes d g !! i = Some (resolved (dir, id)) ∧
  (pair ← destructure_pair (resolved (dir, id)); readJSON d pair.1) =
    read_json d (path_of dir id).
Proof.
  intros Hi Hpre Hc Hdir Hid. split; [|done]. unfold objectTypes.
  rewrite list_lookup_fmap, Hi. simpl. by rewrite js_match_cut.
Qed.

End theorems.

(** ** Worked examples *)

(** The directory [my-schemas] is cut at its dash, and [./schemas] at its
    dot. *)
Example objectTypeRegex_cut :
  js_match "my-schemas/deal.json" objectTypeRegex =
    VArr [VStr "schemas/deal.json"; VStr "deal"] ∧
  js_match "./schemas/deal.json" objectTypeRegex =
    VArr [VStr "/schemas/deal.json"; VStr "deal"].
Proof. by split. Qed.

(** The dot is any character and the pattern is not anchored. *)
Example objectTypeRegex_unanchored :
  js_match "schemas/dealxjson.bak" objectTypeRegex =
  VArr [VStr "schemas/dealxjson"; VStr "deal"].
Proof. reflexivity. Qed.

Definition ex_files : list (string * string) :=
  [("schemas", "company"); ("schemas", "deal")].

Definition ex_company : value :=
  VObj [("name", VStr "company"); ("associations", VArr [VStr "deal"])].

Definition ex_deal : value := VObj [("name", VStr "deal")].

Definition ex_disk : disk :=
  Disk (λ g, if decide (g = "schemas/*.json")
             then ["schemas/company.json"; "schemas/deal.json"]
             else if decide (g = "*.json") then ["schemas/deal.json"; "deal.json"]
             else [])
       (λ path, if decide (path = "schemas/company.json") then Ok ex_company
                else if decide (path = "schemas/deal.json") then Ok ex_deal
                else Err IoError).

Lemma objectTypes_resolved_witness :
  objectTypes ex_disk "schemas/*.json" = resolved <$> ex_files.
Proof.
  apply (objectTypes_resolved ex_disk "schemas/*.json" ex_files);
    [reflexivity | compute_done].
Defined.

Lemma objectTypes_sound_witness :
  resolved ("schemas", "deal") = VNull ∨
  ∃ path filePath id,
    path ∈ glob_sync ex_disk "schemas/*.json" ∧
    resolved ("schemas", "deal") = VArr [VStr filePath; VStr id] ∧
    includes filePath path = true ∧ wf_ident id ∧
    ∃ dir c, filePath = dir +:+ "/" +:+ id +:+ String c "json".
Proof.
  apply (objectTypes_sound ex_disk "schemas/*.json"). compute_done.
Defined.

Lemma objectTypes_no_directory_witness :
  (destructure_pair <$> objectTypes ex_disk "*.json") !! 1 = Some (Err TypeError).
Proof.
  apply (objectTypes_no_directory ex_disk "*.json" 1 "deal.json");
    [reflexivity | compute_done].
Defined.

Lemma objectTypeRegex_truncates_witness :
  objectTypes (Disk (λ _, ["my-schemas/deal.json"]) (λ _, Ok ex_deal)) "*" !! 0 =
    Some (resolved ("schemas", "deal")) ∧
  (pair ← destructure_pair (resolved ("schemas", "deal"));
   readJSON (Disk (λ _, ["my-schemas/deal.json"]) (λ _, Ok ex_deal)) pair.1) =
    read_json (Disk (λ _, ["my-schemas/deal.json"]) (λ _, Ok ex_deal))
      (path_of "schemas" "deal").
Proof.
  apply (objectTypeRegex_truncates _ "*" "my" "-"%char "schemas" "deal" 0);
    [reflexivity | compute_done | reflexivity | compute_done | compute_done].
Defined.
