(* ===== verification/Options.v ===== *)
(** * Option-list comparison ([shouldContainAll], [validateOptions])

    [src/src/cli.ts], lines 133-146.  The reconciliation engine compares an
    array-valued field of a local property with the same field of the remote
    property by mutual inclusion on [{label, value}].  This file gives the
    code's two functions on arbitrary JavaScript values, the comparison the
    specification promises ([options_equal]), the proof that the code
    computes it on option lists whose elements are truthy, and what the code
    does outside that domain. *)

From stdpp Require Import prelude strings.
From S2P Require Import Prelude JsValue.

(** ** The code *)

(** The callback of [b.find] (line 136):
    [bOption.label === aOption.label && bOption.value === aOption.value]. *)
Definition option_matches (aOption bOption : value) : result bool :=
  bl ← get_prop bOption "label";
  al ← get_prop aOption "label";
  if strict_eq bl al then
    bv ← get_prop bOption "value";
    av ← get_prop aOption "value";
    Ok (strict_eq bv av)
  else Ok false.

(** [a.every(aOption => b.find(...))]: [every] converts what [find]
    returned (the element found, or [undefined]) to a boolean. *)
Definition shouldContainAll (a b : value) : result bool :=
  la ← as_array a;
  everyM (λ aOption,
    lb ← as_array b;
    found ← findM (option_matches aOption) lb;
    Ok (to_boolean (default VUndefined found))) la.

Definition validateOptions (existingOptions currentOptions : value) : result bool :=
  r ← shouldContainAll existingOptions currentOptions;
  if r : bool then shouldContainAll currentOptions existingOptions else Ok false.

(** ** The promised comparison *)

Definition option_eqb (a b : value) : bool :=
  strict_eq (field b "label") (field a "label") &&
  strict_eq (field b "value") (field a "value").

Definition contains_all (la lb : list value) : bool :=
  forallb (λ a, existsb (option_eqb a) lb) la.

Definition options_equal (la lb : list value) : bool :=
  contains_all la lb && contains_all lb la.

(** An option whose [label] and [value] are primitives (strings, in a
    well-formed schema): only such an option matches a copy of itself. *)
Definition keyed (o : value) : Prop :=
  is_primitive (field o "label") = true ∧ is_primitive (field o "value") = true.

#[export] Instance keyed_dec o : Decision (keyed o).
Proof. unfold keyed. apply _. Defined.

(** A truthy element that has neither a [label] nor a [value]: a string,
    a number, an object of another kind. *)
Definition unkeyed (o : value) : Prop :=
  truthy o ∧ field o "label" = VUndefined ∧ field o "value" = VUndefined.

#[export] Instance unkeyed_dec o : Decision (unkeyed o).
Proof. unfold unkeyed. apply _. Defined.

(** An option as the schema files write it. *)
Definition mk_option (label val : string) : value :=
  VObj [("label", VStr label); ("value", VStr val)].

(** ** Properties of the promised comparison *)

Section spec.
Implicit Types (a b c o : value) (la lb : list value).

Lemma option_eqb_sym a b : option_eqb a b = option_eqb b a.
Proof. unfold option_eqb. by rewrite !(strict_eq_sym (field b _)). Qed.

Lemma option_eqb_trans a b c :
  option_eqb a b = true → option_eqb b c = true → option_eqb a c = true.
Proof.
  unfold option_eqb. rewrite !andb_true_iff. intros [??] [??].
  split; eapply strict_eq_trans; eauto.
Qed.

Lemma option_eqb_refl o : keyed o → option_eqb o o = true.
Proof. intros [??]. unfold option_eqb. by rewrite !strict_eq_refl. Qed.

Lemma contains_all_spec la lb :
  contains_all la lb = true ↔
  ∀ a, a ∈ la → ∃ b, b ∈ lb ∧ option_eqb a b = true.
Proof.
  unfold contains_all. rewrite forallb_Forall, Forall_forall.
  by setoid_rewrite existsb_Exists; setoid_rewrite Exists_exists.
Qed.

Lemma options_equal_spec la lb :
  options_equal la lb = true ↔
  (∀ a, a ∈ la → ∃ b, b ∈ lb ∧ option_eqb a b = true) ∧
  (∀ b, b ∈ lb → ∃ a, a ∈ la ∧ option_eqb b a = true).
Proof. unfold options_equal. by rewrite andb_true_iff, !contains_all_spec. Qed.

#[export] Instance contains_all_Permutation :
  Proper ((≡ₚ) ==> (≡ₚ) ==> (=)) contains_all.
Proof.
  intros la la' Ha lb lb' Hb. apply eq_true_iff_eq.
  rewrite !contains_all_spec. by setoid_rewrite Ha; setoid_rewrite Hb.
Qed.

#[export] Instance options_equal_Permutation :
  Proper ((≡ₚ) ==> (≡ₚ) ==> (=)) options_equal.
Proof. intros la la' Ha lb lb' Hb. unfold options_equal. by rewrite Ha, Hb. Qed.

(** Elements without label and value all match one another. *)
Lemma contains_all_unkeyed la lb :
  lb ≠ [] → Forall unkeyed la → Forall unkeyed lb → contains_all la lb = true.
Proof.
  intros Hlb Hla Hb. apply forallb_forall. intros a Ha%list_elem_of_In.
  eapply Forall_forall in Hla as (_ & Hal & Hav); [|exact Ha].
  destruct Hb as [|b lb (_ & Hbl & Hbv) _]; [done|].
  simpl. unfold option_eqb. by rewrite Hal, Hav, Hbl, Hbv.
Qed.

Lemma options_equal_sym la lb : options_equal la lb = options_equal lb la.
Proof. apply andb_comm. Qed.

Lemma contains_all_refl la : Forall keyed la → contains_all la la = true.
Proof.
  rewrite Forall_forall, contains_all_spec. intros Hl a Ha.
  exists a. eauto using option_eqb_refl.
Qed.

Lemma options_equal_refl la : Forall keyed la → options_equal la la = true.
Proof. intros. unfold options_equal. by rewrite contains_all_refl. Qed.

Lemma contains_all_trans la lb lc :
  contains_all la lb = true → contains_all lb lc = true → contains_all la lc = true.
Proof.
  rewrite !contains_all_spec. intros Hab Hbc a Ha.
  destruct (Hab a Ha) as (b & Hb & ?), (Hbc b Hb) as (c & ? & ?).
  eauto using option_eqb_trans.
Qed.

End spec.

(** ** What the code computes *)

Section code.
Implicit Types (a b : value) (la lb l : list value).

Lemma option_matches_pure a b :
  non_nullish a → non_nullish b → option_matches a b = Ok (option_eqb a b).
Proof.
  intros Ha Hb. unfold option_matches, option_eqb.
  rewrite !(field_get_prop b), !(field_get_prop a) by done. simpl.
  by destruct (strict_eq _ _).
Qed.

Lemma find_truthy (p : value → bool) l :
  Forall truthy l → to_boolean (default VUndefined (List.find p l)) = existsb p l.
Proof. induction 1 as [|x l Hx _ IH]; simpl; [done|]. by destruct (p x). Qed.

Lemma shouldContainAll_pure la lb :
  Forall non_nullish la → Forall truthy lb →
  shouldContainAll (VArr la) (VArr lb) = Ok (contains_all la lb).
Proof.
  intros Hla Hlb. unfold shouldContainAll, contains_all. simpl.
  rewrite <- everyM_pure. apply everyM_ext.
  eapply Forall_impl; [exact Hla|]. intros a Ha. simpl.
  rewrite (findM_ext _ (λ b, Ok (option_eqb a b))), findM_pure; simpl.
  - by rewrite find_truthy.
  - eapply Forall_impl; [exact Hlb|]. intros b Hb.
    apply option_matches_pure; [done | by apply truthy_non_nullish].
Qed.

Lemma shouldContainAll_nil b : shouldContainAll (VArr []) b = Ok true.
Proof. done. Qed.

Lemma shouldContainAll_not_array_l a b :
  is_array a = false → shouldContainAll a b = Err TypeError.
Proof. intros Ha. unfold shouldContainAll. by rewrite as_array_not_array. Qed.

Lemma shouldContainAll_not_array_r a la b :
  is_array b = false → shouldContainAll (VArr (a :: la)) b = Err TypeError.
Proof. intros Hb. unfold shouldContainAll. simpl. by rewrite as_array_not_array. Qed.

Lemma Forall_truthy_non_nullish l : Forall truthy l → Forall non_nullish l.
Proof. intros H. eapply Forall_impl; [exact H | apply truthy_non_nullish]. Qed.

(** On option lists whose elements are truthy the code is the executable
    comparison: the rewriting form of the refinement, used by the later
    files. *)
Lemma validateOptions_pure la lb :
  Forall truthy la → Forall truthy lb →
  validateOptions (VArr la) (VArr lb) = Ok (options_equal la lb).
Proof.
  intros Hla Hlb. unfold validateOptions, options_equal.
  rewrite !shouldContainAll_pure by auto using Forall_truthy_non_nullish.
  simpl. by destruct (contains_all la lb).
Qed.

(** C2. On two option lists whose elements are truthy (objects, in a
    well-formed schema) [validateOptions] returns without throwing, and it
    returns [true] exactly when every option of either list has an option of
    the other with the same label and the same value. *)
Theorem validateOptions_refines la lb :
  Forall truthy la → Forall truthy lb →
  ∃ r, validateOptions (VArr la) (VArr lb) = Ok r ∧
       (r = true ↔
        (∀ a, a ∈ la → ∃ b, b ∈ lb ∧ option_eqb a b = true) ∧
        (∀ b, b ∈ lb → ∃ a, a ∈ la ∧ option_eqb b a = true)).
Proof.
  intros Hla Hlb. exists (options_equal la lb).
  split; [by apply validateOptions_pure | apply options_equal_spec].
Qed.

(** C26. The order of the options does not matter.  On option lists whose
    elements are truthy (objects, in a well-formed schema), reordering either
    list changes nothing of what [validateOptions] returns; in particular a
    list of options with primitive labels and values compares equal to every
    reordering of itself.  The side condition is needed: next to a [null] or
    [undefined] element the order decides whether the comparison throws
    ([validateOptions_asymmetric_error]). *)
Theorem validateOptions_reorder la la' lb lb' :
  la ≡ₚ la' → lb ≡ₚ lb' → Forall truthy la → Forall truthy lb →
  validateOptions (VArr la) (VArr lb) = validateOptions (VArr la') (VArr lb') ∧
  (Forall keyed la → validateOptions (VArr la) (VArr la') = Ok true).
Proof.
  intros Ha Hb Hla Hlb.
  rewrite !validateOptions_pure by (by rewrite <- ?Ha, <- ?Hb).
  split; [by rewrite Ha, Hb|].
  intros Hk. by rewrite <- Ha, options_equal_refl.
Qed.

(** A [null] or [undefined] element makes the callback of [find] throw as
    soon as it is compared with anything: the search for a truthy option in
    a list with such an element behind [la] answers from [la], or throws. *)
Lemma option_matches_nullish a x :
  non_nullish a → is_nullish x = true → option_matches a x = Err TypeError.
Proof. intros Ha Hx. unfold option_matches. by destruct x. Qed.

Lemma option_matches_of_nullish x b :
  is_nullish x = true → non_nullish b → option_matches x b = Err TypeError.
Proof.
  intros Hx Hb. unfold option_matches.
  rewrite !(field_get_prop b) by done. by destruct x.
Qed.

Lemma found_before_nullish a la x l :
  non_nullish a → Forall truthy la → is_nullish x = true →
  (found ← findM (option_matches a) (la ++ x :: l);
   Ok (to_boolean (default VUndefined found))) =
  if existsb (option_eqb a) la then Ok true else Err TypeError.
Proof.
  intros Ha Hla Hx. induction Hla as [|b la Hb _ IH]; simpl.
  - by rewrite option_matches_nullish.
  - rewrite option_matches_pure by auto using truthy_non_nullish. simpl.
    destruct (option_eqb a b); simpl; [by rewrite Hb | done].
Qed.

(** An option of [lb] that [la] lacks sends the search to the nullish
    element behind [la]. *)
Lemma shouldContainAll_reaches_nullish la lb x l :
  Forall truthy la → Forall truthy lb → is_nullish x = true →
  contains_all lb la = false →
  shouldContainAll (VArr lb) (VArr (la ++ x :: l)) = Err TypeError.
Proof.
  intros Hla Hlb Hx. unfold shouldContainAll, contains_all. simpl.
  induction Hlb as [|b lb Hb _ IH]; simpl; [done|].
  rewrite found_before_nullish by auto using truthy_non_nullish.
  destruct (existsb _ la); simpl; [exact IH | done].
Qed.

(** A nullish element at the head of the list compared is the first the
    code looks at. *)
Lemma shouldContainAll_nullish_head x l b lb :
  is_nullish x = true → non_nullish b →
  shouldContainAll (VArr (x :: l)) (VArr (b :: lb)) = Err TypeError.
Proof.
  intros Hx Hb. unfold shouldContainAll. simpl.
  by rewrite option_matches_of_nullish.
Qed.

(** A nullish element behind a mismatch is never looked at. *)
Lemma shouldContainAll_mismatch la lb l :
  Forall truthy la → Forall truthy lb → contains_all la lb = false →
  shouldContainAll (VArr (la ++ l)) (VArr lb) = Ok false.
Proof.
  intros Hla Hlb Hne.
  pose proof (shouldContainAll_pure la lb) as Hpure.
  unfold shouldContainAll in *. simpl in *.
  rewrite everyM_app, Hpure, Hne by auto using Forall_truthy_non_nullish.
  done.
Qed.

(** C39. Next to a [null] or [undefined] element the outcome depends on the
    order, of the arguments and of the elements.  When [la] and [lb] are
    lists of truthy options each of which has an option the other lacks,
    comparing [la] followed by a nullish element [x] with [lb] reports a
    difference without looking at [x]; comparing in the other order, or with
    [x] moved to the head of its list, throws [TypeError]. *)
Theorem validateOptions_asymmetric_error la lb x l :
  Forall truthy la → Forall truthy lb → is_nullish x = true →
  contains_all la lb = false → contains_all lb la = false →
  validateOptions (VArr (la ++ x :: l)) (VArr lb) = Ok false ∧
  validateOptions (VArr lb) (VArr (la ++ x :: l)) = Err TypeError ∧
  validateOptions (VArr (x :: la ++ l)) (VArr lb) = Err TypeError.
Proof.
  intros Hla Hlb Hx Hab Hba. unfold validateOptions.
  rewrite shouldContainAll_mismatch, shouldContainAll_reaches_nullish by done.
  repeat split. destruct Hlb as [|b lb Hb _]; [done|].
  by rewrite (shouldContainAll_nullish_head x) by auto using truthy_non_nullish.
Qed.

(** Symmetry, on arbitrary values: whenever both orders of the arguments
    return, they return the same boolean. *)
Theorem validateOptions_sym_Ok a b x y :
  validateOptions a b = Ok x → validateOptions b a = Ok y → x = y.
Proof.
  unfold validateOptions. intros Hx Hy.
  destruct (shouldContainAll a b) as [[]|], (shouldContainAll b a) as [[]|];
    simpl in *; congruence.
Qed.

(** An array-valued local field compared with a remote field that is not an
    array (in particular a field the remote property lacks, which reads as
    [undefined]) always throws [TypeError]: it is never reported as a
    change. *)
Lemma validateOptions_not_array l b :
  is_array b = false → validateOptions (VArr l) b = Err TypeError.
Proof.
  intros Hb. unfold validateOptions. destruct l as [|a l].
  - by rewrite shouldContainAll_nil, bind_Ok, shouldContainAll_not_array_l.
  - by rewrite shouldContainAll_not_array_r.
Qed.

End code.

(** ** Concrete runs *)

Lemma validateOptions_refines_witness :
  ∃ r, validateOptions (VArr [mk_option "A" "a"; mk_option "B" "b"])
                       (VArr [mk_option "B" "b"]) = Ok r ∧
       (r = true ↔
        (∀ a, a ∈ [mk_option "A" "a"; mk_option "B" "b"] →
           ∃ b, b ∈ [mk_option "B" "b"] ∧ option_eqb a b = true) ∧
        (∀ b, b ∈ [mk_option "B" "b"] →
           ∃ a, a ∈ [mk_option "A" "a"; mk_option "B" "b"] ∧ option_eqb b a = true)).
Proof. apply validateOptions_refines; repeat constructor. Defined.

(** Scenario 2 of the specification: the same options in the order [B, A]. *)
Lemma validateOptions_reorder_witness :
  validateOptions (VArr [mk_option "A" "a"; mk_option "B" "b"])
                  (VArr [mk_option "C" "c"; mk_option "A" "a"]) =
  validateOptions (VArr [mk_option "B" "b"; mk_option "A" "a"])
                  (VArr [mk_option "A" "a"; mk_option "C" "c"]) ∧
  (Forall keyed [mk_option "A" "a"; mk_option "B" "b"] →
   validateOptions (VArr [mk_option "A" "a"; mk_option "B" "b"])
                   (VArr [mk_option "B" "b"; mk_option "A" "a"]) = Ok true).
Proof.
  apply validateOptions_reorder; [apply Permutation_swap.. | |];
    repeat constructor.
Defined.

Lemma validateOptions_sym_Ok_witness :
  validateOptions (VArr [mk_option "A" "a"]) (VArr []) = Ok false ∧
  validateOptions (VArr []) (VArr [mk_option "A" "a"]) = Ok false ∧
  false = false.
Proof.
  split; [reflexivity|]. split; [reflexivity|].
  exact (validateOptions_sym_Ok (VArr [mk_option "A" "a"]) (VArr []) false false
           eq_refl eq_refl).
Defined.

Lemma validateOptions_not_array_witness :
  validateOptions (VArr [mk_option "A" "a"]) VUndefined = Err TypeError.
Proof. by apply validateOptions_not_array. Defined.

(** A [null] behind a mismatch: reached in one order only. *)
Lemma validateOptions_asymmetric_error_witness :
  validateOptions (VArr [mk_option "x" "x"; VNull]) (VArr [mk_option "y" "y"]) = Ok false ∧
  validateOptions (VArr [mk_option "y" "y"]) (VArr [mk_option "x" "x"; VNull]) = Err TypeError ∧
  validateOptions (VArr [VNull; mk_option "x" "x"]) (VArr [mk_option "y" "y"]) = Err TypeError.
Proof.
  apply (validateOptions_asymmetric_error [mk_option "x" "x"] [mk_option "y" "y"] VNull []);
    by repeat constructor.
Defined.

(** C40. Array elements that are not options are compared by their absent
    [label] and [value].  Two non-empty arrays of truthy elements that have
    neither, such as two arrays of strings, compare equal whatever they
    hold; and a falsy element is never found, so that an array holding [0],
    [false] or the empty string differs from itself. *)
Theorem validateOptions_non_options la lb x :
  (la ≠ [] → lb ≠ [] → Forall unkeyed (la ++ lb) →
   validateOptions (VArr la) (VArr lb) = Ok true) ∧
  (non_nullish x → to_boolean x = false →
   validateOptions (VArr [x]) (VArr [x]) = Ok false).
Proof.
  split.
  - intros Hla Hlb [Ha Hb]%Forall_app.
    rewrite validateOptions_pure by (eapply Forall_impl; [eassumption|by intros ? [? _]]).
    unfold options_equal. by rewrite !contains_all_unkeyed.
  - destruct x as [| |[]|n|s| |]; try done; simpl.
    + by intros _ ->%negb_false_iff%Z.eqb_eq.
    + by intros _ ->%negb_false_iff%String.eqb_eq.
Qed.

Lemma validateOptions_non_options_witness :
  validateOptions (VArr [VStr "a"; VStr "b"]) (VArr [VStr "c"]) = Ok true.
Proof.
  by apply (proj1 (validateOptions_non_options [VStr "a"; VStr "b"] [VStr "c"] VNull));
    [| |compute_done].
Defined.
