(* ===== verification/Reconcile.v ===== *)
(** * The reconciliation engine (the diff computed by [updateSchema])

    [src/src/cli.ts], lines 68-72 ([pick]) and 148-176 (the three filters of
    [updateSchema]).  Given the local schema and the remote record of the
    same object type, the code takes the two [properties] arrays out of them
    and computes which remote properties to delete, which local ones to
    create and which to update.

    The first part of the file is the code, on arbitrary JavaScript values,
    one definition per callback.  The second is the diff the specification
    promises ([spec_toDelete], [spec_toCreate], [spec_toUpdate]) on lists of
    named properties.  The theorems show that the code computes the promised
    diff on well-formed input, what it guarantees on any input, and where it
    throws. *)

From stdpp Require Import prelude strings.
From S2P Require Import Prelude JsValue Options.

(** ** The code *)

(** [pick] (lines 68-72) reads [obj[key]], deletes the key from the object
    and returns the value read, or [def] when that value is falsy.  The
    mutated object is returned beside the result. *)
Definition pick (obj : value) (key : string) (def : value) : result (value * value) :=
  result ← get_prop obj key;
  Ok (if to_boolean result then result else def, delete_prop obj key).

(** [prop => prop.name === name] (lines 155 and 160), with [name] already
    evaluated. *)
Definition has_name (name prop : value) : result bool :=
  n ← get_prop prop "name"; Ok (strict_eq n name).

(** [props.find(prop => prop.name === name)]: [updatedProperties.find] of
    line 155 and [currentProperties.find] of line 160. *)
Definition find_by_name (props name : value) : result value :=
  l ← as_array props;
  found ← findM (has_name name) l;
  Ok (default VUndefined found).

(** [name.includes("hs_") || name.includes("hubspot_")] (line 154) *)
Definition is_reserved (name : value) : result bool :=
  b ← js_includes name "hs_";
  if b : bool then Ok true else js_includes name "hubspot_".

(** The callback of the first filter (lines 152-157); destructuring
    [{ name }] reads [p.name] and throws on a nullish element. *)
Definition delete_wanted (updatedProperties p : value) : result bool :=
  name ← get_prop p "name";
  r ← is_reserved name;
  if r : bool then Ok false
  else found ← find_by_name updatedProperties name;
       Ok (negb (to_boolean found)).

Definition toDelete (updatedProperties currentProperties : value)
    : result (list value) :=
  cur ← as_array currentProperties;
  filterM (delete_wanted updatedProperties) cur.

(** The callback of the second filter (lines 159-161). *)
Definition create_wanted (currentProperties p : value) : result bool :=
  name ← get_prop p "name";
  found ← find_by_name currentProperties name;
  Ok (negb (to_boolean found)).

Definition toCreate (updatedProperties currentProperties : value)
    : result (list value) :=
  upd ← as_array updatedProperties;
  filterM (create_wanted currentProperties) upd.

(** [prop => prop.name === updatedProperty.name] (line 165): here the right
    operand is evaluated inside the callback, after [prop.name]. *)
Definition same_name (updatedProperty prop : value) : result bool :=
  pn ← get_prop prop "name";
  un ← get_prop updatedProperty "name";
  Ok (strict_eq pn un).

(** The callback of [reduce] (lines 168-175), [acc] first. *)
Definition field_changed (updatedProperty existingProperty : value)
    (acc : bool) (curr : string) : result bool :=
  if acc then Ok acc
  else
    u ← get_prop updatedProperty curr;
    if is_array u then
      e ← get_prop existingProperty curr;
      r ← validateOptions u e;
      Ok (negb r)
    else
      e ← get_prop existingProperty curr;
      Ok (negb (strict_eq u e)).

(** The callback of the third filter (lines 163-176). *)
Definition property_changed (currentProperties updatedProperty : value)
    : result bool :=
  cur ← as_array currentProperties;
  found ← findM (same_name updatedProperty) cur;
  let existingProperty := default VUndefined found in
  if negb (to_boolean existingProperty) then Ok false
  else
    keys ← own_keys updatedProperty;
    foldlM (field_changed updatedProperty existingProperty) false keys.

Definition toUpdate (updatedProperties currentProperties : value)
    : result (list value) :=
  upd ← as_array updatedProperties;
  filterM (property_changed currentProperties) upd.

(** What [updateSchema] computes before it calls the remote service. *)
Record plan : Type := Plan {
  plan_delete : list value;
  plan_create : list value;
  plan_update : list value }.

(** Lines 149-176: the two [pick]s, then the three filters in the order of
    the source.  The result carries the two schema objects as [pick] left
    them. *)
Definition reconcile (updatedSchema currentSchema : value)
    : result (plan * value * value) :=
  '(updatedProperties, updatedSchema') ← pick updatedSchema "properties" VUndefined;
  '(currentProperties, currentSchema') ← pick currentSchema "properties" VUndefined;
  d ← toDelete updatedProperties currentProperties;
  c ← toCreate updatedProperties currentProperties;
  u ← toUpdate updatedProperties currentProperties;
  Ok (Plan d c u, updatedSchema', currentSchema').

(** ** The promised diff *)

(** A well-formed property: a truthy value (an object) whose [name] is a
    string. *)
Definition pname (p : value) : string :=
  match field p "name" with VStr s => s | _ => "" end.

Definition named (p : value) : Prop :=
  truthy p ∧ field p "name" = VStr (pname p).

#[export] Instance named_dec p : Decision (named p).
Proof. unfold named. apply _. Defined.

Definition names (l : list value) : list string := pname <$> l.

(** The test the code applies to a name: the marker occurs anywhere in it. *)
Definition reserved_name (s : string) : bool :=
  includes "hs_" s || includes "hubspot_" s.

(** The test the specification words: the name begins with the marker. *)
Definition reserved_prefix (s : string) : bool :=
  String.prefix "hs_" s || String.prefix "hubspot_" s.

Definition first_named (l : list value) (s : string) : option value :=
  List.find (λ p, bool_decide (pname p = s)) l.

Definition keys_of (p : value) : list string :=
  match own_keys p with Ok ks => ks | Err _ => [] end.

(** The comparison rule of one field: option lists by mutual inclusion, an
    option list against anything else is a change, other values by [===]. *)
Definition field_differs (u e : value) : bool :=
  match u, e with
  | VArr lu, VArr le => negb (options_equal lu le)
  | VArr _, _ => true
  | _, _ => negb (strict_eq u e)
  end.

Definition prop_differs (p q : value) : bool :=
  existsb (λ k, field_differs (field p k) (field q k)) (keys_of p).

Definition changed_in (cur : list value) (p : value) : bool :=
  match first_named cur (pname p) with
  | Some q => prop_differs p q
  | None => false
  end.

Definition spec_toDelete (upd cur : list value) : list value :=
  filter (λ p, reserved_name (pname p) = false ∧ pname p ∉ names upd) cur.

Definition spec_toCreate (upd cur : list value) : list value :=
  filter (λ p, pname p ∉ names cur) upd.

Definition spec_toUpdate (upd cur : list value) : list value :=
  filter (λ p, changed_in cur p = true) upd.

(** The fields on which the code's comparison does not throw: an
    array-valued local field meets an array on the remote side, and the
    elements of both are truthy. *)
Definition comparable_field (u e : value) : Prop :=
  match u, e with
  | VArr lu, VArr le => Forall truthy lu ∧ Forall truthy le
  | VArr _, _ => False
  | _, _ => True
  end.

#[export] Instance comparable_field_dec u e : Decision (comparable_field u e).
Proof. destruct u, e; simpl; apply _. Defined.

Definition comparable (cur : list value) (p : value) : Prop :=
  ∀ q, first_named cur (pname p) = Some q →
    Forall (λ k, comparable_field (field p k) (field q k)) (keys_of p).

#[export] Instance comparable_dec cur p : Decision (comparable cur p).
Proof.
  unfold comparable. destruct (first_named cur (pname p)) as [q|].
  - destruct (decide (Forall (λ k, comparable_field (field p k) (field q k))
                        (keys_of p))) as [Hq|Hq].
    + left. by intros ? [= <-].
    + right. intros Hc. by apply Hq, Hc.
  - left. by intros ? [=].
Defined.

(** A property as the schema files write it. *)
Definition mk_prop (name : string) (fields : list (string * value)) : value :=
  VObj (("name", VStr name) :: fields).

(** ** Names and lookups *)

Section find.
Implicit Types (p q : value) (l : list value) (s : string).

Lemma named_pname p : named p → field p "name" = VStr (pname p).
Proof. by intros [_ ?]. Qed.

Lemma named_non_nullish p : named p → non_nullish p.
Proof. intros [? _]. by apply truthy_non_nullish. Qed.

Lemma named_get_name p : named p → get_prop p "name" = Ok (VStr (pname p)).
Proof.
  intros Hp. by rewrite field_get_prop, named_pname by auto using named_non_nullish.
Qed.

Lemma named_mk_prop name fields : named (mk_prop name fields).
Proof. by split. Qed.

Lemma has_name_pure s p :
  named p → has_name (VStr s) p = Ok (bool_decide (pname p = s)).
Proof. intros Hp. unfold has_name. by rewrite named_get_name. Qed.

Lemma same_name_pure p q :
  named p → named q → same_name p q = Ok (bool_decide (pname q = pname p)).
Proof. intros Hp Hq. unfold same_name. by rewrite !named_get_name. Qed.

Lemma same_name_has_name p q name :
  get_prop p "name" = Ok name → same_name p q = has_name name q.
Proof. intros Hp. unfold same_name, has_name. rewrite Hp. by destruct (get_prop q _). Qed.

Lemma find_by_name_pure l s :
  Forall named l →
  find_by_name (VArr l) (VStr s) = Ok (default VUndefined (first_named l s)).
Proof.
  intros Hl. unfold find_by_name, first_named. simpl.
  rewrite (findM_ext _ (λ p, Ok (bool_decide (pname p = s)))), findM_pure; [done|].
  eapply Forall_impl; [exact Hl|]. intros p Hp. by apply has_name_pure.
Qed.

Lemma first_named_truthy l s :
  Forall named l →
  to_boolean (default VUndefined (first_named l s)) = bool_decide (s ∈ names l).
Proof.
  unfold first_named, names. induction 1 as [|p l [Hp _] _ IH]; simpl; [done|].
  destruct (bool_decide (pname p = s)) eqn:Hs; simpl.
  - apply bool_decide_eq_true in Hs as <-. rewrite Hp.
    symmetry. apply bool_decide_eq_true. by left.
  - apply bool_decide_eq_false in Hs. rewrite IH.
    apply bool_decide_ext. rewrite elem_of_cons. naive_solver.
Qed.

Lemma first_named_Some l s q :
  first_named l s = Some q → q ∈ l ∧ pname q = s.
Proof.
  unfold first_named. intros [Hq Hs%bool_decide_eq_true]%find_some.
  by rewrite <- list_elem_of_In in Hq.
Qed.

Lemma first_named_None l s : first_named l s = None ↔ s ∉ names l.
Proof.
  unfold first_named, names. induction l as [|p l IH]; simpl.
  - split; [intros _; apply not_elem_of_nil | done].
  - rewrite not_elem_of_cons. case_bool_decide; [|rewrite IH]; naive_solver.
Qed.

Lemma is_reserved_pure s : is_reserved (VStr s) = Ok (reserved_name s).
Proof. unfold is_reserved, reserved_name. simpl. by destruct (includes "hs_" s). Qed.

Lemma reserved_prefix_name s : reserved_prefix s = true → reserved_name s = true.
Proof.
  unfold reserved_prefix, reserved_name. rewrite !orb_true_iff.
  intros [?|?]; [left | right]; by apply prefix_includes.
Qed.

End find.

(** ** The code computes the promised diff *)

Section refinement.
Implicit Types (p q u e : value) (upd cur : list value) (k : string).

Lemma delete_wanted_pure upd p :
  Forall named upd → named p →
  delete_wanted (VArr upd) p =
  Ok (negb (reserved_name (pname p)) && negb (bool_decide (pname p ∈ names upd))).
Proof.
  intros Hu Hp. unfold delete_wanted.
  rewrite named_get_name, bind_Ok, is_reserved_pure, bind_Ok by done.
  destruct (reserved_name (pname p)); [done|].
  by rewrite find_by_name_pure, bind_Ok, first_named_truthy.
Qed.

Lemma create_wanted_pure cur p :
  Forall named cur → named p →
  create_wanted (VArr cur) p = Ok (negb (bool_decide (pname p ∈ names cur))).
Proof.
  intros Hc Hp. unfold create_wanted.
  by rewrite named_get_name, bind_Ok, find_by_name_pure, bind_Ok, first_named_truthy.
Qed.

Lemma toDelete_pure upd cur :
  Forall named upd → Forall named cur →
  toDelete (VArr upd) (VArr cur) = Ok (spec_toDelete upd cur).
Proof.
  intros Hu Hc. unfold toDelete, spec_toDelete. simpl.
  rewrite (filterM_ext _ (λ p, Ok (negb (reserved_name (pname p)) &&
                                   negb (bool_decide (pname p ∈ names upd))))).
  - rewrite filterM_pure. f_equal. apply list_filter_iff. intros p.
    by rewrite andb_True, !negb_True, bool_decide_spec, Is_true_false.
  - eapply Forall_impl; [exact Hc|]. intros p Hp. by apply delete_wanted_pure.
Qed.

Lemma toCreate_pure upd cur :
  Forall named upd → Forall named cur →
  toCreate (VArr upd) (VArr cur) = Ok (spec_toCreate upd cur).
Proof.
  intros Hu Hc. unfold toCreate, spec_toCreate. simpl.
  rewrite (filterM_ext _ (λ p, Ok (negb (bool_decide (pname p ∈ names cur))))).
  - rewrite filterM_pure. f_equal. apply list_filter_iff. intros p.
    by rewrite negb_True, bool_decide_spec.
  - eapply Forall_impl; [exact Hu|]. intros p Hp. by apply create_wanted_pure.
Qed.

Lemma own_keys_keys_of p : non_nullish p → own_keys p = Ok (keys_of p).
Proof. unfold keys_of. by destruct p. Qed.

Lemma field_changed_pure p q k :
  non_nullish p → non_nullish q → comparable_field (field p k) (field q k) →
  field_changed p q false k = Ok (field_differs (field p k) (field q k)).
Proof.
  intros Hp Hq Hc. unfold field_changed.
  rewrite !field_get_prop by done. simpl.
  destruct (field p k) as [| | | | |lu|] eqn:Hu; simpl; try done.
  destruct (field q k) as [| | | | |le|]; try done.
  destruct Hc as [??]. by rewrite validateOptions_pure.
Qed.

(** Once a field differs, [reduce] hands the accumulator through: no later
    field is read. *)
Lemma foldlM_field_changed_true p q ks :
  foldlM (field_changed p q) true ks = Ok true.
Proof. induction ks as [|k ks IH]; simpl; [done|]. by rewrite IH. Qed.

Lemma foldlM_field_changed p q ks :
  non_nullish p → non_nullish q →
  Forall (λ k, comparable_field (field p k) (field q k)) ks →
  foldlM (field_changed p q) false ks =
  Ok (existsb (λ k, field_differs (field p k) (field q k)) ks).
Proof.
  intros Hp Hq. induction 1 as [|k ks Hk _ IH]; [done|].
  cbn [foldlM existsb]. rewrite field_changed_pure, bind_Ok by done.
  destruct (field_differs _ _); [apply foldlM_field_changed_true | apply IH].
Qed.

(** The remote property the third filter compares with, on well-formed
    lists: the first one of that name. *)
Lemma findM_same_name cur p :
  Forall named cur → named p →
  findM (same_name p) cur = Ok (first_named cur (pname p)).
Proof.
  intros Hcur Hp. unfold first_named. rewrite <- findM_pure. apply findM_ext.
  eapply Forall_impl; [exact Hcur|]. intros q Hq. by apply same_name_pure.
Qed.

Lemma property_changed_found cur p q :
  Forall named cur → named p → first_named cur (pname p) = Some q →
  property_changed (VArr cur) p =
  foldlM (field_changed p q) false (keys_of p) ∧ named q.
Proof.
  intros Hcur Hp Hq. unfold property_changed. simpl.
  rewrite findM_same_name, bind_Ok, Hq by done. simpl.
  apply first_named_Some in Hq as [Hin _].
  rewrite Forall_forall in Hcur. destruct (Hcur q Hin) as [Hqt ?].
  rewrite Hqt. simpl. by rewrite own_keys_keys_of by auto using named_non_nullish.
Qed.

Lemma property_changed_pure cur p :
  Forall named cur → named p → comparable cur p →
  property_changed (VArr cur) p = Ok (changed_in cur p).
Proof.
  intros Hcur Hp Hcmp. unfold changed_in.
  destruct (first_named cur (pname p)) as [q|] eqn:Hq.
  - destruct (property_changed_found cur p q) as [-> Hnq]; [done..|].
    apply foldlM_field_changed; auto using named_non_nullish.
  - unfold property_changed. simpl. by rewrite findM_same_name, bind_Ok, Hq.
Qed.

Lemma toUpdate_pure upd cur :
  Forall named upd → Forall named cur → Forall (comparable cur) upd →
  toUpdate (VArr upd) (VArr cur) = Ok (spec_toUpdate upd cur).
Proof.
  intros Hu Hc Hcmp. unfold toUpdate, spec_toUpdate. simpl.
  rewrite (filterM_ext _ (λ p, Ok (changed_in cur p))).
  - rewrite filterM_pure. f_equal. apply list_filter_iff. intros p.
    by rewrite Is_true_true.
  - apply Forall_forall. intros p Hp. rewrite Forall_forall in Hu, Hcmp.
    apply property_changed_pure; auto.
Qed.

Lemma pick_array o key l def :
  get_prop o key = Ok (VArr l) → pick o key def = Ok (VArr l, delete_prop o key).
Proof. intros Ho. unfold pick. by rewrite Ho. Qed.

Lemma reconcile_pure us cs upd cur :
  get_prop us "properties" = Ok (VArr upd) →
  get_prop cs "properties" = Ok (VArr cur) →
  Forall named upd → Forall named cur → Forall (comparable cur) upd →
  reconcile us cs =
  Ok (Plan (spec_toDelete upd cur) (spec_toCreate upd cur) (spec_toUpdate upd cur),
      delete_prop us "properties", delete_prop cs "properties").
Proof.
  intros Hus Hcs Hu Hc Hcmp. unfold reconcile.
  rewrite (pick_array _ _ _ _ Hus), (pick_array _ _ _ _ Hcs). simpl.
  by rewrite toDelete_pure, toCreate_pure, toUpdate_pure.
Qed.

End refinement.

(** ** Membership in the promised diff *)

Section spec_membership.
Implicit Types (p q : value) (upd cur : list value).

Lemma elem_of_spec_toDelete upd cur p :
  p ∈ spec_toDelete upd cur ↔
  p ∈ cur ∧ reserved_name (pname p) = false ∧ pname p ∉ names upd.
Proof. unfold spec_toDelete. rewrite list_elem_of_filter. tauto. Qed.

Lemma elem_of_spec_toCreate upd cur p :
  p ∈ spec_toCreate upd cur ↔ p ∈ upd ∧ pname p ∉ names cur.
Proof. unfold spec_toCreate. rewrite list_elem_of_filter. tauto. Qed.

Lemma elem_of_spec_toUpdate upd cur p :
  p ∈ spec_toUpdate upd cur ↔
  p ∈ upd ∧ ∃ q, first_named cur (pname p) = Some q ∧ prop_differs p q = true.
Proof.
  unfold spec_toUpdate, changed_in. rewrite list_elem_of_filter.
  destruct (first_named cur (pname p)) as [q|]; [|naive_solver].
  split; [intros [??]; eauto | intros [? (q' & [= <-] & ?)]; auto].
Qed.

End spec_membership.

(** ** What the code guarantees on any input *)

Section inversion.
Implicit Types (p name found U C : value) (l r : list value).

Lemma toDelete_inv U C r :
  toDelete U C = Ok r →
  ∃ l, C = VArr l ∧ sublist r l ∧
       ∀ p, p ∈ r ↔ p ∈ l ∧ delete_wanted U p = Ok true.
Proof.
  unfold toDelete. intros (l & ->%as_array_Ok & Hr)%bind_Ok_iff.
  exists l. eauto using filterM_sublist, filterM_elem_of.
Qed.

Lemma toCreate_inv U C r :
  toCreate U C = Ok r →
  ∃ l, U = VArr l ∧ sublist r l ∧
       ∀ p, p ∈ r ↔ p ∈ l ∧ create_wanted C p = Ok true.
Proof.
  unfold toCreate. intros (l & ->%as_array_Ok & Hr)%bind_Ok_iff.
  exists l. eauto using filterM_sublist, filterM_elem_of.
Qed.

Lemma toUpdate_inv U C r :
  toUpdate U C = Ok r →
  ∃ l, U = VArr l ∧ sublist r l ∧
       ∀ p, p ∈ r ↔ p ∈ l ∧ property_changed C p = Ok true.
Proof.
  unfold toUpdate. intros (l & ->%as_array_Ok & Hr)%bind_Ok_iff.
  exists l. eauto using filterM_sublist, filterM_elem_of.
Qed.

Lemma delete_wanted_true U p :
  delete_wanted U p = Ok true →
  ∃ name found, get_prop p "name" = Ok name ∧ is_reserved name = Ok false ∧
    find_by_name U name = Ok found ∧ to_boolean found = false.
Proof.
  unfold delete_wanted. intros (name & Hn & (res & Hres & H)%bind_Ok_iff)%bind_Ok_iff.
  destruct res; [done|].
  apply bind_Ok_iff in H as (found & Hf & [= Hb%negb_true_iff]). eauto 10.
Qed.

Lemma create_wanted_true C p :
  create_wanted C p = Ok true →
  ∃ name found, get_prop p "name" = Ok name ∧
    find_by_name C name = Ok found ∧ to_boolean found = false.
Proof.
  unfold create_wanted. intros (name & Hn & H)%bind_Ok_iff.
  apply bind_Ok_iff in H as (found & Hf & [= Hb%negb_true_iff]). eauto 10.
Qed.

(** A property reported as changed has a truthy remote counterpart. *)
Lemma property_changed_true C p :
  property_changed C p = Ok true →
  ∃ l found, C = VArr l ∧ findM (same_name p) l = Ok (Some found) ∧
    to_boolean found = true.
Proof.
  unfold property_changed. intros (l & ->%as_array_Ok & H)%bind_Ok_iff.
  apply bind_Ok_iff in H as (found & Hf & H).
  destruct found as [found|]; simpl in H; [|done].
  destruct (to_boolean found) eqn:Ht; [eauto 10 | done].
Qed.

Lemma is_reserved_false s :
  is_reserved (VStr s) = Ok false → reserved_name s = false.
Proof. rewrite is_reserved_pure. congruence. Qed.

Lemma reserved_name_false_prefix s :
  reserved_name s = false →
  String.prefix "hs_" s = false ∧ String.prefix "hubspot_" s = false.
Proof.
  intros Hs. destruct (reserved_prefix s) eqn:Hp.
  - apply reserved_prefix_name in Hp. congruence.
  - by apply orb_false_iff in Hp.
Qed.

Lemma field_name p name s :
  get_prop p "name" = Ok name → field p "name" = VStr s → name = VStr s.
Proof. unfold field. by intros ->. Qed.

End inversion.

(** ** Theorems *)

Section theorems.
Implicit Types (p q name U C us cs : value) (upd cur l r : list value).

(** C1. Refinement: on well-formed schemas (both [properties] are arrays of
    named properties, and array-valued local fields meet arrays remotely)
    the code returns a plan, and the plan is the promised diff: delete what
    is remote, not reserved and absent locally; create what is local and
    absent remotely; update what is on both sides and differs in a field. *)
Theorem reconcile_refines us cs upd cur :
  get_prop us "properties" = Ok (VArr upd) →
  get_prop cs "properties" = Ok (VArr cur) →
  Forall named upd → Forall named cur → Forall (comparable cur) upd →
  ∃ pl, reconcile us cs =
          Ok (pl, delete_prop us "properties", delete_prop cs "properties") ∧
    (∀ p, p ∈ plan_delete pl ↔
          p ∈ cur ∧ reserved_name (pname p) = false ∧ pname p ∉ names upd) ∧
    (∀ p, p ∈ plan_create pl ↔ p ∈ upd ∧ pname p ∉ names cur) ∧
    (∀ p, p ∈ plan_update pl ↔
          p ∈ upd ∧ ∃ q, first_named cur (pname p) = Some q ∧ prop_differs p q = true).
Proof.
  intros. eexists. split; [by apply reconcile_pure|]. simpl.
  auto using elem_of_spec_toDelete, elem_of_spec_toCreate, elem_of_spec_toUpdate.
Qed.

(** C3. Safety, on any input: a property whose name begins with [hs_] or
    [hubspot_] is never in [toDelete]. *)
Theorem toDelete_never_reserved U C r p s :
  toDelete U C = Ok r → p ∈ r → field p "name" = VStr s →
  String.prefix "hs_" s = false ∧ String.prefix "hubspot_" s = false.
Proof.
  intros (l & _ & _ & Hr)%toDelete_inv [_ Hp]%Hr Hs.
  apply delete_wanted_true in Hp as (name & _ & Hn & Hres & _).
  rewrite (field_name _ _ _ Hn Hs) in Hres.
  by apply reserved_name_false_prefix, is_reserved_false.
Qed.

(** C36. The code's test is [includes], not a prefix test: a property whose
    name merely contains [hs_] or [hubspot_] is never deleted either. *)
Theorem toDelete_spares_containing U C r p s :
  toDelete U C = Ok r → field p "name" = VStr s →
  reserved_name s = true → p ∉ r.
Proof.
  intros (l & _ & _ & Hr)%toDelete_inv Hs Hres [_ Hp]%Hr.
  apply delete_wanted_true in Hp as (name & _ & Hn & Hres' & _).
  rewrite (field_name _ _ _ Hn Hs) in Hres'.
  apply is_reserved_false in Hres'. congruence.
Qed.

(** The callbacks of [toCreate] and [toUpdate] never both keep a
    property. *)
Lemma create_update_exclusive C p :
  create_wanted C p = Ok true → property_changed C p = Ok true → False.
Proof.
  intros Hc Hu.
  apply create_wanted_true in Hc as (name & found & Hn & Hf & Hfalse).
  apply property_changed_true in Hu as (cur & q & -> & Hq & Hqt).
  unfold find_by_name in Hf. simpl in Hf.
  rewrite (findM_ext _ (has_name name)) in Hq.
  - rewrite Hq in Hf. simpl in Hf. congruence.
  - apply Forall_forall. intros ? _. by apply same_name_has_name.
Qed.

(** On any input, no property is both created and updated. *)
Theorem toCreate_toUpdate_disjoint U C rc ru p :
  toCreate U C = Ok rc → toUpdate U C = Ok ru → p ∈ rc → p ∉ ru.
Proof.
  intros (l & _ & _ & Hrc)%toCreate_inv (l' & _ & _ & Hru)%toUpdate_inv.
  intros [_ Hc]%Hrc [_ Hu]%Hru. by eapply create_update_exclusive.
Qed.

(** C15. A local property whose remote counterpart matches it in every
    field, under the comparison rule, is not in [toUpdate]. *)
Theorem toUpdate_skips_unchanged U cur r p q :
  Forall named cur → named p → comparable cur p →
  first_named cur (pname p) = Some q → prop_differs p q = false →
  toUpdate U (VArr cur) = Ok r → p ∉ r.
Proof.
  intros Hcur Hp Hcmp Hq Hsame (l & _ & _ & Hr)%toUpdate_inv [_ Hch]%Hr.
  rewrite property_changed_pure in Hch by done.
  unfold changed_in in Hch. rewrite Hq in Hch. congruence.
Qed.

(** The comparison stops at the first differing field: fields after it
    are not read, so they cannot make the comparison throw. *)
Theorem property_changed_short_circuit cur p q ks1 k ks2 :
  Forall named cur → named p → first_named cur (pname p) = Some q →
  keys_of p = ks1 ++ k :: ks2 →
  Forall (λ k, comparable_field (field p k) (field q k)) (ks1 ++ [k]) →
  field_differs (field p k) (field q k) = true →
  property_changed (VArr cur) p = Ok true.
Proof.
  intros Hcur Hp Hq Hks Hcmp Hk.
  destruct (property_changed_found cur p q) as [-> Hnq]; [done..|].
  rewrite Hks, (assoc_L _ _ [k] ks2 : ks1 ++ k :: ks2 = (ks1 ++ [k]) ++ ks2).
  rewrite foldlM_app, foldlM_field_changed by auto using named_non_nullish.
  rewrite existsb_app. cbn [existsb]. rewrite Hk, orb_true_r, bind_Ok.
  apply foldlM_field_changed_true.
Qed.

(** C37. A local property that carries an array-valued field which its
    remote counterpart lacks (or holds as a non-array), all earlier fields
    matching, makes the comparison throw [TypeError]. *)
Theorem property_changed_missing_array cur p q ks1 k ks2 lu :
  Forall named cur → named p → first_named cur (pname p) = Some q →
  keys_of p = ks1 ++ k :: ks2 →
  Forall (λ k, comparable_field (field p k) (field q k)) ks1 →
  existsb (λ k, field_differs (field p k) (field q k)) ks1 = false →
  field p k = VArr lu → is_array (field q k) = false →
  property_changed (VArr cur) p = Err TypeError.
Proof.
  intros Hcur Hp Hq Hks Hcmp Hsame Hu He.
  destruct (property_changed_found cur p q) as [-> Hnq]; [done..|].
  rewrite Hks, foldlM_app, foldlM_field_changed, Hsame, bind_Ok
    by auto using named_non_nullish.
  cbn [foldlM]. unfold field_changed.
  rewrite !field_get_prop, Hu by auto using named_non_nullish. simpl.
  by rewrite validateOptions_not_array.
Qed.

End theorems.

(** ** The schema objects after [pick] *)

Section pick.
Implicit Types (p o us cs : value) (upd cur l : list value) (pl : plan).

Lemma pick_inv_array o key l o' :
  pick o key VUndefined = Ok (VArr l, o') →
  get_prop o key = Ok (VArr l) ∧ o' = delete_prop o key.
Proof.
  unfold pick. intros (r & Hr & [= Hv <-])%bind_Ok_iff.
  destruct (to_boolean r); [|done]. by subst.
Qed.

Lemma reconcile_inv us cs pl us' cs' :
  reconcile us cs = Ok (pl, us', cs') →
  ∃ upd cur,
    get_prop us "properties" = Ok (VArr upd) ∧
    get_prop cs "properties" = Ok (VArr cur) ∧
    us' = delete_prop us "properties" ∧ cs' = delete_prop cs "properties" ∧
    toDelete (VArr upd) (VArr cur) = Ok (plan_delete pl) ∧
    toCreate (VArr upd) (VArr cur) = Ok (plan_create pl) ∧
    toUpdate (VArr upd) (VArr cur) = Ok (plan_update pl).
Proof.
  unfold reconcile.
  intros ([U us0] & HU & ([C cs0] & HC & H)%bind_Ok_iff)%bind_Ok_iff.
  apply bind_Ok_iff in H as (d & Hd & H).
  apply bind_Ok_iff in H as (c & Hc & H).
  apply bind_Ok_iff in H as (u & Hu & [= <- <- <-]).
  destruct (toDelete_inv _ _ _ Hd) as (cur & -> & _).
  destruct (toCreate_inv _ _ _ Hc) as (upd & -> & _).
  apply pick_inv_array in HU as [? ->], HC as [? ->]. eauto 10.
Qed.

Lemma get_prop_properties_obj o l :
  get_prop o "properties" = Ok (VArr l) → ∃ ps, o = VObj ps.
Proof. destruct o; simpl; try done; eauto. Qed.

Lemma pick_deleted ps key def :
  pick (delete_prop (VObj ps) key) key def =
  Ok (def, delete_prop (delete_prop (VObj ps) key) key).
Proof. unfold pick. rewrite get_prop_delete_prop. by case_decide. Qed.

Lemma pick_non_nullish o key def :
  non_nullish o →
  pick o key def =
  Ok (if to_boolean (field o key) then field o key else def, delete_prop o key).
Proof. intros Ho. unfold pick. by rewrite (field_get_prop o key Ho). Qed.

Lemma delete_prop_non_nullish o key : non_nullish o → non_nullish (delete_prop o key).
Proof. by destruct o. Qed.

Lemma pick_error o key def e : pick o key def = Err e → e = TypeError.
Proof.
  unfold pick. intros [He|(? & _ & [=])]%bind_Err_iff.
  by apply get_prop_error in He as [-> _].
Qed.

Lemma toDelete_not_array U C : is_array C = false → toDelete U C = Err TypeError.
Proof. intros. unfold toDelete. by apply as_array_not_array. Qed.

(** [pick] on an object reads the key, replaces a falsy value by the
    default, and leaves the object without that key and otherwise as it
    was. *)
Theorem pick_object ps key def :
  ∃ v, pick (VObj ps) key def = Ok (v, delete_prop (VObj ps) key) ∧
    v = (if to_boolean (field (VObj ps) key) then field (VObj ps) key else def) ∧
    get_prop (delete_prop (VObj ps) key) key = Ok VUndefined ∧
    ∀ k, k ≠ key → get_prop (delete_prop (VObj ps) key) k = get_prop (VObj ps) k.
Proof.
  eexists. split; [reflexivity|]. split; [done|].
  split; [|intros k Hk]; rewrite get_prop_delete_prop; by case_decide.
Qed.

(** The remote record is consumed: [updateSchema] deletes [properties] from
    the object held in the schema index, so a second reconciliation against
    the same index entry throws, whatever the local schema. *)
Lemma reconcile_consumed us cs pl us' cs' us2 :
  reconcile us cs = Ok (pl, us', cs') → reconcile us2 cs' = Err TypeError.
Proof.
  intros (upd & cur & _ & Hcs & _ & -> & _)%reconcile_inv.
  destruct (get_prop_properties_obj _ _ Hcs) as [ps ->].
  unfold reconcile.
  destruct (pick us2 "properties" VUndefined) as [[U us2']|e] eqn:Hus2.
  - by rewrite bind_Ok, pick_deleted, bind_Ok, toDelete_not_array.
  - by apply pick_error in Hus2 as ->.
Qed.

(** The plan is no longer than the two arrays together: a remote property
    is deleted at most once, a local one created or updated, never both. *)
Lemma reconcile_plan_length us cs pl us' cs' upd cur :
  reconcile us cs = Ok (pl, us', cs') →
  get_prop us "properties" = Ok (VArr upd) →
  get_prop cs "properties" = Ok (VArr cur) →
  length (plan_delete pl) ≤ length cur ∧
  length (plan_create pl) + length (plan_update pl) ≤ length upd.
Proof.
  intros (upd' & cur' & Hus & Hcs & _ & _ & Hd & Hc & Hu)%reconcile_inv Hus' Hcs'.
  rewrite Hus' in Hus. rewrite Hcs' in Hcs. simplify_eq.
  unfold toDelete, toCreate, toUpdate in *. simpl in *. split.
  - by eapply filterM_length.
  - eapply filterM_length_exclusive; [done..|]. apply create_update_exclusive.
Qed.

(** The plan keeps the order of the source arrays: each of the three
    lists is a sublist of the array it was filtered from. *)
Theorem reconcile_plan_sublist us cs pl us' cs' :
  reconcile us cs = Ok (pl, us', cs') →
  ∃ upd cur,
    get_prop us "properties" = Ok (VArr upd) ∧
    get_prop cs "properties" = Ok (VArr cur) ∧
    sublist (plan_delete pl) cur ∧
    sublist (plan_create pl) upd ∧
    sublist (plan_update pl) upd.
Proof.
  intros (upd & cur & ? & ? & _ & _ & Hd & Hc & Hu)%reconcile_inv.
  exists upd, cur.
  apply toDelete_inv in Hd as (? & [= <-] & ? & _).
  apply toCreate_inv in Hc as (? & [= <-] & ? & _).
  apply toUpdate_inv in Hu as (? & [= <-] & ? & _). done.
Qed.

End pick.

(** ** Concrete runs *)

(** A local schema and its remote record: [status] carries the same options
    in another order, [amount] changed its type, [fresh] is new,
    [legacy_field] was dropped locally, and the remote record holds two
    properties the tool must leave alone. *)
Definition ex_upd : list value :=
  [ mk_prop "status" [("type", VStr "enumeration");
                      ("options", VArr [mk_option "A" "a"; mk_option "B" "b"])];
    mk_prop "amount" [("type", VStr "number")];
    mk_prop "fresh" [("type", VStr "string")] ].

Definition ex_cur : list value :=
  [ mk_prop "status" [("type", VStr "enumeration");
                      ("options", VArr [mk_option "B" "b"; mk_option "A" "a"]);
                      ("hidden", VBool false)];
    mk_prop "amount" [("type", VStr "string")];
    mk_prop "legacy_field" [("type", VStr "string")];
    mk_prop "hs_object_id" [("type", VStr "number")];
    mk_prop "maths_score" [("type", VStr "number")] ].

Definition ex_local : value :=
  VObj [("name", VStr "deal_x"); ("properties", VArr ex_upd)].

Definition ex_remote : value :=
  VObj [("name", VStr "deal_x"); ("objectTypeId", VStr "2-123");
        ("properties", VArr ex_cur)].

Definition ex_plan : plan :=
  Plan [mk_prop "legacy_field" [("type", VStr "string")]]
       [mk_prop "fresh" [("type", VStr "string")]]
       [mk_prop "amount" [("type", VStr "number")]].

(** Scenarios 2 and 3 of the specification in one run: the reordered options
    cause no update, the dropped property is deleted. *)
Example reconcile_example :
  reconcile ex_local ex_remote =
  Ok (ex_plan, delete_prop ex_local "properties", delete_prop ex_remote "properties").
Proof. reflexivity. Qed.

Lemma reconcile_refines_witness :
  ∃ pl, reconcile ex_local ex_remote =
          Ok (pl, delete_prop ex_local "properties", delete_prop ex_remote "properties") ∧
    (∀ p, p ∈ plan_delete pl ↔
          p ∈ ex_cur ∧ reserved_name (pname p) = false ∧ pname p ∉ names ex_upd) ∧
    (∀ p, p ∈ plan_create pl ↔ p ∈ ex_upd ∧ pname p ∉ names ex_cur) ∧
    (∀ p, p ∈ plan_update pl ↔
          p ∈ ex_upd ∧ ∃ q, first_named ex_cur (pname p) = Some q ∧ prop_differs p q = true).
Proof.
  apply (reconcile_refines ex_local ex_remote ex_upd ex_cur);
    [reflexivity | reflexivity | compute_done..].
Defined.

Lemma toDelete_never_reserved_witness :
  String.prefix "hs_" "legacy_field" = false ∧
  String.prefix "hubspot_" "legacy_field" = false.
Proof.
  apply (toDelete_never_reserved (VArr ex_upd) (VArr ex_cur) (plan_delete ex_plan)
           (mk_prop "legacy_field" [("type", VStr "string")]));
    [reflexivity | compute_done | reflexivity].
Defined.

Lemma toDelete_spares_containing_witness :
  mk_prop "maths_score" [("type", VStr "number")] ∉ plan_delete ex_plan.
Proof.
  apply (toDelete_spares_containing (VArr ex_upd) (VArr ex_cur) _ _ "maths_score");
    reflexivity.
Defined.

Lemma toUpdate_skips_unchanged_witness :
  mk_prop "status" [("type", VStr "enumeration");
                    ("options", VArr [mk_option "A" "a"; mk_option "B" "b"])]
  ∉ plan_update ex_plan.
Proof.
  apply (toUpdate_skips_unchanged (VArr ex_upd) ex_cur _ _
           (mk_prop "status" [("type", VStr "enumeration");
                              ("options", VArr [mk_option "B" "b"; mk_option "A" "a"]);
                              ("hidden", VBool false)]));
    [compute_done | compute_done | compute_done | reflexivity..].
Defined.

Lemma property_changed_short_circuit_witness :
  property_changed
    (VArr [mk_prop "x" [("type", VStr "string")]])
    (mk_prop "x" [("type", VStr "number"); ("options", VArr [mk_option "A" "a"])])
  = Ok true.
Proof.
  apply (property_changed_short_circuit _ _ (mk_prop "x" [("type", VStr "string")])
           ["name"] "type" ["options"]);
    [compute_done | compute_done | reflexivity | reflexivity | compute_done | reflexivity].
Defined.

Lemma property_changed_missing_array_witness :
  property_changed
    (VArr [mk_prop "x" [("type", VStr "string")]])
    (mk_prop "x" [("options", VArr [mk_option "A" "a"]); ("type", VStr "number")])
  = Err TypeError.
Proof.
  apply (property_changed_missing_array _ _ (mk_prop "x" [("type", VStr "string")])
           ["name"] "options" ["type"] [mk_option "A" "a"]);
    [compute_done | compute_done | reflexivity | reflexivity | compute_done
    | reflexivity..].
Defined.

Lemma reconcile_consumed_example :
  reconcile ex_local (delete_prop ex_remote "properties") = Err TypeError.
Proof. exact (reconcile_consumed _ _ _ _ _ ex_local reconcile_example). Defined.

Lemma reconcile_plan_sublist_witness :
  ∃ upd cur,
    get_prop ex_local "properties" = Ok (VArr upd) ∧
    get_prop ex_remote "properties" = Ok (VArr cur) ∧
    sublist (plan_delete ex_plan) cur ∧
    sublist (plan_create ex_plan) upd ∧
    sublist (plan_update ex_plan) upd.
Proof. exact (reconcile_plan_sublist _ _ _ _ _ reconcile_example). Defined.

Lemma toCreate_toUpdate_disjoint_witness :
  mk_prop "fresh" [("type", VStr "string")] ∉ plan_update ex_plan.
Proof.
  apply (toCreate_toUpdate_disjoint (VArr ex_upd) (VArr ex_cur) (plan_create ex_plan));
    [reflexivity | reflexivity | compute_done].
Defined.
