(* ===== verification/Remote.v ===== *)
(** * The remote service and the effects of the program

    The program talks to the schema registry through an HTTP client
    ([hs], [src/src/cli.ts] lines 14-19) and reports on the console.  This
    file gives the interface the program assumes of the service
    ([Remote]: a request is answered by a response body or by a rejection,
    and may change the service's state), the state the program runs in
    ([world]: the service, the console, and the requests issued so far), the
    monad [M] of its [async] functions, and the [for ... of] loop.

    The loops of the program all have the same shape: log a line, issue one
    request, and either let a rejection propagate or catch and log it.
    [op] and [run_ops] capture that shape; the lemmas about [run_ops] are
    what the theorems about the commands are proved from. *)

From stdpp Require Import prelude strings.
From S2P Require Import Prelude JsValue.

(** ** Requests and the service *)

Inductive method : Set := GET | POST | PATCH | DELETE.

#[export] Instance method_eq_dec : EqDecision method.
Proof. solve_decision. Defined.

(** A request as the program issues it: the path is relative to the base
    URL, the body is [undefined] for [get] and [delete].  The API key, a
    constant of the run, is left out. *)
Record request : Type := Request {
  req_method : method;
  req_path : string;
  req_body : value }.

#[export] Instance request_eq_dec : EqDecision request.
Proof. solve_decision. Defined.

(** What the program assumes of the service: a request yields the response
    body ([data]) or a rejection, and a new state of the service. *)
Class Remote (R : Type) := serve : request → R → result value * R.

(** A service that plays back canned answers, one per request, and accepts
    every request once they are used up.  It serves as the concrete service
    of the worked examples. *)
#[export] Instance scripted : Remote (list (result value)) := λ rq answers,
  match answers with
  | [] => (Ok VNull, [])
  | r :: answers' => (r, answers')
  end.

(** ** The state of a run *)

Record world (R : Type) : Type := World {
  remote : R;
  console : list string;
  calls : list request }.
Arguments World {R} _ _ _.
Arguments remote {R} _.
Arguments console {R} _.
Arguments calls {R} _.

(** The world of the worked examples: a scripted service, an empty console,
    no request issued yet. *)
Definition ex_world (answers : list (result value)) : world (list (result value)) :=
  World answers [] [].

(** An [async] function: it may change the world and then returns or
    throws.  What was done before an exception stays done. *)
Definition M (R A : Type) : Type := world R → result A * world R.

#[export] Instance M_ret {R} : MRet (M R) := λ A a w, (Ok a, w).
#[export] Instance M_bind {R} : MBind (M R) := λ A B f m w,
  match m w with
  | (Ok a, w') => f a w'
  | (Err e, w') => (Err e, w')
  end.

Definition lift {R A} (r : result A) : M R A := λ w, (r, w).

(** [console.log(line)] *)
Definition log {R} (line : string) : M R unit :=
  λ w, (Ok (), World (remote w) (console w ++ [line]) (calls w)).

(** [await hs.<method>(path, body)] *)
Definition http `{Remote R} (rq : request) : M R value :=
  λ w, let '(r, rem) := serve rq (remote w) in
       (r, World rem (console w) (calls w ++ [rq])).

(** [try { m } catch (e) { handler }], and [promise.catch(handler)] *)
Definition try_catch {R A} (m : M R A) (handler : error → M R A) : M R A :=
  λ w, match m w with
       | (Ok a, w') => (Ok a, w')
       | (Err e, w') => handler e w'
       end.

(** [for (let x of l) { await body(x) }]: strictly sequential, left at the
    first exception. *)
Fixpoint for_of {R A} (l : list A) (body : A → M R unit) : M R unit :=
  match l with
  | [] => mret ()
  | x :: l' => body x;; for_of l' body
  end.

(** A [for ... of] loop whose body updates local state of the enclosing
    function (an accumulator array, the in-memory index). *)
Fixpoint for_fold {R S A} (l : list A) (body : S → A → M R S) (s : S) : M R S :=
  match l with
  | [] => mret s
  | x :: l' => s' ← body s x; for_fold l' body s'
  end.

(** [throw e] *)
Definition throw {R A} (e : error) : M R A := lift (Err e).

(** What [console.log(e)] prints for a caught exception. *)
Definition error_line (e : error) : string :=
  match e with
  | TypeError => "TypeError"
  | SyntaxError => "SyntaxError"
  | IoError => "Error: ENOENT"
  | HttpError => "Error: Request failed"
  end.

(** ** Logged requests *)

(** One iteration of a loop of the program: a console line, a request, and
    whether a rejection of the request is caught (and logged) or thrown. *)
Record op : Type := Op {
  op_line : string;
  op_request : request;
  op_caught : bool }.

Section ops.
Context `{Remote R}.

Definition run_op (o : op) : M R unit :=
  log (op_line o);;
  if op_caught o
  then try_catch (http (op_request o);; mret ()) (λ e, log (error_line e))
  else http (op_request o);; mret ().

Definition run_ops (ops : list op) : M R unit := for_of ops run_op.

End ops.

(** ** Running programs *)

(** Unfold the monad down to the world it acts on. *)
Ltac run_M :=
  unfold try_catch, http, log, lift, throw, mbind, M_bind, mret, M_ret; simpl.

Section run.
Context `{Remote R}.
Implicit Types (w : world R) (o : op) (ops : list op).

Lemma bind_run {A B} (f : A → M R B) (m : M R A) w :
  (m ≫= f) w =
  match m w with (Ok a, w') => f a w' | (Err e, w') => (Err e, w') end.
Proof. done. Qed.

Lemma lift_bind_run {A B} (r : result A) (f : A → M R B) w :
  (lift r ≫= f) w = match r with Ok a => f a w | Err e => (Err e, w) end.
Proof. by destruct r. Qed.

Lemma for_of_ext {A} (l : list A) (f g : A → M R unit) :
  (∀ x w, x ∈ l → f x w = g x w) → ∀ w, for_of l f w = for_of l g w.
Proof.
  induction l as [|x l IH]; intros Hfg w; simpl; [done|].
  rewrite !bind_run, Hfg by left.
  destruct (g x w) as [[[]|e] w']; [|done].
  apply IH. intros. apply Hfg. by right.
Qed.

Lemma for_of_fmap {A B} (h : A → B) (l : list A) (g : B → M R unit) w :
  for_of (h <$> l) g w = for_of l (g ∘ h) w.
Proof.
  revert w. induction l as [|x l IH]; intros w; simpl; [done|].
  rewrite !bind_run. by destruct (g (h x) w) as [[[]|e] w'].
Qed.

Lemma for_of_app {A} (l1 l2 : list A) (f : A → M R unit) w :
  for_of (l1 ++ l2) f w = (for_of l1 f;; for_of l2 f) w.
Proof.
  revert w. induction l1 as [|x l1 IH]; intros w; simpl; [done|].
  rewrite !bind_run. destruct (f x w) as [[[]|e] w']; [|done].
  by rewrite IH, bind_run.
Qed.

Lemma for_fold_app {S A} (l1 l2 : list A) (body : S → A → M R S) s w :
  for_fold (l1 ++ l2) body s w =
  match for_fold l1 body s w with
  | (Ok s', w') => for_fold l2 body s' w'
  | (Err e, w') => (Err e, w')
  end.
Proof.
  revert s w. induction l1 as [|x l1 IH]; intros s w; simpl; [done|].
  rewrite !bind_run. destruct (body s x w) as [[s1|e] w1]; [apply IH|done].
Qed.

(** A loop whose iterations all return, returns; what holds of the state
    after every iteration holds at the end. *)
Lemma for_fold_Ok {S A} (I : S → Prop) (l : list A) (body : S → A → M R S) s w :
  I s →
  (∀ s x w, x ∈ l → I s → ∃ s', (body s x w).1 = Ok s' ∧ I s') →
  ∃ s', (for_fold l body s w).1 = Ok s' ∧ I s'.
Proof.
  revert s w. induction l as [|x l IH]; intros s w Hs Hbody; simpl; [by eauto|].
  rewrite bind_run. destruct (Hbody s x w) as (s1 & Hx & Hs1); [by left|done|].
  destruct (body s x w) as [[s1'|e] w1]; simplify_eq/=.
  apply IH; [done|]. intros. apply Hbody; [by right|done].
Qed.

Lemma for_of_Ok {A} (l : list A) (body : A → M R unit) w :
  (∀ x w, x ∈ l → (body x w).1 = Ok ()) → (for_of l body w).1 = Ok ().
Proof.
  revert w. induction l as [|x l IH]; intros w Hbody; simpl; [done|].
  rewrite bind_run. pose proof (Hbody x w (list_elem_of_here _ _)) as Hx.
  destruct (body x w) as [[[]|e] w1]; simplify_eq/=.
  apply IH. intros. apply Hbody. by right.
Qed.

(** One logged request, in full. *)
Lemma run_op_run o w :
  run_op o w =
  let '(r, rem) := serve (op_request o) (remote w) in
  let lines := if op_caught o then match r with Ok _ => [] | Err e => [error_line e] end
               else [] in
  (if op_caught o then Ok () else r ≫= λ _, Ok (),
   World rem ((console w ++ [op_line o]) ++ lines) (calls w ++ [op_request o])).
Proof.
  unfold run_op, try_catch, http, log, mbind, M_bind, mret, M_ret. simpl.
  destruct (op_caught o), (serve _ _) as [[v|e] rem]; simpl;
    by rewrite ?app_nil_r.
Qed.

Lemma run_op_calls o w : calls (run_op o w).2 = calls w ++ [op_request o].
Proof. rewrite run_op_run. by destruct (serve _ _). Qed.

Lemma run_op_caught o w : op_caught o = true → (run_op o w).1 = Ok ().
Proof. intros Ho. rewrite run_op_run, Ho. by destruct (serve _ _). Qed.

Lemma run_ops_nil w : run_ops [] w = (Ok (), w).
Proof. done. Qed.

Lemma run_ops_cons o ops w :
  run_ops (o :: ops) w =
  match run_op o w with
  | (Ok _, w') => run_ops ops w'
  | (Err e, w') => (Err e, w')
  end.
Proof. unfold run_ops. simpl. rewrite bind_run. by destruct (run_op o w) as [[[]|] ?]. Qed.

Lemma run_ops_app ops1 ops2 w :
  run_ops (ops1 ++ ops2) w =
  match run_ops ops1 w with
  | (Ok _, w') => run_ops ops2 w'
  | (Err e, w') => (Err e, w')
  end.
Proof.
  unfold run_ops. rewrite for_of_app, bind_run.
  by destruct (for_of ops1 run_op w) as [[[]|] ?].
Qed.

(** The requests a list of logged requests issues: a prefix of the list,
    in its order, and all of it when the run returns. *)
Lemma run_ops_calls ops w :
  ∃ done, calls (run_ops ops w).2 = calls w ++ (op_request <$> done) ∧
    done `prefix_of` ops ∧
    ((run_ops ops w).1 = Ok () → done = ops).
Proof.
  revert w. induction ops as [|o ops IH]; intros w.
  - exists []. by rewrite run_ops_nil, app_nil_r.
  - rewrite run_ops_cons. pose proof (run_op_calls o w) as Ho.
    destruct (run_op o w) as [[[]|e] w']; simpl in Ho.
    + destruct (IH w') as (done & Hc & Hp & Hok). exists (o :: done).
      rewrite Hc, Ho, <- app_assoc. split; [done|].
      split; [by apply prefix_cons | intros ?; f_equal; auto].
    + exists [o]. simpl. split; [done|]. split; [|done].
      apply prefix_cons, prefix_nil.
Qed.

(** Every request is announced: the lines of a run that returns hold the
    lines of the operations, in their order; what lies between them are the
    caught errors. *)
Lemma run_ops_console ops w :
  (run_ops ops w).1 = Ok () →
  ∃ lines, console (run_ops ops w).2 = console w ++ lines ∧
           (op_line <$> ops) `sublist_of` lines.
Proof.
  revert w. induction ops as [|o ops IH]; intros w.
  - exists []. by rewrite run_ops_nil, app_nil_r.
  - rewrite run_ops_cons, run_op_run, fmap_cons.
    destruct (serve _ _) as [r rem].
    destruct (op_caught o), r as [v|e]; simpl; try done; intros Hok;
      destruct (IH _ Hok) as (lines & -> & Hsub); simpl;
      eexists; (split; [by rewrite <- !app_assoc|]); simpl;
      apply sublist_skip; repeat first [done | apply sublist_cons].
Qed.

(** A run that throws stopped at a request whose rejection is not caught. *)
Lemma run_ops_Err ops w e :
  (run_ops ops w).1 = Err e →
  ∃ ops1 o ops2, ops = ops1 ++ o :: ops2 ∧ op_caught o = false ∧
    calls (run_ops ops w).2 = calls w ++ (op_request <$> ops1 ++ [o]).
Proof.
  revert w. induction ops as [|o ops IH]; intros w; [done|].
  rewrite run_ops_cons. pose proof (run_op_calls o w) as Ho.
  destruct (run_op o w) as [[[]|e'] w'] eqn:Hrun; simpl in Ho.
  - intros (ops1 & o' & ops2 & -> & ? & Hc)%IH.
    exists (o :: ops1), o', ops2. rewrite Hc, Ho, <- app_assoc. done.
  - intros _. exists [], o, ops. split; [done|]. split; [|done].
    destruct (op_caught o) eqn:Hcaught; [|done].
    pose proof (run_op_caught o w Hcaught) as Hok. by rewrite Hrun in Hok.
Qed.

(** Logged requests whose rejections are all caught never throw. *)
Lemma run_ops_caught ops w :
  Forall (λ o, op_caught o = true) ops → (run_ops ops w).1 = Ok ().
Proof.
  intros Hops. revert w. induction Hops as [|o ops Ho _ IH]; intros w; [done|].
  rewrite run_ops_cons. pose proof (run_op_caught o w Ho) as Hok.
  by destruct (run_op o w) as [[[]|] ?].
Qed.

End run.

(** ** What a program may request

    [emits P m]: whatever the world and whatever the service answers, the
    requests [m] issues all satisfy [P], [m] leaves the earlier ones in
    place, and the service is in the state these requests, served in their
    order, bring it to: the trace is a faithful log.  The lemmas follow the
    constructs of the monad, so that the requests of a command are read off
    its code. *)

Section emits.
Context `{Remote R}.
Implicit Types (P : request → Prop) (w : world R).

(** The service after a list of requests, served in order. *)
Definition serve_all (rqs : list request) (rem : R) : R :=
  foldl (λ r rq, (serve rq r).2) rem rqs.

Definition emits {A} P (m : M R A) : Prop :=
  ∀ w, ∃ new, calls (m w).2 = calls w ++ new ∧ Forall P new ∧
              remote (m w).2 = serve_all new (remote w).

Lemma emits_silent {A} P (m : M R A) :
  (∀ w, calls (m w).2 = calls w ∧ remote (m w).2 = remote w) → emits P m.
Proof. intros Hm w. exists []. destruct (Hm w) as [-> ->]. by rewrite app_nil_r. Qed.

Lemma emits_ret {A} P (a : A) : emits P (mret a).
Proof. by apply emits_silent. Qed.

Lemma emits_lift {A} P (r : result A) : emits P (lift r).
Proof. by apply emits_silent. Qed.

Lemma emits_throw {A} P e : emits P (throw e : M R A).
Proof. apply emits_lift. Qed.

Lemma emits_log P line : emits P (log line).
Proof. by apply emits_silent. Qed.

Lemma emits_http P rq : P rq → emits P (http rq).
Proof.
  intros Hrq w. exists [rq]. unfold http, serve_all. simpl.
  destruct (serve _ _). by repeat constructor.
Qed.

(** One program after another: the requests of the first, then those of
    the second. *)
Lemma emits_then {A B} P (m : M R A) (m' : world R → result B * world R) w :
  emits P m → (∀ w1, ∃ new, calls (m' w1).2 = calls w1 ++ new ∧ Forall P new ∧
                            remote (m' w1).2 = serve_all new (remote w1)) →
  ∃ new, calls (m' (m w).2).2 = calls w ++ new ∧ Forall P new ∧
         remote (m' (m w).2).2 = serve_all new (remote w).
Proof.
  intros Hm Hm'. destruct (Hm w) as (new & Hc & Hnew & Hr).
  destruct (Hm' (m w).2) as (new' & Hc' & Hnew' & Hr'). exists (new ++ new').
  rewrite Hc', Hc, Hr', Hr, <- app_assoc. unfold serve_all. rewrite foldl_app.
  split; [done|]. split; [by apply Forall_app|done].
Qed.

Lemma emits_bind {A B} P (m : M R A) (f : A → M R B) :
  emits P m → (∀ a, emits P (f a)) → emits P (m ≫= f).
Proof.
  intros Hm Hf w. rewrite bind_run.
  destruct (m w) as [[a|e] w1] eqn:Hw.
  - replace w1 with (m w).2 by (by rewrite Hw). apply emits_then; [done|apply Hf].
  - destruct (Hm w) as (new & Hc & Hnew & Hr). rewrite Hw in Hc, Hr. by exists new.
Qed.

Lemma emits_try_catch {A} P (m : M R A) (h : error → M R A) :
  emits P m → (∀ e, emits P (h e)) → emits P (try_catch m h).
Proof.
  intros Hm Hh w. unfold try_catch.
  destruct (m w) as [[a|e] w1] eqn:Hw.
  - destruct (Hm w) as (new & Hc & Hnew & Hr). rewrite Hw in Hc, Hr. by exists new.
  - replace w1 with (m w).2 by (by rewrite Hw). apply emits_then; [done|apply Hh].
Qed.

Lemma emits_for_fold {S A} P (l : list A) (body : S → A → M R S) s :
  (∀ s x, emits P (body s x)) → emits P (for_fold l body s).
Proof.
  intros Hbody. revert s. induction l as [|x l IH]; intros s; simpl.
  - apply emits_ret.
  - apply emits_bind; [apply Hbody | apply IH].
Qed.

Lemma emits_for_of {A} P (l : list A) (body : A → M R unit) :
  (∀ x, emits P (body x)) → emits P (for_of l body).
Proof.
  intros Hbody. induction l as [|x l IH]; simpl.
  - apply emits_ret.
  - apply emits_bind; [apply Hbody | done].
Qed.

Lemma emits_mono {A} P Q (m : M R A) :
  (∀ rq, P rq → Q rq) → emits P m → emits Q m.
Proof.
  intros HPQ Hm w. destruct (Hm w) as (new & ? & Hnew & ?). exists new.
  split; [done|]. split; [by eapply Forall_impl|done].
Qed.

(** A program that requests nothing leaves the service as it is. *)
Lemma emits_nothing {A} (m : M R A) w :
  emits (λ _, False) m → calls (m w).2 = calls w ∧ remote (m w).2 = remote w.
Proof.
  intros Hm. destruct (Hm w) as ([|rq new] & -> & Hnew & ->); [by rewrite app_nil_r|].
  by apply Forall_cons_1 in Hnew as [[] _].
Qed.

(** What every request preserves, every program preserves. *)
Lemma emits_invariant {A} (I : R → Prop) P (m : M R A) w :
  (∀ rq rem, P rq → I rem → I (serve rq rem).2) →
  emits P m → I (remote w) → I (remote (m w).2).
Proof.
  intros Hserve Hm. destruct (Hm w) as (new & _ & Hnew & ->). clear Hm.
  generalize (remote w). induction Hnew as [|rq new Hrq _ IH]; intros rem Hrem; [done|].
  apply IH. by apply Hserve.
Qed.

(** Phases: the requests of [m] fall into consecutive runs, the first of
    requests that satisfy the first predicate, and so on. *)
Definition emits_seq {A} (Ps : list (request → Prop)) (m : M R A) : Prop :=
  ∀ w, ∃ news, calls (m w).2 = calls w ++ concat news ∧ Forall2 (λ P new, Forall P new) Ps news.

Lemma emits_seq_one {A} P (m : M R A) : emits P m → emits_seq [P] m.
Proof.
  intros Hm w. destruct (Hm w) as (new & ? & ? & _). exists [new]. simpl.
  rewrite app_nil_r. split; [done|]. by repeat constructor.
Qed.

Lemma Forall2_Forall_nil (Ps : list (request → Prop)) :
  Forall2 (λ P new, Forall P new) Ps (replicate (length Ps) []).
Proof. induction Ps; simpl; by constructor. Qed.

Lemma concat_replicate_nil {A} n : concat (replicate n (@nil A)) = [].
Proof. by induction n. Qed.

Lemma emits_seq_bind {A B} Ps Qs (m : M R A) (f : A → M R B) :
  emits_seq Ps m → (∀ a, emits_seq Qs (f a)) → emits_seq (Ps ++ Qs) (m ≫= f).
Proof.
  intros Hm Hf w. rewrite bind_run. destruct (Hm w) as (news & Hc & Hnews).
  destruct (m w) as [[a|e] w1]; simpl in Hc.
  - destruct (Hf a w1) as (news' & Hc' & Hnews'). exists (news ++ news').
    rewrite Hc', Hc, concat_app, <- app_assoc. split; [done|]. by apply Forall2_app.
  - exists (news ++ replicate (length Qs) []). simpl.
    rewrite Hc, concat_app, concat_replicate_nil, app_nil_r. split; [done|].
    apply Forall2_app; [done|apply Forall2_Forall_nil].
Qed.

Lemma emits_seq2 {A} P Q (m : M R A) w :
  emits_seq [P; Q] m →
  ∃ new1 new2, calls (m w).2 = calls w ++ new1 ++ new2 ∧ Forall P new1 ∧ Forall Q new2.
Proof.
  intros Hm. destruct (Hm w) as (news & Hc & Hnews).
  apply Forall2_cons_inv_l in Hnews as (new1 & news1 & ? & Hnews & ->).
  apply Forall2_cons_inv_l in Hnews as (new2 & news2 & ? & Hnews & ->).
  apply Forall2_nil_inv_l in Hnews as ->. exists new1, new2.
  simpl in Hc. by rewrite app_nil_r in Hc.
Qed.

Lemma emits_seq3 {A} P Q T (m : M R A) w :
  emits_seq [P; Q; T] m →
  ∃ new1 new2 new3, calls (m w).2 = calls w ++ new1 ++ new2 ++ new3 ∧
    Forall P new1 ∧ Forall Q new2 ∧ Forall T new3.
Proof.
  intros Hm. destruct (Hm w) as (news & Hc & Hnews).
  apply Forall2_cons_inv_l in Hnews as (new1 & news1 & ? & Hnews & ->).
  apply Forall2_cons_inv_l in Hnews as (new2 & news2 & ? & Hnews & ->).
  apply Forall2_cons_inv_l in Hnews as (new3 & news3 & ? & Hnews & ->).
  apply Forall2_nil_inv_l in Hnews as ->. exists new1, new2, new3.
  simpl in Hc. by rewrite app_nil_r in Hc.
Qed.

End emits.

#[export] Hint Resolve emits_ret emits_lift emits_throw emits_log : js.

(** Read the requests off the code: one step per construct, leaving the
    side conditions on the requests themselves. *)
Ltac emits_step :=
  lazymatch goal with
  | |- emits _ (mret _) => apply emits_ret
  | |- emits _ (lift _) => apply emits_lift
  | |- emits _ (throw _) => apply emits_throw
  | |- emits _ (log _) => apply emits_log
  | |- emits _ (http _) => apply emits_http
  | |- emits _ (try_catch _ _) => apply emits_try_catch; [|intros ?]
  | |- emits _ (for_of _ _) => apply emits_for_of; intros ?
  | |- emits _ (for_fold _ _ _) => apply emits_for_fold; intros ? ?
  | |- emits _ (_ ≫= _) => apply emits_bind; [|intros ?]
  | |- emits _ (if ?b then _ else _) => destruct b
  | |- emits _ (match ?p with (_, _) => _ end) => destruct p
  end.

Ltac solve_emits := repeat emits_step.

(** Logged requests request what they log. *)
Lemma run_ops_emits `{Remote R} (ops : list op) :
  emits (λ rq, rq ∈ op_request <$> ops) (run_ops ops).
Proof.
  induction ops as [|o ops IH]; [apply emits_ret|].
  unfold run_ops. cbn [for_of]. apply emits_bind.
  - unfold run_op. solve_emits; rewrite fmap_cons; by left.
  - intros _. eapply emits_mono; [|exact IH]. intros rq Hrq. rewrite fmap_cons. by right.
Qed.

(** The same rules, for the steps whose requests depend on what came
    before: a pure step hands its result to what follows, and the body of
    a loop is run on the elements of the list only. *)
Lemma emits_lift_bind `{Remote R} {A B} (P : request → Prop) (r : result A)
    (f : A → M R B) :
  (∀ a, r = Ok a → emits P (f a)) → emits P (lift r ≫= f).
Proof.
  intros Hf w. rewrite lift_bind_run. destruct r as [a|e]; [by apply Hf|].
  apply (emits_lift P (Err e : result B)).
Qed.

Lemma emits_for_fold_in `{Remote R} {S A} (P : request → Prop) (l : list A)
    (body : S → A → M R S) s :
  (∀ s x, x ∈ l → emits P (body s x)) → emits P (for_fold l body s).
Proof.
  revert s. induction l as [|x l IH]; intros s Hbody; simpl; [apply emits_ret|].
  apply emits_bind; [apply Hbody; left|]. intros s'. apply IH. intros. apply Hbody. by right.
Qed.
