(* ===== verification/Client.v ===== *)
(** * The remote schema client

    [src/src/cli.ts], lines 24-66: the four functions that wrap one or two
    requests each.  [getExistingSchemas] fetches every schema and files it
    under its name; [createSchema] and [createAssociation] post and turn a
    failure into a console line and [null] or [undefined]; [deleteSchema]
    issues the soft delete and then the purge, and reports whether both
    were accepted.

    The theorems give each function's result and trace on every branch:
    which requests are issued, what is logged, and that the functions that
    catch never throw. *)

From stdpp Require Import prelude strings.
From S2P Require Import Prelude JsValue Lodash Remote.

(** ** The code *)

Section code.
Context `{Remote R}.

(** Lines 24-27.  The result is the index: the own properties of the
    object [keyBy] returns. *)
Definition getExistingSchemas : M R (list (string * value)) :=
  data ← http (Request GET "/crm/v3/schemas" VUndefined);
  results ← lift (get_prop data "results");
  mret (keyBy results "name").

(** Lines 29-37.  The [try] covers the request and the read of
    [data.objectTypeId]; the handler reads [objectSchema.name]. *)
Definition createSchema (objectSchema : value) : M R value :=
  try_catch
    (data ← http (Request POST "/crm/v3/schemas" objectSchema);
     lift (get_prop data "objectTypeId"))
    (λ _, name ← lift (get_prop objectSchema "name");
          log ("Failed to Create Schema " +:+ to_string name);;
          mret VNull).

(** Lines 39-49.  Without a [return] in the handler the function yields
    [undefined] after a failure. *)
Definition createAssociation (association : value) : M R value :=
  try_catch
    (from ← lift (get_prop association "fromObjectTypeId");
     data ← http (Request POST
                    ("/crm/v3/schemas/" +:+ to_string from +:+ "/associations")
                    association);
     mret data)
    (λ _, name ← lift (get_prop association "name");
          log ("Failed to Create Association " +:+ to_string name);;
          mret VUndefined).

(** The two requests of [deleteSchema]. *)
Definition soft_delete (objectTypeId : value) : request :=
  Request DELETE ("/crm/v3/schemas/" +:+ to_string objectTypeId) VUndefined.

Definition purge (objectTypeId : value) : request :=
  Request DELETE ("/crm/v3/schemas/" +:+ to_string objectTypeId +:+ "/purge") VUndefined.

(** Lines 51-66.  Each request has a [.catch] that logs and rethrows; the
    outer [try] turns whatever was thrown into [false]. *)
Definition deleteSchema (objectTypeId : value) : M R bool :=
  try_catch
    (try_catch (http (soft_delete objectTypeId))
       (λ e, log (error_line e);; throw e);;
     try_catch (http (purge objectTypeId))
       (λ e, log (error_line e);; throw e);;
     mret true)
    (λ _, log ("Failed to Delete Schema " +:+ to_string objectTypeId);;
          mret false).

End code.

(** ** Runs *)

Section run.
Context `{Remote R}.
Implicit Types (w : world R) (id s a data : value) (e : error).

(** The world after one request. *)
Definition after (rq : request) (rem : R) (lines : list string) w : world R :=
  World rem (console w ++ lines) (calls w ++ [rq]).

Definition schemas_request : request := Request GET "/crm/v3/schemas" VUndefined.

Definition create_request (s : value) : request := Request POST "/crm/v3/schemas" s.

Definition delete_failed (id : value) : string :=
  "Failed to Delete Schema " +:+ to_string id.

Definition create_failed (s : value) : string :=
  "Failed to Create Schema " +:+ to_string (field s "name").

Lemma getExistingSchemas_run w :
  getExistingSchemas w =
  match serve schemas_request (remote w) with
  | (Ok data, rem) =>
      (results ← get_prop data "results"; Ok (keyBy results "name"),
       after schemas_request rem [] w)
  | (Err e, rem) => (Err e, after schemas_request rem [] w)
  end.
Proof.
  unfold getExistingSchemas, after. run_M. fold schemas_request.
  destruct (serve _ _) as [[data|e] rem]; rewrite app_nil_r; [|done].
  by destruct (get_prop data "results").
Qed.

Lemma createSchema_run s w :
  non_nullish s →
  createSchema s w =
  match serve (create_request s) (remote w) with
  | (Ok data, rem) =>
      if is_nullish data
      then (Ok VNull, after (create_request s) rem [create_failed s] w)
      else (Ok (field data "objectTypeId"), after (create_request s) rem [] w)
  | (Err e, rem) => (Ok VNull, after (create_request s) rem [create_failed s] w)
  end.
Proof.
  intros Hs. unfold createSchema, after, create_failed. run_M.
  fold (create_request s). rewrite (field_get_prop s "name") by done.
  destruct (serve _ _) as [[data|e] rem]; simpl; [|done].
  destruct (is_nullish data) eqn:Hd.
  - by destruct data.
  - rewrite (field_get_prop data) by done. by rewrite app_nil_r.
Qed.

Lemma deleteSchema_run id w :
  deleteSchema id w =
  match serve (soft_delete id) (remote w) with
  | (Ok _, rem) =>
      let w1 := after (soft_delete id) rem [] w in
      match serve (purge id) rem with
      | (Ok _, rem') => (Ok true, after (purge id) rem' [] w1)
      | (Err e, rem') =>
          (Ok false, after (purge id) rem' [error_line e; delete_failed id] w1)
      end
  | (Err e, rem) =>
      (Ok false, after (soft_delete id) rem [error_line e; delete_failed id] w)
  end.
Proof.
  unfold deleteSchema, after, delete_failed. run_M.
  destruct (serve (soft_delete id) _) as [[v|e] rem]; simpl.
  - destruct (serve (purge id) _) as [[v'|e'] rem']; simpl;
      by rewrite ?app_nil_r, <- ?app_assoc.
  - by rewrite <- app_assoc.
Qed.

Definition association_request (a : value) : request :=
  Request POST
    ("/crm/v3/schemas/" +:+ to_string (field a "fromObjectTypeId") +:+ "/associations") a.

Definition association_failed (a : value) : string :=
  "Failed to Create Association " +:+ to_string (field a "name").

Lemma createAssociation_run a w :
  non_nullish a →
  createAssociation a w =
  match serve (association_request a) (remote w) with
  | (Ok data, rem) => (Ok data, after (association_request a) rem [] w)
  | (Err e, rem) =>
      (Ok VUndefined, after (association_request a) rem [association_failed a] w)
  end.
Proof.
  intros Ha. unfold createAssociation, after, association_failed, association_request.
  run_M. rewrite !(field_get_prop a) by done. simpl.
  destruct (serve _ _) as [[data|e] rem]; simpl; by rewrite ?app_nil_r.
Qed.

End run.

(** ** Theorems *)

Section theorems.
Context `{Remote R}.
Implicit Types (w : world R) (id s a data : value) (e : error).

(** C16. [deleteSchema] never throws, and it returns [true] exactly when
    the service accepted the soft delete and then the purge. *)
Theorem deleteSchema_result id w :
  (deleteSchema id w).1 =
  Ok (bool_decide
        (is_Ok (serve (soft_delete id) (remote w)).1 ∧
         is_Ok (serve (purge id) (serve (soft_delete id) (remote w)).2).1)).
Proof.
  rewrite deleteSchema_run.
  destruct (serve (soft_delete id) _) as [[v|e] rem]; simpl; [|done].
  by destruct (serve (purge id) rem) as [[v'|e'] rem'].
Qed.

(** The two steps of [deleteSchema] are sequential: the soft delete is
    always requested, the purge only once the soft delete was accepted, and
    nothing else.  A rejected purge leaves the type soft-deleted. *)
Theorem deleteSchema_calls id w :
  calls (deleteSchema id w).2 =
  calls w ++ soft_delete id ::
    (if decide (is_Ok (serve (soft_delete id) (remote w)).1) then [purge id] else []).
Proof.
  rewrite deleteSchema_run.
  destruct (serve (soft_delete id) _) as [[v|e] rem]; simpl; [|done].
  destruct (serve (purge id) rem) as [[v'|e'] rem']; simpl; by rewrite <- app_assoc.
Qed.

(** [createSchema] on a schema object never throws: it issues one
    [POST] of the schema, and returns the [objectTypeId] of the response, or
    [null] after logging the schema's name when the request was rejected or
    the response has no body. *)
Theorem createSchema_result s w :
  non_nullish s →
  calls (createSchema s w).2 = calls w ++ [create_request s] ∧
  ((∃ data, (serve (create_request s) (remote w)).1 = Ok data ∧
            non_nullish data ∧
            (createSchema s w).1 = Ok (field data "objectTypeId") ∧
            console (createSchema s w).2 = console w) ∨
   ((createSchema s w).1 = Ok VNull ∧
    console (createSchema s w).2 = console w ++ [create_failed s])).
Proof.
  intros Hs. rewrite createSchema_run by done.
  destruct (serve _ _) as [[data|e] rem]; simpl; [|by auto].
  destruct (is_nullish data) eqn:Hd; simpl; [by auto|].
  split; [done|]. left. exists data. by rewrite app_nil_r.
Qed.

(** The index [getExistingSchemas] returns files every record of the
    response under its name: looking a name up gives the last record of
    that name. *)
Theorem getExistingSchemas_index w data rem l :
  serve schemas_request (remote w) = (Ok data, rem) →
  get_prop data "results" = Ok (VArr l) →
  ∃ meta, getExistingSchemas w = (Ok meta, after schemas_request rem [] w) ∧
          ∀ name, assoc meta name = last_keyed "name" name l.
Proof.
  intros Hserve Hres. rewrite getExistingSchemas_run, Hserve, Hres. simpl.
  eexists. split; [done|]. intros name. apply keyBy_lookup.
Qed.

End theorems.

(** ** Worked runs *)

Definition ex_schema : value :=
  VObj [("name", VStr "deal"); ("labels", VObj [("singular", VStr "Deal")])].

Definition ex_created : value := VObj [("objectTypeId", VStr "2-77")].

Definition ex_results : list value :=
  [ VObj [("name", VStr "deal"); ("objectTypeId", VStr "2-1")];
    VObj [("name", VStr "company"); ("objectTypeId", VStr "2-2")];
    VObj [("name", VStr "deal"); ("objectTypeId", VStr "2-3")] ].

(** A rejected purge: both requests are issued, the error and the failure
    are logged, the result is [false]. *)
Example deleteSchema_not_purged :
  deleteSchema (VStr "2-77") (ex_world [Ok VNull; Err HttpError]) =
  (Ok false,
   World [] ["Error: Request failed"; "Failed to Delete Schema 2-77"]
     [ Request DELETE "/crm/v3/schemas/2-77" VUndefined;
       Request DELETE "/crm/v3/schemas/2-77/purge" VUndefined ]).
Proof. reflexivity. Qed.

Lemma createSchema_result_witness :
  calls (createSchema ex_schema (ex_world [Ok ex_created])).2 =
    calls (ex_world [Ok ex_created]) ++ [create_request ex_schema] ∧
  ((∃ data, (serve (create_request ex_schema)
               (remote (ex_world [Ok ex_created]))).1 = Ok data ∧
            non_nullish data ∧
            (createSchema ex_schema (ex_world [Ok ex_created])).1 =
              Ok (field data "objectTypeId") ∧
            console (createSchema ex_schema (ex_world [Ok ex_created])).2 =
              console (ex_world [Ok ex_created])) ∨
   ((createSchema ex_schema (ex_world [Ok ex_created])).1 = Ok VNull ∧
    console (createSchema ex_schema (ex_world [Ok ex_created])).2 =
      console (ex_world [Ok ex_created]) ++ [create_failed ex_schema])).
Proof. apply (createSchema_result ex_schema). reflexivity. Defined.

Lemma getExistingSchemas_index_witness :
  ∃ meta,
    getExistingSchemas (ex_world [Ok (VObj [("results", VArr ex_results)])]) =
      (Ok meta,
       after schemas_request []
         [] (ex_world [Ok (VObj [("results", VArr ex_results)])])) ∧
    ∀ name, assoc meta name = last_keyed "name" name ex_results.
Proof.
  apply (getExistingSchemas_index _ (VObj [("results", VArr ex_results)]));
    reflexivity.
Defined.
