(* ===== verification/Update.v ===== *)
(** * [updateSchema]: applying the diff to the remote service

    [src/src/cli.ts], lines 148-208.  After the three filters
    ([Reconcile.reconcile]) the function runs three loops over the plan:
    every property to delete is logged and deleted, every property to create
    is logged and posted, every property to update is logged and patched.
    A rejected [DELETE] or [POST] propagates out of the function; a rejected
    [PATCH] is caught and logged, and the loop goes on.

    The theorems relate the function to the plan: which requests it issues
    and in which order, when it throws, and what it leaves undone then. *)

From stdpp Require Import prelude strings.
From S2P Require Import Prelude JsValue Options Reconcile Remote.

(** ** The code *)

Section code.
Context `{Remote R}.

(** The body of the first loop (lines 178-185). *)
Definition deleteProperty (currentSchema p : value) : M R unit :=
  pn ← lift (get_prop p "name");
  cn ← lift (get_prop currentSchema "name");
  log ("Deleting property " +:+ to_string pn +:+ " on " +:+ to_string cn);;
  id ← lift (get_prop currentSchema "objectTypeId");
  pn ← lift (get_prop p "name");
  http (Request DELETE
          ("/properties/v2/" +:+ to_string id +:+ "/properties/named/" +:+ to_string pn)
          VUndefined);;
  mret ().

(** The body of the second loop (lines 187-195). *)
Definition createProperty (currentSchema p : value) : M R unit :=
  pn ← lift (get_prop p "name");
  cn ← lift (get_prop currentSchema "name");
  log ("Creating property " +:+ to_string pn +:+ " on " +:+ to_string cn);;
  id ← lift (get_prop currentSchema "objectTypeId");
  http (Request POST ("/properties/v2/" +:+ to_string id +:+ "/properties") p);;
  mret ().

(** The body of the third loop (lines 197-207), with its [.catch]. *)
Definition updateProperty (currentSchema p : value) : M R unit :=
  pn ← lift (get_prop p "name");
  cn ← lift (get_prop currentSchema "name");
  log ("Updating property " +:+ to_string pn +:+ " on " +:+ to_string cn);;
  id ← lift (get_prop currentSchema "objectTypeId");
  pn ← lift (get_prop p "name");
  try_catch
    (http (Request PATCH
             ("/properties/v2/" +:+ to_string id +:+ "/properties/named/" +:+ to_string pn)
             p);;
     mret ())
    (λ e, log (error_line e)).

(** [updateSchema] (lines 148-208).  It returns the two schema objects as
    it leaves them: the caller's index entry is the second. *)
Definition updateSchema (updatedSchema currentSchema : value) : M R (value * value) :=
  '(pl, updatedSchema', currentSchema') ← lift (reconcile updatedSchema currentSchema);
  for_of (plan_delete pl) (deleteProperty currentSchema');;
  for_of (plan_create pl) (createProperty currentSchema');;
  for_of (plan_update pl) (updateProperty currentSchema');;
  mret (updatedSchema', currentSchema').

End code.

(** ** The requests of a plan *)

Definition delete_op (cs p : value) : op :=
  Op ("Deleting property " +:+ to_string (field p "name") +:+ " on " +:+
        to_string (field cs "name"))
     (Request DELETE
        ("/properties/v2/" +:+ to_string (field cs "objectTypeId") +:+
           "/properties/named/" +:+ to_string (field p "name"))
        VUndefined)
     false.

Definition create_op (cs p : value) : op :=
  Op ("Creating property " +:+ to_string (field p "name") +:+ " on " +:+
        to_string (field cs "name"))
     (Request POST
        ("/properties/v2/" +:+ to_string (field cs "objectTypeId") +:+ "/properties")
        p)
     false.

Definition update_op (cs p : value) : op :=
  Op ("Updating property " +:+ to_string (field p "name") +:+ " on " +:+
        to_string (field cs "name"))
     (Request PATCH
        ("/properties/v2/" +:+ to_string (field cs "objectTypeId") +:+
           "/properties/named/" +:+ to_string (field p "name"))
        p)
     true.

(** Deletes, then creates, then updates, each in the order of its list. *)
Definition planned (pl : plan) (cs : value) : list op :=
  (delete_op cs <$> plan_delete pl) ++
  (create_op cs <$> plan_create pl) ++
  (update_op cs <$> plan_update pl).

(** The number of properties a schema lists. *)
Definition props_count (schema : value) : nat :=
  match get_prop schema "properties" with Ok (VArr l) => length l | _ => 0 end.

(** ** The loops issue the requests of the plan *)

Section script.
Context `{Remote R}.
Implicit Types (w : world R) (p cs us : value) (pl : plan) (l : list value).

Lemma deleteProperty_op cs p w :
  non_nullish cs → non_nullish p →
  deleteProperty cs p w = run_op (delete_op cs p) w.
Proof.
  intros Hcs Hp. unfold deleteProperty, run_op, delete_op. simpl.
  rewrite !(field_get_prop p), !(field_get_prop cs) by done.
  rewrite !lift_bind_run, bind_run. simpl. by rewrite lift_bind_run.
Qed.

Lemma createProperty_op cs p w :
  non_nullish cs → non_nullish p →
  createProperty cs p w = run_op (create_op cs p) w.
Proof.
  intros Hcs Hp. unfold createProperty, run_op, create_op. simpl.
  rewrite !(field_get_prop p), !(field_get_prop cs) by done.
  rewrite !lift_bind_run, bind_run. simpl. by rewrite lift_bind_run.
Qed.

Lemma updateProperty_op cs p w :
  non_nullish cs → non_nullish p →
  updateProperty cs p w = run_op (update_op cs p) w.
Proof.
  intros Hcs Hp. unfold updateProperty, run_op, update_op. simpl.
  rewrite !(field_get_prop p), !(field_get_prop cs) by done.
  rewrite !lift_bind_run, bind_run. simpl. by rewrite !lift_bind_run.
Qed.

(** A loop over properties that are not nullish is the run of its
    requests. *)
Lemma for_of_ops (body : value → value → M R unit) (mk : value → value → op) cs l w :
  (∀ p w, non_nullish p → body cs p w = run_op (mk cs p) w) →
  Forall non_nullish l →
  for_of l (body cs) w = run_ops (mk cs <$> l) w.
Proof.
  intros Hbody Hl. unfold run_ops. rewrite for_of_fmap. apply for_of_ext.
  intros p w' Hp. rewrite Forall_forall in Hl. apply Hbody; auto.
Qed.

End script.

(** ** The properties of a plan are not nullish *)

Section plan.
Implicit Types (p U C us cs : value) (pl : plan) (r : list value).

Lemma get_prop_non_nullish p k v : get_prop p k = Ok v → non_nullish p.
Proof. intros Hp. apply (get_prop_is_Ok p k). by exists v. Qed.

Lemma toDelete_non_nullish U C r : toDelete U C = Ok r → Forall non_nullish r.
Proof.
  intros (l & _ & _ & Hr)%toDelete_inv. apply Forall_forall. intros p [_ Hp]%Hr.
  apply delete_wanted_true in Hp as (? & ? & ? & _). eauto using get_prop_non_nullish.
Qed.

Lemma toCreate_non_nullish U C r : toCreate U C = Ok r → Forall non_nullish r.
Proof.
  intros (l & _ & _ & Hr)%toCreate_inv. apply Forall_forall. intros p [_ Hp]%Hr.
  apply create_wanted_true in Hp as (? & ? & ? & _). eauto using get_prop_non_nullish.
Qed.

Lemma toUpdate_non_nullish U C r : toUpdate U C = Ok r → Forall non_nullish r.
Proof.
  intros (l & _ & _ & Hr)%toUpdate_inv. apply Forall_forall. intros p [_ Hp]%Hr.
  apply property_changed_true in Hp as (? & q & _ & [_ Hq]%findM_Some_elem_of & _).
  unfold same_name in Hq. apply bind_Ok_iff in Hq as (? & _ & Hq).
  apply bind_Ok_iff in Hq as (? & ? & _). eauto using get_prop_non_nullish.
Qed.

Lemma reconcile_non_nullish us cs pl us' cs' :
  reconcile us cs = Ok (pl, us', cs') →
  non_nullish cs' ∧ Forall non_nullish (plan_delete pl) ∧
  Forall non_nullish (plan_create pl) ∧ Forall non_nullish (plan_update pl).
Proof.
  intros (upd & cur & _ & Hcs & _ & -> & Hd & Hc & Hu)%reconcile_inv.
  destruct (get_prop_properties_obj _ _ Hcs) as [ps ->].
  repeat split;
    eauto using toDelete_non_nullish, toCreate_non_nullish, toUpdate_non_nullish.
Qed.

End plan.

(** ** [updateSchema] as the run of its plan *)

Section run.
Context `{Remote R}.
Implicit Types (w : world R) (p cs us : value) (pl : plan) (e : error).

Lemma updateSchema_script us cs pl us' cs' w :
  reconcile us cs = Ok (pl, us', cs') →
  updateSchema us cs w =
  match run_ops (planned pl cs') w with
  | (Ok _, w') => (Ok (us', cs'), w')
  | (Err e, w') => (Err e, w')
  end.
Proof.
  intros Hrec. destruct (reconcile_non_nullish _ _ _ _ _ Hrec) as (? & ? & ? & ?).
  unfold updateSchema, planned. rewrite lift_bind_run, Hrec, run_ops_app.
  rewrite bind_run, (for_of_ops deleteProperty delete_op)
    by auto using deleteProperty_op.
  destruct (run_ops (delete_op cs' <$> _) w) as [[[]|e] w1]; [|done].
  rewrite run_ops_app, bind_run, (for_of_ops createProperty create_op)
    by auto using createProperty_op.
  destruct (run_ops (create_op cs' <$> _) w1) as [[[]|e] w2]; [|done].
  rewrite bind_run, (for_of_ops updateProperty update_op)
    by auto using updateProperty_op.
  by destruct (run_ops (update_op cs' <$> _) w2) as [[[]|e] w3].
Qed.

Lemma updateSchema_pure_error us cs e w :
  reconcile us cs = Err e → updateSchema us cs w = (Err e, w).
Proof. intros Hrec. unfold updateSchema. by rewrite lift_bind_run, Hrec. Qed.

Lemma updateSchema_Ok_inv us cs w us' cs' w' :
  updateSchema us cs w = (Ok (us', cs'), w') →
  ∃ pl, reconcile us cs = Ok (pl, us', cs').
Proof.
  destruct (reconcile us cs) as [[[pl us0] cs0]|e] eqn:Hrec.
  - rewrite (updateSchema_script _ _ _ _ _ _ Hrec).
    destruct (run_ops _ w) as [[[]|?] ?]; intros [= <- <- <-]. eauto.
  - by rewrite (updateSchema_pure_error _ _ _ _ Hrec).
Qed.

Lemma planned_methods pl cs :
  req_method <$> (op_request <$> planned pl cs) =
  replicate (length (plan_delete pl)) DELETE ++
  replicate (length (plan_create pl)) POST ++
  replicate (length (plan_update pl)) PATCH.
Proof.
  unfold planned. rewrite !fmap_app, <- !list_fmap_compose.
  f_equal; [|f_equal]; by apply fmap_const_replicate.
Qed.

End run.

(** ** The requests of [updateSchema] *)

(** A request on the properties of an object type. *)
Definition is_property_request (rq : request) : Prop :=
  req_method rq ≠ GET ∧ String.prefix "/properties/v2/" (req_path rq) = true.

#[export] Instance is_property_request_dec rq : Decision (is_property_request rq).
Proof. unfold is_property_request. apply _. Defined.

Lemma updateSchema_emits `{Remote R} us cs :
  emits is_property_request (updateSchema us cs).
Proof.
  unfold updateSchema, deleteProperty, createProperty, updateProperty.
  solve_emits; (split; [done|]); apply prefix_app_iff; eauto.
Qed.

(** ** Theorems *)

Section theorems.
Context `{Remote R}.
Implicit Types (w : world R) (o : op) (p cs us : value) (pl : plan) (e : error).

Lemma planned_uncaught pl cs o :
  o ∈ planned pl cs → op_caught o = false →
  req_method (op_request o) = DELETE ∨ req_method (op_request o) = POST.
Proof.
  unfold planned. rewrite !elem_of_app, !list_elem_of_fmap.
  intros [(? & -> & _)|[(? & -> & _)|(? & -> & _)]]; simpl; auto. done.
Qed.

(** C5. Whatever the schemas and whatever the service answers, the
    requests [updateSchema] issues are deletes, then creates, then
    updates: the methods of the new calls read [DELETE* POST* PATCH*]. *)
Theorem updateSchema_order us cs w :
  ∃ done a b c,
    calls (updateSchema us cs w).2 = calls w ++ done ∧
    req_method <$> done =
      replicate a DELETE ++ replicate b POST ++ replicate c PATCH.
Proof.
  destruct (reconcile us cs) as [[[pl us'] cs']|e] eqn:Hrec.
  - rewrite (updateSchema_script _ _ _ _ _ _ Hrec).
    destruct (run_ops_calls (planned pl cs') w) as (done & Hc & Hp & _).
    apply (prefix_of_fmap op_request), (prefix_of_fmap req_method) in Hp.
    rewrite planned_methods in Hp. apply prefix_replicate3 in Hp as (a & b & c & ?).
    exists (op_request <$> done), a, b, c.
    by destruct (run_ops _ w) as [[[]|?] ?].
  - rewrite (updateSchema_pure_error _ _ _ _ Hrec).
    exists [], 0, 0, 0. by rewrite app_nil_r.
Qed.

(** C6. When [updateSchema] returns, the diff succeeded and every request
    of the plan was issued, in the plan's order, and nothing else; each was
    announced on the console, in the same order. *)
Theorem updateSchema_complete us cs w us' cs' w' :
  updateSchema us cs w = (Ok (us', cs'), w') →
  ∃ pl lines,
    reconcile us cs = Ok (pl, us', cs') ∧
    calls w' = calls w ++ (op_request <$> planned pl cs') ∧
    console w' = console w ++ lines ∧
    (op_line <$> planned pl cs') `sublist_of` lines.
Proof.
  destruct (reconcile us cs) as [[[pl us0] cs0]|e] eqn:Hrec.
  - rewrite (updateSchema_script _ _ _ _ _ _ Hrec).
    destruct (run_ops_calls (planned pl cs0) w) as (done & Hc & _ & Hok).
    pose proof (run_ops_console (planned pl cs0) w) as Hlines.
    destruct (run_ops _ w) as [[[]|?] w1]; intros [= <- <- <-].
    destruct Hlines as (lines & ? & ?); [done|].
    exists pl, lines. simpl in *. by rewrite Hc, Hok.
  - by rewrite (updateSchema_pure_error _ _ _ _ Hrec).
Qed.

(** C27. When [updateSchema] throws, either the diff threw and nothing was
    logged or requested, or the last request issued was a [DELETE] or a
    [POST] of the plan, and the requests after it were never issued.  A
    rejected [PATCH] is never the cause. *)
Theorem updateSchema_throws us cs w e w' :
  updateSchema us cs w = (Err e, w') →
  (reconcile us cs = Err e ∧ w' = w) ∨
  ∃ pl us' cs' ops1 o ops2,
    reconcile us cs = Ok (pl, us', cs') ∧
    planned pl cs' = ops1 ++ o :: ops2 ∧
    (req_method (op_request o) = DELETE ∨ req_method (op_request o) = POST) ∧
    calls w' = calls w ++ (op_request <$> ops1 ++ [o]).
Proof.
  destruct (reconcile us cs) as [[[pl us0] cs0]|e0] eqn:Hrec.
  - rewrite (updateSchema_script _ _ _ _ _ _ Hrec). intros Hrun. right.
    destruct (run_ops (planned pl cs0) w) as [[[]|e1] w1] eqn:Hops; [done|].
    injection Hrun as <- <-.
    destruct (run_ops_Err (planned pl cs0) w e1) as (ops1 & o & ops2 & Hpl & Ho & Hc);
      [by rewrite Hops|].
    rewrite Hops in Hc. exists pl, us0, cs0, ops1, o, ops2.
    repeat split; [done..| |done].
    apply (planned_uncaught pl cs0); [|done].
    rewrite Hpl. apply elem_of_app. right. by left.
  - rewrite (updateSchema_pure_error _ _ _ _ Hrec). intros [= <- <-]. by left.
Qed.

(** [updateSchema] issues at most one request for each property of
    the remote record and one for each property of the local schema,
    whatever the schemas hold and whatever the service answers: a remote
    property is deleted at most once, a local one is created or updated,
    never both. *)
Theorem updateSchema_bound us cs w :
  ∃ new, calls (updateSchema us cs w).2 = calls w ++ new ∧
         length new ≤ props_count cs + props_count us.
Proof.
  destruct (reconcile us cs) as [[[pl us'] cs']|e] eqn:Hrec.
  - rewrite (updateSchema_script _ _ _ _ _ _ Hrec).
    destruct (run_ops_calls (planned pl cs') w) as (done & Hc & Hp%prefix_length & _).
    exists (op_request <$> done). split; [by destruct (run_ops _ w) as [[[]|?] ?]|].
    pose proof Hrec as (upd & cur & Hus & Hcs & _)%reconcile_inv.
    destruct (reconcile_plan_length _ _ _ _ _ _ _ Hrec Hus Hcs) as [Hd Hcu].
    unfold props_count. rewrite Hus, Hcs, length_fmap.
    unfold planned in Hp. rewrite !length_app, !length_fmap in Hp. lia.
  - rewrite (updateSchema_pure_error _ _ _ _ Hrec). exists []. simpl.
    split; [by rewrite app_nil_r|lia].
Qed.

(** Updating is best effort: when the plan holds updates only,
    [updateSchema] returns whatever the service answers. *)
Theorem updateSchema_updates_never_throw us cs pl us' cs' w :
  reconcile us cs = Ok (pl, us', cs') →
  plan_delete pl = [] → plan_create pl = [] →
  (updateSchema us cs w).1 = Ok (us', cs').
Proof.
  intros Hrec Hd Hc. rewrite (updateSchema_script _ _ _ _ _ _ Hrec).
  pose proof (run_ops_caught (planned pl cs') w) as Hok.
  unfold planned in *. rewrite Hd, Hc in *. simpl in *.
  destruct (run_ops _ w) as [[[]|?] ?]; [done|].
  discriminate Hok. by apply Forall_fmap, Forall_true.
Qed.

End theorems.

(** ** A worked run

    The schemas of [Reconcile.ex_local] and [Reconcile.ex_remote] against a
    service that plays back canned answers. *)

Definition ex_requests : list request :=
  [ Request DELETE "/properties/v2/2-123/properties/named/legacy_field" VUndefined;
    Request POST "/properties/v2/2-123/properties"
      (mk_prop "fresh" [("type", VStr "string")]);
    Request PATCH "/properties/v2/2-123/properties/named/amount"
      (mk_prop "amount" [("type", VStr "number")]) ].

Definition ex_done : value * value :=
  (delete_prop ex_local "properties", delete_prop ex_remote "properties").

(** Scenario 3 of the specification, with a create and an update beside
    it: one [DELETE] of the property the local file dropped, no request for
    the system property [hs_object_id] nor for the reordered options. *)
Example updateSchema_accepted :
  updateSchema ex_local ex_remote (ex_world []) =
  (Ok ex_done,
   World [] [ "Deleting property legacy_field on deal_x";
              "Creating property fresh on deal_x";
              "Updating property amount on deal_x" ] ex_requests).
Proof. reflexivity. Qed.

(** A rejected [POST] stops the run before the update. *)
Example updateSchema_rejected_create :
  updateSchema ex_local ex_remote (ex_world [Ok VNull; Err HttpError]) =
  (Err HttpError,
   World [] [ "Deleting property legacy_field on deal_x";
              "Creating property fresh on deal_x" ] (take 2 ex_requests)).
Proof. reflexivity. Qed.

(** A rejected [PATCH] is logged and the run returns. *)
Example updateSchema_rejected_update :
  updateSchema ex_local ex_remote (ex_world [Ok VNull; Ok VNull; Err HttpError]) =
  (Ok ex_done,
   World [] [ "Deleting property legacy_field on deal_x";
              "Creating property fresh on deal_x";
              "Updating property amount on deal_x";
              "Error: Request failed" ] ex_requests).
Proof. reflexivity. Qed.

Lemma updateSchema_complete_witness :
  ∃ pl lines,
    reconcile ex_local ex_remote = Ok (pl, ex_done.1, ex_done.2) ∧
    ex_requests = [] ++ (op_request <$> planned pl ex_done.2) ∧
    [ "Deleting property legacy_field on deal_x";
      "Creating property fresh on deal_x";
      "Updating property amount on deal_x" ] = [] ++ lines ∧
    (op_line <$> planned pl ex_done.2) `sublist_of` lines.
Proof.
  apply (updateSchema_complete ex_local ex_remote (ex_world []) _ _
           (World [] [ "Deleting property legacy_field on deal_x";
                       "Creating property fresh on deal_x";
                       "Updating property amount on deal_x" ] ex_requests)).
  reflexivity.
Defined.

Lemma updateSchema_throws_witness :
  (reconcile ex_local ex_remote = Err HttpError ∧
   World [] [ "Deleting property legacy_field on deal_x";
              "Creating property fresh on deal_x" ] (take 2 ex_requests) =
   ex_world [Ok VNull; Err HttpError]) ∨
  ∃ pl us' cs' ops1 o ops2,
    reconcile ex_local ex_remote = Ok (pl, us', cs') ∧
    planned pl cs' = ops1 ++ o :: ops2 ∧
    (req_method (op_request o) = DELETE ∨ req_method (op_request o) = POST) ∧
    take 2 ex_requests = [] ++ (op_request <$> ops1 ++ [o]).
Proof.
  apply (updateSchema_throws ex_local ex_remote (ex_world [Ok VNull; Err HttpError])).
  reflexivity.
Defined.

(** A schema whose only difference is one changed field. *)
Definition ex_local_upd : value :=
  VObj [("name", VStr "deal_x");
        ("properties", VArr [mk_prop "amount" [("type", VStr "number")]])].

Definition ex_remote_upd : value :=
  VObj [("name", VStr "deal_x"); ("objectTypeId", VStr "2-123");
        ("properties", VArr [mk_prop "amount" [("type", VStr "string")]])].

Lemma updateSchema_updates_never_throw_witness :
  (updateSchema ex_local_upd ex_remote_upd (ex_world [Err HttpError])).1 =
  Ok (delete_prop ex_local_upd "properties", delete_prop ex_remote_upd "properties").
Proof.
  apply (updateSchema_updates_never_throw _ _
           (Plan [] [] [mk_prop "amount" [("type", VStr "number")]]));
    reflexivity.
Defined.
