(* ===== verification/Registry.v ===== *)
(** * The registry after an update, and the second run

    The specification asks that [update] be idempotent: run again on the
    same local file, once the changes of the first run are applied, it finds
    nothing to delete, create or update.  What the registry does with the
    requests is not code of the program; this file states it as the
    specification and the protocol describe it ([apply_plan]: a deleted
    property is gone, a created one is appended, a patched one takes the
    fields that were sent) and proves the property of [updateSchema]
    ([src/src/cli.ts], lines 148-208) against it.

    The property needs more than well-formed input: the local names must be
    distinct, and every field of a local property must be a primitive or a
    list of options with primitive labels and values ([stable]).  A nested
    object never compares equal to its copy in the response, so a property
    that has one is patched on every run. *)

From stdpp Require Import prelude strings.
From S2P Require Import Prelude JsValue Options Reconcile Remote Update.

(** ** The registry's side *)

(** [PATCH]: the fields sent replace the fields of the same key and are
    added otherwise. *)
Definition merge (q p : value) : value :=
  match q with
  | VObj qs => VObj (foldl (λ acc k, assoc_set acc k (field p k)) qs (keys_of p))
  | _ => q
  end.

(** What the patches of a list of updates make of one property: it takes
    the fields of the update of its name. *)
Definition patch_all (U : list value) (q : value) : value :=
  match first_named U (pname q) with Some p => merge q p | None => q end.

(** The properties of the object type once the requests of a plan were
    accepted. *)
Definition apply_plan (pl : plan) (cur : list value) : list value :=
  (patch_all (plan_update pl) <$> filter (λ q, pname q ∉ names (plan_delete pl)) cur)
  ++ plan_create pl.

(** A field that compares equal to its own copy. *)
Definition stable_field (v : value) : Prop :=
  match v with
  | VArr l => Forall truthy l ∧ Forall keyed l
  | VObj _ => False
  | _ => True
  end.

#[export] Instance stable_field_dec v : Decision (stable_field v).
Proof. destruct v; simpl; apply _. Defined.

Definition stable (p : value) : Prop :=
  Forall (λ k, stable_field (field p k)) (keys_of p).

#[export] Instance stable_dec p : Decision (stable p).
Proof. unfold stable. apply _. Defined.

Section merge.
Implicit Types (p q : value) (k : string) (qs : list (string * value)).

Lemma assoc_foldl_set (f : string → value) qs ks k :
  assoc (foldl (λ acc k, assoc_set acc k (f k)) qs ks) k =
  if decide (k ∈ ks) then Some (f k) else assoc qs k.
Proof.
  revert qs. induction ks as [|k0 ks IH]; intros qs; cbn [foldl].
  - rewrite decide_False; [done|]. apply not_elem_of_nil.
  - rewrite IH, assoc_set_lookup. destruct (decide (k ∈ ks)) as [Hk|Hk].
    + rewrite decide_True; [done|]. by right.
    + destruct (decide (k = k0)) as [->|Hk0].
      * rewrite decide_True; [done|]. by left.
      * rewrite decide_False; [done|]. by intros [?|?]%elem_of_cons.
Qed.

Lemma named_obj p : named p → ∃ ps, p = VObj ps.
Proof. intros [_ Hn]. destruct p; try done. by eauto. Qed.

Lemma field_merge q p k :
  named q →
  field (merge q p) k = if decide (k ∈ keys_of p) then field p k else field q k.
Proof.
  intros [qs ->]%named_obj. unfold merge, field at 1 3. rewrite !get_prop_obj.
  rewrite assoc_foldl_set. by case_decide.
Qed.

Lemma named_merge q p :
  named q → named p → pname p = pname q →
  named (merge q p) ∧ pname (merge q p) = pname q.
Proof.
  intros Hq Hp Hpq.
  assert (field (merge q p) "name" = VStr (pname q)) as Hname.
  { rewrite field_merge by done. case_decide; [rewrite <- Hpq|]; by apply named_pname. }
  assert (pname (merge q p) = pname q) as Hpn by (unfold pname at 1; by rewrite Hname).
  split; [|done]. split; [|by rewrite Hpn].
  destruct (named_obj q Hq) as [qs ->]. done.
Qed.

End merge.

Section lookup.
Implicit Types (p q : value) (l : list value) (s : string).

Lemma first_named_app l1 l2 s :
  first_named (l1 ++ l2) s =
  match first_named l1 s with Some q => Some q | None => first_named l2 s end.
Proof.
  unfold first_named. induction l1 as [|p l1 IH]; simpl; [done|].
  by case_bool_decide.
Qed.

Lemma first_named_fmap (g : value → value) l s :
  Forall (λ q, pname (g q) = pname q) l →
  first_named (g <$> l) s = g <$> first_named l s.
Proof.
  unfold first_named. induction 1 as [|p l Hp _ IH]; simpl; [done|].
  rewrite Hp. by case_bool_decide.
Qed.

Lemma first_named_filter (P : value → Prop) `{!∀ q, Decision (P q)} l s :
  (∀ q, q ∈ l → pname q = s → P q) →
  first_named (filter P l) s = first_named l s.
Proof.
  unfold first_named. induction l as [|p l IH]; intros HP; [done|].
  rewrite filter_cons. simpl. destruct (decide (P p)) as [Hp|Hp]; simpl.
  - case_bool_decide; [done|]. apply IH. intros. apply HP; [by right|done].
  - rewrite bool_decide_eq_false_2.
    + apply IH. intros. apply HP; [by right|done].
    + intros Hs. apply Hp, HP; [by left|done].
Qed.

Lemma first_named_NoDup l p :
  NoDup (names l) → p ∈ l → first_named l (pname p) = Some p.
Proof.
  unfold first_named, names. induction l as [|q l IH]; intros Hnd Hp.
  - by apply elem_of_nil in Hp.
  - rewrite fmap_cons in Hnd. apply NoDup_cons in Hnd as [Hq Hnd]. simpl.
    apply elem_of_cons in Hp as [->|Hp]; [by rewrite bool_decide_eq_true_2|].
    rewrite bool_decide_eq_false_2; [by apply IH|].
    intros Hqp. apply Hq. rewrite Hqp. by apply list_elem_of_fmap_2.
Qed.

Lemma first_named_filter_NoDup (P : value → Prop) `{!∀ q, Decision (P q)} l p :
  NoDup (names l) → p ∈ l → P p → first_named (filter P l) (pname p) = Some p.
Proof.
  intros Hnd Hp HP. apply first_named_NoDup; [|by apply list_elem_of_filter].
  unfold names. apply (sublist_NoDup _ _ Hnd), fmap_sublist, sublist_filter.
Qed.

End lookup.

(** The plan of well-formed schemas ([Reconcile.reconcile_pure]). *)
Definition spec_plan (upd cur : list value) : plan :=
  Plan (spec_toDelete upd cur) (spec_toCreate upd cur) (spec_toUpdate upd cur).

Section stable.
Implicit Types (v p q : value).

Lemma stable_field_same v : stable_field v → field_differs v v = false.
Proof.
  destruct v; simpl; try done.
  - intros _. by rewrite bool_decide_eq_true_2.
  - intros _. by rewrite bool_decide_eq_true_2.
  - intros _. by rewrite bool_decide_eq_true_2.
  - intros [_ Hk]. by rewrite options_equal_refl by done.
Qed.

Lemma stable_field_comparable v : stable_field v → comparable_field v v.
Proof. destruct v; simpl; try done. by intros [? _]. Qed.

Lemma prop_differs_same p q :
  stable p → (∀ k, k ∈ keys_of p → field q k = field p k) → prop_differs p q = false.
Proof.
  intros Hst Hq. apply not_true_iff_false. unfold prop_differs.
  rewrite existsb_Exists, Exists_exists. intros (k & Hk & Hd).
  assert (stable_field (field p k)) by (by eapply Forall_forall in Hst).
  by rewrite Hq, stable_field_same in Hd.
Qed.

End stable.

Section second_run.
Context (upd cur : list value).
Context (Hupd : Forall named upd) (Hcur : Forall named cur).
Context (Hnd : NoDup (names upd)) (Hst : Forall stable upd).
Implicit Types (p q x : value).

(** A remote property that has a local namesake is kept. *)
Lemma kept_name q :
  pname q ∈ names upd → pname q ∉ names (plan_delete (spec_plan upd cur)).
Proof.
  intros Hq (x & Hx & Hdel)%list_elem_of_fmap.
  apply elem_of_spec_toDelete in Hdel as (_ & _ & Hn). apply Hn. by rewrite <- Hx.
Qed.

Lemma updated_named p : p ∈ plan_update (spec_plan upd cur) → p ∈ upd ∧ named p.
Proof.
  intros [Hp _]%elem_of_spec_toUpdate. split; [done|]. by eapply Forall_forall in Hupd.
Qed.

Definition patched (q : value) : value := patch_all (plan_update (spec_plan upd cur)) q.

Lemma patched_named q : named q → named (patched q) ∧ pname (patched q) = pname q.
Proof.
  intros Hq. unfold patched, patch_all.
  destruct (first_named _ _) as [p|] eqn:Hp; [|done].
  apply first_named_Some in Hp as [[_ Hp]%updated_named Hpq]. by apply named_merge.
Qed.

Lemma apply_plan_unfold :
  apply_plan (spec_plan upd cur) cur =
  (patched <$> filter (λ q, pname q ∉ names (plan_delete (spec_plan upd cur))) cur)
  ++ spec_toCreate upd cur.
Proof. done. Qed.

Lemma apply_plan_named : Forall named (apply_plan (spec_plan upd cur) cur).
Proof.
  rewrite apply_plan_unfold. apply Forall_app. split.
  - apply Forall_fmap. apply Forall_forall. intros q [_ Hq]%list_elem_of_filter.
    apply patched_named. by eapply Forall_forall in Hcur.
  - apply Forall_forall. intros p [Hp _]%elem_of_spec_toCreate.
    by eapply Forall_forall in Hupd.
Qed.

(** The remote counterpart of a local property after the plan is applied:
    it carries the local property's fields, or it is the counterpart of the
    first run, which did not differ. *)
Lemma second_counterpart p q' :
  p ∈ upd →
  first_named (apply_plan (spec_plan upd cur) cur) (pname p) = Some q' →
  (∀ k, k ∈ keys_of p → field q' k = field p k) ∨
  (first_named cur (pname p) = Some q' ∧ prop_differs p q' = false).
Proof.
  intros Hp. rewrite apply_plan_unfold, first_named_app, first_named_fmap, first_named_filter.
  - destruct (first_named cur (pname p)) as [q|] eqn:Hq; simpl.
    + intros [= <-]. apply first_named_Some in Hq as Hq'. destruct Hq' as [Hqc Hqp].
      assert (named q) as Hnq by (by eapply Forall_forall in Hcur).
      unfold patched, patch_all. destruct (first_named (plan_update _) _) as [p2|] eqn:Hp2.
      * left. apply first_named_Some in Hp2 as [[Hp2 _]%updated_named Hp2q].
        assert (p2 = p) as ->.
        { pose proof (first_named_NoDup upd p2 Hnd Hp2) as E1.
          pose proof (first_named_NoDup upd p Hnd Hp) as E2.
          rewrite Hp2q, Hqp in E1. congruence. }
        intros k Hk. rewrite field_merge by done. by rewrite decide_True.
      * right. split; [done|]. apply not_true_iff_false. intros Hd.
        apply first_named_None in Hp2. apply Hp2. rewrite Hqp.
        apply list_elem_of_fmap_2, elem_of_spec_toUpdate. eauto.
    + intros Hc. left. intros k Hk. apply first_named_None in Hq.
      unfold spec_toCreate in Hc.
      rewrite first_named_filter_NoDup in Hc by done. by injection Hc as <-.
  - intros q _ Hq. apply kept_name. rewrite Hq. by apply list_elem_of_fmap_2.
  - apply Forall_forall. intros q [_ Hq]%list_elem_of_filter.
    apply patched_named. by eapply Forall_forall in Hcur.
Qed.

Lemma second_has_counterpart p :
  p ∈ upd → is_Some (first_named (apply_plan (spec_plan upd cur) cur) (pname p)).
Proof.
  intros Hp. rewrite apply_plan_unfold, first_named_app, first_named_fmap, first_named_filter.
  - destruct (first_named cur (pname p)) as [q|] eqn:Hq; simpl; [by eauto|].
    apply first_named_None in Hq. unfold spec_toCreate.
    by rewrite first_named_filter_NoDup.
  - intros q _ Hq. apply kept_name. rewrite Hq. by apply list_elem_of_fmap_2.
  - apply Forall_forall. intros q [_ Hq]%list_elem_of_filter.
    apply patched_named. by eapply Forall_forall in Hcur.
Qed.

Lemma second_toDelete : spec_toDelete upd (apply_plan (spec_plan upd cur) cur) = [].
Proof.
  apply elem_of_nil_inv. intros x (Hx & Hres & Hn)%elem_of_spec_toDelete.
  rewrite apply_plan_unfold in Hx.
  apply elem_of_app in Hx as [(q & -> & [Hkept Hq]%list_elem_of_filter)%list_elem_of_fmap|Hx].
  - assert (named q) as Hnq by (by eapply Forall_forall in Hcur).
    destruct (patched_named q Hnq) as [_ Hpq]. rewrite Hpq in Hres, Hn.
    apply Hkept, list_elem_of_fmap_2, elem_of_spec_toDelete. done.
  - apply elem_of_spec_toCreate in Hx as [Hx _]. by apply Hn, list_elem_of_fmap_2.
Qed.

Lemma second_toCreate : spec_toCreate upd (apply_plan (spec_plan upd cur) cur) = [].
Proof.
  apply elem_of_nil_inv. intros x [Hx Hn%first_named_None]%elem_of_spec_toCreate.
  destruct (second_has_counterpart x Hx) as [q Hq]. congruence.
Qed.

Lemma second_toUpdate : spec_toUpdate upd (apply_plan (spec_plan upd cur) cur) = [].
Proof.
  apply elem_of_nil_inv. intros x (Hx & q' & Hq' & Hd)%elem_of_spec_toUpdate.
  destruct (second_counterpart x q' Hx Hq') as [Hsame|[_ Hsame]]; [|congruence].
  rewrite prop_differs_same in Hd; [done| |done]. by eapply Forall_forall in Hst.
Qed.

Lemma second_comparable :
  Forall (comparable cur) upd →
  Forall (comparable (apply_plan (spec_plan upd cur) cur)) upd.
Proof.
  rewrite !Forall_forall. intros Hcmp p Hp q' Hq'.
  destruct (second_counterpart p q' Hp Hq') as [Hsame|[Hq _]].
  - apply Forall_forall. intros k Hk. rewrite Hsame by done.
    apply stable_field_comparable.
    assert (stable p) as Hsp by (by eapply Forall_forall in Hst).
    by eapply Forall_forall in Hsp.
  - by apply Hcmp.
Qed.

End second_run.

Section theorems.
Context `{Remote R}.

(** C7. Idempotence: when the local property names are distinct and the
    local fields are primitives or well-formed option lists, and the
    registry holds the properties of the first run with its plan applied, a
    second [updateSchema] on the same local schema returns without a request
    and without a line on the console. *)
Theorem updateSchema_idempotent us cs cs2 upd cur pl us' cs' (w : world R) :
  get_prop us "properties" = Ok (VArr upd) →
  get_prop cs "properties" = Ok (VArr cur) →
  Forall named upd → Forall named cur → Forall (comparable cur) upd →
  NoDup (names upd) → Forall stable upd →
  reconcile us cs = Ok (pl, us', cs') →
  get_prop cs2 "properties" = Ok (VArr (apply_plan pl cur)) →
  updateSchema us cs2 w =
  (Ok (delete_prop us "properties", delete_prop cs2 "properties"), w).
Proof.
  intros Hus Hcs Hupd Hcur Hcmp Hnd Hst Hrec Hcs2.
  rewrite (reconcile_pure _ _ _ _ Hus Hcs) in Hrec by done.
  injection Hrec as <- _ _. fold (spec_plan upd cur) in Hcs2.
  erewrite updateSchema_script.
  2:{ apply (reconcile_pure _ _ _ _ Hus Hcs2); [done| |].
      - by apply apply_plan_named.
      - by apply second_comparable. }
  by rewrite second_toDelete, second_toCreate, second_toUpdate.
Qed.

(** C33. A field that holds an object is never identical to the same field
    of the response.  A local property with such a field is therefore in
    [toUpdate] again once the plan of a first run is applied: it is patched
    on every run. *)
Theorem toUpdate_object_field upd cur p k o r :
  Forall named upd → Forall named cur → NoDup (names upd) →
  Forall (comparable (apply_plan (spec_plan upd cur) cur)) upd →
  p ∈ upd → k ∈ keys_of p → field p k = VObj o →
  toUpdate (VArr upd) (VArr (apply_plan (spec_plan upd cur) cur)) = Ok r → p ∈ r.
Proof.
  intros Hupd Hcur Hnd Hcmp Hp Hk Ho.
  rewrite toUpdate_pure by auto using apply_plan_named. intros [= <-].
  destruct (second_has_counterpart upd cur Hupd Hcur Hnd p Hp) as [q Hq].
  apply elem_of_spec_toUpdate. split; [done|]. exists q. split; [done|].
  unfold prop_differs. apply existsb_Exists, Exists_exists. exists k.
  split; [done|]. by rewrite Ho.
Qed.

End theorems.

(** ** The worked example, run twice *)

Definition ex_remote_after : value :=
  VObj [("name", VStr "deal_x"); ("objectTypeId", VStr "2-123");
        ("properties", VArr (apply_plan ex_plan ex_cur))].

Lemma updateSchema_idempotent_witness :
  updateSchema ex_local ex_remote_after (ex_world []) =
  (Ok (delete_prop ex_local "properties", delete_prop ex_remote_after "properties"),
   ex_world []).
Proof.
  apply (updateSchema_idempotent ex_local ex_remote ex_remote_after ex_upd ex_cur ex_plan
           (delete_prop ex_local "properties") (delete_prop ex_remote "properties"));
    try reflexivity; compute_done.
Defined.

(** A property with a nested object.  *)
Definition ex_nested : value :=
  mk_prop "amount" [("modificationMetadata", VObj [("readOnlyValue", VBool false)])].

Lemma toUpdate_object_field_witness :
  toUpdate (VArr [ex_nested])
    (VArr (apply_plan (spec_plan [ex_nested] [ex_nested]) [ex_nested])) = Ok [ex_nested] ∧
  ex_nested ∈ [ex_nested].
Proof.
  split; [reflexivity|].
  apply (toUpdate_object_field [ex_nested] [ex_nested] ex_nested
           "modificationMetadata" [("readOnlyValue", VBool false)]);
    try reflexivity; compute_done.
Defined.
