(* ===== verification/Service.v ===== *)
(** * A reference registry

    The program is written against a remote service it does not implement.
    The theorems of [Client], [Update] and [Commands] hold for every
    service.  This file gives one service in full, as an instance of
    [Remote.Remote]: a registry that routes the eight endpoints of the
    protocol, validates what it is sent, and keeps the schema records with
    their properties.  It is what the specification and the protocol say of
    the registry, no code of the repository.

    Against this registry the assumptions of the other files can be
    discharged: a property request of a plan is accepted, and after
    [updateSchema] the record holds [Registry.apply_plan] of its former
    properties; an acceptable schema of a new name is accepted under the
    next identifier, and an association between two live records is
    accepted.  The registry keeps its records well formed whatever it is
    sent ([wf_registry]): accepted schemas, one per identifier and per
    name, with identifiers it issued. *)

From Stdlib Require Import Ascii.
From stdpp Require Import prelude strings pretty.
From S2P Require Import Prelude JsValue Options Reconcile Remote Update Registry.

(** ** Routing *)

Inductive endpoint : Type :=
| Schemas
| Schema (id : string)
| Purge (id : string)
| Associations (id : string)
| Properties (id : string)
| Property (id name : string)
| NoEndpoint.

(** The endpoint a path names: its segments between slashes, the constant
    ones compared with those of the protocol. *)
Definition endpoint_of (path : string) : endpoint :=
  match split_on "/"%char path "" with
  | [r; a; b; c] =>
      if decide ([r; a; b; c] = [""; "crm"; "v3"; "schemas"]) then Schemas
      else NoEndpoint
  | [r; a; b; c; x] =>
      if decide ([r; a; b; c] = [""; "crm"; "v3"; "schemas"]) then Schema x
      else if decide ([r; a; b; x] = [""; "properties"; "v2"; "properties"])
      then Properties c
      else NoEndpoint
  | [r; a; b; c; x; y] =>
      if decide ([r; a; b; c; y] = [""; "crm"; "v3"; "schemas"; "purge"]) then Purge x
      else if decide ([r; a; b; c; y] = [""; "crm"; "v3"; "schemas"; "associations"])
      then Associations x
      else NoEndpoint
  | [r; a; b; c; x; y; z] =>
      if decide ([r; a; b; x; y] = [""; "properties"; "v2"; "properties"; "named"])
      then Property c z
      else NoEndpoint
  | _ => NoEndpoint
  end.

(** ** Records *)

(** A name the registry accepts: not empty, one segment of a path, and
    without a dot. *)
Definition valid_name (s : string) : Prop :=
  s ≠ "" ∧ free_of "/"%char s ∧ free_of "."%char s.

#[export] Instance valid_name_dec s : Decision (valid_name s).
Proof. unfold valid_name. apply _. Defined.

(** The identifier, the name and the properties of a record, read as the
    program reads them. *)
Definition rec_id (r : value) : string := to_string (field r "objectTypeId").
Definition rec_name (r : value) : string := to_string (field r "name").
Definition rec_props (r : value) : list value :=
  match field r "properties" with VArr l => l | _ => [] end.

(** [r[k] = v] on a record. *)
Definition with_field (k : string) (v : value) (r : value) : value :=
  match r with VObj ps => VObj (assoc_set ps k v) | _ => r end.

Definition with_props (l : list value) (r : value) : value :=
  with_field "properties" (VArr l) r.

(** A property the registry accepts: named, with a name that can stand in
    a path. *)
Definition acceptable (p : value) : Prop := named p ∧ valid_name (pname p).

#[export] Instance acceptable_dec p : Decision (acceptable p).
Proof. unfold acceptable. apply _. Defined.

Definition acceptable_props (l : list value) : Prop :=
  Forall acceptable l ∧ NoDup (names l).

(** A schema the registry accepts: an object with a name and a list of
    acceptable properties with distinct names. *)
Definition schema_ok (s : value) : Prop :=
  match s, field s "name", field s "properties" with
  | VObj _, VStr n, VArr l => valid_name n ∧ acceptable_props l
  | _, _, _ => False
  end.

#[export] Instance schema_ok_dec s : Decision (schema_ok s).
Proof.
  unfold schema_ok, acceptable_props.
  destruct s; try apply _; destruct (field _ "name"); try apply _;
    destruct (field _ "properties"); apply _.
Defined.

(** A record the registry holds: an accepted schema with the identifier the
    registry gave it. *)
Definition wf_record (r : value) : Prop :=
  schema_ok r ∧ field r "objectTypeId" = VStr (rec_id r) ∧ valid_name (rec_id r).

#[export] Instance wf_record_dec r : Decision (wf_record r).
Proof. unfold wf_record. apply _. Defined.

(** ** The state of the registry *)

Record registry : Type := Registry {
  live : list value;
  trash : list value;
  issued : nat }.

Definition lookup_id (id : string) (recs : list value) : option value :=
  List.find (λ r, bool_decide (rec_id r = id)) recs.

Definition ids (recs : list value) : list string := rec_id <$> recs.
Definition rnames (recs : list value) : list string := rec_name <$> recs.

(** The registry with the properties of the record [id] replaced. *)
Definition put_rec (id : string) (l : list value) (r : value) : value :=
  if decide (rec_id r = id) then with_props l r else r.

Definition put_props (id : string) (l : list value) (reg : registry) : registry :=
  Registry (put_rec id l <$> live reg) (trash reg) (issued reg).

(** ** The property endpoints *)

Definition delete_named (name : string) (props : list value) : option (list value) :=
  if decide (name ∈ names props)
  then Some (filter (λ q, pname q ≠ name) props)
  else None.

Definition create_named (p : value) (props : list value) : option (list value) :=
  if decide (acceptable p ∧ pname p ∉ names props)
  then Some (props ++ [p])
  else None.

(** A patch replaces the fields it sends; it may not rename the property. *)
Definition patch_one (name : string) (body q : value) : value :=
  if decide (pname q = name) then merge q body else q.

Definition patch_named (name : string) (body : value) (props : list value)
    : option (list value) :=
  if decide (name ∈ names props ∧
             Forall (λ q, pname q = name →
                          named (merge q body) ∧ pname (merge q body) = name) props)
  then Some (patch_one name body <$> props)
  else None.

(** The object type and the change of its properties a request asks for. *)
Definition prop_action (rq : request)
    : option (string * (list value → option (list value))) :=
  match req_method rq, endpoint_of (req_path rq) with
  | POST, Properties id => Some (id, create_named (req_body rq))
  | PATCH, Property id name => Some (id, patch_named name (req_body rq))
  | DELETE, Property id name => Some (id, delete_named name)
  | _, _ => None
  end.

Definition on_props (id : string) (f : list value → option (list value))
    (resp : value) (reg : registry) : result value * registry :=
  match lookup_id id (live reg) with
  | Some r =>
      match f (rec_props r) with
      | Some props' => (Ok resp, put_props id props' reg)
      | None => (Err HttpError, reg)
      end
  | None => (Err HttpError, reg)
  end.

(** The properties of an object type after a sequence of property requests
    on it, when the registry accepts them all. *)
Fixpoint replay (id : string) (rqs : list request) (l : list value)
    : option (list value) :=
  match rqs with
  | [] => Some l
  | rq :: rqs' =>
      match prop_action rq with
      | Some (id', f) => if decide (id' = id) then f l ≫= replay id rqs' else None
      | None => None
      end
  end.

(** ** The schema endpoints *)

Definition mk_id (n : nat) : string := "2-" +:+ pretty n.

(** The record the registry makes of a schema: the schema with the next
    identifier. *)
Definition new_record (s : value) (reg : registry) : value :=
  with_field "objectTypeId" (VStr (mk_id (issued reg))) s.

(** [POST /crm/v3/schemas]: the schema is validated, its name must be new;
    the record is the schema with the identifier the registry gives it. *)
Definition create_schema (s : value) (reg : registry) : result value * registry :=
  let r := new_record s reg in
  if decide (schema_ok s ∧ wf_record r ∧
             (rec_name r ∉ rnames (live reg)) ∧ (rec_id r ∉ ids (live reg)))
  then (Ok r, Registry (live reg ++ [r]) (trash reg) (S (issued reg)))
  else (Err HttpError, reg).

(** [DELETE /crm/v3/schemas/{id}]: the record leaves the live ones and
    waits for its purge. *)
Definition delete_schema (id : string) (reg : registry) : result value * registry :=
  match lookup_id id (live reg) with
  | Some r =>
      (Ok VNull, Registry (filter (λ r', rec_id r' ≠ id) (live reg))
                   (r :: trash reg) (issued reg))
  | None => (Err HttpError, reg)
  end.

(** [DELETE /crm/v3/schemas/{id}/purge] *)
Definition purge_schema (id : string) (reg : registry) : result value * registry :=
  if decide (id ∈ ids (trash reg))
  then (Ok VNull, Registry (live reg) (filter (λ r', rec_id r' ≠ id) (trash reg))
                    (issued reg))
  else (Err HttpError, reg).

(** [POST /crm/v3/schemas/{id}/associations]: both ends must be live. *)
Definition associate_schemas (id : string) (a : value) (reg : registry)
    : result value * registry :=
  if decide (id ∈ ids (live reg) ∧ to_string (field a "toObjectTypeId") ∈ ids (live reg))
  then (Ok a, reg)
  else (Err HttpError, reg).

(** ** The service *)

Definition serve_registry (rq : request) (reg : registry) : result value * registry :=
  match prop_action rq with
  | Some (id, f) => on_props id f (req_body rq) reg
  | None =>
      match req_method rq, endpoint_of (req_path rq) with
      | GET, Schemas => (Ok (VObj [("results", VArr (live reg))]), reg)
      | POST, Schemas => create_schema (req_body rq) reg
      | DELETE, Schema id => delete_schema id reg
      | DELETE, Purge id => purge_schema id reg
      | POST, Associations id => associate_schemas id (req_body rq) reg
      | _, _ => (Err HttpError, reg)
      end
  end.

#[export] Instance registry_remote : Remote registry := serve_registry.

(** What the registry maintains: its live records are well formed,
    neither an identifier nor a name occurs twice among them, and the
    identifiers of its records, live or awaiting a purge, are among those
    it issued. *)
Definition wf_registry (reg : registry) : Prop :=
  Forall wf_record (live reg) ∧ NoDup (ids (live reg)) ∧
  NoDup (rnames (live reg)) ∧
  Forall (λ id, id ∈ mk_id <$> seq 0 (issued reg)) (ids (live reg ++ trash reg)).

#[export] Instance wf_registry_dec reg : Decision (wf_registry reg).
Proof. unfold wf_registry. apply _. Defined.

(** ** Routing the paths of the program *)

(** The segments of a path are one segment each. *)
Ltac solve_segments :=
  repeat (apply Forall_cons; split; [first [assumption | by compute_done]|]);
  apply Forall_nil_2.

Section routing.
Implicit Types (id name : string).

Lemma valid_name_segment s : valid_name s → free_of "/"%char s.
Proof. by intros (_ & ? & _). Qed.

Lemma valid_name_dotless s : valid_name s → free_of "."%char s.
Proof. by intros (_ & _ & ?). Qed.

Lemma endpoint_properties id :
  free_of "/"%char id →
  endpoint_of ("/properties/v2/" +:+ id +:+ "/properties") = Properties id.
Proof.
  intros Hid. unfold endpoint_of.
  change (_ +:+ _) with (String.concat "/" [""; "properties"; "v2"; id; "properties"]).
  rewrite split_on_concat by (done || solve_segments).
  rewrite decide_False by (by intros [=]). by rewrite decide_True.
Qed.

Lemma endpoint_property id name :
  free_of "/"%char id → free_of "/"%char name →
  endpoint_of ("/properties/v2/" +:+ id +:+ "/properties/named/" +:+ name) =
  Property id name.
Proof.
  intros Hid Hname. unfold endpoint_of.
  change (_ +:+ _)
    with (String.concat "/" [""; "properties"; "v2"; id; "properties"; "named"; name]).
  rewrite split_on_concat by (done || solve_segments). by rewrite decide_True.
Qed.

Lemma endpoint_schema id :
  free_of "/"%char id → endpoint_of ("/crm/v3/schemas/" +:+ id) = Schema id.
Proof.
  intros Hid. unfold endpoint_of.
  change (_ +:+ _) with (String.concat "/" [""; "crm"; "v3"; "schemas"; id]).
  rewrite split_on_concat by (done || solve_segments). by rewrite decide_True.
Qed.

Lemma endpoint_purge id :
  free_of "/"%char id → endpoint_of ("/crm/v3/schemas/" +:+ id +:+ "/purge") = Purge id.
Proof.
  intros Hid. unfold endpoint_of.
  change (_ +:+ _) with (String.concat "/" [""; "crm"; "v3"; "schemas"; id; "purge"]).
  rewrite split_on_concat by (done || solve_segments). by rewrite decide_True.
Qed.

Lemma endpoint_associations id :
  free_of "/"%char id →
  endpoint_of ("/crm/v3/schemas/" +:+ id +:+ "/associations") = Associations id.
Proof.
  intros Hid. unfold endpoint_of.
  change (_ +:+ _)
    with (String.concat "/" [""; "crm"; "v3"; "schemas"; id; "associations"]).
  rewrite split_on_concat by (done || solve_segments).
  rewrite decide_False by (by intros [=]). by rewrite decide_True.
Qed.

End routing.

(** ** Records and their fields *)

Section records.
Implicit Types (r v : value) (k : string) (l : list value) (ps : list (string * value)).

Lemma field_assoc_set ps k v k' :
  field (VObj (assoc_set ps k v)) k' =
  if decide (k' = k) then v else field (VObj ps) k'.
Proof. unfold field. rewrite !get_prop_obj, assoc_set_lookup. by case_decide. Qed.

Lemma schema_ok_inv s :
  schema_ok s →
  ∃ ps n l, s = VObj ps ∧ field s "name" = VStr n ∧ field s "properties" = VArr l ∧
            valid_name n ∧ acceptable_props l.
Proof.
  unfold schema_ok. destruct s as [| | | | | |ps]; try done.
  destruct (field _ "name") as [| | | |n| |]; try done.
  destruct (field _ "properties") as [| | | | |l|]; try done.
  intros [? ?]. by exists ps, n, l.
Qed.

Lemma schema_ok_intro ps n l :
  field (VObj ps) "name" = VStr n → field (VObj ps) "properties" = VArr l →
  valid_name n → acceptable_props l → schema_ok (VObj ps).
Proof. unfold schema_ok. by intros -> -> ? ?. Qed.

Lemma wf_record_props r : wf_record r → acceptable_props (rec_props r).
Proof.
  intros [(ps & n & l & -> & _ & Hl & _ & ?)%schema_ok_inv _].
  unfold rec_props. by rewrite Hl.
Qed.

Lemma wf_record_name r : wf_record r → valid_name (rec_name r).
Proof.
  intros [(ps & n & l & -> & Hn & _ & ? & _)%schema_ok_inv _].
  unfold rec_name. by rewrite Hn.
Qed.

Lemma wf_record_non_nullish r : wf_record r → non_nullish r.
Proof. by intros [(ps & n & l & -> & _)%schema_ok_inv _]. Qed.

(** Replacing the properties of a record leaves the rest of it alone. *)
Lemma with_props_record l r :
  wf_record r → acceptable_props l →
  wf_record (with_props l r) ∧ rec_id (with_props l r) = rec_id r ∧
  rec_name (with_props l r) = rec_name r ∧ rec_props (with_props l r) = l.
Proof.
  intros [(ps & n & l0 & -> & Hn & Hl0 & ? & ?)%schema_ok_inv [Hid ?]] Hl.
  unfold with_props, with_field, rec_id, rec_name, rec_props.
  rewrite !field_assoc_set. simpl. split; [|done]. split; [|split].
  - apply (schema_ok_intro _ n l); [rewrite field_assoc_set; simpl..|done|done]; done.
  - unfold rec_id. by rewrite field_assoc_set.
  - unfold rec_id. by rewrite field_assoc_set.
Qed.

Lemma with_props_same r : wf_record r → with_props (rec_props r) r = r.
Proof.
  intros [(ps & n & l & -> & _ & Hl & _)%schema_ok_inv _].
  unfold rec_props. rewrite Hl. unfold with_props, with_field. f_equal.
  apply assoc_set_same. unfold field in Hl. rewrite get_prop_obj in Hl.
  destruct (assoc ps "properties"); by simplify_eq/=.
Qed.

Lemma with_props_with_props l1 l2 r :
  with_props l2 (with_props l1 r) = with_props l2 r.
Proof. destruct r; try done. unfold with_props. simpl. by rewrite assoc_set_set. Qed.

Lemma with_props_delete_prop l r :
  delete_prop (with_props l r) "properties" = delete_prop r "properties".
Proof.
  destruct r as [| | | | | |ps]; try done. unfold with_props. simpl. f_equal.
  induction ps as [|[k v] ps IH]; simpl.
  - by rewrite filter_cons_False, filter_nil by (simpl; auto).
  - case_decide as Hk; subst.
    + by rewrite !filter_cons_False by (simpl; auto).
    + by rewrite !filter_cons, IH.
Qed.

(** An accepted schema with an identifier put in is a record. *)
Lemma with_id_record id s :
  schema_ok s → valid_name id →
  wf_record (with_field "objectTypeId" (VStr id) s) ∧
  rec_id (with_field "objectTypeId" (VStr id) s) = id ∧
  rec_name (with_field "objectTypeId" (VStr id) s) = rec_name s.
Proof.
  intros (ps & n & l & -> & Hn & Hl & ? & ?)%schema_ok_inv Hid.
  unfold wf_record, rec_id, rec_name, with_field. rewrite !field_assoc_set. simpl.
  split_and!; try done.
  by apply (schema_ok_intro _ n l); rewrite ?field_assoc_set.
Qed.

End records.

(** ** Identifiers *)

Section identifiers.
Implicit Types (n m : nat) (sep : ascii) (reg : registry).

Lemma pretty_N_go_free sep x s :
  (∀ digit, pretty_N_char digit ≠ sep) → free_of sep s → free_of sep (pretty_N_go x s).
Proof.
  intros Hsep. revert s. induction (N.lt_wf_0 x) as [x _ IH]; intros s Hs.
  destruct (decide (0 < x)%N) as [Hx|Hx].
  - rewrite pretty_N_go_step by done. apply IH; [by apply N.div_lt|].
    by apply free_of_cons.
  - by replace x with 0%N by lia.
Qed.

(** The decimal notation of a number holds digits only. *)
Lemma pretty_nat_free sep n :
  (∀ digit, pretty_N_char digit ≠ sep) → free_of sep (pretty n).
Proof.
  intros Hsep. unfold pretty, pretty_nat, pretty, pretty_N.
  case_decide; [|apply pretty_N_go_free; [done|by constructor]].
  apply free_of_cons. split; [apply (Hsep 0%N)|by constructor].
Qed.

Lemma mk_id_free sep n :
  (∀ digit, pretty_N_char digit ≠ sep) → sep ≠ "2"%char → sep ≠ "-"%char →
  free_of sep (mk_id n).
Proof.
  intros Hsep H2 Hd. unfold mk_id. rewrite !append_cons, append_nil_l.
  do 2 (apply free_of_cons; split; [done|]). by apply pretty_nat_free.
Qed.

(** The identifiers the registry issues are names it accepts, and they
    differ from one another. *)
Lemma mk_id_valid n : valid_name (mk_id n).
Proof.
  split_and!; [by unfold mk_id; rewrite append_cons|apply mk_id_free..];
    try done; intros digit; unfold pretty_N_char; by repeat case_match.
Qed.

Lemma mk_id_inj n m : mk_id n = mk_id m → n = m.
Proof.
  unfold mk_id. rewrite !append_cons, !append_nil_l. intros [= E].
  by apply (inj pretty).
Qed.

Lemma mk_id_fresh n : mk_id n ∉ mk_id <$> seq 0 n.
Proof.
  intros (m & ->%mk_id_inj & Hm%elem_of_seq)%list_elem_of_fmap. lia.
Qed.

End identifiers.

(** ** The property endpoints keep the properties acceptable *)

Section property_lists.
Implicit Types (p q body : value) (l : list value) (name : string).

Lemma acceptable_named l : Forall acceptable l → Forall named l.
Proof. intros Hl. eapply Forall_impl; [exact Hl|]. by intros ? [? _]. Qed.

Lemma delete_named_Some name l l' :
  delete_named name l = Some l' ↔
  name ∈ names l ∧ l' = filter (λ q, pname q ≠ name) l.
Proof. unfold delete_named. case_decide; naive_solver. Qed.

Lemma create_named_Some p l l' :
  create_named p l = Some l' ↔ acceptable p ∧ pname p ∉ names l ∧ l' = l ++ [p].
Proof. unfold create_named. case_decide; naive_solver. Qed.

Lemma patch_one_name name body l :
  Forall (λ q, pname q = name → named (merge q body) ∧ pname (merge q body) = name) l →
  names (patch_one name body <$> l) = names l.
Proof.
  unfold names. rewrite <- list_fmap_compose. intros Hl. apply Forall_fmap_ext_1.
  eapply Forall_impl; [exact Hl|]. intros q Hq. unfold patch_one. simpl.
  case_decide as Hn; [|done]. destruct (Hq Hn) as [_ ->]. done.
Qed.

Lemma delete_named_acceptable name l l' :
  acceptable_props l → delete_named name l = Some l' → acceptable_props l'.
Proof.
  intros [Hl Hnd] [_ ->]%delete_named_Some. split.
  - by apply Forall_filter_1.
  - unfold names. apply (sublist_NoDup _ _ Hnd), fmap_sublist, sublist_filter.
Qed.

Lemma create_named_acceptable p l l' :
  acceptable_props l → create_named p l = Some l' → acceptable_props l'.
Proof.
  intros [Hl Hnd] (Hp & Hn & ->)%create_named_Some. split.
  - apply Forall_app. split; [done|]. by apply Forall_singleton.
  - unfold names. rewrite fmap_app. apply NoDup_app. repeat split; [done| |].
    + intros x Hx [->|[]%elem_of_nil]%elem_of_cons. done.
    + apply NoDup_singleton.
Qed.

Lemma patch_named_acceptable name body l l' :
  acceptable_props l → patch_named name body l = Some l' → acceptable_props l'.
Proof.
  unfold patch_named. intros [Hl Hnd]. case_decide as Hok; [|done].
  intros [= <-]. destruct Hok as [_ Hok]. split; [|by rewrite patch_one_name].
  apply Forall_fmap. rewrite Forall_forall in Hl, Hok. apply Forall_forall.
  intros q Hq. unfold patch_one. simpl. case_decide as Hn; [|by apply Hl].
  destruct (Hok q Hq Hn) as [? Hname]. split; [done|]. rewrite Hname, <- Hn.
  by apply Hl.
Qed.

(** Whatever a property request asks for, acceptable properties stay
    acceptable. *)
Lemma prop_action_acceptable rq id f l l' :
  prop_action rq = Some (id, f) → acceptable_props l → f l = Some l' →
  acceptable_props l'.
Proof.
  unfold prop_action.
  destruct (req_method rq), (endpoint_of (req_path rq)); intros [= <- <-];
    eauto using delete_named_acceptable, create_named_acceptable,
      patch_named_acceptable.
Qed.

End property_lists.

(** ** The records of the registry *)

Section registry.
Implicit Types (reg : registry) (r : value) (id : string) (l : list value).

Lemma rec_id_with_props l r : rec_id (with_props l r) = rec_id r.
Proof.
  destruct r; try done. unfold rec_id, with_props, with_field.
  by rewrite field_assoc_set.
Qed.

Lemma rec_name_with_props l r : rec_name (with_props l r) = rec_name r.
Proof.
  destruct r; try done. unfold rec_name, with_props, with_field.
  by rewrite field_assoc_set.
Qed.

Lemma rec_id_put_rec id l r : rec_id (put_rec id l r) = rec_id r.
Proof. unfold put_rec. case_decide; [apply rec_id_with_props|done]. Qed.

Lemma rec_name_put_rec id l r : rec_name (put_rec id l r) = rec_name r.
Proof. unfold put_rec. case_decide; [apply rec_name_with_props|done]. Qed.

Lemma ids_put_props id l reg : ids (live (put_props id l reg)) = ids (live reg).
Proof.
  unfold ids. simpl. rewrite <- list_fmap_compose.
  apply list_fmap_ext. intros _ r _. apply rec_id_put_rec.
Qed.

Lemma rnames_put_props id l reg : rnames (live (put_props id l reg)) = rnames (live reg).
Proof.
  unfold rnames. simpl. rewrite <- list_fmap_compose.
  apply list_fmap_ext. intros _ r _. apply rec_name_put_rec.
Qed.

Lemma lookup_put_props id id' l reg :
  lookup_id id' (live (put_props id l reg)) = put_rec id l <$> lookup_id id' (live reg).
Proof. apply (find_key_fmap rec_id). intros r. apply rec_id_put_rec. Qed.

Lemma put_props_put_props id l1 l2 reg :
  put_props id l2 (put_props id l1 reg) = put_props id l2 reg.
Proof.
  unfold put_props. simpl. f_equal. rewrite <- list_fmap_compose.
  apply list_fmap_ext. intros _ r _. simpl. unfold put_rec.
  destruct (decide (rec_id r = id)) as [Hr|Hr].
  - by rewrite decide_True, with_props_with_props by (by rewrite rec_id_with_props).
  - by rewrite decide_False.
Qed.

Lemma wf_put_props id l reg :
  wf_registry reg → acceptable_props l → wf_registry (put_props id l reg).
Proof.
  intros (Hrecs & Hids & Hnames & Hiss) Hl.
  split; [|unfold ids in *; rewrite fmap_app in *;
           by rewrite ids_put_props, rnames_put_props].
  simpl. apply Forall_fmap. eapply Forall_impl; [exact Hrecs|]. intros r Hr. simpl.
  unfold put_rec. case_decide; [|done]. by apply with_props_record.
Qed.

(** Putting back what the record holds changes nothing. *)
Lemma put_props_same id r reg :
  wf_registry reg → lookup_id id (live reg) = Some r →
  put_props id (rec_props r) reg = reg.
Proof.
  intros (Hrecs & Hids & _) Hr. destruct reg as [recs tr n]. unfold put_props. simpl in *.
  f_equal. rewrite <- (list_fmap_id recs) at 2. apply Forall_fmap_ext_1, Forall_forall.
  intros r' Hr'. unfold put_rec. case_decide as Hid; [|done].
  assert (r' = r) as ->.
  { pose proof (find_key_NoDup rec_id recs r' Hids Hr') as E.
    rewrite Hid in E. unfold lookup_id in Hr. unfold find_key in E. congruence. }
  apply with_props_same. by eapply Forall_forall in Hrecs.
Qed.

End registry.

(** ** Every request keeps the registry well formed *)

Section invariant.
Implicit Types (reg : registry) (rq : request) (r : value) (id : string).

Lemma on_props_wf rq id f resp reg :
  prop_action rq = Some (id, f) → wf_registry reg →
  wf_registry (on_props id f resp reg).2.
Proof.
  intros Hrq Hreg. unfold on_props.
  destruct (lookup_id id (live reg)) as [r|] eqn:Hr; [|done].
  destruct (f (rec_props r)) as [l'|] eqn:Hf; [|done].
  apply wf_put_props; [done|]. apply (prop_action_acceptable rq id f (rec_props r)); [done| |done].
  apply find_key_Some in Hr as [Hr _]. destruct Hreg as [Hrecs _].
  apply wf_record_props. by eapply Forall_forall in Hrecs.
Qed.

(** A record that is new by its identifier and its name joins the live
    ones under the next identifier. *)
Lemma wf_registry_snoc r reg :
  wf_registry reg → wf_record r → rec_id r = mk_id (issued reg) →
  rec_name r ∉ rnames (live reg) → rec_id r ∉ ids (live reg) →
  wf_registry (Registry (live reg ++ [r]) (trash reg) (S (issued reg))).
Proof.
  intros (Hrecs & Hids & Hnames & Hiss) Hr Hid Hname Hnew.
  split_and!; cbn [live issued].
  - apply Forall_app. split; [done|]. by apply Forall_singleton.
  - unfold ids. rewrite fmap_app. by apply NoDup_snoc.
  - unfold rnames. rewrite fmap_app. by apply NoDup_snoc.
  - rewrite Forall_forall in Hiss. apply Forall_forall. intros id Hin.
    rewrite seq_S, fmap_app, elem_of_app. unfold ids in Hin, Hiss.
    rewrite !fmap_app in Hin. cbn [fmap list_fmap] in Hin.
    rewrite !elem_of_app, list_elem_of_singleton in Hin.
    destruct Hin as [[? | ->] | ?]; [left|right; rewrite Hid; by left|left];
      apply Hiss; rewrite fmap_app, elem_of_app; auto.
Qed.

Lemma create_schema_wf s reg : wf_registry reg → wf_registry (create_schema s reg).2.
Proof.
  intros Hreg. unfold create_schema.
  case_decide as Hok; [|done]. destruct Hok as (_ & Hr & Hname & Hid).
  apply wf_registry_snoc; try done.
  destruct Hr as (_ & Hf & _). destruct s; try done.
  unfold rec_id, new_record, with_field. by rewrite field_assoc_set.
Qed.

(** Records that leave the live ones, for the others or for good, leave a
    well-formed registry. *)
Lemma wf_registry_sub reg recs tr :
  wf_registry reg → sublist recs (live reg) → tr ⊆ live reg ++ trash reg →
  wf_registry (Registry recs tr (issued reg)).
Proof.
  intros (Hrecs & Hids & Hnames & Hiss) Hsub Htr. split_and!; simpl.
  - rewrite Forall_forall in Hrecs. apply Forall_forall. intros r Hr.
    by eapply Hrecs, elem_of_sublist.
  - by apply (sublist_NoDup _ _ Hids), fmap_sublist.
  - by apply (sublist_NoDup _ _ Hnames), fmap_sublist.
  - rewrite Forall_forall in Hiss. apply Forall_forall.
    intros id (r & -> & Hr)%list_elem_of_fmap. apply Hiss, list_elem_of_fmap_2.
    apply elem_of_app in Hr as [Hr|Hr]; [|by apply Htr].
    apply elem_of_app. left. by eapply elem_of_sublist.
Qed.

Lemma delete_schema_wf id reg : wf_registry reg → wf_registry (delete_schema id reg).2.
Proof.
  intros Hreg. unfold delete_schema.
  destruct (lookup_id id (live reg)) as [r|] eqn:Hr; [|done].
  apply find_key_Some in Hr as [Hr _].
  apply wf_registry_sub; [done|apply sublist_filter|].
  intros r' [->|?]%elem_of_cons; apply elem_of_app; auto.
Qed.

Lemma purge_schema_wf id reg : wf_registry reg → wf_registry (purge_schema id reg).2.
Proof.
  intros Hreg. unfold purge_schema. case_decide; [|done].
  apply wf_registry_sub; [done..|].
  intros r [_ ?]%list_elem_of_filter. apply elem_of_app. by right.
Qed.

(** The invariant of the registry. *)
Lemma serve_wf rq reg : wf_registry reg → wf_registry (serve rq reg).2.
Proof.
  intros Hreg. unfold serve, registry_remote, serve_registry.
  destruct (prop_action rq) as [[id f]|] eqn:Hrq; [by eapply on_props_wf|].
  destruct (req_method rq), (endpoint_of (req_path rq)); try done;
    auto using create_schema_wf, delete_schema_wf, purge_schema_wf.
  unfold associate_schemas. by case_decide.
Qed.

(** The next identifier is not that of a live record. *)
Lemma next_id_fresh reg : wf_registry reg → mk_id (issued reg) ∉ ids (live reg).
Proof.
  intros (_ & _ & _ & Hiss) Hin. eapply Forall_forall in Hiss.
  - by apply mk_id_fresh in Hiss.
  - unfold ids. rewrite fmap_app. apply elem_of_app. by left.
Qed.

End invariant.

(** ** The schema endpoints, served *)

Section schemas.
Implicit Types (reg : registry) (s a : value) (id : string).

Lemma mk_id_truthy n : to_boolean (VStr (mk_id n)) = true.
Proof. unfold mk_id. by rewrite append_cons. Qed.

Lemma new_record_spec s reg :
  schema_ok s →
  wf_record (new_record s reg) ∧ rec_id (new_record s reg) = mk_id (issued reg) ∧
  rec_name (new_record s reg) = rec_name s ∧
  field (new_record s reg) "objectTypeId" = VStr (mk_id (issued reg)).
Proof.
  intros Hs. destruct (with_id_record (mk_id (issued reg)) s Hs (mk_id_valid _))
    as (Hr & Hid & Hn).
  split_and!; try done. destruct Hr as (_ & Hf & _). by rewrite <- Hid.
Qed.

(** A well-formed registry accepts every acceptable schema of a new name. *)
Lemma serve_create s reg :
  wf_registry reg → schema_ok s → rec_name s ∉ rnames (live reg) →
  serve (Request POST "/crm/v3/schemas" s) reg =
  (Ok (new_record s reg),
   Registry (live reg ++ [new_record s reg]) (trash reg) (S (issued reg))).
Proof.
  intros Hreg Hs Hname. unfold serve, registry_remote, serve_registry. simpl.
  unfold create_schema. fold (new_record s reg).
  destruct (with_id_record (mk_id (issued reg)) s Hs (mk_id_valid _))
    as (Hr & Hid & Hn). fold (new_record s reg) in Hr, Hid, Hn.
  rewrite decide_True; [done|]. rewrite Hn, Hid. split_and!; try done.
  by apply next_id_fresh.
Qed.

(** It accepts an association between two live records. *)
Lemma serve_associate id a reg :
  valid_name id → id ∈ ids (live reg) →
  to_string (field a "toObjectTypeId") ∈ ids (live reg) →
  serve (Request POST ("/crm/v3/schemas/" +:+ id +:+ "/associations") a) reg =
  (Ok a, reg).
Proof.
  intros Hid%valid_name_segment Hfrom Hto.
  unfold serve, registry_remote, serve_registry, prop_action. simpl.
  rewrite endpoint_associations by done. unfold associate_schemas.
  by rewrite decide_True.
Qed.

End schemas.

(** ** Runs of property requests *)

Section replay.
Implicit Types (reg : registry) (rq : request) (r : value) (id : string)
  (l : list value) (ops : list op).

Lemma replay_app id rqs1 rqs2 l :
  replay id (rqs1 ++ rqs2) l = replay id rqs1 l ≫= replay id rqs2.
Proof.
  revert l. induction rqs1 as [|rq rqs1 IH]; intros l; simpl; [done|].
  destruct (prop_action rq) as [[id' f]|]; [|done]. case_decide; [|done].
  destruct (f l) as [l1|]; simpl; [apply IH|done].
Qed.

Lemma replay_acceptable id rqs l l' :
  acceptable_props l → replay id rqs l = Some l' → acceptable_props l'.
Proof.
  revert l. induction rqs as [|rq rqs IH]; intros l Hl; [by intros [= <-]|].
  simpl. destruct (prop_action rq) as [[id' f]|] eqn:Hrq; [|done].
  case_decide; [|done]. destruct (f l) as [l1|] eqn:Hf; [|done]. simpl.
  apply IH. by eapply prop_action_acceptable.
Qed.

(** An accepted property request puts the new properties in the record. *)
Lemma serve_prop_action rq id f l' r reg :
  prop_action rq = Some (id, f) → lookup_id id (live reg) = Some r →
  f (rec_props r) = Some l' →
  serve rq reg = (Ok (req_body rq), put_props id l' reg).
Proof.
  intros Hrq Hr Hf. unfold serve, registry_remote, serve_registry, on_props.
  by rewrite Hrq, Hr, Hf.
Qed.

Lemma lookup_put_props_wf id l r reg :
  wf_registry reg → acceptable_props l → lookup_id id (live reg) = Some r →
  ∃ r', lookup_id id (live (put_props id l reg)) = Some r' ∧ rec_props r' = l.
Proof.
  intros [Hrecs _] Hl Hr. rewrite lookup_put_props, Hr. simpl.
  apply find_key_Some in Hr as [Hr Hid]. eexists. split; [done|].
  unfold put_rec. rewrite decide_True by done.
  apply with_props_record; [|done]. by eapply Forall_forall in Hrecs.
Qed.

(** The registry accepts a list of logged property requests on one object
    type when their replay succeeds: every line is logged, every request
    issued, and the record holds the replayed properties. *)
Lemma run_ops_registry id ops r l' reg c k :
  wf_registry reg → lookup_id id (live reg) = Some r →
  replay id (op_request <$> ops) (rec_props r) = Some l' →
  run_ops ops (World reg c k) =
  (Ok (), World (put_props id l' reg) (c ++ (op_line <$> ops))
            (k ++ (op_request <$> ops))).
Proof.
  revert r reg c k. induction ops as [|o ops IH]; intros r reg c k Hreg Hr Hre.
  - simpl in Hre. injection Hre as <-.
    by rewrite run_ops_nil, put_props_same, !app_nil_r.
  - rewrite fmap_cons in Hre. simpl in Hre.
    destruct (prop_action (op_request o)) as [[id' f]|] eqn:Ho; [|done].
    case_decide; [subst id'|done].
    destruct (f (rec_props r)) as [l1|] eqn:Hf; [|done]. simpl in Hre.
    assert (acceptable_props l1) as Hl1.
    { apply (prop_action_acceptable _ _ _ _ _ Ho) in Hf; [done|].
      apply find_key_Some in Hr as [Hr _]. destruct Hreg as [Hrecs _].
      apply wf_record_props. by eapply Forall_forall in Hrecs. }
    destruct (lookup_put_props_wf id l1 r reg) as (r1 & Hr1 & Hl1'); [done..|].
    rewrite run_ops_cons, run_op_run. simpl.
    rewrite (serve_prop_action _ _ _ _ _ _ Ho Hr Hf).
    rewrite <- Hl1' in Hre.
    destruct (op_caught o); simpl;
      rewrite (IH r1 _ _ _ (wf_put_props _ _ _ Hreg Hl1) Hr1 Hre);
      by rewrite put_props_put_props, ?app_nil_r, <- !app_assoc.
Qed.

End replay.

(** ** The requests of a plan, replayed *)

Section plans.
Implicit Types (cs p q : value) (l D C U : list value) (id : string).

Lemma acceptable_name p : acceptable p → to_string (field p "name") = pname p.
Proof. intros [[_ ->] _]. done. Qed.

Lemma prop_action_delete cs p :
  valid_name (rec_id cs) → acceptable p →
  prop_action (op_request (delete_op cs p)) = Some (rec_id cs, delete_named (pname p)).
Proof.
  intros Hid%valid_name_segment Hp. unfold prop_action, delete_op. simpl.
  rewrite (acceptable_name p Hp). fold (rec_id cs).
  rewrite endpoint_property; [done..|]. by destruct Hp as [_ ?%valid_name_segment].
Qed.

Lemma prop_action_create cs p :
  valid_name (rec_id cs) →
  prop_action (op_request (create_op cs p)) = Some (rec_id cs, create_named p).
Proof.
  intros Hid%valid_name_segment. unfold prop_action, create_op. simpl. fold (rec_id cs).
  by rewrite endpoint_properties.
Qed.

Lemma prop_action_update cs p :
  valid_name (rec_id cs) → acceptable p →
  prop_action (op_request (update_op cs p)) = Some (rec_id cs, patch_named (pname p) p).
Proof.
  intros Hid%valid_name_segment Hp. unfold prop_action, update_op. simpl.
  rewrite (acceptable_name p Hp). fold (rec_id cs).
  rewrite endpoint_property; [done..|]. by destruct Hp as [_ ?%valid_name_segment].
Qed.

(** Deleting properties of distinct names that the record has leaves those
    of the other names. *)
Lemma replay_deletes cs D l :
  valid_name (rec_id cs) → Forall acceptable D → NoDup (names D) → D ⊆ l →
  replay (rec_id cs) (op_request <$> (delete_op cs <$> D)) l =
  Some (filter (λ q, pname q ∉ names D) l).
Proof.
  intros Hid HD. revert l. induction HD as [|p D Hp HD IH]; intros l Hnd Hsub.
  - simpl. f_equal. symmetry. apply filter_all. intros q _. apply not_elem_of_nil.
  - unfold names in Hnd. rewrite fmap_cons in Hnd. apply NoDup_cons in Hnd as [Hp' Hnd].
    rewrite !fmap_cons. cbn [replay]. rewrite prop_action_delete, decide_True by done.
    unfold delete_named. rewrite decide_True by (apply list_elem_of_fmap_2, Hsub; left).
    simpl. rewrite IH; [|done|].
    + f_equal. rewrite list_filter_filter. apply list_filter_iff. intros q.
      unfold names. rewrite ?fmap_cons, not_elem_of_cons. naive_solver.
    + intros q Hq. apply list_elem_of_filter. split; [|apply Hsub; by right].
      intros Hqp. apply Hp'. rewrite <- Hqp. by apply list_elem_of_fmap_2.
Qed.

(** Creating acceptable properties of distinct, new names appends them. *)
Lemma replay_creates cs C l :
  valid_name (rec_id cs) → Forall acceptable C → NoDup (names C) →
  (∀ p, p ∈ C → pname p ∉ names l) →
  replay (rec_id cs) (op_request <$> (create_op cs <$> C)) l = Some (l ++ C).
Proof.
  intros Hid HC. revert l. induction HC as [|p C Hp HC IH]; intros l Hnd Hnew.
  - by rewrite app_nil_r.
  - unfold names in Hnd. rewrite fmap_cons in Hnd. apply NoDup_cons in Hnd as [Hp' Hnd].
    rewrite !fmap_cons. cbn [replay]. rewrite prop_action_create, decide_True by done.
    unfold create_named. rewrite decide_True by (split; [done|apply Hnew; left]).
    simpl. rewrite IH; [by rewrite <- app_assoc|done|].
    intros q Hq. unfold names. rewrite fmap_app, elem_of_app.
    intros [Hql|[Heq|[]%elem_of_nil]%elem_of_cons].
    + by apply (Hnew q); [right|].
    + apply Hp'. rewrite <- Heq. by apply list_elem_of_fmap_2.
Qed.

Lemma patch_all_cons p U q :
  named p → named q → pname p ∉ names U →
  patch_all U (patch_one (pname p) p q) = patch_all (p :: U) q.
Proof.
  intros Hp Hq HpU. unfold patch_all, patch_one, first_named. simpl.
  destruct (decide (pname q = pname p)) as [Hn|Hn].
  - rewrite bool_decide_eq_true_2 by done.
    destruct (named_merge q p Hq Hp) as [_ ->]; [done|].
    apply first_named_None in HpU. unfold first_named in HpU. by rewrite Hn, HpU.
  - by rewrite bool_decide_eq_false_2.
Qed.

(** Patching properties of distinct names that the record has patches each
    with the update of its name. *)
Lemma replay_updates cs U l :
  valid_name (rec_id cs) → Forall acceptable U → NoDup (names U) →
  Forall named l → (∀ p, p ∈ U → pname p ∈ names l) →
  replay (rec_id cs) (op_request <$> (update_op cs <$> U)) l = Some (patch_all U <$> l).
Proof.
  intros Hid HU. revert l. induction HU as [|p U Hp HU IH]; intros l Hnd Hl Hsub.
  - simpl. by rewrite list_fmap_id.
  - unfold names in Hnd. rewrite fmap_cons in Hnd. apply NoDup_cons in Hnd as [Hp' Hnd].
    assert (Forall (λ q, pname q = pname p →
                         named (merge q p) ∧ pname (merge q p) = pname p) l) as Hok.
    { eapply Forall_impl; [exact Hl|]. intros q Hq Hn. simpl.
      destruct (named_merge q p Hq (proj1 Hp)) as [? ->]; done. }
    rewrite !fmap_cons. cbn [replay]. rewrite prop_action_update, decide_True by done.
    unfold patch_named. rewrite decide_True by (split; [apply Hsub; left|done]).
    simpl. rewrite IH; [|done| |].
    + f_equal. rewrite <- list_fmap_compose. apply Forall_fmap_ext_1.
      eapply Forall_impl; [exact Hl|]. intros q Hq. simpl.
      apply patch_all_cons; [by destruct Hp|done..].
    + apply Forall_fmap. rewrite Forall_forall in Hl, Hok. apply Forall_forall.
      intros q Hq. unfold patch_one. simpl. case_decide as Hn; [|by apply Hl].
      by apply Hok.
    + intros q Hq. rewrite patch_one_name by done. apply Hsub. by right.
Qed.

(** The requests of the promised diff, replayed on the properties it was
    computed from, give [apply_plan]. *)
Lemma replay_plan cs upd cur :
  valid_name (rec_id cs) → acceptable_props cur → acceptable_props upd →
  replay (rec_id cs) (op_request <$> planned (spec_plan upd cur) cs) cur =
  Some (apply_plan (spec_plan upd cur) cur).
Proof.
  intros Hid [Hcur Hndc] [Hupd Hndu]. unfold planned, apply_plan, spec_plan.
  cbn [plan_delete plan_create plan_update]. rewrite !fmap_app, replay_app.
  rewrite replay_deletes; [cbn [mbind option_bind]|done|by apply Forall_filter_1| |].
  - rewrite replay_app.
    rewrite replay_creates; [cbn [mbind option_bind]|done|by apply Forall_filter_1| |].
    + rewrite replay_updates; [|done|by apply Forall_filter_1| | |].
      * rewrite fmap_app. do 2 f_equal. rewrite <- (list_fmap_id (spec_toCreate _ _)) at 2.
        apply Forall_fmap_ext_1, Forall_forall.
        intros p [_ Hp%first_named_None]%elem_of_spec_toCreate.
        unfold patch_all. simpl.
        destruct (first_named (spec_toUpdate upd cur) (pname p)) as [u|] eqn:Hu; [|done].
        apply first_named_Some in Hu as [(_ & q & Hq & _)%elem_of_spec_toUpdate Hup].
        rewrite Hup in Hq. congruence.
      * apply (sublist_NoDup _ _ Hndu), fmap_sublist, sublist_filter.
      * apply Forall_app. split; apply acceptable_named; by apply Forall_filter_1.
      * intros p (Hp & q & [Hq Hqp]%first_named_Some & _)%elem_of_spec_toUpdate.
        unfold names. rewrite fmap_app, elem_of_app. left. rewrite <- Hqp.
        apply list_elem_of_fmap_2, list_elem_of_filter. split; [|done].
        apply (kept_name upd cur). rewrite Hqp. by apply list_elem_of_fmap_2.
    + apply (sublist_NoDup _ _ Hndu), fmap_sublist, sublist_filter.
    + intros p [_ Hp]%elem_of_spec_toCreate (q & Hpq & [_ Hq]%list_elem_of_filter)%list_elem_of_fmap.
      apply Hp. rewrite Hpq. by apply list_elem_of_fmap_2.
  - apply (sublist_NoDup _ _ Hndc), fmap_sublist, sublist_filter.
  - intros p [Hp _]%elem_of_spec_toDelete. done.
Qed.

End plans.

(** ** [updateSchema] against the registry *)

(** A local schema the registry can follow: its properties are acceptable
    and of distinct names, and comparable with those of the record. *)
Definition follows (us cs : value) : Prop :=
  get_prop us "properties" = Ok (VArr (rec_props us)) ∧
  acceptable_props (rec_props us) ∧
  Forall (comparable (rec_props cs)) (rec_props us).

#[export] Instance follows_dec us cs : Decision (follows us cs).
Proof. unfold follows, acceptable_props. apply _. Defined.

Section update.
Implicit Types (reg : registry) (us cs : value) (upd : list value)
  (c : list string) (k : list request).

Lemma wf_record_elem_of cs reg : wf_registry reg → cs ∈ live reg → wf_record cs.
Proof. intros [Hrecs _] Hcs. by eapply Forall_forall in Hrecs. Qed.

Lemma live_id_valid reg id : wf_registry reg → id ∈ ids (live reg) → valid_name id.
Proof.
  intros Hreg (r & -> & Hr)%list_elem_of_fmap.
  by destruct (wf_record_elem_of r reg Hreg Hr) as (_ & _ & ?).
Qed.

Lemma wf_record_get_props cs :
  wf_record cs → get_prop cs "properties" = Ok (VArr (rec_props cs)).
Proof.
  intros [(ps & n & l & -> & _ & Hl & _)%schema_ok_inv _].
  rewrite field_get_prop by done. unfold rec_props. by rewrite Hl.
Qed.

Lemma rec_id_delete_prop cs : rec_id (delete_prop cs "properties") = rec_id cs.
Proof.
  destruct cs as [| | | | | |ps]; try done. unfold rec_id, field.
  by rewrite get_prop_delete_prop.
Qed.

Lemma lookup_id_elem_of cs reg :
  wf_registry reg → cs ∈ live reg → lookup_id (rec_id cs) (live reg) = Some cs.
Proof. intros (_ & Hids & _) Hcs. by apply (find_key_NoDup rec_id). Qed.

(** The plan of a schema that follows a record of the registry is the
    promised diff. *)
Lemma follows_reconcile us cs :
  wf_record cs → follows us cs →
  reconcile us cs =
  Ok (spec_plan (rec_props us) (rec_props cs), delete_prop us "properties",
      delete_prop cs "properties").
Proof.
  intros Hcs (Hus & [Hupd _] & Hcmp).
  apply reconcile_pure; auto using wf_record_get_props, acceptable_named.
  apply acceptable_named. by destruct (wf_record_props cs Hcs).
Qed.

(** The run of [updateSchema] on a record of the registry, in full. *)
Lemma updateSchema_registry us cs reg c k :
  wf_registry reg → cs ∈ live reg → follows us cs →
  let pl := spec_plan (rec_props us) (rec_props cs) in
  let cs' := delete_prop cs "properties" in
  updateSchema us cs (World reg c k) =
  (Ok (delete_prop us "properties", cs'),
   World (put_props (rec_id cs) (apply_plan pl (rec_props cs)) reg)
     (c ++ (op_line <$> planned pl cs')) (k ++ (op_request <$> planned pl cs'))).
Proof.
  intros Hreg Hcs Hus pl cs'. pose proof (wf_record_elem_of cs reg Hreg Hcs) as Hwf.
  rewrite (updateSchema_script _ _ _ _ _ _ (follows_reconcile us cs Hwf Hus)).
  fold pl cs'.
  rewrite (run_ops_registry (rec_id cs) (planned pl cs') cs (apply_plan pl (rec_props cs)));
    [done|done|by apply lookup_id_elem_of|].
  rewrite <- (rec_id_delete_prop cs). apply replay_plan.
  - unfold cs'. rewrite rec_id_delete_prop. by destruct Hwf as (_ & _ & ?).
  - by apply wf_record_props.
  - by destruct Hus as (_ & ? & _).
Qed.

Lemma apply_plan_acceptable us cs :
  wf_record cs → follows us cs →
  acceptable_props (apply_plan (spec_plan (rec_props us) (rec_props cs)) (rec_props cs)).
Proof.
  intros Hcs (_ & Hupd & _).
  apply (replay_acceptable (rec_id cs)
           (op_request <$> planned (spec_plan (rec_props us) (rec_props cs)) cs)
           (rec_props cs)); [by apply wf_record_props|].
  apply replay_plan; [by destruct Hcs as (_ & _ & ?)|by apply wf_record_props|done].
Qed.

(** Once its plan is applied, the schema still follows the record, and the
    diff is empty. *)
Lemma follows_applied us cs :
  wf_record cs → follows us cs → Forall stable (rec_props us) →
  let l' := apply_plan (spec_plan (rec_props us) (rec_props cs)) (rec_props cs) in
  follows us (with_props l' cs) ∧ spec_plan (rec_props us) l' = Plan [] [] [] ∧
  acceptable_props l'.
Proof.
  intros Hcs (Hus & [Hupd Hnd] & Hcmp) Hst l'.
  destruct (wf_record_props cs Hcs) as [Hcur Hndc].
  assert (acceptable_props l') as Hl' by (by apply apply_plan_acceptable).
  split; [|split; [|done]].
  - unfold follows. destruct (with_props_record l' cs Hcs Hl') as (_ & _ & _ & ->).
    split; [done|]. split; [done|].
    apply second_comparable; auto using acceptable_named.
  - unfold l'. unfold spec_plan at 1.
    by rewrite second_toDelete, second_toCreate, second_toUpdate
      by auto using acceptable_named.
Qed.

End update.
