(* ===== verification/Commands.v ===== *)
(** * The three commands

    [src/src/cli.ts], lines 74-131 and 210-223: [createSchemas],
    [deleteSchemas] and [updateSchemas].  Each fetches the index of the
    remote schemas, resolves the pattern to files, and loops over them.

    The index [meta] is a local object of the command: [createSchemas]
    assigns to it, and [updateSchemas] hands one of its entries to
    [updateSchema], which deletes [properties] from it.  The loops
    therefore carry the index as their state, and the entry
    [updateSchema] returns is written back under its key: that is the
    aliasing of the source, made explicit.

    The theorems show which requests a command can issue and in which
    order, that the remote failures the client catches never end a command,
    which failures do end it, and the worked scenarios of the
    specification. *)

From stdpp Require Import prelude strings.
From S2P Require Import Prelude JsValue Lodash Loader Options Reconcile Remote Client Update.

(** ** The code *)

(** The in-memory index of the remote schemas: the own properties of the
    object [getExistingSchemas] returns. *)
Definition index : Type := list (string * value).

Section code.
Context `{Remote R} (d : disk).

(** The object pushed for each association target (lines 86-90). *)
Definition association_of (objectType toObjectTypeId : value) : value :=
  VObj [("toObjectTypeId", toObjectTypeId);
        ("fromObjectTypeId", objectType);
        ("name", VStr (to_string objectType +:+ "_to_" +:+ to_string toObjectTypeId))].

(** The body of the first loop of [createSchemas] (lines 81-100).  Its
    state is the index and the associations collected so far. *)
Definition create_one (st : index * list value) (entry : value)
    : M R (index * list value) :=
  '(filePath, objectType) ← lift (destructure_pair entry);
  objectSchema ← lift (readJSON d filePath);
  '(associations, objectSchema') ← lift (pick objectSchema "associations" (VArr []));
  targets ← lift (as_array associations);
  let allAssociations := st.2 ++ (association_of objectType <$> targets) in
  objectTypeId ← createSchema objectSchema';
  if to_boolean objectTypeId then
    log ("Created " +:+ to_string objectType);;
    mret (assoc_set st.1 (to_string objectType) (VObj [("objectTypeId", objectTypeId)]),
          allAssociations)
  else mret (st.1, allAssociations).

(** [get(meta, `${id}.objectTypeId`, id)] (lines 106-115). *)
Definition resolve (meta : index) (id : value) : value :=
  lodash_get (VObj meta) (to_string id +:+ ".objectTypeId") id.

(** The body of the second loop (lines 103-117). *)
Definition associate (meta : index) (a : value) : M R unit :=
  name ← lift (get_prop a "name");
  fromObjectTypeId ← lift (get_prop a "fromObjectTypeId");
  toObjectTypeId ← lift (get_prop a "toObjectTypeId");
  createAssociation
    (VObj [("name", name);
           ("fromObjectTypeId", resolve meta fromObjectTypeId);
           ("toObjectTypeId", resolve meta toObjectTypeId)]);;
  mret ().

(** Lines 74-118. *)
Definition createSchemas (fileGlob : string) : M R unit :=
  meta ← getExistingSchemas;
  st ← for_fold (objectTypes d fileGlob) create_one (meta, []);
  for_of st.2 (associate st.1).

(** The body of the loop of [deleteSchemas] (lines 124-130). *)
Definition delete_one (meta : index) (entry : value) : M R unit :=
  '(_, objectType) ← lift (destructure_pair entry);
  record ← lift (get_prop (VObj meta) (to_string objectType));
  objectTypeId ← lift (get_prop record "objectTypeId");
  success ← deleteSchema objectTypeId;
  if success : bool then log ("Deleted " +:+ to_string objectType) else mret ().

(** Lines 120-131. *)
Definition deleteSchemas (fileGlob : string) : M R unit :=
  meta ← getExistingSchemas;
  for_of (objectTypes d fileGlob) (delete_one meta).

(** The body of the loop of [updateSchemas] (lines 215-222).  The record
    [updateSchema] was given is an entry of the index: what it did to the
    record is visible in the index afterwards. *)
Definition update_one (meta : index) (entry : value) : M R index :=
  '(filePath, objectType) ← lift (destructure_pair entry);
  objectSchema ← lift (readJSON d filePath);
  current ← lift (get_prop (VObj meta) (to_string objectType));
  if negb (to_boolean current) then
    log ("Object Type " +:+ to_string objectType +:+ " does not exist to be updated.");;
    mret meta
  else
    done ← updateSchema objectSchema current;
    mret (assoc_set meta (to_string objectType) done.2).

(** Lines 210-223. *)
Definition updateSchemas (fileGlob : string) : M R unit :=
  meta ← getExistingSchemas;
  for_fold (objectTypes d fileGlob) update_one meta;;
  mret ().

End code.

(** ** The requests of the commands *)

Definition is_fetch (rq : request) : Prop := rq = schemas_request.

Definition is_create (rq : request) : Prop :=
  req_method rq = POST ∧ req_path rq = "/crm/v3/schemas".

Definition is_association (rq : request) : Prop :=
  req_method rq = POST ∧
  ∃ id, req_path rq = "/crm/v3/schemas/" +:+ id +:+ "/associations".

Definition is_schema_delete (rq : request) : Prop :=
  req_method rq = DELETE ∧ String.prefix "/crm/v3/schemas/" (req_path rq) = true.

(** The requests of section 6 of the specification. *)
Definition is_endpoint (rq : request) : Prop :=
  is_fetch rq ∨ is_create rq ∨ is_association rq ∨ is_schema_delete rq ∨
  is_property_request rq.

(** The requests of each command. *)
Definition is_creation (rq : request) : Prop :=
  is_fetch rq ∨ is_create rq ∨ is_association rq.

Definition is_deletion (rq : request) : Prop := is_fetch rq ∨ is_schema_delete rq.

Definition is_change (rq : request) : Prop := is_fetch rq ∨ is_property_request rq.

#[export] Instance is_create_dec rq : Decision (is_create rq).
Proof. unfold is_create. apply _. Defined.
#[export] Instance is_schema_delete_dec rq : Decision (is_schema_delete rq).
Proof. unfold is_schema_delete. apply _. Defined.

Section requests.
Context `{Remote R} (d : disk).
Implicit Types (w : world R) (meta : list (string * value)) (entry s a id : value).

Lemma getExistingSchemas_emits : emits is_fetch getExistingSchemas.
Proof. unfold getExistingSchemas. solve_emits. reflexivity. Qed.

Lemma createSchema_emits s : emits is_create (createSchema s).
Proof. unfold createSchema. solve_emits. by split. Qed.

Lemma createAssociation_emits a : emits is_association (createAssociation a).
Proof. unfold createAssociation. solve_emits. split; [done|]. simpl. eauto. Qed.

Lemma deleteSchema_emits id : emits is_schema_delete (deleteSchema id).
Proof.
  unfold deleteSchema. solve_emits; (split; [done|]); apply prefix_app_iff; eauto.
Qed.

Lemma create_one_emits st entry : emits is_create (create_one d st entry).
Proof. unfold create_one. solve_emits. apply createSchema_emits. Qed.

Lemma associate_emits meta a : emits is_association (associate meta a).
Proof. unfold associate. solve_emits. apply createAssociation_emits. Qed.

Lemma delete_one_emits meta entry : emits is_schema_delete (delete_one meta entry).
Proof. unfold delete_one. solve_emits. apply deleteSchema_emits. Qed.

Lemma update_one_emits meta entry : emits is_property_request (update_one d meta entry).
Proof. unfold update_one. solve_emits. apply updateSchema_emits. Qed.

Lemma createSchemas_emits g :
  emits_seq [is_fetch; is_create; is_association] (createSchemas d g).
Proof.
  unfold createSchemas.
  apply (emits_seq_bind [is_fetch] [is_create; is_association]);
    [apply emits_seq_one, getExistingSchemas_emits|intros meta].
  apply (emits_seq_bind [is_create] [is_association]); [|intros st];
    apply emits_seq_one; solve_emits; [apply create_one_emits|apply associate_emits].
Qed.

Lemma deleteSchemas_emits g :
  emits_seq [is_fetch; is_schema_delete] (deleteSchemas d g).
Proof.
  unfold deleteSchemas.
  apply (emits_seq_bind [is_fetch] [is_schema_delete]);
    [apply emits_seq_one, getExistingSchemas_emits|intros meta].
  apply emits_seq_one. solve_emits. apply delete_one_emits.
Qed.

Lemma updateSchemas_emits g :
  emits_seq [is_fetch; is_property_request] (updateSchemas d g).
Proof.
  unfold updateSchemas.
  apply (emits_seq_bind [is_fetch] [is_property_request]);
    [apply emits_seq_one, getExistingSchemas_emits|intros meta].
  apply emits_seq_one. solve_emits. apply update_one_emits.
Qed.

End requests.

(** Every request of a command is one of the requests of the protocol. *)
Ltac solve_endpoints :=
  solve_emits;
  (eapply emits_mono;
   [|first [apply getExistingSchemas_emits | apply create_one_emits
           | apply associate_emits | apply delete_one_emits
           | apply update_one_emits]]);
  unfold is_endpoint, is_creation, is_deletion, is_change; tauto.

Section endpoints.
Context `{Remote R} (d : disk).
Implicit Types (w : world R).

Lemma createSchemas_endpoints g : emits is_endpoint (createSchemas d g).
Proof. unfold createSchemas. solve_endpoints. Qed.

Lemma deleteSchemas_endpoints g : emits is_endpoint (deleteSchemas d g).
Proof. unfold deleteSchemas. solve_endpoints. Qed.

Lemma updateSchemas_endpoints g : emits is_endpoint (updateSchemas d g).
Proof. unfold updateSchemas. solve_endpoints. Qed.

Lemma createSchemas_creation g : emits is_creation (createSchemas d g).
Proof. unfold createSchemas. solve_endpoints. Qed.

Lemma deleteSchemas_deletion g : emits is_deletion (deleteSchemas d g).
Proof. unfold deleteSchemas. solve_endpoints. Qed.

Lemma updateSchemas_change g : emits is_change (updateSchemas d g).
Proof. unfold updateSchemas. solve_endpoints. Qed.

(** A command begins with the fetch of the index; when the fetch is
    rejected the command ends there. *)
Lemma getExistingSchemas_calls w :
  calls (getExistingSchemas w).2 = calls w ++ [schemas_request].
Proof.
  rewrite getExistingSchemas_run.
  by destruct (serve _ _) as [[data|e] rem].
Qed.

Lemma fetch_then {A} (body : index → M R A) w :
  (∀ meta, emits is_endpoint (body meta)) →
  ∃ rest, calls ((getExistingSchemas ≫= body) w).2 = calls w ++ schemas_request :: rest ∧
          Forall is_endpoint rest.
Proof.
  intros Hbody. rewrite bind_run. pose proof (getExistingSchemas_calls w) as Hc.
  destruct (getExistingSchemas w) as [[meta|e] w1]; simpl in *.
  - destruct (Hbody meta w1) as (new & -> & ? & _). exists new.
    by rewrite Hc, <- app_assoc.
  - exists []. by rewrite Hc.
Qed.

Lemma fetch_rejected {A} (body : index → M R A) w e rem :
  serve schemas_request (remote w) = (Err e, rem) →
  (getExistingSchemas ≫= body) w = (Err e, after schemas_request rem [] w).
Proof. intros Hs. by rewrite bind_run, getExistingSchemas_run, Hs. Qed.

End endpoints.


(** ** The index is typed

    The commands read [objectTypeId] off the entries of the index
    ([resolve], [delete_one]) and hand whole entries to [updateSchema].  An
    index is typed when every entry carries a truthy [objectTypeId]; such
    an entry is itself truthy. *)
Definition typed_index (meta : index) : Prop :=
  Forall (λ kv, truthy (field kv.2 "objectTypeId")) meta.

#[export] Instance typed_index_dec meta : Decision (typed_index meta).
Proof. unfold typed_index. apply _. Defined.

(** ** Runs of the loop bodies *)

Definition loadable (schema : value) : Prop :=
  non_nullish schema ∧
  is_array (if to_boolean (field schema "associations")
            then field schema "associations" else VArr []) = true.

Definition loadable_file (d : disk) (f : string * string) : Prop :=
  match read_json d (path_of f.1 f.2) with
  | Ok schema => loadable schema
  | Err _ => False
  end.

#[export] Instance loadable_dec schema : Decision (loadable schema).
Proof. unfold loadable. apply _. Defined.
#[export] Instance loadable_file_dec d f : Decision (loadable_file d f).
Proof. unfold loadable_file. destruct (read_json _ _); apply _. Defined.

(** The schema submitted for a file: its document without
    [associations]. *)
Definition schema_of (d : disk) (f : string * string) : value :=
  match read_json d (path_of f.1 f.2) with
  | Ok schema => delete_prop schema "associations"
  | Err _ => VUndefined
  end.

Definition skip_line (f : string * string) : string :=
  "Object Type " +:+ f.2 +:+ " does not exist to be updated.".

Section runs.
Context `{Remote R} (d : disk).
Implicit Types (w : world R) (meta : index) (entry s a id : value) (f : string * string).

Lemma createSchema_calls s w :
  non_nullish s →
  ∃ v, (createSchema s w).1 = Ok v ∧
       calls (createSchema s w).2 = calls w ++ [create_request s].
Proof.
  intros Hs. rewrite createSchema_run by done.
  destruct (serve _ _) as [[data|e] rem]; [destruct (is_nullish data)|]; eauto.
Qed.

Lemma createAssociation_Ok a w : non_nullish a → ∃ v, (createAssociation a w).1 = Ok v.
Proof.
  intros Ha. rewrite createAssociation_run by done.
  destruct (serve _ _) as [[data|e] rem]; eauto.
Qed.

Lemma create_one_calls st f w :
  loadable_file d f → Forall non_nullish st.2 →
  ∃ st', (create_one d st (resolved f) w).1 = Ok st' ∧ Forall non_nullish st'.2 ∧
    calls (create_one d st (resolved f) w).2 = calls w ++ [create_request (schema_of d f)].
Proof.
  unfold loadable_file, schema_of.
  destruct (read_json _ _) as [schema|] eqn:Hread; [|done].
  intros [Hs Harr] Hst. unfold create_one, resolved.
  rewrite lift_bind_run. simpl. rewrite lift_bind_run, Hread.
  rewrite lift_bind_run, pick_non_nullish by done.
  destruct (if to_boolean _ then _ else _) as [| | | | |targets|] eqn:Ht; try done.
  rewrite lift_bind_run. simpl. rewrite bind_run.
  destruct (createSchema_calls (delete_prop schema "associations") w) as (v & Hv & Hc);
    [by apply delete_prop_non_nullish|].
  destruct (createSchema _ w) as [[v'|e] w1]; simplify_eq/=.
  assert (Forall non_nullish (st.2 ++ (association_of (VStr f.2) <$> targets))).
  { apply Forall_app. split; [done|]. by apply Forall_fmap, Forall_true. }
  destruct (to_boolean v); run_M; eauto.
Qed.

Lemma create_files_run files st w :
  Forall (loadable_file d) files → Forall non_nullish st.2 →
  ∃ st', (for_fold (resolved <$> files) (create_one d) st w).1 = Ok st' ∧
    Forall non_nullish st'.2 ∧
    calls (for_fold (resolved <$> files) (create_one d) st w).2 =
      calls w ++ (create_request ∘ schema_of d <$> files).
Proof.
  intros Hfiles. revert st w. induction Hfiles as [|f files Hf _ IH]; intros st w Hst.
  - exists st. simpl. by rewrite app_nil_r.
  - rewrite !fmap_cons. cbn [for_fold]. rewrite bind_run.
    destruct (create_one_calls st f w Hf Hst) as (st1 & Hok & Hst1 & Hc).
    destruct (create_one d st (resolved f) w) as [[st1'|e] w1]; simplify_eq/=.
    destruct (IH st1 w1 Hst1) as (st' & Hok' & Hst' & Hc').
    exists st'. rewrite Hc', Hc, <- app_assoc. done.
Qed.

Lemma associate_Ok meta a w : non_nullish a → (associate meta a w).1 = Ok ().
Proof.
  intros Ha. unfold associate.
  do 3 (rewrite lift_bind_run, (field_get_prop a) by done; cbn beta iota).
  rewrite bind_run.
  match goal with |- context [createAssociation ?x w] =>
    destruct (createAssociation_Ok x w) as [v Hv]; [done|];
    by destruct (createAssociation x w) as [[?|?] ?]; simplify_eq/= end.
Qed.


Lemma delete_one_Ok meta f w :
  non_nullish (field (VObj meta) f.2) → (delete_one meta (resolved f) w).1 = Ok ().
Proof.
  intros Hrec. unfold delete_one, resolved. rewrite lift_bind_run. simpl.
  rewrite lift_bind_run.
  change (default VUndefined (assoc meta f.2)) with (field (VObj meta) f.2).
  rewrite lift_bind_run, field_get_prop by done. cbn beta iota.
  rewrite bind_run, deleteSchema_run.
  destruct (serve (soft_delete _) _) as [[?|?] rem]; [|done].
  by destruct (serve (purge _) rem) as [[?|?] ?].
Qed.

Lemma delete_one_run meta f w :
  non_nullish (field (VObj meta) f.2) →
  delete_one meta (resolved f) w =
  match deleteSchema (field (field (VObj meta) f.2) "objectTypeId") w with
  | (Ok true, w') => log ("Deleted " +:+ f.2) w'
  | (Ok false, w') => (Ok (), w')
  | (Err e, w') => (Err e, w')
  end.
Proof.
  intros Hrec. unfold delete_one, resolved. rewrite lift_bind_run. simpl.
  rewrite lift_bind_run.
  change (default VUndefined (assoc meta f.2)) with (field (VObj meta) f.2).
  rewrite lift_bind_run, field_get_prop by done. cbn beta iota.
  rewrite bind_run. by destruct (deleteSchema _ w) as [[[]|] ?].
Qed.

Lemma delete_one_missing meta f w :
  assoc meta f.2 = None → delete_one meta (resolved f) w = (Err TypeError, w).
Proof.
  intros Hrec. unfold delete_one, resolved. rewrite lift_bind_run. simpl.
  by rewrite lift_bind_run, Hrec.
Qed.

Lemma update_one_skip meta f w :
  is_Ok (read_json d (path_of f.1 f.2)) →
  to_boolean (field (VObj meta) f.2) = false →
  update_one d meta (resolved f) w =
  (Ok meta, World (remote w) (console w ++ [skip_line f]) (calls w)).
Proof.
  intros [schema Hread] Hrec. unfold update_one, resolved. rewrite lift_bind_run. simpl.
  rewrite lift_bind_run, Hread. cbn beta iota. rewrite lift_bind_run.
  change (default VUndefined (assoc meta f.2)) with (field (VObj meta) f.2).
  by rewrite Hrec.
Qed.



Lemma for_fold_skip meta files w :
  Forall (λ f, is_Ok (read_json d (path_of f.1 f.2)) ∧
               to_boolean (field (VObj meta) f.2) = false) files →
  for_fold (resolved <$> files) (update_one d) meta w =
  (Ok meta, World (remote w) (console w ++ (skip_line <$> files)) (calls w)).
Proof.
  intros Hfiles. revert w. induction Hfiles as [|f files [Hread Hf] _ IH]; intros w.
  - simpl. rewrite app_nil_r. by destruct w.
  - rewrite !fmap_cons. simpl. rewrite bind_run, update_one_skip by done.
    rewrite IH. simpl. by rewrite <- app_assoc.
Qed.

Lemma update_one_present meta f schema w :
  read_json d (path_of f.1 f.2) = Ok schema →
  truthy (field (VObj meta) f.2) →
  update_one d meta (resolved f) w =
  match updateSchema schema (field (VObj meta) f.2) w with
  | (Ok done, w') => (Ok (assoc_set meta f.2 done.2), w')
  | (Err e, w') => (Err e, w')
  end.
Proof.
  intros Hread Hrec. unfold update_one, resolved. rewrite lift_bind_run. simpl.
  rewrite lift_bind_run, Hread. cbn beta iota. rewrite lift_bind_run.
  change (default VUndefined (assoc meta f.2)) with (field (VObj meta) f.2).
  rewrite Hrec. simpl. rewrite bind_run.
  by destruct (updateSchema _ _ w) as [[?|?] ?].
Qed.

(** What the loop bodies do to the index: nothing, or one assignment, of
    the identifier the service assigned when it is truthy, and of the
    record [updateSchema] was given, without its [properties]. *)
Lemma create_one_index st entry w st' w' :
  create_one d st entry w = (Ok st', w') →
  st'.1 = st.1 ∨
  ∃ k id, truthy id ∧ st'.1 = assoc_set st.1 k (VObj [("objectTypeId", id)]).
Proof.
  unfold create_one. rewrite lift_bind_run.
  destruct (destructure_pair entry) as [[filePath objectType]|]; [|done].
  rewrite lift_bind_run. destruct (readJSON d filePath) as [schema|]; [|done].
  rewrite lift_bind_run. destruct (pick schema _ _) as [[associations schema']|]; [|done].
  rewrite lift_bind_run. destruct (as_array associations) as [targets|]; [|done].
  rewrite bind_run. destruct (createSchema schema' w) as [[id|] w1]; [|done].
  destruct (to_boolean id) eqn:Hid; run_M; intros [= <- _]; simpl; eauto.
Qed.

Lemma update_one_index meta entry w meta' w' :
  update_one d meta entry w = (Ok meta', w') →
  meta' = meta ∨
  ∃ k ps, (k, VObj ps) ∈ meta ∧
          meta' = assoc_set meta k (delete_prop (VObj ps) "properties").
Proof.
  unfold update_one. rewrite lift_bind_run.
  destruct (destructure_pair entry) as [[filePath objectType]|]; [|done].
  rewrite lift_bind_run. destruct (readJSON d filePath) as [schema|]; [|done].
  rewrite lift_bind_run, get_prop_obj. cbn beta iota.
  destruct (assoc meta _) as [current|] eqn:Hcur; simpl; [|run_M; intros [= <- _]; eauto].
  destruct (negb (to_boolean current)); [run_M; intros [= <- _]; eauto|].
  rewrite bind_run.
  destruct (updateSchema schema current w) as [[[us' cs']|] w1] eqn:Hup; [|done].
  apply updateSchema_Ok_inv in Hup as [pl Hrec].
  apply reconcile_inv in Hrec as (upd & cur & _ & Hcs & _ & -> & _).
  destruct (get_prop_properties_obj _ _ Hcs) as [ps ->].
  run_M. intros [= <- _]. right. eauto using assoc_elem_of.
Qed.

(** An entry of a typed index is a truthy value, and reading the index
    with a default gives the entry. *)
Lemma carrier_truthy v : truthy (field v "objectTypeId") → truthy v.
Proof. by destruct v as [| |[]|n|[|c s]| |]. Qed.

Lemma or_default_truthy v dflt : truthy v → or_default v dflt = v.
Proof. by destruct v. Qed.

Lemma typed_index_set meta k v :
  typed_index meta → truthy (field v "objectTypeId") →
  typed_index (assoc_set meta k v).
Proof.
  unfold typed_index. rewrite !Forall_forall.
  intros Hmeta Hv kv [->|?]%elem_of_assoc_set; auto.
Qed.

Lemma resolve_typed meta name :
  typed_index meta → dotless name → name ≠ "" →
  truthy (resolve meta (VStr name)).
Proof.
  intros Hmeta Hname Hne. unfold resolve. cbn [to_string].
  assert (∀ k r, assoc meta k = Some r → truthy (field r "objectTypeId")) as Hentry.
  { intros k r Hr%assoc_elem_of. by eapply Forall_forall in Hmeta; [|exact Hr]. }
  destruct (decide ((name +:+ ".objectTypeId") ∈ meta.*1)) as [Hk|Hk].
  - destruct (assoc_is_Some _ _ Hk) as (r & Hr & _).
    unfold lodash_get. cbn [is_nullish].
    rewrite has_key_obj, bool_decide_eq_true_2 by done.
    unfold field. rewrite get_prop_obj, Hr. simpl.
    rewrite or_default_truthy; eauto using carrier_truthy.
  - rewrite lodash_get_member by done. unfold field at 2. rewrite get_prop_obj.
    destruct (assoc meta name) as [r|] eqn:Hr; simpl.
    + rewrite or_default_truthy; eauto.
    + by destruct name.
Qed.

Lemma updateSchema_consumed us cs w us' cs' w' us2 w2 :
  updateSchema us cs w = (Ok (us', cs'), w') →
  truthy cs' ∧ updateSchema us2 cs' w2 = (Err TypeError, w2).
Proof.
  intros [pl Hrec]%updateSchema_Ok_inv. split.
  - apply reconcile_inv in Hrec as (upd & cur & _ & Hcs & _ & -> & _).
    by destruct (get_prop_properties_obj _ _ Hcs) as [ps ->].
  - apply updateSchema_pure_error. by eapply reconcile_consumed.
Qed.

End runs.

(** ** Theorems *)

Section theorems.
Context `{Remote R} (d : disk).
Implicit Types (w : world R) (meta : index) (entry s a id : value) (f : string * string).

(** C14. Whatever the files hold and whatever the service answers, the
    requests of [createSchemas] are the fetch of the index, then the
    creations of schemas, then the creations of associations: no
    association is submitted before every creation has been attempted. *)
Theorem createSchemas_order g w :
  ∃ fetch creates associations,
    calls (createSchemas d g w).2 = calls w ++ fetch ++ creates ++ associations ∧
    Forall is_fetch fetch ∧ Forall is_create creates ∧
    Forall is_association associations.
Proof. apply emits_seq3, createSchemas_emits. Qed.

(** [deleteSchemas] requests the index and then only deletions of
    schemas and their purges; [updateSchemas] requests the index and then
    only changes of properties.  Neither creates a schema, and
    [updateSchemas] never deletes one. *)
Theorem commands_requests g w :
  (∃ fetch deletes,
     calls (deleteSchemas d g w).2 = calls w ++ fetch ++ deletes ∧
     Forall is_fetch fetch ∧ Forall is_schema_delete deletes) ∧
  (∃ fetch changes,
     calls (updateSchemas d g w).2 = calls w ++ fetch ++ changes ∧
     Forall is_fetch fetch ∧ Forall is_property_request changes).
Proof.
  split; [apply emits_seq2, deleteSchemas_emits|apply emits_seq2, updateSchemas_emits].
Qed.

(** C35. The index stays typed throughout a command.  When every entry of
    the index carries a truthy [objectTypeId], the bodies of the loops of
    [createSchemas] and [updateSchemas], which assign to the index, keep it
    so whatever the files hold and whatever the service answers: a creation
    that gave no identifier files nothing, and the record [updateSchema]
    consumed keeps its identifier.  Against such an index every non-empty
    identifier without a dot resolves to a truthy value, never to [null] or
    [undefined]. *)
Theorem index_typed meta entry w :
  typed_index meta →
  (∀ acc st' w', create_one d (meta, acc) entry w = (Ok st', w') → typed_index st'.1) ∧
  (∀ meta' w', update_one d meta entry w = (Ok meta', w') → typed_index meta') ∧
  (∀ name, dotless name → name ≠ "" → truthy (resolve meta (VStr name))).
Proof.
  intros Hmeta. split; [|split].
  - intros acc st' w' [->|(k & id & Hid & ->)]%create_one_index; [done|].
    by apply typed_index_set.
  - intros meta' w' [->|(k & ps & Hin & ->)]%update_one_index; [done|].
    apply typed_index_set; [done|]. rewrite field_delete_other by done.
    by eapply Forall_forall in Hmeta; [|exact Hin].
  - intros name. by apply resolve_typed.
Qed.

(** C28. Remote failures never end [createSchemas]: once the index is
    fetched, and when the pattern resolves to well-named files that each
    hold an object whose [associations], if any, is an array, the command
    returns whatever the service answers to the creations. *)
Theorem createSchemas_survives_rejections g files w :
  is_Ok (getExistingSchemas w).1 →
  objectTypes d g = resolved <$> files →
  Forall (loadable_file d) files →
  (createSchemas d g w).1 = Ok ().
Proof.
  intros [meta Hmeta] Hg Hfiles. unfold createSchemas. rewrite Hg, bind_run.
  destruct (getExistingSchemas w) as [[meta'|e] w1]; simplify_eq/=.
  rewrite bind_run.
  destruct (create_files_run d files (meta, []) w1 Hfiles) as (st & Hst & Hinv & _);
    [done|].
  destruct (for_fold _ _ _ w1) as [[st'|e] w2]; simplify_eq/=.
  apply for_of_Ok. intros a w' Ha. apply associate_Ok. by eapply Forall_forall in Hinv.
Qed.

(** C18. The association resolver: an identifier without dots resolves to
    the [objectTypeId] of the entry the index files under it, and to itself
    when the index has no such entry or the entry no [objectTypeId]. *)
Theorem resolve_spec meta (name : string) :
  dotless name → (name +:+ ".objectTypeId") ∉ meta.*1 →
  resolve meta (VStr name) =
  match assoc meta name with
  | Some record => or_default (field record "objectTypeId") (VStr name)
  | None => VStr name
  end.
Proof.
  intros Hid Hkey. unfold resolve. simpl. rewrite lodash_get_member by done.
  unfold field at 2. rewrite get_prop_obj. by destruct (assoc meta name).
Qed.

(** C30. Scenario 5 of the specification: [deleteSchemas] on an identifier
    the index does not have throws a [TypeError] when the loop reaches it,
    after the files before it were processed, whatever the service
    answered to their deletions. *)
Theorem deleteSchemas_missing g files1 f files2 meta w :
  (getExistingSchemas w).1 = Ok meta →
  objectTypes d g = resolved <$> (files1 ++ f :: files2) →
  Forall (λ f', non_nullish (field (VObj meta) f'.2)) files1 →
  assoc meta f.2 = None →
  (deleteSchemas d g w).1 = Err TypeError.
Proof.
  intros Hmeta Hg Hfiles Hf. unfold deleteSchemas. rewrite Hg, bind_run.
  destruct (getExistingSchemas w) as [[meta'|e] w1]; simplify_eq/=.
  rewrite fmap_app, for_of_app, bind_run.
  pose proof (for_of_Ok (resolved <$> files1) (delete_one meta) w1) as Hpre.
  destruct (for_of _ _ w1) as [[[]|e] w2]; simpl in Hpre.
  - rewrite fmap_cons. simpl. rewrite bind_run. by rewrite delete_one_missing.
  - discriminate Hpre. intros x w' (f' & -> & Hf')%list_elem_of_fmap.
    apply delete_one_Ok. by eapply Forall_forall in Hfiles.
Qed.

(** C29. [updateSchemas] skips the files whose identifier has no remote
    record: it logs one line per file and issues no request after the fetch
    of the index. *)
Theorem updateSchemas_skips_missing g files meta w w1 :
  getExistingSchemas w = (Ok meta, w1) →
  objectTypes d g = resolved <$> files →
  Forall (λ f, is_Ok (read_json d (path_of f.1 f.2)) ∧
               to_boolean (field (VObj meta) f.2) = false) files →
  updateSchemas d g w =
  (Ok (), World (remote w1) (console w1 ++ (skip_line <$> files)) (calls w1)).
Proof.
  intros Hmeta Hg Hfiles. unfold updateSchemas. rewrite Hg, bind_run, Hmeta.
  by rewrite bind_run, for_fold_skip.
Qed.

(** Remote failures never end [deleteSchemas]: once the index is
    fetched, and when every file of the pattern is well named and has a
    record in the index, the command returns whatever the service answers
    to the deletions. *)
Theorem deleteSchemas_survives_rejections g files meta w :
  (getExistingSchemas w).1 = Ok meta →
  objectTypes d g = resolved <$> files →
  Forall (λ f, non_nullish (field (VObj meta) f.2)) files →
  (deleteSchemas d g w).1 = Ok ().
Proof.
  intros Hmeta Hg Hfiles. unfold deleteSchemas. rewrite Hg, bind_run.
  destruct (getExistingSchemas w) as [[meta'|e] w1]; simplify_eq/=.
  apply for_of_Ok. intros x w' (f & -> & Hf)%list_elem_of_fmap.
  apply delete_one_Ok. by eapply Forall_forall in Hfiles.
Qed.

(** C32. A path that does not match the pattern ends [createSchemas] with a
    [TypeError], but only when the loop reaches it: the schemas of the
    well-formed files before it have all been submitted by then. *)
Theorem createSchemas_late_failure g files rest meta w w1 :
  getExistingSchemas w = (Ok meta, w1) →
  objectTypes d g = (resolved <$> files) ++ VNull :: rest →
  Forall (loadable_file d) files →
  (createSchemas d g w).1 = Err TypeError ∧
  calls (createSchemas d g w).2 = calls w1 ++ (create_request ∘ schema_of d <$> files).
Proof.
  intros Hmeta Hg Hfiles. unfold createSchemas. rewrite Hg, bind_run, Hmeta.
  rewrite bind_run, for_fold_app.
  destruct (create_files_run d files (meta, []) w1 Hfiles) as (st & Hok & _ & Hc); [done|].
  destruct (for_fold (resolved <$> files) _ _ w1) as [[st'|e] w2]; simplify_eq/=.
  done.
Qed.

(** C31. When two files resolve to the same object type and the first
    [updateSchema] returns, the command throws a [TypeError] at the second:
    the first call deleted [properties] from the entry of the index, which
    the second call is given. *)
Theorem updateSchemas_same_type_twice g (dir1 dir2 name : string) schema1 schema2 meta w w1 done1 w2 :
  getExistingSchemas w = (Ok meta, w1) →
  objectTypes d g = [resolved (dir1, name); resolved (dir2, name)] →
  read_json d (path_of dir1 name) = Ok schema1 →
  read_json d (path_of dir2 name) = Ok schema2 →
  truthy (field (VObj meta) name) →
  updateSchema schema1 (field (VObj meta) name) w1 = (Ok done1, w2) →
  updateSchemas d g w = (Err TypeError, w2).
Proof.
  intros Hmeta Hg Hr1 Hr2 Hrec Hfirst. unfold updateSchemas.
  rewrite Hg, bind_run, Hmeta, bind_run. cbn [for_fold].
  rewrite bind_run, (update_one_present d meta (dir1, name) schema1) by done.
  simpl. rewrite Hfirst. destruct done1 as [us' cs'].
  destruct (updateSchema_consumed _ _ _ _ _ _ schema2 w2 Hfirst) as [Hcs' Hsecond].
  rewrite bind_run, (update_one_present d _ (dir2, name) schema2); simpl.
  - unfold field. rewrite get_prop_obj, assoc_set_lookup, decide_True by done. simpl.
    by rewrite Hsecond.
  - done.
  - unfold field. rewrite get_prop_obj, assoc_set_lookup, decide_True by done. done.
Qed.

End theorems.

(** ** Worked scenarios *)

(** The response of the service to the fetch of the index. *)
Definition ex_index (records : list value) : result value :=
  Ok (VObj [("results", VArr records)]).

Definition ex_assigned (id : string) : result value :=
  Ok (VObj [("objectTypeId", VStr id)]).

(** Scenario 4 of the specification: [company.json] declares an
    association to [deal]; both schemas are created, and the association is
    submitted with the identifiers the service assigned in this run. *)
Example createSchemas_scenario :
  createSchemas ex_disk "schemas/*.json"
    (ex_world [ex_index []; ex_assigned "2-10"; ex_assigned "2-11"]) =
  (Ok (),
   World [] ["Created company"; "Created deal"]
     [ schemas_request;
       create_request (VObj [("name", VStr "company")]);
       create_request ex_deal;
       Request POST "/crm/v3/schemas/2-10/associations"
         (VObj [("name", VStr "company_to_deal");
                ("fromObjectTypeId", VStr "2-10");
                ("toObjectTypeId", VStr "2-11")]) ]).
Proof. reflexivity. Qed.


(** Scenario 1: the local file has no remote record. *)
Definition ex_contact : value :=
  VObj [("name", VStr "contact_custom");
        ("properties", VArr [mk_prop "foo" [("type", VStr "string")]])].

Definition ex_disk_contact : disk :=
  Disk (λ _, ["schemas/contact_custom.json"]) (λ _, Ok ex_contact).

(** Two files of the same object type. *)
Definition ex_disk_twice : disk :=
  Disk (λ _, ["a/deal_x.json"; "b/deal_x.json"]) (λ _, Ok ex_local).


Lemma createSchemas_survives_rejections_witness :
  (createSchemas ex_disk "schemas/*.json"
     (ex_world [ex_index []; Err HttpError; Err HttpError; Err HttpError])).1 = Ok ().
Proof.
  apply (createSchemas_survives_rejections ex_disk "schemas/*.json" ex_files);
    [by eexists | reflexivity | compute_done].
Defined.

Lemma resolve_spec_witness :
  resolve [("deal", VObj [("objectTypeId", VStr "2-11")])] (VStr "deal") =
  match assoc [("deal", VObj [("objectTypeId", VStr "2-11")])] "deal" with
  | Some record => or_default (field record "objectTypeId") (VStr "deal")
  | None => VStr "deal"
  end.
Proof. apply resolve_spec; compute_done. Defined.

Lemma deleteSchemas_missing_witness :
  (deleteSchemas ex_disk "schemas/*.json"
     (ex_world [ex_index [VObj [("name", VStr "company"); ("objectTypeId", VStr "2-1")]]])).1 =
  Err TypeError.
Proof.
  apply (deleteSchemas_missing ex_disk "schemas/*.json"
           [("schemas", "company")] ("schemas", "deal") []
           [("company", VObj [("name", VStr "company"); ("objectTypeId", VStr "2-1")])]);
    [reflexivity | reflexivity | compute_done | reflexivity].
Defined.

Lemma updateSchemas_skips_missing_witness :
  updateSchemas ex_disk_contact "schemas/*.json" (ex_world [ex_index []]) =
  (Ok (),
   World (remote (World [] [] [schemas_request]))
     (console (World ([] : list (result value)) [] [schemas_request]) ++
        (skip_line <$> [("schemas", "contact_custom")]))
     (calls (World ([] : list (result value)) [] [schemas_request]))).
Proof.
  apply (updateSchemas_skips_missing ex_disk_contact "schemas/*.json"
           [("schemas", "contact_custom")] []);
    [reflexivity | reflexivity | ].
  repeat constructor. by eexists.
Defined.

Lemma createSchemas_late_failure_witness :
  (createSchemas ex_disk "*.json" (ex_world [ex_index []; ex_assigned "2-11"])).1 =
    Err TypeError ∧
  calls (createSchemas ex_disk "*.json" (ex_world [ex_index []; ex_assigned "2-11"])).2 =
    calls (World [ex_assigned "2-11"] [] [schemas_request]) ++
    (create_request ∘ schema_of ex_disk <$> [("schemas", "deal")]).
Proof.
  apply (createSchemas_late_failure ex_disk "*.json" [("schemas", "deal")] [] []);
    [reflexivity | reflexivity | compute_done].
Defined.

Lemma updateSchemas_same_type_twice_witness :
  updateSchemas ex_disk_twice "*/deal_x.json" (ex_world [ex_index [ex_remote]]) =
  (Err TypeError,
   World [] [ "Deleting property legacy_field on deal_x";
              "Creating property fresh on deal_x";
              "Updating property amount on deal_x" ]
     (schemas_request :: ex_requests)).
Proof.
  apply (updateSchemas_same_type_twice ex_disk_twice "*/deal_x.json" "a" "b" "deal_x"
           ex_local ex_local [("deal_x", ex_remote)] _
           (World [] [] [schemas_request]) ex_done);
    reflexivity.
Defined.

Lemma deleteSchemas_survives_rejections_witness :
  (deleteSchemas ex_disk "schemas/*.json"
     (ex_world [ex_index [VObj [("name", VStr "company"); ("objectTypeId", VStr "2-1")];
                          VObj [("name", VStr "deal"); ("objectTypeId", VStr "2-2")]];
                Err HttpError; Ok VNull; Err HttpError])).1 = Ok ().
Proof.
  apply (deleteSchemas_survives_rejections ex_disk "schemas/*.json" ex_files
           [("company", VObj [("name", VStr "company"); ("objectTypeId", VStr "2-1")]);
            ("deal", VObj [("name", VStr "deal"); ("objectTypeId", VStr "2-2")])]);
    [reflexivity | reflexivity | compute_done].
Defined.

Lemma index_typed_witness :
  (∀ acc st' w',
     create_one ex_disk ([("deal_x", ex_remote)], acc)
       (VArr [VStr "schemas/deal.json"; VStr "deal"])
       (ex_world [ex_assigned "2-11"]) = (Ok st', w') → typed_index st'.1) ∧
  (∀ meta' w',
     update_one ex_disk [("deal_x", ex_remote)]
       (VArr [VStr "schemas/deal.json"; VStr "deal"])
       (ex_world [ex_assigned "2-11"]) = (Ok meta', w') → typed_index meta') ∧
  (∀ name, dotless name → name ≠ "" →
     truthy (resolve [("deal_x", ex_remote)] (VStr name))).
Proof. apply index_typed. compute_done. Defined.
