(* ===== verification/Cli.v ===== *)
(** * The command line

    [src/src/cli.ts], lines 225-229: the three commands are registered with
    the commander library under their names, each with one required
    argument [<glob>], and [program.parse()] runs the action of the command
    the process arguments name.

    [program] is the table of lines 225-227.  [parse] is line 229 on the
    arguments that follow the script name: the first selects the command,
    the second is its pattern.  When no command of that name is registered
    or the pattern is missing, commander reports the usage and no action
    runs; that branch is [None].  The action is not awaited by [parse]: an
    exception of the action ends the process, which is the [Err] of [M].

    The theorems hold for every command line: which requests can be
    issued, that the fetch of the index comes first, and what a rejected
    fetch leads to. *)

From stdpp Require Import prelude strings.
From S2P Require Import Prelude JsValue Lodash Loader Remote Client Update Commands.

Section code.
Context `{Remote R} (d : disk).

(** Lines 225-227. *)
Definition program : list (string * (string → M R unit)) :=
  [("create", createSchemas d);
   ("delete", deleteSchemas d);
   ("update", updateSchemas d)].

(** The action registered under a name. *)
Definition action_of (name : string) : option (string → M R unit) :=
  snd <$> find_key fst name program.

(** Line 229. *)
Definition parse (argv : list string) : option (M R unit) :=
  match argv with
  | name :: fileGlob :: _ => action ← action_of name; Some (action fileGlob)
  | _ => None
  end.

End code.

Section theorems.
Context `{Remote R} (d : disk).
Implicit Types (w : world R) (argv : list string) (m : M R unit) (g name : string).

Lemma action_of_Some name action :
  action_of d name = Some action →
  action = createSchemas d ∨ action = deleteSchemas d ∨ action = updateSchemas d.
Proof.
  unfold action_of, find_key, program. simpl.
  repeat case_bool_decide; simpl; intros [= <-]; auto.
Qed.

(** What [parse] runs is one of the three commands on the pattern given. *)
Lemma parse_Some argv m :
  parse d argv = Some m →
  ∃ g, m = createSchemas d g ∨ m = deleteSchemas d g ∨ m = updateSchemas d g.
Proof.
  destruct argv as [|name [|g rest]]; try done. simpl.
  destruct (action_of d name) as [action|] eqn:Hname; [|done].
  intros [= <-]. exists g. by destruct (action_of_Some _ _ Hname) as [-> | [-> | ->]]; auto.
Qed.

(** Whatever the command line, the requests of the command it runs
    begin with the fetch of the index, and every request after it is one
    of the requests of the protocol: the creation of a schema or of an
    association, the deletion or the purge of a schema, a change of a
    property. *)
Theorem parse_requests argv m w :
  parse d argv = Some m →
  ∃ rest, calls (m w).2 = calls w ++ schemas_request :: rest ∧
          Forall is_endpoint rest.
Proof.
  intros [g [-> | [-> | ->]]]%parse_Some;
    [unfold createSchemas|unfold deleteSchemas|unfold updateSchemas];
    apply fetch_then; intros meta; solve_endpoints.
Qed.

(** Whatever the command line, a rejected fetch of the index ends the
    command with the error of the rejection: nothing is logged and nothing
    else is requested. *)
Theorem parse_fetch_rejected argv m w e rem :
  parse d argv = Some m →
  serve schemas_request (remote w) = (Err e, rem) →
  m w = (Err e, World rem (console w) (calls w ++ [schemas_request])).
Proof.
  intros [g [-> | [-> | ->]]]%parse_Some Hs;
    [unfold createSchemas|unfold deleteSchemas|unfold updateSchemas];
    rewrite (fetch_rejected _ _ _ _ Hs); unfold after; by rewrite app_nil_r.
Qed.

(** The command line selects the command by its name and hands it the
    pattern; without a pattern, or under another name, no command runs. *)
Theorem parse_spec argv :
  parse d argv =
  match argv with
  | name :: g :: _ =>
      if decide (name = "create") then Some (createSchemas d g)
      else if decide (name = "delete") then Some (deleteSchemas d g)
      else if decide (name = "update") then Some (updateSchemas d g)
      else None
  | _ => None
  end.
Proof.
  destruct argv as [|name [|g rest]]; try done.
  unfold parse, action_of, find_key, program. simpl.
  repeat (case_bool_decide; [by rewrite decide_True|rewrite decide_False by done]).
  done.
Qed.

End theorems.

(** ** Worked command lines *)

Lemma parse_requests_witness :
  ∃ rest,
    calls (updateSchemas ex_disk "schemas/*.json" (ex_world [Err HttpError])).2 =
      calls (ex_world [Err HttpError]) ++ schemas_request :: rest ∧
    Forall is_endpoint rest.
Proof.
  apply (parse_requests ex_disk ["update"; "schemas/*.json"]). reflexivity.
Defined.

Lemma parse_fetch_rejected_witness :
  deleteSchemas ex_disk "schemas/*.json" (ex_world [Err HttpError]) =
  (Err HttpError, World [] [] [schemas_request]).
Proof.
  apply (parse_fetch_rejected ex_disk ["delete"; "schemas/*.json"; "extra"]
           _ (ex_world [Err HttpError])); reflexivity.
Defined.

Example parse_no_command :
  parse (R := list (result value)) ex_disk ["upgrade"; "schemas/*.json"] = None ∧
  parse (R := list (result value)) ex_disk ["update"] = None.
Proof. by split. Qed.
