(* ===== verification/Sim.v ===== *)
(** * One program on two services

    The commands of [src/src/cli.ts] are written against the interface
    [Remote], and a run depends on the service only through its answers.
    This file makes that a proof rule.  Two services are related by a
    relation [T] on their states; a request is answered [alike] when
    related states give it the same answer and are related again; and
    [sim Q m1 m2] says that two programs, run from related worlds, end
    with the same result, the same console and the same requests, in
    related worlds, with a result that satisfies [Q].

    The rules follow the constructs of the monad, as those of
    [Remote.emits] and [Cost.costs] do, so that the simulation of a
    command is read off its code: what is left to show is that the
    requests it issues are answered alike.  The functions of the client,
    [updateSchema] and the loops of [update] and [delete] are simulated
    here for any two services, from the requests on the object types of
    the files alone; when every request is answered alike, so is every
    command line ([run_alike]).  [Faults] and [Others] instantiate the
    relation. *)

From Stdlib Require Import Ascii.
From stdpp Require Import prelude strings.
From S2P Require Import Prelude JsValue Loader Reconcile Remote Client Update Commands Cli.

(** ** The judgement *)

Section sim.
Context `{Remote R1, Remote R2} (T : R1 → R2 → Prop).

(** Worlds with related services, the same console and the same
    requests. *)
Definition rel (w1 : world R1) (w2 : world R2) : Prop :=
  T (remote w1) (remote w2) ∧ console w1 = console w2 ∧ calls w1 = calls w2.

(** A request that related services answer alike. *)
Definition alike (rq : request) : Prop :=
  ∀ r1 r2, T r1 r2 →
    (serve rq r1).1 = (serve rq r2).1 ∧ T (serve rq r1).2 (serve rq r2).2.

Definition sim {A} (Q : A → Prop) (m1 : M R1 A) (m2 : M R2 A) : Prop :=
  ∀ w1 w2, rel w1 w2 →
    (m1 w1).1 = (m2 w2).1 ∧ rel (m1 w1).2 (m2 w2).2 ∧ ∀ a, (m2 w2).1 = Ok a → Q a.

Lemma sim_weaken {A} (Q Q' : A → Prop) (m1 : M R1 A) (m2 : M R2 A) :
  (∀ a, Q a → Q' a) → sim Q m1 m2 → sim Q' m1 m2.
Proof.
  intros HQ Hm w1 w2 Hw. destruct (Hm w1 w2 Hw) as (? & ? & ?). auto.
Qed.

Lemma sim_any {A} (Q : A → Prop) (m1 : M R1 A) (m2 : M R2 A) :
  sim Q m1 m2 → sim (λ _, True) m1 m2.
Proof. by apply sim_weaken. Qed.

Lemma sim_ret {A} (Q : A → Prop) (a : A) : Q a → sim Q (mret a) (mret a).
Proof. intros Ha w1 w2 Hw. split; [done|]. split; [done|]. by intros ? [= <-]. Qed.

Lemma sim_lift {A} (Q : A → Prop) (r : result A) :
  (∀ a, r = Ok a → Q a) → sim Q (lift r) (lift r).
Proof. intros Hr w1 w2 Hw. by split. Qed.

Lemma sim_log line : sim (λ _, True) (log line) (log line).
Proof.
  intros w1 w2 (Hr & Hc & Hk). split; [done|]. split; [|done].
  split; [done|]. split; [|done]. simpl. by rewrite Hc.
Qed.

Lemma sim_http rq : alike rq → sim (λ _, True) (http rq) (http rq).
Proof.
  intros Hrq w1 w2 (Hr & Hc & Hk). destruct (Hrq _ _ Hr) as [Hres Hrem].
  unfold http. destruct (serve rq (remote w1)), (serve rq (remote w2)). simpl in *.
  split; [done|]. split; [|done]. split; [done|]. split; [done|]. simpl. by rewrite Hk.
Qed.

Lemma sim_bind {A B} (P : A → Prop) (Q : B → Prop) (m1 : M R1 A) (m2 : M R2 A)
    (f1 : A → M R1 B) (f2 : A → M R2 B) :
  sim P m1 m2 → (∀ a, P a → sim Q (f1 a) (f2 a)) → sim Q (m1 ≫= f1) (m2 ≫= f2).
Proof.
  intros Hm Hf w1 w2 Hw. rewrite !bind_run. destruct (Hm w1 w2 Hw) as (Hres & Hw' & Ha).
  destruct (m1 w1) as [r1 w1'], (m2 w2) as [r2 w2']. simpl in *. subst r2.
  destruct r1 as [a|e]; [by apply Hf; [apply Ha|]|done].
Qed.

Lemma sim_try_catch {A} (Q : A → Prop) (m1 : M R1 A) (m2 : M R2 A)
    (h1 : error → M R1 A) (h2 : error → M R2 A) :
  sim Q m1 m2 → (∀ e, sim Q (h1 e) (h2 e)) → sim Q (try_catch m1 h1) (try_catch m2 h2).
Proof.
  intros Hm Hh w1 w2 Hw. unfold try_catch. destruct (Hm w1 w2 Hw) as (Hres & Hw' & Ha).
  destruct (m1 w1) as [r1 w1'], (m2 w2) as [r2 w2']. simpl in *. subst r2.
  destruct r1 as [a|e]; [done|by apply Hh].
Qed.

(** A pure step, whose result what follows may use. *)
Lemma sim_lift_bind {A B} (Q : B → Prop) (r : result A)
    (f1 : A → M R1 B) (f2 : A → M R2 B) :
  (∀ a, r = Ok a → sim Q (f1 a) (f2 a)) → sim Q (lift r ≫= f1) (lift r ≫= f2).
Proof.
  intros Hf w1 w2 Hw. rewrite !lift_bind_run. destruct r as [a|e]; [by apply Hf|done].
Qed.

(** Loops: the bodies are simulated on the elements of the list, from
    states that satisfy the invariant of the loop. *)
Lemma sim_for_fold {S A} (J : S → Prop) (l : list A)
    (body1 : S → A → M R1 S) (body2 : S → A → M R2 S) s :
  J s → (∀ s x, x ∈ l → J s → sim J (body1 s x) (body2 s x)) →
  sim J (for_fold l body1 s) (for_fold l body2 s).
Proof.
  revert s. induction l as [|x l IH]; intros s Hs Hbody; simpl; [by apply sim_ret|].
  apply (sim_bind J); [apply Hbody; [left|done]|]. intros s' Hs'.
  apply IH; [done|]. intros. apply Hbody; [by right|done].
Qed.

Lemma sim_for_of {A} (l : list A) (body1 : A → M R1 unit) (body2 : A → M R2 unit) :
  (∀ x, x ∈ l → sim (λ _, True) (body1 x) (body2 x)) →
  sim (λ _, True) (for_of l body1) (for_of l body2).
Proof.
  induction l as [|x l IH]; intros Hbody; simpl; [by apply sim_ret|].
  apply (sim_bind (λ _, True)); [apply Hbody; left|]. intros _ _.
  apply IH. intros. apply Hbody. by right.
Qed.

(** What a simulation says of two runs. *)
Lemma sim_run {A} (Q : A → Prop) (m1 : M R1 A) (m2 : M R2 A) r1 r2 c k :
  sim Q m1 m2 → T r1 r2 →
  (m1 (World r1 c k)).1 = (m2 (World r2 c k)).1 ∧
  console (m1 (World r1 c k)).2 = console (m2 (World r2 c k)).2 ∧
  calls (m1 (World r1 c k)).2 = calls (m2 (World r2 c k)).2 ∧
  T (remote (m1 (World r1 c k)).2) (remote (m2 (World r2 c k)).2).
Proof.
  intros Hm Hr. destruct (Hm (World r1 c k) (World r2 c k)) as (? & (? & ? & ?) & _); done.
Qed.

End sim.

(** Read a simulation off the code: one step per construct, leaving the
    requests to be shown alike. *)
Ltac sim_step :=
  lazymatch goal with
  | |- sim _ _ (mret _) (mret _) => by apply sim_ret
  | |- sim _ _ (lift _ ≫= _) (lift _ ≫= _) => apply sim_lift_bind; intros ? ?
  | |- sim _ _ (lift _) (lift _) => by apply sim_lift
  | |- sim _ _ (throw _) (throw _) => by apply sim_lift
  | |- sim _ _ (log _) (log _) => apply sim_log
  | |- sim _ _ (http _) (http _) => apply sim_http
  | |- sim _ _ (try_catch _ _) (try_catch _ _) => apply sim_try_catch; [|intros ?]
  | |- sim _ _ (for_of _ _) (for_of _ _) => apply sim_for_of; intros ? ?
  | |- sim _ _ (_ ≫= _) (_ ≫= _) => eapply (sim_bind _ (λ _, True)); [|intros ? _]
  | |- sim _ _ (if ?b then _ else _) (if ?b then _ else _) => destruct b
  | |- sim _ _ (match ?p with (_, _) => _ end) (match ?p with (_, _) => _ end) =>
      destruct p
  end.

Ltac solve_sim := repeat sim_step.

(** ** The requests of the programs *)

(** The identifier a record carries, and the requests on the properties
    of an object type: those of [updateSchema] on the record of that
    identifier. *)
Definition id_of (r : value) : string := to_string (field r "objectTypeId").

Definition on_properties (id : string) (rq : request) : Prop :=
  req_method rq ≠ GET ∧ ∃ x, req_path rq = "/properties/v2/" +:+ id +:+ String "/"%char x.

(** The key under which the loops look an entry of [objectTypes] up in
    the index: the identifier of its file. *)
Definition entry_key (entry : value) : option string :=
  match destructure_pair entry with
  | Ok (_, objectType) => Some (to_string objectType)
  | Err _ => None
  end.

(** An index whose records under the keys [keys] carry identifiers that
    satisfy [P]. *)
Definition covered (P : string → Prop) (keys : list string) (meta : index) : Prop :=
  ∀ key r, key ∈ keys → assoc meta key = Some r → non_nullish r → P (id_of r).

(** ** The programs, simulated *)

Section programs.
Context `{Remote R1, Remote R2} (T : R1 → R2 → Prop).
Implicit Types (us cs id entry : value) (meta : index).

Lemma getExistingSchemas_sim :
  alike T schemas_request → sim T (λ _, True) getExistingSchemas getExistingSchemas.
Proof. intros Hrq. unfold getExistingSchemas. solve_sim. exact Hrq. Qed.

Lemma deleteSchema_sim id :
  alike T (soft_delete id) → alike T (purge id) →
  sim T (λ _, True) (deleteSchema id) (deleteSchema id).
Proof. intros Hsoft Hpurge. unfold deleteSchema. solve_sim; done. Qed.

(** The record [updateSchema] is left with carries the identifier of the
    record it was given. *)
Lemma reconcile_id us cs pl us' cs' idv :
  reconcile us cs = Ok (pl, us', cs') → get_prop cs' "objectTypeId" = Ok idv →
  to_string idv = id_of cs ∧ cs' = delete_prop cs "properties".
Proof.
  intros (upd & cur & _ & Hcs & _ & -> & _)%reconcile_inv Hid. split; [|done].
  destruct (get_prop_properties_obj _ _ Hcs) as [ps ->].
  rewrite get_prop_delete_prop, decide_False in Hid by done.
  unfold id_of, field. by rewrite Hid.
Qed.

Lemma updateSchema_sim us cs :
  (∀ rq, on_properties (id_of cs) rq → alike T rq) →
  sim T (λ out, out.2 = delete_prop cs "properties") (updateSchema us cs) (updateSchema us cs).
Proof.
  intros Hrq. unfold updateSchema. apply sim_lift_bind. intros [[pl us'] cs'] Hrec.
  assert (∀ idv m x body, get_prop cs' "objectTypeId" = Ok idv → m ≠ GET →
            alike T (Request m ("/properties/v2/" +:+ to_string idv +:+ String "/"%char x) body))
    as Hid.
  { intros idv m x body [-> _]%(reconcile_id _ _ _ _ _ _ Hrec) Hm. apply Hrq.
    split; [done|]. by exists x. }
  unfold deleteProperty, createProperty, updateProperty.
  solve_sim; try (by eapply Hid).
  apply sim_ret. by apply reconcile_inv in Hrec as (upd & cur & _ & _ & _ & -> & _).
Qed.

End programs.

(** ** The loops of [update] and [delete], simulated *)

Section loops.
Context `{Remote R1, Remote R2} (T : R1 → R2 → Prop) (d : disk).
Context (P : string → Prop) (keys : list string).
Implicit Types (entry : value) (meta : index).

Lemma covered_entry meta key :
  covered P keys meta → key ∈ keys → non_nullish (field (VObj meta) key) →
  P (id_of (field (VObj meta) key)).
Proof.
  intros Hmeta Hkey. unfold field. rewrite get_prop_obj.
  destruct (assoc meta key) as [r|] eqn:Hr; [|done]. by apply (Hmeta key).
Qed.

Lemma covered_consumed meta key :
  covered P keys meta → key ∈ keys → non_nullish (field (VObj meta) key) →
  covered P keys (assoc_set meta key (delete_prop (field (VObj meta) key) "properties")).
Proof.
  intros Hmeta Hkey Hr key' r Hkey'. rewrite assoc_set_lookup.
  case_decide as Hk; [|by apply Hmeta]. intros [= <-] _.
  unfold id_of. rewrite field_delete_other by done. by apply covered_entry.
Qed.

Lemma update_one_sim meta entry :
  (∀ id rq, P id → on_properties id rq → alike T rq) →
  (∀ key, entry_key entry = Some key → key ∈ keys) → covered P keys meta →
  sim T (covered P keys) (update_one d meta entry) (update_one d meta entry).
Proof.
  intros HP Hentry Hmeta. unfold update_one, entry_key in *.
  apply sim_lift_bind. intros [fp ot] Hd. rewrite Hd in Hentry.
  apply sim_lift_bind. intros us _. apply sim_lift_bind. intros current Hcur.
  rewrite field_get_prop in Hcur by done. injection Hcur as <-.
  destruct (to_boolean _) eqn:Hb; simpl.
  - apply truthy_non_nullish in Hb.
    apply (sim_bind _ (λ out, out.2 = delete_prop (field (VObj meta) (to_string ot))
                                        "properties")).
    + apply updateSchema_sim. intros rq. apply HP, covered_entry; auto.
    + intros [us' cs'] ->. apply sim_ret, covered_consumed; auto.
  - eapply (sim_bind _ (λ _, True)); [apply sim_log|]. intros _ _. by apply sim_ret.
Qed.

Lemma delete_one_sim meta entry :
  (∀ idv, P (to_string idv) → alike T (soft_delete idv) ∧ alike T (purge idv)) →
  (∀ key, entry_key entry = Some key → key ∈ keys) → covered P keys meta →
  sim T (λ _, True) (delete_one meta entry) (delete_one meta entry).
Proof.
  intros HP Hentry Hmeta. unfold delete_one, entry_key in *.
  apply sim_lift_bind. intros [fp ot] Hd. rewrite Hd in Hentry.
  apply sim_lift_bind. intros record Hrec.
  rewrite field_get_prop in Hrec by done. injection Hrec as <-.
  apply sim_lift_bind. intros idv Hid.
  assert (non_nullish (field (VObj meta) (to_string ot))) as Hr.
  { apply (get_prop_is_Ok _ "objectTypeId"). by eexists. }
  rewrite field_get_prop in Hid by done. injection Hid as <-.
  destruct (HP (field (field (VObj meta) (to_string ot)) "objectTypeId")) as [Hsoft Hpurge].
  { apply covered_entry; auto. }
  eapply (sim_bind _ (λ _, True)); [by apply deleteSchema_sim|]. intros [] _; solve_sim.
Qed.

(** The loops, from an index that is covered for the identifiers of the
    files. *)
Lemma update_loop_sim meta l :
  (∀ id rq, P id → on_properties id rq → alike T rq) →
  omap entry_key l ⊆ keys → covered P keys meta →
  sim T (λ _, True) (for_fold l (update_one d) meta;; mret ())
    (for_fold l (update_one d) meta;; mret ()).
Proof.
  intros HP Hl Hmeta. eapply (sim_bind _ (covered P keys)); [|intros; by apply sim_ret].
  apply sim_for_fold; [done|]. intros meta' entry Hentry Hmeta'.
  apply update_one_sim; [done| |done]. intros key Hkey. apply Hl.
  apply list_elem_of_omap. eauto.
Qed.

Lemma delete_loop_sim meta l :
  (∀ idv, P (to_string idv) → alike T (soft_delete idv) ∧ alike T (purge idv)) →
  omap entry_key l ⊆ keys → covered P keys meta →
  sim T (λ _, True) (for_of l (delete_one meta)) (for_of l (delete_one meta)).
Proof.
  intros HP Hl Hmeta. apply sim_for_of. intros entry Hentry.
  apply delete_one_sim; [done| |done]. intros key Hkey. apply Hl.
  apply list_elem_of_omap. eauto.
Qed.

End loops.

(** ** Services that answer every request alike *)

Section total.
Context `{Remote R1, Remote R2} (T : R1 → R2 → Prop) (d : disk).
Hypothesis all_alike : ∀ rq, alike T rq.
Implicit Types (g : string) (argv : list string).

Lemma createSchema_sim s : sim T (λ _, True) (createSchema s) (createSchema s).
Proof. unfold createSchema. solve_sim. apply all_alike. Qed.

Lemma createAssociation_sim a :
  sim T (λ _, True) (createAssociation a) (createAssociation a).
Proof. unfold createAssociation. solve_sim. apply all_alike. Qed.

Lemma createSchemas_sim g : sim T (λ _, True) (createSchemas d g) (createSchemas d g).
Proof.
  unfold createSchemas. eapply (sim_bind _ (λ _, True));
    [by apply getExistingSchemas_sim|]. intros meta _.
  eapply (sim_bind _ (λ _, True)).
  - apply sim_for_fold; [done|]. intros st entry _ _. unfold create_one.
    solve_sim. apply createSchema_sim.
  - intros st _. apply sim_for_of. intros a _. unfold associate.
    solve_sim. apply createAssociation_sim.
Qed.

Lemma deleteSchemas_sim g : sim T (λ _, True) (deleteSchemas d g) (deleteSchemas d g).
Proof.
  unfold deleteSchemas. eapply (sim_bind _ (λ _, True));
    [by apply getExistingSchemas_sim|]. intros meta _.
  by apply (delete_loop_sim _ (λ _, True) (omap entry_key (objectTypes d g))).
Qed.

Lemma updateSchemas_sim g : sim T (λ _, True) (updateSchemas d g) (updateSchemas d g).
Proof.
  unfold updateSchemas. eapply (sim_bind _ (λ _, True));
    [by apply getExistingSchemas_sim|]. intros meta _.
  by apply (update_loop_sim _ d (λ _, True) (omap entry_key (objectTypes d g))).
Qed.

(** Every command line runs alike on the two services. *)
Lemma parse_sim argv :
  option_Forall2 (sim T (λ _, True)) (parse d argv) (parse d argv).
Proof.
  destruct argv as [|name [|g rest]]; try constructor. unfold parse, action_of, find_key.
  simpl. repeat case_bool_decide; simpl; constructor;
    auto using createSchemas_sim, deleteSchemas_sim, updateSchemas_sim.
Qed.

Lemma run_alike argv (m1 : M R1 unit) (m2 : M R2 unit) r1 r2 c k :
  parse d argv = Some m1 → parse d argv = Some m2 → T r1 r2 →
  (m1 (World r1 c k)).1 = (m2 (World r2 c k)).1 ∧
  console (m1 (World r1 c k)).2 = console (m2 (World r2 c k)).2 ∧
  calls (m1 (World r1 c k)).2 = calls (m2 (World r2 c k)).2 ∧
  T (remote (m1 (World r1 c k)).2) (remote (m2 (World r2 c k)).2).
Proof.
  intros Hm1 Hm2. pose proof (parse_sim argv) as Hsim.
  rewrite Hm1, Hm2 in Hsim. inversion_clear Hsim as [? ? Hsim'|].
  by apply (sim_run _ (λ _, True)).
Qed.

End total.
