(* ===== verification/EndToEnd.v ===== *)
(** * The commands against the reference registry

    [Commands] proves what the three commands do whatever the service
    answers.  Here they run against the registry of [Service], so that what
    the service answers is known and the state it is left in can be stated.

    The main result is the idempotence the specification asks of [update]
    ([src/src/cli.ts], lines 210-223 with 148-208), on two real runs: the
    first run brings every record to [Registry.apply_plan] of its
    properties, and the second, on the registry the first one left, fetches
    the index and requests nothing else.  It needs the files to name
    different object types: the index is fetched once, and an entry is
    consumed by the update of its file. *)

From stdpp Require Import prelude strings.
From S2P Require Import Prelude JsValue Lodash Loader Options Reconcile Remote Client.
From S2P Require Import Update Registry Service Commands Cli.

(** ** The update of one file *)

Section files.
Context (d : disk).
Implicit Types (meta : index) (reg : registry) (f : string * string) (r : value).

(** The document of a file, and the record the index holds for it. *)
Definition local_schema f : value :=
  match read_json d (path_of f.1 f.2) with Ok us => us | Err _ => VUndefined end.

Definition entry meta f : value := field (VObj meta) f.2.

(** A file that can be updated against the record [r]: the file holds a
    schema that follows the record, and the record is the one of the
    file's name in the registry. *)
Definition ready r reg f : Prop :=
  is_Ok (read_json d (path_of f.1 f.2)) ∧
  r ∈ live reg ∧ rec_name r = f.2 ∧ follows (local_schema f) r.

#[export] Instance ready_dec r reg f : Decision (ready r reg f).
Proof. unfold ready. apply _. Defined.

(** The plan of a file, its requests, and what they make of the registry. *)
Definition file_plan r f : plan :=
  spec_plan (rec_props (local_schema f)) (rec_props r).

Definition file_ops r f : list op :=
  planned (file_plan r f) (delete_prop r "properties").

Definition file_update r reg f : registry :=
  put_props (rec_id r) (apply_plan (file_plan r f) (rec_props r)) reg.

(** A batch of files, each against the entry the index holds for it. *)
Definition batch_ops meta (files : list (string * string)) : list op :=
  mjoin ((λ f, file_ops (entry meta f) f) <$> files).

Definition batch_update meta reg (files : list (string * string)) : registry :=
  foldl (λ reg f, file_update (entry meta f) reg f) reg files.

End files.

(** ** Runs on the registry *)

Section runs.
Context (d : disk).
Implicit Types (meta : index) (reg : registry) (f : string * string) (r : value)
  (c : list string) (k : list request).

(** The fetch of the index: the live records, filed under their names. *)
Lemma getExistingSchemas_registry reg c k :
  getExistingSchemas (World reg c k) =
  (Ok (keyBy (VArr (live reg)) "name"), World reg c (k ++ [schemas_request])).
Proof. rewrite getExistingSchemas_run. simpl. unfold after. simpl. by rewrite app_nil_r. Qed.

Lemma ready_record r reg f : wf_registry reg → ready d r reg f → wf_record r.
Proof. intros Hreg (_ & Hr & _). by apply (wf_record_elem_of _ _ Hreg). Qed.

Lemma ready_truthy r reg f : wf_registry reg → ready d r reg f → truthy r.
Proof.
  intros Hreg Hf. destruct (ready_record r reg f Hreg Hf)
    as [(ps & n & l & -> & _)%schema_ok_inv _]. done.
Qed.

(** One file: the requests of its plan are accepted, the record is brought
    to the plan applied, and the entry of the index is consumed. *)
Lemma update_one_registry meta f reg c k :
  wf_registry reg → ready d (entry meta f) reg f →
  update_one d meta (resolved f) (World reg c k) =
  (Ok (assoc_set meta f.2 (delete_prop (entry meta f) "properties")),
   World (file_update d (entry meta f) reg f)
     (c ++ (op_line <$> file_ops d (entry meta f) f))
     (k ++ (op_request <$> file_ops d (entry meta f) f))).
Proof.
  intros Hreg Hf. pose proof (ready_truthy _ reg f Hreg Hf) as Htr.
  destruct Hf as ([us Hread] & Hr & _ & Hus).
  rewrite (update_one_present d meta f us) by done.
  unfold local_schema in Hus. rewrite Hread in Hus.
  fold (entry meta f). rewrite (updateSchema_registry us (entry meta f)) by done.
  unfold file_update, file_ops, file_plan, local_schema. by rewrite Hread.
Qed.

(** The registry stays well formed. *)
Lemma file_update_wf r reg f :
  wf_registry reg → ready d r reg f → wf_registry (file_update d r reg f).
Proof.
  intros Hreg Hf. apply wf_put_props; [done|].
  destruct Hf as (_ & Hr & _ & Hus).
  apply apply_plan_acceptable; [by eapply wf_record_elem_of|done].
Qed.

(** The update of a file leaves the records of other names as they are. *)
Lemma file_update_other r r' reg f :
  wf_registry reg → ready d r reg f → r' ∈ live reg → rec_name r' ≠ f.2 →
  r' ∈ live (file_update d r reg f).
Proof.
  intros (_ & Hids & _) (_ & Hr & Hname & _) Hr' Hn. unfold file_update. simpl.
  apply list_elem_of_fmap. exists r'. split; [|done].
  unfold put_rec. rewrite decide_False; [done|]. intros Hid. apply Hn.
  pose proof (find_key_NoDup rec_id _ r Hids Hr) as E1.
  pose proof (find_key_NoDup rec_id _ r' Hids Hr') as E2.
  rewrite Hid in E2. congruence.
Qed.

Lemma ready_after r r' reg f f' :
  wf_registry reg → ready d r reg f → ready d r' reg f' → f'.2 ≠ f.2 →
  ready d r' (file_update d r reg f) f'.
Proof.
  intros Hreg Hf (? & Hr' & Hn' & ?) Hne. split; [done|]. split; [|done].
  apply file_update_other; [done..|]. by rewrite Hn'.
Qed.

Lemma entry_ext meta meta' f : assoc meta f.2 = assoc meta' f.2 → entry meta f = entry meta' f.
Proof. intros Hf. unfold entry, field. by rewrite !get_prop_obj, Hf. Qed.

(** What the files of a batch have in common: different names, each ready
    against the entry of the index. *)
Definition batch_ready meta reg (files : list (string * string)) : Prop :=
  NoDup files.*2 ∧ Forall (λ f, ready d (entry meta f) reg f) files.

Lemma batch_ready_cons meta reg f files :
  wf_registry reg → batch_ready meta reg (f :: files) →
  ready d (entry meta f) reg f ∧ f.2 ∉ files.*2 ∧
  batch_ready meta (file_update d (entry meta f) reg f) files.
Proof.
  intros Hreg [Hnd Hfiles]. rewrite fmap_cons in Hnd.
  apply NoDup_cons in Hnd as [Hf Hnd]. apply Forall_cons in Hfiles as [Hrf Hfiles].
  split; [done|]. split; [done|]. split; [done|].
  apply Forall_forall. intros f' Hf'. apply ready_after; [done..| |].
  - by eapply Forall_forall in Hfiles.
  - intros Heq. apply Hf. rewrite <- Heq. by apply list_elem_of_fmap_2.
Qed.

(** A batch of files with different names: the loop of [updateSchemas]
    issues the requests of every file's plan, all accepted, whatever index
    it starts from that agrees with [meta0] on the files. *)
Lemma update_files_registry meta0 files meta reg c k :
  wf_registry reg → batch_ready meta0 reg files →
  (∀ f, f ∈ files → assoc meta f.2 = assoc meta0 f.2) →
  ∃ meta', for_fold (resolved <$> files) (update_one d) meta (World reg c k) =
    (Ok meta', World (batch_update d meta0 reg files)
                 (c ++ (op_line <$> batch_ops d meta0 files))
                 (k ++ (op_request <$> batch_ops d meta0 files))).
Proof.
  revert meta reg c k. induction files as [|f files IH]; intros meta reg c k Hreg Hfiles Hmeta.
  - exists meta. simpl. by rewrite !app_nil_r.
  - destruct (batch_ready_cons _ _ _ _ Hreg Hfiles) as (Hf & Hnew & Hrest).
    pose proof (entry_ext meta meta0 f (Hmeta f (list_elem_of_here _ _))) as He.
    rewrite fmap_cons. cbn [for_fold]. rewrite bind_run.
    rewrite update_one_registry by (by rewrite ?He). rewrite He.
    edestruct (IH (assoc_set meta f.2 (delete_prop (entry meta0 f) "properties")))
      as [meta' ->]; [by apply file_update_wf|done| |].
    + intros f' Hf'. rewrite assoc_set_lookup, decide_False; [apply Hmeta; by right|].
      intros Heq. apply Hnew. rewrite <- Heq. by apply list_elem_of_fmap_2.
    + exists meta'. unfold batch_ops. rewrite fmap_cons. simpl.
      by rewrite !fmap_app, <- !app_assoc.
Qed.

End runs.

(** ** The registry after a batch *)

Section after.
Context (d : disk).
Implicit Types (meta : index) (reg : registry) (f : string * string) (r : value)
  (files : list (string * string)).

(** The record of a file once its plan is applied. *)
Definition updated_record r f : value :=
  with_props (apply_plan (file_plan d r f) (rec_props r)) r.

Lemma batch_update_cons meta reg f files :
  batch_update d meta reg (f :: files) =
  batch_update d meta (file_update d (entry meta f) reg f) files.
Proof. done. Qed.

Lemma batch_update_wf meta reg files :
  wf_registry reg → batch_ready d meta reg files →
  wf_registry (batch_update d meta reg files).
Proof.
  revert reg. induction files as [|f files IH]; intros reg Hreg Hfiles; [done|].
  destruct (batch_ready_cons d _ _ _ _ Hreg Hfiles) as (Hf & _ & Hrest).
  rewrite batch_update_cons. apply IH; [by apply file_update_wf|done].
Qed.

(** A record of another name is still there after the batch. *)
Lemma batch_update_other meta reg files r :
  wf_registry reg → batch_ready d meta reg files →
  r ∈ live reg → rec_name r ∉ files.*2 →
  r ∈ live (batch_update d meta reg files).
Proof.
  revert reg. induction files as [|f files IH]; intros reg Hreg Hfiles Hr Hn; [done|].
  destruct (batch_ready_cons d _ _ _ _ Hreg Hfiles) as (Hf & _ & Hrest).
  rewrite fmap_cons in Hn. apply not_elem_of_cons in Hn as [Hn Hn'].
  rewrite batch_update_cons. apply IH; [by apply file_update_wf|done| |done]. by apply file_update_other.
Qed.

(** After the batch the registry holds, for every file, the record of the
    file with its plan applied. *)
Lemma batch_update_record meta reg files f :
  wf_registry reg → batch_ready d meta reg files → f ∈ files →
  updated_record (entry meta f) f ∈ live (batch_update d meta reg files).
Proof.
  revert reg. induction files as [|f0 files IH]; intros reg Hreg Hfiles Hf.
  - by apply elem_of_nil in Hf.
  - destruct (batch_ready_cons d _ _ _ _ Hreg Hfiles) as (Hf0 & Hnew & Hrest).
    rewrite batch_update_cons.
    apply elem_of_cons in Hf as [->|Hf]; [|by apply IH; [apply file_update_wf|..]].
    apply batch_update_other; [by apply file_update_wf|done| |].
    + destruct Hf0 as (_ & Hr & _). unfold file_update. simpl.
      apply list_elem_of_fmap. exists (entry meta f0). split; [|done].
      unfold put_rec, updated_record. by rewrite decide_True.
    + unfold updated_record. rewrite rec_name_with_props.
      by destruct Hf0 as (_ & _ & -> & _).
Qed.

End after.

(** ** The second run *)

(** The index [getExistingSchemas] builds from a registry. *)
Definition index_of (reg : registry) : index := keyBy (VArr (live reg)) "name".

(** Local properties whose fields compare equal to their own copies. *)
Definition stable_file (d : disk) (f : string * string) : Prop :=
  Forall stable (rec_props (local_schema d f)).

#[export] Instance stable_file_dec d f : Decision (stable_file d f).
Proof. unfold stable_file. apply _. Defined.

Section second.
Context (d : disk).
Implicit Types (meta : index) (reg : registry) (f : string * string) (r : value)
  (files : list (string * string)) (c : list string) (k : list request).

(** The index holds every record of the registry under its name. *)
Lemma entry_index reg r f :
  wf_registry reg → r ∈ live reg → rec_name r = f.2 → entry (index_of reg) f = r.
Proof.
  intros (_ & _ & Hnames & _) Hr Hn. unfold entry, index_of, field.
  rewrite get_prop_obj, <- Hn. by rewrite (keyBy_NoDup _ "name" r).
Qed.

Lemma apply_plan_nil l : apply_plan (Plan [] [] []) l = l.
Proof.
  unfold apply_plan. simpl. rewrite app_nil_r, filter_all, list_fmap_id; [done|].
  intros q _. apply not_elem_of_nil.
Qed.

(** A file whose plan is empty leaves the registry as it is. *)
Lemma file_update_noop r reg f :
  wf_registry reg → ready d r reg f → file_plan d r f = Plan [] [] [] →
  file_update d r reg f = reg ∧ file_ops d r f = [].
Proof.
  intros Hreg (_ & Hr & _) Hpl. unfold file_update, file_ops. rewrite Hpl, apply_plan_nil.
  split; [|done]. apply put_props_same; [done|]. by apply lookup_id_elem_of.
Qed.

Lemma batch_noop meta reg files :
  wf_registry reg → batch_ready d meta reg files →
  Forall (λ f, file_plan d (entry meta f) f = Plan [] [] []) files →
  batch_update d meta reg files = reg ∧ batch_ops d meta files = [].
Proof.
  intros Hreg Hfiles Hpl. induction Hpl as [|f files Hf Hpl IH]; [done|].
  destruct (batch_ready_cons d _ _ _ _ Hreg Hfiles) as (Hrf & _ & Hrest).
  destruct (file_update_noop _ reg f Hreg Hrf Hf) as [Hu Ho].
  rewrite Hu in Hrest. destruct (IH Hrest) as [IHu IHo].
  rewrite batch_update_cons, Hu, IHu. split; [done|]. unfold batch_ops in *.
  rewrite fmap_cons. cbn [mjoin list_join]. rewrite Ho. exact IHo.
Qed.

(** After the batch every file is ready again, and its plan is empty. *)
Lemma second_ready meta reg files f :
  wf_registry reg → batch_ready d meta reg files → stable_file d f → f ∈ files →
  let reg' := batch_update d meta reg files in
  ready d (entry (index_of reg') f) reg' f ∧
  file_plan d (entry (index_of reg') f) f = Plan [] [] [].
Proof.
  intros Hreg Hfiles Hst Hf reg'.
  pose proof (batch_update_wf d meta reg files Hreg Hfiles) as Hreg'.
  pose proof (batch_update_record d meta reg files f Hreg Hfiles Hf) as Hr'.
  destruct Hfiles as [_ Hfiles]. eapply Forall_forall in Hfiles; [|exact Hf].
  pose proof (ready_record d _ reg f Hreg Hfiles) as Hwf.
  destruct Hfiles as (Hread & _ & Hname & Hus).
  destruct (follows_applied _ _ Hwf Hus Hst) as (Hus' & Hpl & Hacc).
  assert (rec_name (updated_record d (entry meta f) f) = f.2) as Hname'
    by (unfold updated_record; by rewrite rec_name_with_props).
  rewrite (entry_index reg' _ f Hreg' Hr' Hname'). split; [done|].
  unfold updated_record, file_plan.
  by destruct (with_props_record _ _ Hwf Hacc) as (_ & _ & _ & ->).
Qed.

(** The first run, in full. *)
Lemma updateSchemas_registry g files reg c k :
  wf_registry reg → objectTypes d g = resolved <$> files →
  batch_ready d (index_of reg) reg files →
  updateSchemas d g (World reg c k) =
  (Ok (), World (batch_update d (index_of reg) reg files)
            (c ++ (op_line <$> batch_ops d (index_of reg) files))
            (k ++ schemas_request :: (op_request <$> batch_ops d (index_of reg) files))).
Proof.
  intros Hreg Hg Hfiles. unfold updateSchemas.
  rewrite bind_run, getExistingSchemas_registry. cbn beta iota.
  rewrite bind_run, Hg. fold (index_of reg).
  destruct (update_files_registry d (index_of reg) files (index_of reg) reg c
              (k ++ [schemas_request])) as [meta' ->]; [done..|].
  by rewrite <- app_assoc.
Qed.

End second.

(** ** Command lines *)

(** The run of a command line against the registry: the outcome of the
    command and the world it leaves, when the command line names a command. *)
Definition run (d : disk) (argv : list string) (w : world registry)
    : option (result unit * world registry) :=
  m ← parse d argv; Some (m w).

(** ** Theorems *)

Section theorems.
Context (d : disk).
Implicit Types (reg : registry) (f : string * string) (r : value)
  (files : list (string * string)) (c : list string) (k : list request).

(** C8. Idempotence of [update], on two runs against the registry.  When
    the files name different object types, each with a record in the
    registry, and hold acceptable properties of distinct names whose fields
    are primitives or well-formed option lists, the first run returns, and
    the second run, on the registry as the first left it, fetches the index
    and does nothing else: no other request, no line on the console, the
    registry unchanged. *)
Theorem update_twice g files reg c k :
  wf_registry reg → objectTypes d g = resolved <$> files →
  batch_ready d (index_of reg) reg files → Forall (stable_file d) files →
  ∃ reg' c' k',
    updateSchemas d g (World reg c k) = (Ok (), World reg' c' k') ∧
    updateSchemas d g (World reg' c' k') =
      (Ok (), World reg' c' (k' ++ [schemas_request])).
Proof.
  intros Hreg Hg Hfiles Hst.
  pose proof (batch_update_wf d _ reg files Hreg Hfiles) as Hreg'.
  eexists _, _, _. split; [by apply updateSchemas_registry|].
  assert (∀ f, f ∈ files →
            ready d (entry (index_of (batch_update d (index_of reg) reg files)) f)
              (batch_update d (index_of reg) reg files) f ∧
            file_plan d (entry (index_of (batch_update d (index_of reg) reg files)) f) f =
              Plan [] [] []) as Hsecond.
  { intros f Hf. apply second_ready; [done..| |done]. by eapply Forall_forall in Hst. }
  assert (batch_ready d (index_of (batch_update d (index_of reg) reg files))
            (batch_update d (index_of reg) reg files) files) as Hready.
  { split; [by destruct Hfiles|]. apply Forall_forall. intros f Hf. by apply Hsecond. }
  rewrite (updateSchemas_registry d g files (batch_update d (index_of reg) reg files))
    by done.
  destruct (batch_noop d _ _ _ Hreg' Hready) as [-> ->].
  { apply Forall_forall. intros f Hf. by apply Hsecond. }
  simpl. by rewrite app_nil_r.
Qed.

(** [update] implements the promised diff on the registry.  When the
    files name different object types, each with a record in the registry
    that the file's schema follows, the command returns; the registry is
    well formed; the record of every file keeps its identifier and holds
    its former properties with the file's diff applied ([apply_plan]); and
    the records of other names are as they were. *)
Theorem updateSchemas_applied g files reg c k :
  wf_registry reg → objectTypes d g = resolved <$> files →
  batch_ready d (index_of reg) reg files →
  ∃ w', updateSchemas d g (World reg c k) = (Ok (), w') ∧
    wf_registry (remote w') ∧
    (∀ f, f ∈ files →
       ∃ r r', r ∈ live reg ∧ rec_name r = f.2 ∧
         r' ∈ live (remote w') ∧ rec_name r' = f.2 ∧ rec_id r' = rec_id r ∧
         rec_props r' =
           apply_plan (spec_plan (rec_props (local_schema d f)) (rec_props r))
             (rec_props r)) ∧
    (∀ r, r ∈ live reg → rec_name r ∉ files.*2 → r ∈ live (remote w')).
Proof.
  intros Hreg Hg Hfiles. eexists. split; [by apply updateSchemas_registry|]. simpl.
  split; [by apply batch_update_wf|]. split; [|intros; by apply batch_update_other].
  intros f Hf. exists (entry (index_of reg) f), (updated_record d (entry (index_of reg) f) f).
  pose proof (batch_update_record d _ reg files f Hreg Hfiles Hf) as Hr'.
  destruct Hfiles as [_ Hfiles]. eapply Forall_forall in Hfiles; [|exact Hf].
  pose proof (ready_record d _ reg f Hreg Hfiles) as Hwf.
  destruct Hfiles as (_ & Hr & Hname & Hus).
  destruct (with_props_record _ _ Hwf (apply_plan_acceptable _ _ Hwf Hus))
    as (_ & Hid & Hn & Hp).
  unfold updated_record, file_plan in *. by rewrite Hn.
Qed.

(** The registry stays well formed under every command line: whatever
    the files hold, and whichever requests the command comes to issue, the
    live records remain accepted schemas with one record per identifier and
    per name. *)
Theorem run_keeps_registry argv w out :
  run d argv w = Some out → wf_registry (remote w) → wf_registry (remote out.2).
Proof.
  unfold run. destruct (parse d argv) as [m|] eqn:Hm; [|done]. intros [= <-].
  apply parse_Some in Hm as [g Hm]. apply (emits_invariant wf_registry is_endpoint).
  - intros rq rem _. apply serve_wf.
  - destruct Hm as [-> | [-> | ->]];
      auto using createSchemas_endpoints, deleteSchemas_endpoints,
        updateSchemas_endpoints.
Qed.

End theorems.

(** ** A worked update, run twice *)

Definition ex_registry : registry := Registry [ex_remote] [] 124.

Definition ex_disk_deal : disk :=
  Disk (λ _, ["schemas/deal_x.json"]) (λ _, Ok ex_local).

Lemma update_twice_witness :
  ∃ reg' c' k',
    updateSchemas ex_disk_deal "schemas/*.json" (World ex_registry [] []) =
      (Ok (), World reg' c' k') ∧
    updateSchemas ex_disk_deal "schemas/*.json" (World reg' c' k') =
      (Ok (), World reg' c' (k' ++ [schemas_request])).
Proof.
  apply (update_twice ex_disk_deal "schemas/*.json" [("schemas", "deal_x")]);
    [compute_done | reflexivity | split; compute_done | compute_done].
Defined.

Lemma updateSchemas_applied_example :
  ∃ w', updateSchemas ex_disk_deal "schemas/*.json" (World ex_registry [] []) = (Ok (), w') ∧
    wf_registry (remote w') ∧
    (∀ f, f ∈ [("schemas", "deal_x")] →
       ∃ r r', r ∈ live ex_registry ∧ rec_name r = f.2 ∧
         r' ∈ live (remote w') ∧ rec_name r' = f.2 ∧ rec_id r' = rec_id r ∧
         rec_props r' =
           apply_plan (spec_plan (rec_props (local_schema ex_disk_deal f)) (rec_props r))
             (rec_props r)) ∧
    (∀ r, r ∈ live ex_registry → rec_name r ∉ [("schemas", "deal_x")].*2 →
          r ∈ live (remote w')).
Proof.
  apply (updateSchemas_applied ex_disk_deal "schemas/*.json" [("schemas", "deal_x")]);
    [compute_done | reflexivity | split; compute_done].
Defined.

Lemma run_keeps_registry_example :
  wf_registry
    (remote (updateSchemas ex_disk_deal "schemas/*.json" (World ex_registry [] [])).2).
Proof.
  apply (run_keeps_registry ex_disk_deal ["update"; "schemas/*.json"]
           (World ex_registry [] []) _ eq_refl).
  compute_done.
Defined.

(** The registry after the first run of the worked update. *)
Example update_twice_registry :
  remote (updateSchemas ex_disk_deal "schemas/*.json" (World ex_registry [] [])).2 =
  Registry [with_props (apply_plan ex_plan ex_cur) ex_remote] [] 124.
Proof. reflexivity. Qed.
