(* ===== verification/Lifecycle.v ===== *)
(** * Deleting and creating against the reference registry

    [deleteSchemas] and [createSchemas] ([src/src/cli.ts], lines 74-131)
    run against the registry of [Service].  The theorems of [Commands] say
    that these commands survive whatever the service answers; here the
    answers are those of the registry, and the theorems say what the
    commands achieve.

    [delete]: every object type the files name is deleted and purged, and
    the other records stay.  [create]: every schema is accepted and joins
    the records under the next identifier, the index learns the
    identifier, and every association collected in the first loop
    resolves, in the second, to two live identifiers, so that it is
    accepted whatever the order of the files.  The loops are followed
    with the registry and the index as their state ([dropped], [added]);
    [resolves] is the invariant of the index that the second loop of
    [createSchemas] relies on. *)

From Stdlib Require Import Ascii.
From stdpp Require Import prelude strings.
From S2P Require Import Prelude JsValue Lodash Loader Options Reconcile Remote Client.
From S2P Require Import Update Registry Service Commands Cli EndToEnd.

(** ** Deleting *)

(** The registry without the record of an identifier, live or awaiting its
    purge. *)
Definition drop_record (id : string) (reg : registry) : registry :=
  Registry (filter (λ r, rec_id r ≠ id) (live reg))
    (filter (λ r, rec_id r ≠ id) (trash reg)) (issued reg).

(** The two requests that delete the record [r], and the line that
    reports it for a file. *)
Definition delete_requests (r : value) : list request :=
  [soft_delete (field r "objectTypeId"); purge (field r "objectTypeId")].

Definition deleted_line (f : string * string) : string := "Deleted " +:+ f.2.

(** The files of a batch to delete: different names, each with its record
    in the index and in the registry. *)
Definition deletable (meta : index) (reg : registry) (files : list (string * string))
    : Prop :=
  NoDup files.*2 ∧
  Forall (λ f, entry meta f ∈ live reg ∧ rec_name (entry meta f) = f.2) files.

Definition dropped (meta : index) (reg : registry) (files : list (string * string))
    : registry :=
  foldl (λ reg f, drop_record (rec_id (entry meta f)) reg) reg files.

Definition batch_deletes (meta : index) (files : list (string * string))
    : list request :=
  mjoin ((λ f, delete_requests (entry meta f)) <$> files).

(** ** Creating *)

(** The association targets a file declares, and the associations the
    first loop collects for it. *)
Definition targets_of (d : disk) (f : string * string) : list value :=
  match read_json d (path_of f.1 f.2) with
  | Ok schema =>
      match (if to_boolean (field schema "associations")
             then field schema "associations" else VArr []) with
      | VArr l => l
      | _ => []
      end
  | Err _ => []
  end.

Definition associations_of (d : disk) (f : string * string) : list value :=
  association_of (VStr f.2) <$> targets_of d f.

(** The name under which the schema of a file is submitted, and the line
    that reports its creation. *)
Definition new_name (d : disk) (f : string * string) : string :=
  rec_name (schema_of d f).

Definition created_line (f : string * string) : string := "Created " +:+ f.2.

(** The index and the registry once the schema of a file was accepted. *)
Definition add_file (d : disk) (st : index * registry) (f : string * string)
    : index * registry :=
  (assoc_set st.1 f.2 (VObj [("objectTypeId", VStr (mk_id (issued st.2)))]),
   Registry (live st.2 ++ [new_record (schema_of d f) st.2]) (trash st.2)
     (S (issued st.2))).

Definition added (d : disk) (st : index * registry) (files : list (string * string))
    : index * registry :=
  foldl (add_file d) st files.

(** The files of a batch to create: each holds a schema the registry
    accepts, under a name that is new and that no other file uses. *)
Definition creatable (d : disk) (reg : registry) (files : list (string * string)) : Prop :=
  Forall (λ f, loadable_file d f ∧ schema_ok (schema_of d f)) files ∧
  NoDup (new_name d <$> files) ∧
  Forall (λ f, new_name d f ∉ rnames (live reg)) files.

#[export] Instance creatable_dec d reg files : Decision (creatable d reg files).
Proof. unfold creatable. apply _. Defined.

(** A target that names an object type of the list. *)
Definition known (names : list string) (t : value) : Prop :=
  match t with VStr n => n ∈ names | _ => False end.

#[export] Instance known_dec names t : Decision (known names t).
Proof. unfold known. destruct t; apply _. Defined.

(** The association submitted for a collected one: both ends resolved
    against the index. *)
Definition resolved_association (meta : index) (a : value) : value :=
  VObj [("name", field a "name");
        ("fromObjectTypeId", resolve meta (field a "fromObjectTypeId"));
        ("toObjectTypeId", resolve meta (field a "toObjectTypeId"))].

(** An index that resolves: its keys are single segments, and every entry
    carries the identifier of a live record. *)
Definition resolves (meta : index) (reg : registry) : Prop :=
  Forall (λ kv, dotless kv.1 ∧
                ∃ id, field kv.2 "objectTypeId" = VStr id ∧ id ∈ ids (live reg)) meta.

(** An association from a key of the index to a key of the index or to
    the identifier of a live record. *)
Definition linked (meta : index) (reg : registry) (a : value) : Prop :=
  ∃ from to, a = association_of (VStr from) (VStr to) ∧
             from ∈ meta.*1 ∧ (to ∈ meta.*1 ∨ to ∈ ids (live reg)).

(** The targets a batch may name: its own files, the names of the records
    and their identifiers. *)
Definition targets (reg : registry) (files : list (string * string)) : list string :=
  files.*2 ++ rnames (live reg) ++ ids (live reg).

(** The requests of a creation: the schemas, then the associations with
    their ends resolved against the index [meta]. *)
Definition creation_requests (d : disk) (meta : index)
    (files : list (string * string)) : list request :=
  (create_request ∘ schema_of d <$> files) ++
  (association_request ∘ resolved_association meta <$>
     mjoin (associations_of d <$> files)).

(** The records the registry makes of the schemas of a batch, from the
    identifier [n] on. *)
Fixpoint new_records (d : disk) (n : nat) (files : list (string * string))
    : list value :=
  match files with
  | [] => []
  | f :: files' =>
      with_field "objectTypeId" (VStr (mk_id n)) (schema_of d f) ::
      new_records d (S n) files'
  end.

(** The identifiers the index holds for the files of a batch. *)
Definition file_ids (meta : index) (files : list (string * string)) : list string :=
  (λ f, rec_id (entry meta f)) <$> files.

(** ** Deletion on the registry *)

Section delete.
Context (d : disk).
Implicit Types (meta : index) (reg : registry) (f : string * string) (r : value)
  (files : list (string * string)) (c : list string) (k : list request).

Lemma serve_soft_delete id reg :
  free_of "/"%char id → serve (soft_delete (VStr id)) reg = delete_schema id reg.
Proof.
  intros Hid. unfold serve, registry_remote, serve_registry, prop_action, soft_delete.
  simpl. by rewrite endpoint_schema.
Qed.

Lemma serve_purge id reg :
  free_of "/"%char id → serve (purge (VStr id)) reg = purge_schema id reg.
Proof.
  intros Hid. unfold serve, registry_remote, serve_registry, prop_action, purge.
  simpl. by rewrite endpoint_purge.
Qed.

(** The soft delete and then the purge of a live record are accepted, and
    the record is gone. *)
Lemma deleteSchema_registry r reg c k :
  wf_registry reg → r ∈ live reg →
  deleteSchema (field r "objectTypeId") (World reg c k) =
  (Ok true, World (drop_record (rec_id r) reg) c (k ++ delete_requests r)).
Proof.
  intros Hreg Hr. destruct (wf_record_elem_of r reg Hreg Hr) as (_ & Hid & Hfree%valid_name_segment).
  rewrite deleteSchema_run. simpl. unfold delete_requests. rewrite Hid.
  rewrite serve_soft_delete by done. unfold delete_schema.
  rewrite (lookup_id_elem_of r reg) by done. simpl.
  rewrite serve_purge by done. unfold purge_schema. simpl.
  rewrite decide_True by (unfold ids; simpl; left).
  unfold after, drop_record. simpl. rewrite filter_cons_False by (simpl; auto).
  by rewrite !app_nil_r, <- app_assoc.
Qed.

Lemma delete_one_registry meta f reg c k :
  wf_registry reg → entry meta f ∈ live reg →
  delete_one meta (resolved f) (World reg c k) =
  (Ok (), World (drop_record (rec_id (entry meta f)) reg) (c ++ [deleted_line f])
            (k ++ delete_requests (entry meta f))).
Proof.
  intros Hreg Hr. rewrite delete_one_run.
  - fold (entry meta f). by rewrite deleteSchema_registry.
  - by apply (wf_record_non_nullish _ (wf_record_elem_of _ _ Hreg Hr)).
Qed.

Lemma drop_record_wf id reg : wf_registry reg → wf_registry (drop_record id reg).
Proof.
  intros Hreg. apply wf_registry_sub; [done|apply sublist_filter|].
  intros r [_ ?]%list_elem_of_filter. apply elem_of_app. by right.
Qed.

(** In a well-formed registry the identifier and the name determine each
    other. *)
Lemma same_record reg r r' :
  wf_registry reg → r ∈ live reg → r' ∈ live reg →
  rec_id r = rec_id r' ↔ rec_name r = rec_name r'.
Proof.
  intros (_ & Hids & Hnames & _) Hr Hr'. split; intros Heq.
  - pose proof (find_key_NoDup rec_id _ r Hids Hr) as E1.
    pose proof (find_key_NoDup rec_id _ r' Hids Hr') as E2.
    rewrite Heq in E1. congruence.
  - pose proof (find_key_NoDup rec_name _ r Hnames Hr) as E1.
    pose proof (find_key_NoDup rec_name _ r' Hnames Hr') as E2.
    rewrite Heq in E1. congruence.
Qed.

Lemma deletable_cons meta reg f files :
  wf_registry reg → deletable meta reg (f :: files) →
  entry meta f ∈ live reg ∧ rec_name (entry meta f) = f.2 ∧ f.2 ∉ files.*2 ∧
  deletable meta (drop_record (rec_id (entry meta f)) reg) files.
Proof.
  intros Hreg [Hnd Hfiles]. rewrite fmap_cons in Hnd.
  apply NoDup_cons in Hnd as [Hf Hnd]. apply Forall_cons in Hfiles as [[Hr Hn] Hfiles].
  split; [done|]. split; [done|]. split; [done|]. split; [done|].
  rewrite Forall_forall in Hfiles. apply Forall_forall. intros f' Hf'.
  destruct (Hfiles f' Hf') as [Hr' Hn']. split; [|done].
  apply list_elem_of_filter. split; [|done].
  rewrite (same_record reg) by done. rewrite Hn, Hn'. intros Heq. apply Hf.
  rewrite <- Heq. by apply list_elem_of_fmap_2.
Qed.

(** The loop of [deleteSchemas] on files of different names: every record
    is deleted and purged, and every deletion reported. *)
Lemma delete_files_registry meta files reg c k :
  wf_registry reg → deletable meta reg files →
  for_of (resolved <$> files) (delete_one meta) (World reg c k) =
  (Ok (), World (dropped meta reg files) (c ++ (deleted_line <$> files))
            (k ++ batch_deletes meta files)).
Proof.
  revert reg c k. induction files as [|f files IH]; intros reg c k Hreg Hfiles.
  - simpl. by rewrite !app_nil_r.
  - destruct (deletable_cons _ _ _ _ Hreg Hfiles) as (Hr & _ & _ & Hrest).
    rewrite fmap_cons. cbn [for_of]. rewrite bind_run, delete_one_registry by done.
    rewrite IH by auto using drop_record_wf. unfold batch_deletes.
    rewrite !fmap_cons. simpl. by rewrite <- !app_assoc.
Qed.

Lemma dropped_wf meta reg files :
  wf_registry reg → wf_registry (dropped meta reg files).
Proof.
  revert reg. induction files as [|f files IH]; intros reg Hreg; [done|].
  apply IH. by apply drop_record_wf.
Qed.

(** What is left: the records of the other names. *)
Lemma live_dropped meta reg files r :
  wf_registry reg → deletable meta reg files →
  r ∈ live (dropped meta reg files) ↔ r ∈ live reg ∧ rec_name r ∉ files.*2.
Proof.
  revert reg. induction files as [|f files IH]; intros reg Hreg Hfiles.
  - simpl. split; [intros ?; split; [done|apply not_elem_of_nil]|by intros [? _]].
  - destruct (deletable_cons _ _ _ _ Hreg Hfiles) as (Hr & Hn & _ & Hrest).
    change (dropped meta reg (f :: files))
      with (dropped meta (drop_record (rec_id (entry meta f)) reg) files).
    rewrite IH by auto using drop_record_wf. simpl.
    rewrite list_elem_of_filter, not_elem_of_cons. split.
    + intros [[Hid Hlive] ?]. split; [done|]. split; [|done].
      rewrite <- Hn. by rewrite <- (same_record reg).
    + intros [Hlive [Hne ?]]. split; [|done]. split; [|done].
      rewrite (same_record reg) by done. by rewrite Hn.
Qed.

(** Nothing that was deleted awaits a purge. *)
Lemma trash_dropped meta reg files r :
  r ∈ trash (dropped meta reg files) →
  r ∈ trash reg ∧ ∀ f, f ∈ files → rec_id r ≠ rec_id (entry meta f).
Proof.
  revert reg. induction files as [|f files IH]; intros reg.
  - simpl. split; [done|]. by intros f ?%elem_of_nil.
  - change (dropped meta reg (f :: files))
      with (dropped meta (drop_record (rec_id (entry meta f)) reg) files).
    intros [[Hid Hr]%list_elem_of_filter Hfiles]%IH. split; [done|].
    intros f' [->|?]%elem_of_cons; auto.
Qed.

(** What the loop of [deleteSchemas] leaves, in full. *)
Lemma dropped_registry meta reg files :
  dropped meta reg files =
  Registry (filter (λ r, rec_id r ∉ file_ids meta files) (live reg))
    (filter (λ r, rec_id r ∉ file_ids meta files) (trash reg)) (issued reg).
Proof.
  revert reg. induction files as [|f files IH]; intros reg.
  - destruct reg. simpl. f_equal; symmetry; apply filter_all; intros r _;
      apply not_elem_of_nil.
  - change (dropped meta reg (f :: files))
      with (dropped meta (drop_record (rec_id (entry meta f)) reg) files).
    rewrite IH. unfold drop_record. cbn [live trash issued].
    rewrite !list_filter_filter. unfold file_ids. rewrite fmap_cons.
    f_equal; apply list_filter_iff; intros r; rewrite not_elem_of_cons; tauto.
Qed.

Lemma deletable_index reg files :
  wf_registry reg → NoDup files.*2 →
  Forall (λ f, f.2 ∈ rnames (live reg)) files →
  deletable (index_of reg) reg files.
Proof.
  intros Hreg Hnd Hfiles. split; [done|]. eapply Forall_impl; [exact Hfiles|].
  intros f (r & Hn & Hr)%list_elem_of_fmap. simpl.
  by rewrite (entry_index reg r f).
Qed.

(** The run of [deleteSchemas], in full. *)
Lemma deleteSchemas_registry g files reg c k :
  wf_registry reg → objectTypes d g = resolved <$> files →
  deletable (index_of reg) reg files →
  deleteSchemas d g (World reg c k) =
  (Ok (), World (dropped (index_of reg) reg files) (c ++ (deleted_line <$> files))
            (k ++ schemas_request :: batch_deletes (index_of reg) files)).
Proof.
  intros Hreg Hg Hfiles. unfold deleteSchemas.
  rewrite bind_run, getExistingSchemas_registry. cbn beta iota.
  rewrite Hg. fold (index_of reg). rewrite delete_files_registry by done.
  by rewrite <- app_assoc.
Qed.

(** C13. [delete] completes against the registry.  When the files name
    different object types that the registry holds, the command returns;
    every record the files name is gone from the live records and does not
    await a purge; the other records are as they were; and every deletion
    is reported on the console, in the order of the files. *)
Theorem deleteSchemas_completes g files reg c k :
  wf_registry reg → objectTypes d g = resolved <$> files →
  NoDup files.*2 → Forall (λ f, f.2 ∈ rnames (live reg)) files →
  ∃ w', deleteSchemas d g (World reg c k) = (Ok (), w') ∧
    wf_registry (remote w') ∧
    (∀ r, r ∈ live (remote w') ↔ r ∈ live reg ∧ rec_name r ∉ files.*2) ∧
    (∀ r, r ∈ live reg → rec_name r ∈ files.*2 → rec_id r ∉ ids (trash (remote w'))) ∧
    console w' = c ++ (deleted_line <$> files).
Proof.
  intros Hreg Hg Hnd Hfiles.
  pose proof (deletable_index reg files Hreg Hnd Hfiles) as Hdel.
  eexists. split; [by apply deleteSchemas_registry|]. simpl.
  split; [by apply dropped_wf|]. split; [intros; by apply live_dropped|].
  split; [|done]. intros r Hr (f & Hn & Hf)%list_elem_of_fmap.
  intros (r' & Hid & [_ Hr']%trash_dropped)%list_elem_of_fmap.
  apply (Hr' f Hf). rewrite <- Hid. destruct Hdel as [_ Hdel].
  eapply Forall_forall in Hdel as [He Hne]; [|exact Hf].
  apply (same_record reg); [done..|]. by rewrite Hne.
Qed.

End delete.

(** ** Creation on the registry *)

Section create.
Context (d : disk).
Implicit Types (meta : index) (reg : registry) (f : string * string) (r a t : value)
  (files : list (string * string)) (c : list string) (k : list request)
  (acc : list value).

(** One file: its schema is accepted, the index learns its identifier, and
    its associations are collected. *)
Lemma create_one_registry meta acc f reg c k :
  wf_registry reg → loadable_file d f → schema_ok (schema_of d f) →
  new_name d f ∉ rnames (live reg) →
  create_one d (meta, acc) (resolved f) (World reg c k) =
  (Ok ((add_file d (meta, reg) f).1, acc ++ associations_of d f),
   World (add_file d (meta, reg) f).2 (c ++ [created_line f])
     (k ++ [create_request (schema_of d f)])).
Proof.
  unfold loadable_file, new_name, associations_of, targets_of, add_file, schema_of.
  destruct (read_json _ _) as [schema|] eqn:Hread; [|done].
  intros Hreg [Hs Harr] Hok Hname. unfold create_one, resolved.
  rewrite lift_bind_run. simpl. rewrite lift_bind_run, Hread.
  rewrite lift_bind_run, pick_non_nullish by done.
  destruct (if to_boolean _ then _ else _) as [| | | | |targets|] eqn:Ht; try done.
  rewrite lift_bind_run. simpl. rewrite bind_run.
  rewrite createSchema_run by (by apply delete_prop_non_nullish).
  simpl. unfold create_request. rewrite serve_create by done.
  destruct (new_record_spec _ reg Hok) as (Hr & _ & _ & Hf).
  rewrite (wf_record_non_nullish _ Hr), Hf, mk_id_truthy.
  run_M. unfold created_line. by rewrite !app_nil_r.
Qed.

Lemma add_file_wf meta reg f :
  wf_registry reg → schema_ok (schema_of d f) → new_name d f ∉ rnames (live reg) →
  wf_registry (add_file d (meta, reg) f).2.
Proof.
  intros Hreg Hs Hn. destruct (new_record_spec _ reg Hs) as (Hr & Hid & Hname & _).
  unfold add_file. cbn [snd].
  apply wf_registry_snoc; [done..|by rewrite Hname|rewrite Hid; by apply next_id_fresh].
Qed.

Lemma rnames_add_file meta reg f :
  schema_ok (schema_of d f) →
  rnames (live (add_file d (meta, reg) f).2) = rnames (live reg) ++ [new_name d f].
Proof.
  intros Hs. destruct (new_record_spec _ reg Hs) as (_ & _ & Hname & _).
  unfold rnames, new_name, add_file. cbn [snd live]. rewrite fmap_app.
  cbn [fmap list_fmap]. by rewrite Hname.
Qed.

Lemma ids_add_file meta reg f :
  schema_ok (schema_of d f) →
  ids (live (add_file d (meta, reg) f).2) = ids (live reg) ++ [mk_id (issued reg)].
Proof.
  intros Hs. destruct (new_record_spec _ reg Hs) as (_ & Hid & _).
  unfold ids, add_file. cbn [snd live]. rewrite fmap_app.
  cbn [fmap list_fmap]. by rewrite Hid.
Qed.

Lemma creatable_cons meta reg f files :
  creatable d reg (f :: files) →
  loadable_file d f ∧ schema_ok (schema_of d f) ∧
  (new_name d f ∉ rnames (live reg)) ∧
  creatable d (add_file d (meta, reg) f).2 files.
Proof.
  intros (Hfiles & Hnd & Hnew). apply Forall_cons in Hfiles as [[Hf Hs] Hfiles].
  rewrite fmap_cons in Hnd. apply NoDup_cons in Hnd as [Hf' Hnd].
  apply Forall_cons in Hnew as [Hn Hnew]. do 3 (split; [done|]).
  split; [done|]. split; [done|]. rewrite Forall_forall in Hnew. apply Forall_forall. intros f' Hin.
  rewrite rnames_add_file by done. rewrite not_elem_of_app, list_elem_of_singleton.
  split; [by apply Hnew|]. intros Heq. apply Hf'. rewrite <- Heq.
  by apply list_elem_of_fmap_2.
Qed.

Lemma add_file_live meta reg f :
  live (add_file d (meta, reg) f).2 = live reg ++ [new_record (schema_of d f) reg].
Proof. done. Qed.

Lemma add_file_keys meta reg f n :
  n = f.2 ∨ n ∈ meta.*1 → n ∈ (add_file d (meta, reg) f).1.*1.
Proof. apply assoc_set_has_key. Qed.

(** The index keeps resolving when a file is added. *)
Lemma add_file_resolves meta reg f :
  schema_ok (schema_of d f) → dotless f.2 → resolves meta reg →
  resolves (add_file d (meta, reg) f).1 (add_file d (meta, reg) f).2.
Proof.
  intros Hs Hf Hmeta. unfold resolves. rewrite ids_add_file by done.
  apply Forall_forall. intros kv [->|Hkv]%elem_of_assoc_set.
  - split; [done|]. exists (mk_id (issued reg)). split; [done|].
    apply elem_of_app. right. by left.
  - eapply Forall_forall in Hmeta as (Hk & id & Hid & Hin); [|exact Hkv].
    split; [done|]. exists id. split; [done|]. apply elem_of_app. by left.
Qed.

(** The first loop: every schema is accepted, in the order of the files. *)
Lemma create_files_registry files meta acc reg c k :
  wf_registry reg → creatable d reg files →
  for_fold (resolved <$> files) (create_one d) (meta, acc) (World reg c k) =
  (Ok ((added d (meta, reg) files).1, acc ++ mjoin (associations_of d <$> files)),
   World (added d (meta, reg) files).2 (c ++ (created_line <$> files))
     (k ++ (create_request ∘ schema_of d <$> files))).
Proof.
  revert meta acc reg c k.
  induction files as [|f files IH]; intros meta acc reg c k Hreg Hfiles.
  - simpl. by rewrite !app_nil_r.
  - destruct (creatable_cons meta _ _ _ Hfiles) as (Hf & Hs & Hn & Hrest).
    rewrite !fmap_cons. cbn [for_fold]. rewrite bind_run, create_one_registry by done.
    pose proof (add_file_wf meta reg f Hreg Hs Hn) as Hreg1.
    unfold added. cbn [foldl]. fold (added d (add_file d (meta, reg) f) files).
    destruct (add_file d (meta, reg) f) as [meta1 reg1]. simpl in Hreg1, Hrest.
    cbn [fst snd]. rewrite IH by done. cbn [mjoin list_join].
    by rewrite <- !app_assoc.
Qed.

(** What the first loop leaves: a well-formed registry that holds the
    former records and then those of the files, and an index that
    resolves every former key and every file. *)
Lemma added_spec files meta reg :
  wf_registry reg → creatable d reg files → Forall (λ f, dotless f.2) files →
  resolves meta reg →
  wf_registry (added d (meta, reg) files).2 ∧
  resolves (added d (meta, reg) files).1 (added d (meta, reg) files).2 ∧
  (∃ new, live (added d (meta, reg) files).2 = live reg ++ new ∧
          rec_name <$> new = new_name d <$> files) ∧
  (∀ n, n ∈ meta.*1 ∨ n ∈ files.*2 → n ∈ (added d (meta, reg) files).1.*1).
Proof.
  revert meta reg. induction files as [|f files IH]; intros meta reg Hreg Hfiles Hdot Hmeta.
  - split_and!; try done; [exists []; by rewrite app_nil_r|].
    by intros n [?|?%elem_of_nil].
  - destruct (creatable_cons meta _ _ _ Hfiles) as (Hf & Hs & Hn & Hrest).
    apply Forall_cons in Hdot as [Hdf Hdot].
    pose proof (add_file_wf meta reg f Hreg Hs Hn) as Hreg1.
    pose proof (add_file_resolves meta reg f Hs Hdf Hmeta) as Hmeta1.
    pose proof (add_file_live meta reg f) as Hlive.
    pose proof (add_file_keys meta reg f) as Hkeys.
    unfold added. cbn [foldl]. fold (added d (add_file d (meta, reg) f) files).
    destruct (add_file d (meta, reg) f) as [meta1 reg1]. cbn [fst snd] in *.
    destruct (IH meta1 reg1) as (Hwf & Hres & (new & Hl & Hnames) & Hk); [done..|].
    split_and!; [done|done| |].
    + exists (new_record (schema_of d f) reg :: new). rewrite Hl, Hlive, <- app_assoc.
      split; [done|]. rewrite !fmap_cons, Hnames. f_equal.
      by destruct (new_record_spec _ reg Hs) as (_ & _ & -> & _).
    + intros n Hn'. apply Hk. rewrite fmap_cons, elem_of_cons in Hn'.
      destruct Hn' as [?|[->|?]]; [left|left|by right]; apply Hkeys; auto.
Qed.

(** ** The second loop *)

(** The index of the fetch resolves. *)
Lemma index_resolves reg : wf_registry reg → resolves (index_of reg) reg.
Proof.
  intros Hreg. apply Forall_forall. intros [n r] [Hr Hn]%keyBy_entry. simpl in *.
  pose proof (wf_record_elem_of r reg Hreg Hr) as Hwf. split.
  - rewrite Hn. by apply valid_name_dotless, wf_record_name.
  - exists (rec_id r). split; [by destruct Hwf as (_ & ? & _)|].
    by apply list_elem_of_fmap_2.
Qed.

(** No key of an index that resolves is a path with a member. *)
Lemma resolves_member meta reg n :
  resolves meta reg → (n +:+ ".objectTypeId") ∉ meta.*1.
Proof.
  intros Hmeta (kv & Hk & Hkv)%list_elem_of_fmap.
  eapply Forall_forall in Hmeta as [Hd _]; [|exact Hkv].
  unfold dotless in Hd. rewrite <- Hk in Hd. apply free_of_app in Hd as [_ Hd].
  by apply free_of_cons in Hd as [? _].
Qed.

(** A key of an index that resolves stands for the identifier of a live
    record. *)
Lemma resolve_key meta reg n :
  resolves meta reg → n ∈ meta.*1 →
  ∃ id, resolve meta (VStr n) = VStr id ∧ id ∈ ids (live reg).
Proof.
  intros Hmeta (e & He & Hin)%assoc_is_Some.
  pose proof (resolves_member meta reg n Hmeta) as Hmem.
  eapply Forall_forall in Hmeta as (Hn & id & Hid & Hlive); [|exact Hin].
  cbn [fst snd] in Hn, Hid. exists id. split; [|done]. unfold resolve. cbn [to_string].
  rewrite lodash_get_member by done.
  unfold field at 2. rewrite get_prop_obj, He. simpl. by rewrite Hid.
Qed.

(** What is not a key resolves to itself: the identifier of a live record
    is passed through. *)
Lemma resolve_target meta reg n :
  wf_registry reg → resolves meta reg → n ∈ meta.*1 ∨ n ∈ ids (live reg) →
  ∃ id, resolve meta (VStr n) = VStr id ∧ id ∈ ids (live reg).
Proof.
  intros Hreg Hmeta Hn. destruct (decide (n ∈ meta.*1)) as [Hk|Hk];
    [by apply resolve_key|]. destruct Hn as [?|Hn]; [done|].
  exists n. split; [|done]. unfold resolve. cbn [to_string].
  rewrite lodash_get_member;
    [|by eapply valid_name_dotless, live_id_valid|by eapply resolves_member].
  unfold field at 2. apply assoc_None in Hk. by rewrite get_prop_obj, Hk.
Qed.

(** The body of the second loop submits the collected association with
    its ends resolved. *)
Lemma associate_run `{Remote R} meta a (w : world R) :
  non_nullish a →
  associate meta a w =
  (createAssociation (resolved_association meta a);; mret ()) w.
Proof.
  intros Ha. unfold associate.
  by do 3 (rewrite lift_bind_run, (field_get_prop a) by done; cbn beta iota).
Qed.

(** A linked association is accepted. *)
Lemma associate_registry meta a reg c k :
  wf_registry reg → resolves meta reg → linked meta reg a →
  associate meta a (World reg c k) =
  (Ok (), World reg c (k ++ [association_request (resolved_association meta a)])).
Proof.
  intros Hreg Hmeta (from & to & Ha & Hfrom & Hto).
  destruct (resolve_key meta reg from Hmeta Hfrom) as (idf & Hf & Hlf).
  destruct (resolve_target meta reg to Hreg Hmeta Hto) as (idt & Ht & Hlt).
  assert (non_nullish a) as Hnn by (by subst).
  assert (field a "fromObjectTypeId" = VStr from) as Hff by (by subst).
  assert (field a "toObjectTypeId" = VStr to) as Hft by (by subst).
  clear Ha. rewrite associate_run, bind_run, createAssociation_run by done.
  unfold association_request. cbn [remote].
  change (field (resolved_association meta a) "fromObjectTypeId")
    with (resolve meta (field a "fromObjectTypeId")).
  rewrite Hff, Hf. cbn [to_string].
  rewrite serve_associate; [|by eapply live_id_valid|done|].
  - unfold after. simpl. by rewrite app_nil_r.
  - change (field (resolved_association meta a) "toObjectTypeId")
      with (resolve meta (field a "toObjectTypeId")).
    by rewrite Hft, Ht.
Qed.

(** The second loop: every association is accepted. *)
Lemma associations_registry meta l reg c k :
  wf_registry reg → resolves meta reg → Forall (linked meta reg) l →
  for_of l (associate meta) (World reg c k) =
  (Ok (), World reg c
            (k ++ (association_request ∘ resolved_association meta <$> l))).
Proof.
  intros Hreg Hmeta Hl. revert k. induction Hl as [|a l Ha _ IH]; intros k.
  - simpl. by rewrite app_nil_r.
  - cbn [for_of]. rewrite bind_run, associate_registry by done.
    rewrite IH, fmap_cons. by rewrite <- app_assoc.
Qed.

(** The associations the first loop collected are linked in the index
    and the registry it leaves, when the targets are files of the batch,
    names the registry holds or identifiers of its records. *)
Lemma collected_linked files reg reg' (meta : index) :
  (∀ n, n ∈ files.*2 ++ rnames (live reg) → n ∈ meta.*1) →
  ids (live reg) ⊆ ids (live reg') →
  Forall (λ f, Forall (known (targets reg files)) (targets_of d f)) files →
  Forall (linked meta reg') (mjoin (associations_of d <$> files)).
Proof.
  intros Hkeys Hids Hfiles. apply Forall_forall. intros a Ha.
  apply list_elem_of_join in Ha as (l & Ha & (f & -> & Hf)%list_elem_of_fmap).
  apply list_elem_of_fmap in Ha as (t & -> & Ht).
  eapply Forall_forall in Hfiles; [|exact Hf].
  eapply Forall_forall in Hfiles; [|exact Ht].
  destruct t as [| | | |n| |]; try done. exists f.2, n. split; [done|]. split.
  - apply Hkeys, elem_of_app. left. by apply list_elem_of_fmap_2.
  - unfold known, targets in Hfiles. rewrite app_assoc in Hfiles.
    apply elem_of_app in Hfiles as [?|?]; [left; by apply Hkeys|right; by apply Hids].
Qed.

(** ** The command *)

Lemma objectTypes_dotless g files :
  objectTypes d g = resolved <$> files → Forall (λ f, dotless f.2) files.
Proof.
  intros Hg. apply Forall_forall. intros f Hf.
  assert (resolved f ∈ objectTypes d g) as (path & Hp & _)%list_elem_of_fmap
    by (rewrite Hg; by apply list_elem_of_fmap_2).
  symmetry in Hp. apply resolved_ident in Hp. by apply wf_ident_dotless.
Qed.

Lemma createSchemas_registry g files reg c k :
  wf_registry reg → objectTypes d g = resolved <$> files →
  creatable d reg files →
  Forall (λ f, Forall (known (targets reg files)) (targets_of d f)) files →
  createSchemas d g (World reg c k) =
  (Ok (), World (added d (index_of reg, reg) files).2 (c ++ (created_line <$> files))
            (k ++ schemas_request ::
               creation_requests d (added d (index_of reg, reg) files).1 files)).
Proof.
  intros Hreg Hg Hfiles Htargets. unfold createSchemas.
  rewrite bind_run, getExistingSchemas_registry. cbn beta iota.
  rewrite Hg. fold (index_of reg). rewrite bind_run, create_files_registry by done.
  cbn beta iota. cbn [fst snd]. rewrite app_nil_l.
  destruct (added_spec files (index_of reg) reg)
    as (Hwf & Hres & (new & Hl & _) & Hkeys);
    [done|done|by eapply objectTypes_dotless|by apply index_resolves|].
  rewrite associations_registry; [|done|done|].
  - unfold creation_requests. by rewrite <- !app_assoc.
  - apply (collected_linked files reg); [| |done].
    + intros n [?|(r & -> & Hr)%list_elem_of_fmap]%elem_of_app; apply Hkeys;
        [by right|]. left. by apply (keyBy_has_key _ "name").
    + unfold ids. rewrite Hl, fmap_app. intros id Hid. apply elem_of_app. by left.
Qed.

(** C12. [create] completes against the registry, whatever the order of
    the files.  When the files hold schemas the registry accepts, under new
    and different names, and every association target is a file of the
    batch, the name of a record or the identifier of a record, the command
    returns; the registry holds
    its former records and then one for each file, in the order of the
    files, and is well formed; the console reports every creation and no
    failure: every association was accepted, also one whose target comes
    later in the batch. *)
Theorem createSchemas_completes g files reg c k :
  wf_registry reg → objectTypes d g = resolved <$> files →
  creatable d reg files →
  Forall (λ f, Forall (known (targets reg files)) (targets_of d f)) files →
  ∃ w' new,
    createSchemas d g (World reg c k) = (Ok (), w') ∧
    wf_registry (remote w') ∧
    live (remote w') = live reg ++ new ∧ rec_name <$> new = new_name d <$> files ∧
    console w' = c ++ (created_line <$> files).
Proof.
  intros Hreg Hg Hfiles Htargets.
  destruct (added_spec files (index_of reg) reg) as (Hwf & _ & (new & Hl & Hn) & _);
    [done|done|by eapply objectTypes_dotless|by apply index_resolves|].
  eexists _, new. split; [by apply createSchemas_registry|]. by split_and!.
Qed.

End create.

(** ** Creation, then deletion *)

Section roundtrip.
Context (d : disk).
Implicit Types (meta : index) (reg : registry) (f : string * string) (r : value)
  (files : list (string * string)) (c : list string) (k : list request) (n : nat).

(** ** What the loops leave, in full *)

Lemma added_registry files meta reg :
  (added d (meta, reg) files).2 =
  Registry (live reg ++ new_records d (issued reg) files) (trash reg)
    (issued reg + length files).
Proof.
  revert meta reg. induction files as [|f files IH]; intros meta reg.
  - destruct reg. simpl. by rewrite app_nil_r, Nat.add_0_r.
  - unfold added. cbn [foldl]. fold (added d (add_file d (meta, reg) f) files).
    destruct (add_file d (meta, reg) f) as [meta1 reg1] eqn:Hadd.
    rewrite IH. injection Hadd as _ <-. cbn [live trash issued new_records length].
    unfold new_record. by rewrite <- app_assoc, Nat.add_succ_r.
Qed.

Lemma new_records_names n files :
  rec_name <$> new_records d n files = new_name d <$> files.
Proof.
  revert n. induction files as [|f files IH]; intros n; [done|].
  cbn [new_records]. rewrite !fmap_cons, IH. f_equal.
  unfold new_name, rec_name, with_field. destruct (schema_of d f); try done.
  by rewrite field_assoc_set.
Qed.

Lemma new_records_ids n files :
  Forall (λ f, schema_ok (schema_of d f)) files →
  ids (new_records d n files) = mk_id <$> seq n (length files).
Proof.
  intros Hfiles. revert n. induction Hfiles as [|f files Hf _ IH]; intros n; [done|].
  cbn [new_records length seq]. unfold ids in *. rewrite !fmap_cons, IH. f_equal.
  by destruct (with_id_record (mk_id n) _ Hf (mk_id_valid n)) as (_ & ? & _).
Qed.

(** The index of a registry files each of its records under its name. *)
Lemma file_ids_records reg recs files :
  wf_registry reg → recs ⊆ live reg → rec_name <$> recs = files.*2 →
  file_ids (index_of reg) files = ids recs.
Proof.
  intros Hreg. revert recs. induction files as [|f files IH]; intros [|r recs] Hsub Hn;
    try done.
  rewrite !fmap_cons in Hn. injection Hn as Hr Hn.
  unfold file_ids, ids in *. rewrite !fmap_cons, (entry_index reg r f); try done.
  - f_equal. apply IH; [|done]. intros r' ?. apply Hsub. by right.
  - apply Hsub. by left.
Qed.

(** The identifiers of a batch are not those issued before it. *)
Lemma batch_ids_fresh n m id :
  id ∈ mk_id <$> seq 0 n → id ∉ mk_id <$> seq n m.
Proof.
  intros (i & -> & Hi%elem_of_seq)%list_elem_of_fmap
         (j & ->%mk_id_inj & Hj%elem_of_seq)%list_elem_of_fmap. lia.
Qed.

(** C20. Creation and deletion are inverse on the registry.  When the files
    can be created, each under the name of its file, the creation of the
    batch followed by its deletion returns, and leaves the registry as it
    was: the same live records in the same order, the same records awaiting
    a purge.  Only the identifiers of the batch are used up. *)
Theorem create_delete_roundtrip g files reg c k :
  wf_registry reg → objectTypes d g = resolved <$> files → creatable d reg files →
  Forall (λ f, new_name d f = f.2) files →
  Forall (λ f, Forall (known (targets reg files)) (targets_of d f)) files →
  ∃ w1 w2,
    createSchemas d g (World reg c k) = (Ok (), w1) ∧
    deleteSchemas d g w1 = (Ok (), w2) ∧
    remote w2 = Registry (live reg) (trash reg) (issued reg + length files).
Proof.
  intros Hreg Hg Hfiles Hstems Htargets.
  assert (new_name d <$> files = files.*2) as Hnames
    by (by apply Forall_fmap_ext_1).
  destruct (added_spec d files (index_of reg) reg) as (Hwf & _);
    [done|done|by eapply objectTypes_dotless|by apply index_resolves|].
  eexists _, _. split; [by apply createSchemas_registry|].
  rewrite added_registry in *. set (recs := new_records d (issued reg) files) in *.
  pose proof (new_records_names (issued reg) files) as Hrecs. fold recs in Hrecs.
  rewrite Hnames in Hrecs.
  rewrite (deleteSchemas_registry d g files); [split; [done|]|done|done|].
  - cbn [remote]. rewrite dropped_registry. cbn [live trash issued].
    rewrite (file_ids_records _ recs) by (done || set_solver).
    destruct Hwf as (_ & Hids & _). destruct Hreg as (_ & _ & _ & Hiss).
    cbn [live] in Hids. unfold ids in Hids. rewrite fmap_app in Hids.
    apply NoDup_app in Hids as (_ & Hdisj & _).
    rewrite filter_app, (filter_all _ (live reg)), (filter_none _ recs), app_nil_r.
    + f_equal. apply filter_all. intros r Hr. unfold recs.
      rewrite new_records_ids by (destruct Hfiles as [Hf _]; eapply Forall_impl; [exact Hf|]; by intros ? [_ ?]).
      apply batch_ids_fresh. rewrite Forall_forall in Hiss. apply Hiss.
      apply list_elem_of_fmap_2, elem_of_app. by right.
    + intros r Hr Hn. apply Hn. by apply list_elem_of_fmap_2.
    + intros r Hr. apply Hdisj. by apply list_elem_of_fmap_2.
  - apply deletable_index; [done| |].
    + rewrite <- Hnames. by destruct Hfiles as (_ & ? & _).
    + apply Forall_forall. intros f Hf. unfold rnames. cbn [live].
      rewrite fmap_app, Hrecs, elem_of_app. right. by apply list_elem_of_fmap_2.
Qed.

End roundtrip.


(** ** A worked deletion *)

Lemma deleteSchemas_completes_witness :
  ∃ w', deleteSchemas ex_disk_deal "schemas/*.json" (World ex_registry [] []) = (Ok (), w') ∧
    wf_registry (remote w') ∧
    (∀ r, r ∈ live (remote w') ↔
          r ∈ live ex_registry ∧ rec_name r ∉ [("schemas", "deal_x")].*2) ∧
    (∀ r, r ∈ live ex_registry → rec_name r ∈ [("schemas", "deal_x")].*2 →
          rec_id r ∉ ids (trash (remote w'))) ∧
    console w' = [] ++ (deleted_line <$> [("schemas", "deal_x")]).
Proof.
  apply (deleteSchemas_completes ex_disk_deal "schemas/*.json" [("schemas", "deal_x")]);
    [compute_done | reflexivity | compute_done | compute_done].
Defined.

Example deleteSchemas_example :
  deleteSchemas ex_disk_deal "schemas/*.json" (World ex_registry [] []) =
  (Ok (), World (Registry [] [] 124) ["Deleted deal_x"]
            [ schemas_request;
              Request DELETE "/crm/v3/schemas/2-123" VUndefined;
              Request DELETE "/crm/v3/schemas/2-123/purge" VUndefined ]).
Proof. reflexivity. Qed.

(** ** A worked creation *)

Definition ex_cyclic_disk : disk :=
  Disk (λ _, ["schemas/company_x.json"; "schemas/deal_x.json"])
       (λ path, if decide (path = "schemas/company_x.json")
                then Ok (VObj [("name", VStr "company_x"); ("properties", VArr []);
                               ("associations", VArr [VStr "deal_x"])])
                else Ok (VObj [("name", VStr "deal_x"); ("properties", VArr ex_upd);
                               ("associations",
                                VArr [VStr "company_x"; VStr "ticket_x"; VStr "2-7"])])).

Definition ex_ticket : value :=
  VObj [("name", VStr "ticket_x"); ("objectTypeId", VStr "2-7"); ("properties", VArr [])].

Lemma createSchemas_completes_witness :
  ∃ w' new,
    createSchemas ex_cyclic_disk "schemas/*.json" (World (Registry [ex_ticket] [] 8) [] []) =
      (Ok (), w') ∧
    wf_registry (remote w') ∧
    live (remote w') = [ex_ticket] ++ new ∧
    rec_name <$> new =
      new_name ex_cyclic_disk <$> [("schemas", "company_x"); ("schemas", "deal_x")] ∧
    console w' = [] ++ (created_line <$> [("schemas", "company_x"); ("schemas", "deal_x")]).
Proof.
  apply (createSchemas_completes ex_cyclic_disk "schemas/*.json"
           [("schemas", "company_x"); ("schemas", "deal_x")]);
    [compute_done | reflexivity | compute_done | compute_done].
Defined.

Example createSchemas_cyclic :
  let w := (createSchemas ex_cyclic_disk "schemas/*.json"
              (World (Registry [ex_ticket] [] 8) [] [])).2 in
  console w = ["Created company_x"; "Created deal_x"] ∧
  ids (live (remote w)) = ["2-7"; "2-8"; "2-9"] ∧
  req_path <$> calls w =
    ["/crm/v3/schemas"; "/crm/v3/schemas"; "/crm/v3/schemas";
     "/crm/v3/schemas/2-8/associations"; "/crm/v3/schemas/2-9/associations";
     "/crm/v3/schemas/2-9/associations"; "/crm/v3/schemas/2-9/associations"] ∧
  (λ rq, field (req_body rq) "toObjectTypeId") <$> drop 3 (calls w) =
    [VStr "2-9"; VStr "2-8"; VStr "2-7"; VStr "2-7"].
Proof. by vm_compute. Qed.

(** The index is filed under the names of the records, and the commands
    look a file up under the identifier of its path: a schema whose name
    is not the stem of its file is created, and is then unknown to
    [update] and [delete]. *)
Definition ex_renamed_disk : disk :=
  Disk (λ _, ["schemas/deal_x.json"])
       (λ _, Ok (VObj [("name", VStr "deals"); ("properties", VArr ex_upd)])).

Example create_then_update_renamed :
  let w := (createSchemas ex_renamed_disk "schemas/*.json"
              (World (Registry [] [] 0) [] [])).2 in
  console w = ["Created deal_x"] ∧
  rnames (live (remote w)) = ["deals"] ∧
  updateSchemas ex_renamed_disk "schemas/*.json" (World (remote w) [] []) =
    (Ok (), World (remote w) ["Object Type deal_x does not exist to be updated."]
              [schemas_request]) ∧
  (deleteSchemas ex_renamed_disk "schemas/*.json" (World (remote w) [] [])).1 =
    Err TypeError.
Proof. by vm_compute. Qed.

Lemma create_delete_roundtrip_witness :
  ∃ w1 w2,
    createSchemas ex_cyclic_disk "schemas/*.json" (World (Registry [ex_ticket] [] 8) [] []) =
      (Ok (), w1) ∧
    deleteSchemas ex_cyclic_disk "schemas/*.json" w1 = (Ok (), w2) ∧
    remote w2 = Registry [ex_ticket] [] (8 + 2).
Proof.
  apply (create_delete_roundtrip ex_cyclic_disk "schemas/*.json"
           [("schemas", "company_x"); ("schemas", "deal_x")] (Registry [ex_ticket] [] 8));
    [compute_done | reflexivity | compute_done | compute_done | compute_done].
Defined.
