(* ===== verification/Frame.v ===== *)
(** * What a command leaves alone

    Each command of [src/src/cli.ts] has a purpose, and the registry of
    [Service] shows what it cannot do beside it, whatever the files hold
    and whatever the registry holds: [create] only adds records, [update]
    only changes the properties of records, and [delete] only removes
    records.

    The argument is by the requests: [Commands] shows which requests a
    command can issue, the path of each begins with a constant prefix, and
    the registry routes by the segments of the path. *)

From Stdlib Require Import Ascii.
From stdpp Require Import prelude strings.
From S2P Require Import Prelude JsValue Loader Remote Client Update Service Commands.

(** ** The three ways a registry can change *)

(** Records were added after the former ones. *)
Definition grows (reg reg' : registry) : Prop :=
  (∃ new, live reg' = live reg ++ new) ∧ trash reg' = trash reg.

(** A record that differs from another in its properties at most. *)
Definition same_but_props (r r' : value) : Prop := r' = r ∨ ∃ l, r' = with_props l r.

(** The records are the former ones, each with its properties changed at
    most. *)
Definition keeps (reg reg' : registry) : Prop :=
  Forall2 same_but_props (live reg) (live reg') ∧ trash reg' = trash reg ∧
  issued reg' = issued reg.

(** Records were removed, and the others are as they were. *)
Definition shrinks (reg reg' : registry) : Prop :=
  sublist (live reg') (live reg) ∧ issued reg' = issued reg.

Section relations.
Implicit Types (reg : registry) (r : value).

#[export] Instance grows_refl : Reflexive grows.
Proof. intros reg. split; [|done]. exists []. by rewrite app_nil_r. Qed.

#[export] Instance grows_trans : Transitive grows.
Proof.
  intros reg1 reg2 reg3 [[new1 H1] Ht1] [[new2 H2] Ht2]. split; [|congruence].
  exists (new1 ++ new2). by rewrite H2, H1, app_assoc.
Qed.

#[export] Instance same_but_props_refl : Reflexive same_but_props.
Proof. intros r. by left. Qed.

#[export] Instance same_but_props_trans : Transitive same_but_props.
Proof.
  intros r1 r2 r3 [->|[l1 ->]] [->|[l2 ->]]; [by left|right; eauto..|].
  right. exists l2. by rewrite with_props_with_props.
Qed.

#[export] Instance keeps_refl : Reflexive keeps.
Proof. intros reg. split; [|done]. by apply Forall_Forall2_diag, Forall_true. Qed.

#[export] Instance keeps_trans : Transitive keeps.
Proof.
  intros reg1 reg2 reg3 (H1 & ? & ?) (H2 & ? & ?). split; [|split; congruence].
  by etrans.
Qed.

#[export] Instance shrinks_refl : Reflexive shrinks.
Proof. by intros reg. Qed.

#[export] Instance shrinks_trans : Transitive shrinks.
Proof.
  intros reg1 reg2 reg3 [H1 ?] [H2 ?]. split; [|congruence]. by etrans.
Qed.

(** Records that differ in their properties at most have the same
    identifiers and names. *)
Lemma keeps_ids reg reg' :
  keeps reg reg' →
  ids (live reg') = ids (live reg) ∧ rnames (live reg') = rnames (live reg).
Proof.
  intros [Hl _]. unfold ids, rnames.
  induction Hl as [|r r' l l' Hr _ [IH1 IH2]]; [done|].
  rewrite !fmap_cons, IH1, IH2.
  by destruct Hr as [->|[l0 ->]]; rewrite ?rec_id_with_props, ?rec_name_with_props.
Qed.

End relations.

(** ** Routing by the prefix of a path *)

(** The endpoints under [/crm/], and those under [/properties/]. *)
Definition schema_endpoint (e : endpoint) : Prop :=
  match e with Properties _ | Property _ _ => False | _ => True end.

Definition property_endpoint (e : endpoint) : Prop :=
  match e with Properties _ | Property _ _ | NoEndpoint => True | _ => False end.

Section routing.
Implicit Types (x : string).

Lemma split_segment (seg x : string) :
  free_of "/"%char seg →
  split_on "/"%char (String "/" (seg +:+ String "/" x)) "" =
  "" :: seg :: split_on "/"%char x "".
Proof.
  intros Hseg. change (String "/" ?s) with ("" +:+ String "/" s) at 1.
  rewrite split_on_sep by constructor. rewrite split_on_sep by done.
  by rewrite !append_nil_l.
Qed.

Lemma endpoint_crm x : schema_endpoint (endpoint_of ("/crm/" +:+ x)).
Proof.
  unfold endpoint_of. change ("/crm/" +:+ x) with (String "/" ("crm" +:+ String "/" x)).
  rewrite split_segment by compute_done.
  destruct (split_on "/"%char x "") as [|a [|b [|c [|e [|f [|h ?]]]]]]; simpl;
    repeat case_decide; by simplify_eq.
Qed.

Lemma endpoint_props x : property_endpoint (endpoint_of ("/properties/" +:+ x)).
Proof.
  unfold endpoint_of.
  change ("/properties/" +:+ x) with (String "/" ("properties" +:+ String "/" x)).
  rewrite split_segment by compute_done.
  destruct (split_on "/"%char x "") as [|a [|b [|c [|e [|f [|h ?]]]]]]; simpl;
    repeat case_decide; by simplify_eq.
Qed.

End routing.

(** ** What each request can change *)

Section requests.
Implicit Types (reg : registry) (rq : request) (id x : string) (l : list value).

Lemma serve_fetch reg : (serve schemas_request reg).2 = reg.
Proof. done. Qed.

Lemma create_schema_grows s reg : grows reg (create_schema s reg).2.
Proof.
  unfold create_schema. case_decide; [|reflexivity]. split; [by eexists|done].
Qed.

(** A [POST] under [/crm/] adds a record or changes nothing. *)
Lemma serve_post_crm x body reg : grows reg (serve (Request POST ("/crm/" +:+ x) body) reg).2.
Proof.
  unfold serve, registry_remote, serve_registry, prop_action. cbn [req_method req_path].
  pose proof (endpoint_crm x) as He.
  destruct (endpoint_of ("/crm/" +:+ x)); try done; try reflexivity.
  - apply create_schema_grows.
  - cbn [req_body]. unfold associate_schemas. case_decide; reflexivity.
Qed.

(** A [DELETE] under [/crm/] removes a record or changes no live record. *)
Lemma serve_delete_crm x body reg :
  shrinks reg (serve (Request DELETE ("/crm/" +:+ x) body) reg).2.
Proof.
  unfold serve, registry_remote, serve_registry, prop_action. cbn [req_method req_path].
  pose proof (endpoint_crm x) as He.
  destruct (endpoint_of ("/crm/" +:+ x)) as [|id|id| | | |]; try done; try reflexivity.
  - unfold delete_schema. destruct (lookup_id id (live reg)); [|reflexivity].
    split; [apply sublist_filter|done].
  - unfold purge_schema. case_decide; by split.
Qed.

Lemma put_props_keeps id l reg : keeps reg (put_props id l reg).
Proof.
  split; [|done]. unfold put_props. cbn [live]. rewrite Forall2_fmap_r. apply Forall_Forall2_diag, Forall_true.
  intros r. unfold compose, put_rec. case_decide; [right; eauto|by left].
Qed.

(** A request under [/properties/] changes the properties of a record or
    nothing. *)
Lemma serve_props m x body reg :
  m ≠ GET → keeps reg (serve (Request m ("/properties/" +:+ x) body) reg).2.
Proof.
  intros Hm. unfold serve, registry_remote, serve_registry.
  destruct (prop_action _) as [[id f]|].
  - unfold on_props. destruct (lookup_id id (live reg)) as [r|]; [|reflexivity].
    destruct (f (rec_props r)); [apply put_props_keeps|reflexivity].
  - cbn [req_method req_path]. pose proof (endpoint_props x) as He.
    destruct m, (endpoint_of ("/properties/" +:+ x)); try done; reflexivity.
Qed.

Lemma serve_creation rq reg : is_creation rq → grows reg (serve rq reg).2.
Proof.
  intros [->|[[Hm Hp]|[Hm [id Hp]]]]; [by rewrite serve_fetch|..];
    destruct rq as [m path body]; simpl in Hm, Hp; subst.
  - apply (serve_post_crm "v3/schemas").
  - apply (serve_post_crm ("v3/schemas/" +:+ id +:+ "/associations")).
Qed.

Lemma serve_deletion rq reg : is_deletion rq → shrinks reg (serve rq reg).2.
Proof.
  intros [->|[Hm [x Hp]%prefix_app_iff]]; [by rewrite serve_fetch|].
  destruct rq as [m path body]; simpl in Hm, Hp; subst.
  apply (serve_delete_crm ("v3/schemas/" +:+ x)).
Qed.

Lemma serve_change rq reg : is_change rq → keeps reg (serve rq reg).2.
Proof.
  intros [->|[Hm [x Hp]%prefix_app_iff]]; [by rewrite serve_fetch|].
  destruct rq as [m path body]; simpl in Hm, Hp; subst.
  by apply (serve_props m ("v2/" +:+ x)).
Qed.

(** The same, from an earlier registry on. *)
Lemma creation_grows reg0 rq reg :
  is_creation rq → grows reg0 reg → grows reg0 (serve rq reg).2.
Proof. intros Hrq Hreg. etrans; [done|by apply serve_creation]. Qed.

Lemma change_keeps reg0 rq reg :
  is_change rq → keeps reg0 reg → keeps reg0 (serve rq reg).2.
Proof. intros Hrq Hreg. etrans; [done|by apply serve_change]. Qed.

Lemma deletion_shrinks reg0 rq reg :
  is_deletion rq → shrinks reg0 reg → shrinks reg0 (serve rq reg).2.
Proof. intros Hrq Hreg. etrans; [done|by apply serve_deletion]. Qed.

End requests.

(** ** The commands *)

Section theorems.
Context (d : disk).
Implicit Types (w : world registry) (g : string).

(** What the commands leave alone, whatever the files and the
    registry hold.  [create] only adds: the former records are still there,
    as they were and in their places, and none awaits a purge that did
    not.  [update] only changes properties: the records are the same in
    number and order, each differs from the former one in its properties
    at most, and no identifier was issued.  [delete] only removes: every
    record that is left is a former record, unchanged. *)
Theorem commands_frame g w :
  grows (remote w) (remote (createSchemas d g w).2) ∧
  keeps (remote w) (remote (updateSchemas d g w).2) ∧
  shrinks (remote w) (remote (deleteSchemas d g w).2).
Proof.
  split_and!.
  - apply (emits_invariant (grows (remote w)) is_creation);
      [intros; by apply creation_grows|apply createSchemas_creation|reflexivity].
  - apply (emits_invariant (keeps (remote w)) is_change);
      [intros; by apply change_keeps|apply updateSchemas_change|reflexivity].
  - apply (emits_invariant (shrinks (remote w)) is_deletion);
      [intros; by apply deletion_shrinks|apply deleteSchemas_deletion|reflexivity].
Qed.

End theorems.
