(* ===== verification/Sync.v ===== *)
(** * What synchronisation promises, on finite maps

    The order of the properties of an object type does not matter to the
    registry, and a property is known by its name: the properties of a
    schema are a finite map from names to properties.  On such maps the
    promise of [update] ([src/src/cli.ts], lines 148-208) is one line:
    the remote properties become the [merge] of the local and the remote
    ones under [sync], which keeps the reserved properties, takes the
    local ones, and drops the rest.

    [apply_plan_sync] shows that the lists the code computes and the
    registry applies implement this map; [updateSchemas_sync] carries it
    to a run of the command against the registry of [Service]. *)

From stdpp Require Import prelude strings gmap.
From S2P Require Import Prelude JsValue Loader Options Reconcile Remote Client Update.
From S2P Require Import Registry Service Commands EndToEnd.

(** ** The abstract state *)

(** The properties of a schema, by name.  The first property of a name
    stands for the name, as in the lookups of the code. *)
Definition prop_map (l : list value) : gmap string value :=
  list_to_map ((λ p, (pname p, p)) <$> l).

(** What becomes of one name: [local] is the property of the file, [remote]
    the property of the record. *)
Definition sync (local remote : option value) : option value :=
  match local, remote with
  | Some p, Some q => Some (if prop_differs p q then merge q p else q)
  | Some p, None => Some p
  | None, Some q => if reserved_name (pname q) then Some q else None
  | None, None => None
  end.

(** The promise of [update] on one object type. *)
Definition synchronised (local remote : gmap string value) : gmap string value :=
  base.merge sync local remote.

Section maps.
Implicit Types (p q : value) (l upd cur : list value) (s : string).

Lemma lookup_prop_map l s : prop_map l !! s = first_named l s.
Proof.
  unfold prop_map, first_named. induction l as [|p l IH]; [done|].
  rewrite fmap_cons, list_to_map_cons. simpl. case_bool_decide as Hp.
  - by rewrite Hp, lookup_insert_eq.
  - by rewrite lookup_insert_ne.
Qed.

Lemma dom_prop_map l : dom (prop_map l) = list_to_set (names l).
Proof.
  unfold prop_map, names. rewrite dom_list_to_map_L. f_equal.
  by rewrite <- list_fmap_compose.
Qed.

(** The first property of a name among those a test on the name keeps. *)
Lemma first_named_filter_name (P : string → Prop) `{!∀ n, Decision (P n)} l s :
  first_named (filter (λ q, P (pname q)) l) s =
  if decide (P s) then first_named l s else None.
Proof.
  unfold first_named. induction l as [|p l IH]; [by case_decide|].
  rewrite filter_cons. simpl.
  destruct (decide (P (pname p))) as [Hp|Hp]; simpl; rewrite IH;
    case_bool_decide as Hs; try done; subst s; by case_decide.
Qed.

(** When no name occurs twice, a test on the properties keeps the property
    of a name or none. *)
Lemma first_named_filter_prop (P : value → Prop) `{!∀ q, Decision (P q)} l s :
  NoDup (names l) →
  first_named (filter P l) s =
  p ← first_named l s; if decide (P p) then Some p else None.
Proof.
  intros Hnd. destruct (first_named l s) as [p|] eqn:Hp; simpl.
  - apply first_named_Some in Hp as [Hp <-]. case_decide as HP.
    + by apply first_named_filter_NoDup.
    + apply first_named_None. intros (q & Hq & [HPq Hql]%list_elem_of_filter)%list_elem_of_fmap.
      pose proof (first_named_NoDup l q Hnd Hql) as E1.
      pose proof (first_named_NoDup l p Hnd Hp) as E2.
      rewrite <- Hq in E1. congruence.
  - apply first_named_None. apply first_named_None in Hp.
    intros (q & Hq & [_ Hql]%list_elem_of_filter)%list_elem_of_fmap.
    apply Hp. rewrite Hq. by apply list_elem_of_fmap_2.
Qed.

(** The names the plan deletes. *)
Lemma deleted_name upd cur s :
  s ∈ names (spec_toDelete upd cur) ↔
  s ∈ names cur ∧ reserved_name s = false ∧ s ∉ names upd.
Proof.
  split.
  - intros (q & -> & (Hq & Hr & Hn)%elem_of_spec_toDelete)%list_elem_of_fmap.
    split; [by apply list_elem_of_fmap_2|done].
  - intros ((q & -> & Hq)%list_elem_of_fmap & Hr & Hn).
    by apply list_elem_of_fmap_2, elem_of_spec_toDelete.
Qed.

(** What the patches of the plan make of the first remote property of a
    name that has a local namesake. *)
Lemma patched_first upd cur p q :
  NoDup (names upd) →
  first_named upd (pname q) = Some p → first_named cur (pname q) = Some q →
  patched upd cur q = if prop_differs p q then merge q p else q.
Proof.
  intros Hnd Hp Hq. unfold patched, patch_all, spec_plan, spec_toUpdate.
  cbn [plan_update]. rewrite first_named_filter_prop, Hp by done. simpl.
  apply first_named_Some in Hp as [_ Hpq]. unfold changed_in. rewrite Hpq, Hq.
  case_decide as Hd; destruct (prop_differs p q); done.
Qed.

(** A remote property without a local namesake is not patched. *)
Lemma patched_alone upd cur q :
  first_named upd (pname q) = None → patched upd cur q = q.
Proof.
  intros Hp%first_named_None. unfold patched, patch_all.
  destruct (first_named _ _) as [p|] eqn:Hu; [|done].
  apply first_named_Some in Hu as [[Hu _]%elem_of_spec_toUpdate Hpq].
  destruct Hp. rewrite <- Hpq. by apply list_elem_of_fmap_2.
Qed.

(** The property of one name after the plan of [updateSchema]. *)
Lemma apply_plan_lookup upd cur s :
  Forall named upd → Forall named cur → NoDup (names upd) →
  first_named (apply_plan (spec_plan upd cur) cur) s =
  sync (first_named upd s) (first_named cur s).
Proof.
  intros Hupd Hcur Hnd. rewrite (apply_plan_unfold upd cur), first_named_app.
  rewrite first_named_fmap.
  2:{ apply Forall_forall. intros q [_ Hq]%list_elem_of_filter.
      apply patched_named; [done|]. by eapply Forall_forall in Hcur. }
  pose proof (first_named_filter_name (λ n, n ∉ names (plan_delete (spec_plan upd cur))) cur s) as ->.
  pose proof (first_named_filter_name (λ n, n ∉ names cur) upd s) as E.
  unfold spec_toCreate. rewrite E. clear E. cbn [plan_delete spec_plan].
  destruct (first_named cur s) as [q|] eqn:Hq.
  - apply first_named_Some in Hq as Hq'. destruct Hq' as [Hq' <-].
    assert (pname q ∈ names cur) as Hin by (by apply list_elem_of_fmap_2).
    destruct (first_named upd (pname q)) as [p|] eqn:Hp; simpl.
    + rewrite decide_True; [simpl; by rewrite (patched_first upd cur p)|].
      rewrite deleted_name. intros (_ & _ & []).
      apply first_named_Some in Hp as [Hp <-]. by apply list_elem_of_fmap_2.
    + destruct (reserved_name (pname q)) eqn:Hr.
      * rewrite decide_True; [simpl; by rewrite patched_alone|].
        rewrite deleted_name. intros (_ & ? & _). congruence.
      * rewrite decide_False; [simpl; by case_decide|].
        rewrite deleted_name. intros []. split_and!; [done..|].
        by apply first_named_None.
  - apply first_named_None in Hq as Hn. rewrite decide_True.
    + simpl. rewrite decide_True by done. by destruct (first_named upd s).
    + rewrite deleted_name. by intros [].
Qed.

(** The properties after the plan of [updateSchema] are the remote ones
    synchronised with the local ones. *)
Lemma apply_plan_sync upd cur :
  Forall named upd → Forall named cur → NoDup (names upd) →
  prop_map (apply_plan (spec_plan upd cur) cur) =
  synchronised (prop_map upd) (prop_map cur).
Proof.
  intros Hupd Hcur Hnd. apply map_eq. intros s. unfold synchronised.
  rewrite lookup_merge, !lookup_prop_map, apply_plan_lookup by done.
  by destruct (first_named upd s), (first_named cur s).
Qed.

(** The names after a synchronisation: the local ones and the reserved
    remote ones. *)
Lemma dom_synchronised (local remote : gmap string value) s :
  s ∈ dom (synchronised local remote) ↔
  s ∈ dom local ∨ ∃ q, remote !! s = Some q ∧ reserved_name (pname q) = true.
Proof.
  unfold synchronised. rewrite !elem_of_dom, lookup_merge.
  destruct (local !! s) as [p|], (remote !! s) as [q|]; simpl.
  1,2: split; [left|]; eauto.
  - destruct (reserved_name (pname q)) eqn:Hr.
    + split; [right|]; eauto.
    + split; [by intros []|]. intros [[]|(? & [= <-] & ?)]; congruence.
  - split; [by intros []|]. by intros [[]|(? & ? & _)].
Qed.

(** ** Synchronising again *)

(** Setting fields to the values they have changes nothing. *)
Lemma foldl_set_same (f : string → value) ps ks :
  (∀ k, k ∈ ks → assoc ps k = Some (f k)) →
  foldl (λ acc k, assoc_set acc k (f k)) ps ks = ps.
Proof.
  induction ks as [|k ks IH]; intros Hks; [done|]. cbn [foldl].
  rewrite assoc_set_same by (apply Hks; left). apply IH. intros. apply Hks. by right.
Qed.

(** A patch applied twice is the patch applied once, and a property
    patched with itself is unchanged. *)
Lemma merge_merge q p : merge (merge q p) p = merge q p.
Proof.
  destruct q as [| |b|n|s|l|qs]; try done. unfold merge. f_equal.
  apply foldl_set_same. intros k Hk. by rewrite assoc_foldl_set, decide_True.
Qed.

Lemma merge_same p : merge p p = p.
Proof.
  destruct p as [| |b|n|s|l|ps]; try done. unfold merge. f_equal.
  apply foldl_set_same. intros k Hk. unfold field. rewrite get_prop_obj.
  by destruct (assoc_is_Some ps k Hk) as (v & -> & _).
Qed.

(** What synchronisation made of a name, synchronisation leaves alone. *)
Lemma sync_sync local remote : sync local (sync local remote) = sync local remote.
Proof.
  destruct local as [p|], remote as [q|]; simpl.
  - destruct (prop_differs p q) eqn:Hd; [|by rewrite Hd].
    by rewrite merge_merge, Tauto.if_same.
  - by rewrite merge_same, Tauto.if_same.
  - by destruct (reserved_name (pname q)) eqn:Hr; simpl; rewrite ?Hr.
  - done.
Qed.

(** Synchronisation can be resumed: from properties of which some are
    synchronised already and the others are as they were, it gives what it
    gives from the start. *)
Lemma synchronised_resume (local remote part : gmap string value) :
  (∀ s, part !! s = remote !! s ∨ part !! s = sync (local !! s) (remote !! s)) →
  synchronised local part = synchronised local remote.
Proof.
  intros Hpart. apply map_eq. intros s. unfold synchronised. rewrite !lookup_merge.
  destruct (Hpart s) as [->| ->]; [done|].
  pose proof (sync_sync (local !! s) (remote !! s)) as Hs.
  by destruct (local !! s), (remote !! s) as [q|]; simpl in *;
    try destruct (reserved_name (pname q)).
Qed.

End maps.

(** ** The command on the registry *)

Section command.
Context (d : disk).
Implicit Types (reg : registry) (f : string * string) (r : value)
  (files : list (string * string)) (c : list string) (k : list request).

(** The plan of a schema that follows a record synchronises the
    properties of the record. *)
Lemma record_synchronised us r r0 :
  follows us r0 → wf_record r →
  prop_map (apply_plan (spec_plan (rec_props us) (rec_props r)) (rec_props r)) =
  synchronised (prop_map (rec_props us)) (prop_map (rec_props r)).
Proof.
  intros (_ & [Hupd Hnd] & _) [Hcur _]%wf_record_props.
  apply apply_plan_sync; [| |done]; by apply acceptable_named.
Qed.

(** C9. [update] synchronises the registry with the files.  When the files
    name different object types, each with a record in the registry that
    the file's schema follows, the command returns and leaves a well-formed
    registry in which the record of every file has its identifier and name
    as before and, by name, the properties [synchronised] promises: the
    reserved remote ones, the local ones (a changed one merged over its
    remote namesake, an unchanged one as the registry had it), and no
    other; the records of other names are as they were. *)
Theorem updateSchemas_sync g files reg c k :
  wf_registry reg → objectTypes d g = resolved <$> files →
  batch_ready d (index_of reg) reg files →
  ∃ w', updateSchemas d g (World reg c k) = (Ok (), w') ∧
    wf_registry (remote w') ∧
    (∀ f, f ∈ files →
       ∃ r r', r ∈ live reg ∧ rec_name r = f.2 ∧
         r' ∈ live (remote w') ∧ rec_name r' = f.2 ∧ rec_id r' = rec_id r ∧
         prop_map (rec_props r') =
           synchronised (prop_map (rec_props (local_schema d f)))
             (prop_map (rec_props r))) ∧
    (∀ r, r ∈ live reg → rec_name r ∉ files.*2 → r ∈ live (remote w')).
Proof.
  intros Hreg Hg Hfiles.
  destruct (updateSchemas_applied d g files reg c k Hreg Hg Hfiles)
    as (w' & Hrun & Hwf & Hrec & Hother).
  exists w'. split_and!; [done..| |done]. intros f Hf.
  destruct (Hrec f Hf) as (r & r' & Hr & Hn & Hr' & Hn' & Hid & Hprops).
  exists r, r'. split_and!; [done..|]. rewrite Hprops.
  destruct Hfiles as [_ Hfiles]. eapply Forall_forall in Hfiles; [|exact Hf].
  destruct Hfiles as (_ & _ & _ & Hus).
  apply (record_synchronised _ _ _ Hus (wf_record_elem_of r reg Hreg Hr)).
Qed.

End command.

(** ** The worked update *)

Lemma updateSchemas_sync_witness :
  ∃ w', updateSchemas ex_disk_deal "schemas/*.json" (World ex_registry [] []) = (Ok (), w') ∧
    wf_registry (remote w') ∧
    (∀ f, f ∈ [("schemas", "deal_x")] →
       ∃ r r', r ∈ live ex_registry ∧ rec_name r = f.2 ∧
         r' ∈ live (remote w') ∧ rec_name r' = f.2 ∧ rec_id r' = rec_id r ∧
         prop_map (rec_props r') =
           synchronised (prop_map (rec_props (local_schema ex_disk_deal f)))
             (prop_map (rec_props r))) ∧
    (∀ r, r ∈ live ex_registry → rec_name r ∉ [("schemas", "deal_x")].*2 →
          r ∈ live (remote w')).
Proof.
  apply (updateSchemas_sync ex_disk_deal "schemas/*.json" [("schemas", "deal_x")]);
    [compute_done | reflexivity | split; compute_done].
Defined.

(** By name, the worked update keeps [status] as the registry had it,
    merges the new type into [amount], drops [legacy_field], leaves the two
    reserved properties alone and adds [fresh]. *)
Example synchronised_example :
  synchronised (prop_map ex_upd) (prop_map ex_cur) =
  prop_map
    [ mk_prop "status" [("type", VStr "enumeration");
                        ("options", VArr [mk_option "B" "b"; mk_option "A" "a"]);
                        ("hidden", VBool false)];
      mk_prop "amount" [("type", VStr "number")];
      mk_prop "hs_object_id" [("type", VStr "number")];
      mk_prop "maths_score" [("type", VStr "number")];
      mk_prop "fresh" [("type", VStr "string")] ].
Proof. rewrite <- apply_plan_sync by compute_done. by f_equal. Qed.

Example synchronised_dropped :
  synchronised (prop_map ex_upd) (prop_map ex_cur) !! "legacy_field" = None.
Proof. unfold synchronised. by rewrite lookup_merge, !lookup_prop_map. Qed.
