(* ===== verification/Reach.v ===== *)
(** * The registries that requests build

    The registry of [Service] starts empty and changes by requests only.
    [reachable] is the set of its states as a step relation, and the
    invariants of the registry are proved of it by rule induction: a
    reachable registry is well formed ([Service.wf_registry]) and has
    never used an identifier twice, the records that await their purge
    included.  The second holds of the reachable registries because the
    first does: a new identifier is fresh since every earlier one was
    issued.

    The commands of [src/src/cli.ts] reach the registry through their
    requests, so every command line takes a reachable registry to a
    reachable one ([run_reachable]). *)

From stdpp Require Import prelude strings.
From S2P Require Import Prelude JsValue Loader Reconcile Remote Service Commands Cli.
From S2P Require Import EndToEnd.

(** ** The states of the registry *)

Definition empty_registry : registry := Registry [] [] 0.

Inductive reachable : registry → Prop :=
  | reachable_empty : reachable empty_registry
  | reachable_serve rq reg : reachable reg → reachable (serve rq reg).2.

(** No identifier is used twice, by a live record or by one that awaits
    its purge. *)
Definition unique_ids (reg : registry) : Prop := NoDup (ids (live reg ++ trash reg)).

#[export] Instance unique_ids_dec reg : Decision (unique_ids reg).
Proof. unfold unique_ids. apply _. Defined.

(** ** Identifiers are not reused *)

Section unique.
Implicit Types (reg : registry) (rq : request) (r : value) (id : string).

(** The next identifier is that of no record, live or awaiting its purge. *)
Lemma next_id_unused reg :
  wf_registry reg → mk_id (issued reg) ∉ ids (live reg ++ trash reg).
Proof.
  intros (_ & _ & _ & Hiss) Hin. eapply Forall_forall in Hiss; [|exact Hin].
  by apply mk_id_fresh in Hiss.
Qed.

Lemma create_schema_unique s reg :
  wf_registry reg → unique_ids reg → unique_ids (create_schema s reg).2.
Proof.
  intros Hreg Hu. unfold create_schema.
  case_decide as Hok; [|done]. destruct Hok as (Hs & _).
  destruct (new_record_spec s reg Hs) as (_ & Hid & _).
  unfold unique_ids, ids in *. cbn [snd live trash].
  rewrite <- app_assoc, fmap_app. cbn [app fmap list_fmap].
  rewrite <- Permutation_middle, <- fmap_app, Hid. apply NoDup_cons. split; [|done].
  by apply next_id_unused.
Qed.

(** Records that leave, or move from the live ones to those that await
    their purge, bring no identifier twice. *)
Lemma delete_schema_unique id reg : unique_ids reg → unique_ids (delete_schema id reg).2.
Proof.
  intros Hu. unfold delete_schema.
  destruct (lookup_id id (live reg)) as [r|] eqn:Hr; [|done].
  apply find_key_Some in Hr as [Hr Hid]. unfold unique_ids, ids in *.
  cbn [snd live trash]. rewrite <- Permutation_middle, fmap_cons.
  rewrite fmap_app in Hu. apply NoDup_app in Hu as (Hl & Hlt & Ht).
  apply NoDup_cons. split.
  - rewrite fmap_app, elem_of_app.
    intros [(r' & Hr' & [Hn _]%list_elem_of_filter)%list_elem_of_fmap|Hin].
    + congruence.
    + by apply (Hlt (rec_id r)); [apply list_elem_of_fmap_2|].
  - rewrite fmap_app. apply NoDup_app. split_and!; [|intros x Hx; apply Hlt|done].
    + by apply (sublist_NoDup _ _ Hl), fmap_sublist, sublist_filter.
    + eapply elem_of_sublist; [exact Hx|]. apply fmap_sublist, sublist_filter.
Qed.

Lemma purge_schema_unique id reg : unique_ids reg → unique_ids (purge_schema id reg).2.
Proof.
  intros Hu. unfold purge_schema. case_decide; [|done].
  apply (sublist_NoDup _ _ Hu), fmap_sublist, sublist_app; [done|apply sublist_filter].
Qed.

Lemma put_props_unique id l reg : unique_ids reg → unique_ids (put_props id l reg).
Proof.
  unfold unique_ids. intros Hu. unfold ids in *. rewrite fmap_app in *.
  fold (ids (live (put_props id l reg))). by rewrite ids_put_props.
Qed.

Lemma serve_unique rq reg :
  wf_registry reg → unique_ids reg → unique_ids (serve rq reg).2.
Proof.
  intros Hreg Hu. unfold serve, registry_remote, serve_registry.
  destruct (prop_action rq) as [[id f]|].
  - unfold on_props. destruct (lookup_id id (live reg)) as [r|]; [|done].
    destruct (f (rec_props r)); [by apply put_props_unique|done].
  - destruct (req_method rq), (endpoint_of (req_path rq)); try done;
      auto using create_schema_unique, delete_schema_unique, purge_schema_unique.
    unfold associate_schemas. by case_decide.
Qed.

End unique.

(** ** The invariants, by rule induction *)

Section reach.
Implicit Types (reg : registry) (rqs : list request).

Lemma reachable_invariant reg : reachable reg → wf_registry reg ∧ unique_ids reg.
Proof.
  induction 1 as [|rq reg _ [Hwf Hu]]; [by compute_done|].
  split; [by apply serve_wf|by apply serve_unique].
Qed.

Lemma reachable_serve_all rqs reg : reachable reg → reachable (serve_all rqs reg).
Proof.
  revert reg. induction rqs as [|rq rqs IH]; intros reg Hreg; [done|].
  apply IH. by constructor.
Qed.

(** A reachable registry is the empty one after some requests. *)
Lemma reachable_requests reg : reachable reg ↔ ∃ rqs, reg = serve_all rqs empty_registry.
Proof.
  split.
  - induction 1 as [|rq reg _ [rqs ->]]; [by exists []|].
    exists (rqs ++ [rq]). unfold serve_all. by rewrite foldl_app.
  - intros [rqs ->]. apply reachable_serve_all. constructor.
Qed.

End reach.

(** ** The commands *)

Section commands.
Context (d : disk).

(** The commands keep the registry among those that requests build.
    Whatever the files hold, a command line takes a registry built from the
    empty one by requests to a registry built by requests; it is well
    formed, and none of its records, live or awaiting a purge, shares its
    identifier with another: an identifier the registry gave once is not
    given again, to a schema created after a deletion either. *)
Theorem run_reachable argv w out :
  run d argv w = Some out → reachable (remote w) →
  reachable (remote out.2) ∧ wf_registry (remote out.2) ∧ unique_ids (remote out.2).
Proof.
  unfold run. destruct (parse d argv) as [m|] eqn:Hm; [|done]. intros [= <-] Hw.
  assert (reachable (remote (m w).2)) as Hout; [|by split; [|apply reachable_invariant]].
  apply parse_Some in Hm as [g Hm].
  apply (emits_invariant reachable is_endpoint); [by constructor| |done].
  destruct Hm as [-> | [-> | ->]];
    auto using createSchemas_endpoints, deleteSchemas_endpoints, updateSchemas_endpoints.
Qed.

End commands.

(** ** A first run *)

Lemma run_reachable_witness :
  reachable (remote (createSchemas ex_disk_deal "schemas/*.json" (World empty_registry [] [])).2) ∧
  wf_registry (remote (createSchemas ex_disk_deal "schemas/*.json" (World empty_registry [] [])).2) ∧
  unique_ids (remote (createSchemas ex_disk_deal "schemas/*.json" (World empty_registry [] [])).2).
Proof.
  apply (run_reachable ex_disk_deal ["create"; "schemas/*.json"]
           (World empty_registry [] []) _ eq_refl).
  apply reachable_empty.
Defined.

(** The registry the first run builds. *)
Example run_reachable_registry :
  remote (createSchemas ex_disk_deal "schemas/*.json" (World empty_registry [] [])).2 =
  Registry [new_record ex_local empty_registry] [] 1.
Proof. reflexivity. Qed.
