(* ===== verification/Faults.v ===== *)
(** * A transport that fails

    The specification distinguishes what the registry rejects from what the
    network loses (its [TransportError]), and the client of
    [src/src/cli.ts] (lines 14-66) cannot tell them apart: both are a
    rejected promise.  Here the registry of [Service] stands behind a
    transport that follows a script of [fault]s: a request passes, is lost
    before it reaches the registry, or reaches it and loses its answer.
    This is a second instance of the interface [Remote], and the commands,
    which are written against the interface, run on it unchanged.

    What a command cannot do to the registry it cannot do when requests
    fail either ([faults_frame]); that the registry stays among those that
    requests build ([faults_reachable]) is a property of the registry
    rather than of the commands.  What failures do cause is a state
    the tool cannot leave: a purge that is lost leaves a record that is
    neither live nor gone, and the next [delete] of the same file throws
    ([purge_lost]).

    Without faults the transport is transparent: every command line runs
    behind it as it runs on the registry ([reliable_run]), by the rules of
    [Sim].

    A command that failed is run again: [retries] is a sequence of runs
    behind the transport, each with faults of its own, on the registry
    the run before left.  What every run preserves, the sequence
    preserves ([retries_invariant], [retries_related]). *)

From stdpp Require Import prelude strings.
From S2P Require Import Prelude JsValue Lodash Loader Reconcile Remote Client Service Commands Cli.
From S2P Require Import Sim EndToEnd Lifecycle Frame Reach.

(** ** The transport *)

Inductive fault : Set := Pass | Lost | Unanswered.

#[export] Instance fault_eq_dec : EqDecision fault.
Proof. solve_decision. Defined.

(** The registry behind the transport, and the faults to come, one for
    each request; when they are used up every request passes. *)
Record flaky : Type := Flaky {
  inner : registry;
  faults : list fault }.

(** One request under a fault. *)
Definition deliver (ft : fault) (rq : request) (reg : registry)
    : result value * registry :=
  match ft with
  | Pass => serve rq reg
  | Lost => (Err HttpError, reg)
  | Unanswered => (Err HttpError, (serve rq reg).2)
  end.

#[export] Instance flaky_remote : Remote flaky := λ rq fl,
  let out := deliver (default Pass (head (faults fl))) rq (inner fl) in
  (out.1, Flaky out.2 (tail (faults fl))).

(** The requests that reach the registry. *)
Fixpoint delivered (fs : list fault) (rqs : list request) : list request :=
  match fs, rqs with
  | [], _ => rqs
  | _, [] => []
  | Lost :: fs', _ :: rqs' => delivered fs' rqs'
  | _ :: fs', rq :: rqs' => rq :: delivered fs' rqs'
  end.

(** The registry in which the record [r] left the live ones and awaits
    its purge. *)
Definition archived (r : value) (reg : registry) : registry :=
  Registry (filter (λ r', rec_id r' ≠ rec_id r) (live reg)) (r :: trash reg) (issued reg).

(** The runs of a program behind the failing transport, one for each
    script of faults, each on the registry the one before left. *)
Fixpoint retries (m : M flaky unit) (fss : list (list fault)) (w : world registry)
    : world registry :=
  match fss with
  | [] => w
  | fs :: fss' =>
      let w1 := (m (World (Flaky (remote w) fs) (console w) (calls w))).2 in
      retries m fss' (World (inner (remote w1)) (console w1) (calls w1))
  end.

(** The registry behind a transport without faults. *)
Definition reliable (fl : flaky) (reg : registry) : Prop := fl = Flaky reg [].

(** ** The registry behind the transport *)

Section transport.
Implicit Types (fl : flaky) (reg : registry) (rq : request) (rqs : list request)
  (fs : list fault).

Lemma serve_flaky ft fs rq reg :
  serve rq (Flaky reg (ft :: fs)) =
  ((deliver ft rq reg).1, Flaky (deliver ft rq reg).2 fs).
Proof. done. Qed.

Lemma serve_reliable rq reg :
  serve rq (Flaky reg []) = ((serve rq reg).1, Flaky (serve rq reg).2 []).
Proof. done. Qed.

(** The registry sees the requests that were delivered, in their order. *)
Lemma inner_serve_all rqs fl :
  inner (serve_all rqs fl) = serve_all (delivered (faults fl) rqs) (inner fl).
Proof.
  revert fl. induction rqs as [|rq rqs IH]; intros [reg fs]; [by destruct fs as [|[] ?]|].
  change (serve_all (rq :: rqs) ?x) with (serve_all rqs (serve rq x).2).
  rewrite IH. by destruct fs as [|[] fs].
Qed.

Lemma delivered_sublist fs rqs : delivered fs rqs `sublist_of` rqs.
Proof.
  revert fs. induction rqs as [|rq rqs IH]; intros [|[] fs]; simpl;
    try done; by constructor.
Qed.

(** What the requests of a program preserve on the registry, the program
    preserves behind a failing transport. *)
Lemma flaky_invariant {A} (J : registry → Prop) P (m : M flaky A) w :
  (∀ rq reg, P rq → J reg → J (serve rq reg).2) →
  emits P m → J (inner (remote w)) → J (inner (remote (m w).2)).
Proof.
  intros Hserve. apply (emits_invariant (λ fl, J (inner fl)) P).
  intros rq [reg [|[] fs]] Hrq Hreg; simpl; auto.
Qed.

(** It preserves it however often it is run, whatever the faults of each
    run. *)
Lemma retries_invariant (J : registry → Prop) P (m : M flaky unit) fss
    (w : world registry) :
  (∀ rq reg, P rq → J reg → J (serve rq reg).2) →
  emits P m → J (remote w) → J (remote (retries m fss w)).
Proof.
  intros Hserve Hm. revert w. induction fss as [|fs fss IH]; intros w Hw; [done|].
  cbn [retries]. apply IH. cbn [remote]. by apply (flaky_invariant J P).
Qed.

(** A preorder on registries that every run respects relates the first
    registry to the last. *)
Lemma retries_related (J : registry → Prop) (T : relation registry)
    `{!Reflexive T, !Transitive T} (m : M flaky unit) fss (w : world registry) :
  (∀ reg fs c k, J reg →
     J (inner (remote (m (World (Flaky reg fs) c k)).2)) ∧
     T reg (inner (remote (m (World (Flaky reg fs) c k)).2))) →
  J (remote w) →
  J (remote (retries m fss w)) ∧ T (remote w) (remote (retries m fss w)).
Proof.
  intros Hrun. revert w. induction fss as [|fs fss IH]; intros w Hw; [done|].
  cbn [retries]. destruct (Hrun (remote w) fs (console w) (calls w) Hw) as [Hw1 Ht].
  set (w1 := (m (World (Flaky (remote w) fs) (console w) (calls w))).2) in *.
  destruct (IH (World (inner (remote w1)) (console w1) (calls w1)) Hw1) as [Hend Ht'].
  split; [done|]. by etrans.
Qed.

End transport.

(** ** The commands behind a failing transport *)

Section commands.
Context (d : disk).
Implicit Types (w : world flaky) (g : string) (reg : registry) (r : value)
  (f : string * string) (c : list string) (k : list request) (fs : list fault).

(** The fetch of the index, when it passes. *)
Lemma getExistingSchemas_pass reg fs c k :
  default Pass (head fs) = Pass →
  getExistingSchemas (World (Flaky reg fs) c k) =
  (Ok (index_of reg), World (Flaky reg (tail fs)) c (k ++ [schemas_request])).
Proof.
  intros Hfs. rewrite getExistingSchemas_run. unfold after. cbn [remote console calls].
  rewrite app_nil_r. by destruct fs as [|[] fs].
Qed.

(** The soft delete passes and the purge is lost: the record awaits its
    purge, and the client reports a failure. *)
Lemma deleteSchema_purge_lost r reg c k :
  wf_registry reg → r ∈ live reg →
  deleteSchema (field r "objectTypeId") (World (Flaky reg [Pass; Lost]) c k) =
  (Ok false,
   World (Flaky (archived r reg) [])
     (c ++ [error_line HttpError; delete_failed (VStr (rec_id r))])
     (k ++ delete_requests r)).
Proof.
  intros Hreg Hr.
  destruct (wf_record_elem_of r reg Hreg Hr) as (_ & Hid & Hfree%valid_name_segment).
  rewrite deleteSchema_run. cbn [remote]. rewrite Hid, !serve_flaky. cbn [deliver fst snd].
  rewrite serve_soft_delete by done. unfold delete_schema.
  rewrite (lookup_id_elem_of r reg) by done. cbn [fst snd].
  unfold after, delete_requests, archived. cbn [console calls].
  by rewrite Hid, app_nil_r, <- app_assoc.
Qed.

(** The record that awaits its purge is not in the index. *)
Lemma archived_index r reg f :
  wf_registry reg → r ∈ live reg → rec_name r = f.2 →
  assoc (index_of (archived r reg)) f.2 = None.
Proof.
  intros Hreg Hr Hn. apply keyBy_None. intros r' [Hid Hr']%list_elem_of_filter Hk.
  apply Hid. symmetry. apply (same_record reg r r'); [done..|]. by rewrite Hn.
Qed.

(** Without faults every request is answered as the registry answers
    it. *)
Lemma reliable_alike rq : alike reliable rq.
Proof. intros fl reg ->. by rewrite serve_reliable. Qed.

(** The transport is transparent when nothing fails: whatever the
    command line and the files, the command ends behind the transport as
    it ends on the registry, with the same result, the same lines and the
    same requests, and leaves the registry the same. *)
Theorem reliable_run argv m m0 reg c k :
  parse d argv = Some m → parse d argv = Some m0 →
  (m (World (Flaky reg []) c k)).1 = (m0 (World reg c k)).1 ∧
  console (m (World (Flaky reg []) c k)).2 = console (m0 (World reg c k)).2 ∧
  calls (m (World (Flaky reg []) c k)).2 = calls (m0 (World reg c k)).2 ∧
  remote (m (World (Flaky reg []) c k)).2 = Flaky (remote (m0 (World reg c k)).2) [].
Proof.
  intros Hm Hm0. by apply (run_alike reliable d reliable_alike argv).
Qed.

(** What the commands leave alone, whatever fails in transit.  Behind
    a transport that loses any of the requests or of the answers, [create]
    only adds records to the registry, [update] only changes the properties
    of records, and [delete] only removes records. *)
Theorem faults_frame g w :
  grows (inner (remote w)) (inner (remote (createSchemas d g w).2)) ∧
  keeps (inner (remote w)) (inner (remote (updateSchemas d g w).2)) ∧
  shrinks (inner (remote w)) (inner (remote (deleteSchemas d g w).2)).
Proof.
  split_and!.
  - apply (flaky_invariant (grows (inner (remote w))) is_creation);
      [apply creation_grows|apply createSchemas_creation|reflexivity].
  - apply (flaky_invariant (keeps (inner (remote w))) is_change);
      [apply change_keeps|apply updateSchemas_change|reflexivity].
  - apply (flaky_invariant (shrinks (inner (remote w))) is_deletion);
      [apply deletion_shrinks|apply deleteSchemas_deletion|reflexivity].
Qed.

(** The registry behind the transport stays among those that requests
    build, so that it is well formed and has given no identifier twice.
    This is a property of the reference registry, which accepts no request
    that would break it: it holds of the commands as it would of any other
    client, and says only that the service of this development cannot be
    corrupted by what reaches it. *)
Theorem faults_reachable argv m w :
  parse d argv = Some m → reachable (inner (remote w)) →
  reachable (inner (remote (m w).2)) ∧ wf_registry (inner (remote (m w).2)) ∧
  unique_ids (inner (remote (m w).2)).
Proof.
  intros [g Hm]%parse_Some Hw.
  assert (reachable (inner (remote (m w).2))) as Hout;
    [|by split; [|apply reachable_invariant]].
  apply (flaky_invariant reachable is_endpoint); [by constructor| |done].
  destruct Hm as [-> | [-> | ->]];
    auto using createSchemas_endpoints, deleteSchemas_endpoints, updateSchemas_endpoints.
Qed.

(** C25. A purge that is lost leaves a record the tool cannot reach.  When
    the deletion of the object type of a file passes and its purge is lost,
    [delete] returns after reporting the failure; the record is no longer
    live and awaits its purge; and a second [delete] of the same file, now
    with a reliable transport, throws a [TypeError] after the fetch of the
    index, which no longer has the record, and leaves the registry as it
    found it. *)
Theorem purge_lost g f r reg c k :
  wf_registry reg → objectTypes d g = [resolved f] → r ∈ live reg → rec_name r = f.2 →
  ∃ w1, deleteSchemas d g (World (Flaky reg [Pass; Pass; Lost]) c k) = (Ok (), w1) ∧
    inner (remote w1) = archived r reg ∧
    console w1 = c ++ [error_line HttpError; delete_failed (VStr (rec_id r))] ∧
    deleteSchemas d g w1 =
      (Err TypeError, World (remote w1) (console w1) (calls w1 ++ [schemas_request])).
Proof.
  intros Hreg Hg Hr Hn. eexists. split_and!.
  - unfold deleteSchemas. rewrite Hg, bind_run, getExistingSchemas_pass by done.
    cbn [tail fmap list_fmap for_of]. rewrite bind_run, delete_one_run.
    + fold (entry (index_of reg) f). rewrite (entry_index reg r f) by done.
      by rewrite deleteSchema_purge_lost.
    + fold (entry (index_of reg) f). rewrite (entry_index reg r f) by done.
      by apply (wf_record_non_nullish _ (wf_record_elem_of _ _ Hreg Hr)).
  - done.
  - done.
  - unfold deleteSchemas. rewrite Hg, bind_run, getExistingSchemas_pass by done.
    cbn [tail fmap list_fmap for_of].
    by rewrite bind_run, delete_one_missing by (by apply archived_index).
Qed.

End commands.

(** ** A lost purge, worked *)

Lemma faults_reachable_witness :
  let w := World (Flaky empty_registry [Pass; Unanswered]) [] [] in
  reachable (inner (remote (createSchemas ex_disk_deal "schemas/*.json" w).2)) ∧
  wf_registry (inner (remote (createSchemas ex_disk_deal "schemas/*.json" w).2)) ∧
  unique_ids (inner (remote (createSchemas ex_disk_deal "schemas/*.json" w).2)).
Proof.
  apply (faults_reachable ex_disk_deal ["create"; "schemas/*.json"] _ _ eq_refl).
  apply reachable_empty.
Defined.

Lemma purge_lost_witness :
  ∃ w1, deleteSchemas ex_disk_deal "schemas/*.json"
          (World (Flaky ex_registry [Pass; Pass; Lost]) [] []) = (Ok (), w1) ∧
    inner (remote w1) = archived ex_remote ex_registry ∧
    console w1 = [] ++ [error_line HttpError; delete_failed (VStr (rec_id ex_remote))] ∧
    deleteSchemas ex_disk_deal "schemas/*.json" w1 =
      (Err TypeError, World (remote w1) (console w1) (calls w1 ++ [schemas_request])).
Proof.
  apply (purge_lost ex_disk_deal "schemas/*.json" ("schemas", "deal_x"));
    [compute_done | reflexivity | compute_done | reflexivity].
Defined.

(** An answer that is lost: the schema is created, the tool reports that
    it was not. *)
Example create_unanswered :
  let w := World (Flaky empty_registry [Pass; Unanswered]) [] [] in
  inner (remote (createSchemas ex_disk_deal "schemas/*.json" w).2) =
    Registry [new_record ex_local empty_registry] [] 1 ∧
  console (createSchemas ex_disk_deal "schemas/*.json" w).2 =
    ["Failed to Create Schema deal_x"].
Proof. done. Qed.
