(* ===== verification/Resume.v ===== *)
(** * Resuming an update

    [update] is not atomic: the requests of a plan reach the registry one
    by one ([src/src/cli.ts], lines 178-207), a rejected or lost request
    ends the run (lines 182 and 192) or is skipped (line 204), and the
    files after it are not looked at.  What is left is a registry in which
    some names are synchronised and the others are as they were
    ([halfway]).

    This file shows that nothing is lost by it.  Behind the failing
    transport of [Faults] every request of a run keeps the registry
    halfway, whatever the faults, and so does a run from a registry that
    is halfway already ([partial_trans], [partial_invariant]); from a
    registry that is halfway
    a run with a reliable transport gives what [Sync] promises of the
    registry the first run started from.  So the command can be run
    until it succeeds: after any number of failed runs the first run
    that meets no failure completes the update ([update_resumes]). *)

From stdpp Require Import prelude strings gmap.
From S2P Require Import Prelude JsValue Lodash Loader Options Reconcile Remote Client Update.
From S2P Require Import Registry Service Commands EndToEnd Sync Faults.

(** ** Properties that are halfway *)

(** The properties [l] of an object type between the remote properties
    [cur] and their synchronisation with the local properties [upd]: every
    name is as it was or as it shall be. *)
Definition halfway (upd cur l : list value) : Prop :=
  ∀ s, first_named l s = first_named cur s ∨
       first_named l s = sync (first_named upd s) (first_named cur s).

(** A record [r1] between the record [r] and its synchronisation with the
    file of its name; the record of no file is as it was. *)
Definition partly (d : disk) (files : list (string * string)) (r r1 : value) : Prop :=
  rec_id r1 = rec_id r ∧ rec_name r1 = rec_name r ∧
  (rec_name r ∉ files.*2 → r1 = r) ∧
  ∀ f, f ∈ files → f.2 = rec_name r →
       halfway (rec_props (local_schema d f)) (rec_props r) (rec_props r1).

(** A registry between [reg] and its synchronisation with the files. *)
Definition partial (d : disk) (files : list (string * string)) (reg mid : registry)
    : Prop :=
  wf_registry mid ∧ Forall2 (partly d files) (live reg) (live mid).

(** A registry that holds what [update] promises of [reg] and the files:
    by name, the properties of the record of every file are those of the
    record of [reg], synchronised with the file; the records keep their
    identifiers and names, and the records of other names are those of
    [reg]. *)
Definition completed (d : disk) (files : list (string * string)) (reg reg' : registry)
    : Prop :=
  wf_registry reg' ∧
  (∀ f, f ∈ files →
     ∃ r r', r ∈ live reg ∧ rec_name r = f.2 ∧
       r' ∈ live reg' ∧ rec_name r' = f.2 ∧ rec_id r' = rec_id r ∧
       prop_map (rec_props r') =
         synchronised (prop_map (rec_props (local_schema d f)))
           (prop_map (rec_props r))) ∧
  (∀ r, r ∈ live reg → rec_name r ∉ files.*2 → r ∈ live reg').

(** Halfway of halfway is halfway: what synchronisation made of a name
    it leaves alone. *)
Lemma halfway_trans (upd cur l l' : list value) :
  halfway upd cur l → halfway upd l l' → halfway upd cur l'.
Proof.
  intros Hl Hl' s. destruct (Hl' s) as [->| ->]; [apply Hl|].
  destruct (Hl s) as [->| ->]; [by right|]. right. apply sync_sync.
Qed.

Lemma partly_trans (d : disk) (files : list (string * string)) (r r1 r2 : value) :
  partly d files r r1 → partly d files r1 r2 → partly d files r r2.
Proof.
  intros (Hid & Hn & Hout & Hin) (Hid' & Hn' & Hout' & Hin').
  split_and!; [congruence|congruence|..].
  - intros Hr. rewrite <- (Hout Hr). apply Hout'. by rewrite Hn.
  - intros f Hf Hfn. eapply halfway_trans; [by apply Hin|]. apply Hin'; [done|congruence].
Qed.

Lemma partial_trans (d : disk) (files : list (string * string)) (reg mid mid' : registry) :
  partial d files reg mid → partial d files mid mid' → partial d files reg mid'.
Proof.
  intros [_ Hmid] [Hwf Hmid']. split; [done|].
  eapply Forall2_trans; [|exact Hmid|exact Hmid']. apply partly_trans.
Qed.

Section halfway.
Context (upd cur : list value).
Context (Hupd : acceptable_props upd) (Hcur : acceptable_props cur).
Implicit Types (p q cs : value) (l : list value) (s : string) (o : op).

Lemma halfway_start : halfway upd cur cur.
Proof. intros s. by left. Qed.

Lemma halfway_delete p l l' :
  p ∈ spec_toDelete upd cur → halfway upd cur l →
  delete_named (pname p) l = Some l' → halfway upd cur l'.
Proof.
  intros (Hp & Hr & Hn)%elem_of_spec_toDelete Hl. unfold delete_named.
  case_decide; [|done]. intros [= <-] s.
  pose proof (first_named_filter_name (λ n, n ≠ pname p) l s) as ->.
  destruct (decide (s ≠ pname p)) as [Hs|Hs]; [apply Hl|]. apply dec_stable in Hs as ->. right.
  apply first_named_None in Hn as ->. destruct Hcur as [_ Hnd].
  rewrite (first_named_NoDup cur p Hnd Hp). simpl. by rewrite Hr.
Qed.

Lemma halfway_create p l l' :
  p ∈ spec_toCreate upd cur → halfway upd cur l →
  create_named p l = Some l' → halfway upd cur l'.
Proof.
  intros [Hp Hn]%elem_of_spec_toCreate Hl. unfold create_named.
  case_decide as Hok; [|done]. destruct Hok as [_ Hnew]. intros [= <-] s.
  rewrite first_named_app. destruct (first_named l s) as [q|] eqn:Hq.
  { rewrite <- Hq. apply Hl. }
  unfold first_named at 1. simpl. case_bool_decide as Hs; [|by rewrite <- Hq].
  subst s. right. apply first_named_None in Hn as ->. destruct Hupd as [_ Hnd].
  by rewrite (first_named_NoDup upd p Hnd Hp).
Qed.

Lemma halfway_patch p l l' :
  p ∈ spec_toUpdate upd cur → halfway upd cur l →
  patch_named (pname p) p l = Some l' → halfway upd cur l'.
Proof.
  intros (Hp & q & Hq & Hd)%elem_of_spec_toUpdate Hl. unfold patch_named.
  case_decide as Hok; [|done]. destruct Hok as [_ Hok]. intros [= <-] s.
  rewrite first_named_fmap.
  2:{ eapply Forall_impl; [exact Hok|]. intros q' Hq'. unfold patch_one. simpl.
      case_decide as Hn; [|done]. destruct (Hq' Hn) as [_ ->]. done. }
  destruct (first_named l s) as [q'|] eqn:Hq'; simpl; [|rewrite <- Hq'; apply Hl].
  apply first_named_Some in Hq' as Hs. destruct Hs as [_ Hs]. unfold patch_one.
  case_decide as Hn; [|rewrite <- Hq'; apply Hl].
  assert (s = pname p) as -> by congruence. right. destruct Hupd as [_ Hnd].
  rewrite (first_named_NoDup upd p Hnd Hp), Hq. simpl. rewrite Hd.
  destruct (Hl (pname p)) as [Hs'|Hs']; rewrite Hq', ?(first_named_NoDup upd p Hnd Hp), Hq in Hs';
    simpl in Hs'; rewrite ?Hd in Hs'; injection Hs' as ->; by rewrite ?merge_merge.
Qed.

(** A request of the plan keeps the properties halfway when the registry
    accepts it. *)
Lemma planned_halfway cs o :
  valid_name (rec_id cs) → o ∈ planned (spec_plan upd cur) cs →
  ∃ fn, prop_action (op_request o) = Some (rec_id cs, fn) ∧
        ∀ l l', halfway upd cur l → fn l = Some l' → halfway upd cur l'.
Proof.
  intros Hid. unfold planned, spec_plan. cbn [plan_delete plan_create plan_update].
  destruct Hupd as [Hu _], Hcur as [Hc _]. rewrite Forall_forall in Hu, Hc.
  rewrite !elem_of_app, !list_elem_of_fmap.
  intros [(p & -> & Hp)|[(p & -> & Hp)|(p & -> & Hp)]]; eexists.
  - rewrite prop_action_delete; [|done|apply Hc; by apply elem_of_spec_toDelete in Hp as [? _]].
    eauto using halfway_delete.
  - rewrite prop_action_create by done. eauto using halfway_create.
  - rewrite prop_action_update; [|done|apply Hu; by apply elem_of_spec_toUpdate in Hp as [? _]].
    eauto using halfway_patch.
Qed.

End halfway.

(** ** Registries that are halfway *)

Section partial.
Context (d : disk) (files : list (string * string)) (reg : registry).
Context (Hreg : wf_registry reg) (Hfiles : batch_ready d (index_of reg) reg files).
Implicit Types (f : string * string) (r : value) (o : op) (mid : registry).

Lemma partial_start : partial d files reg reg.
Proof.
  split; [done|]. apply Forall_Forall2_diag, Forall_true. intros r.
  split_and!; try done. intros. apply halfway_start.
Qed.

(** The files of the batch have their names to themselves. *)
Lemma file_by_name f f' : f ∈ files → f' ∈ files → f'.2 = f.2 → f' = f.
Proof.
  intros Hf Hf' Heq. destruct Hfiles as [Hnd _].
  pose proof (find_key_NoDup snd files f Hnd Hf) as E1.
  pose proof (find_key_NoDup snd files f' Hnd Hf') as E2.
  rewrite Heq in E2. congruence.
Qed.

(** The record of a file, as the run found it. *)
Lemma origin_ready f :
  f ∈ files → ready d (entry (index_of reg) f) reg f.
Proof. intros Hf. destruct Hfiles as [_ Hall]. by eapply Forall_forall in Hall. Qed.

(** A request of the plan of a file replaces the properties of the record
    of the file, and keeps them halfway. *)
Lemma put_props_partial f l' r1 mid :
  f ∈ files → partial d files reg mid →
  lookup_id (rec_id (entry (index_of reg) f)) (live mid) = Some r1 →
  acceptable_props l' →
  (halfway (rec_props (local_schema d f)) (rec_props (entry (index_of reg) f))
     (rec_props r1) →
   halfway (rec_props (local_schema d f)) (rec_props (entry (index_of reg) f)) l') →
  partial d files reg (put_props (rec_id (entry (index_of reg) f)) l' mid).
Proof.
  intros Hf [Hmid Hall] Hr1 Hl' Hhalf. destruct (origin_ready f Hf) as (_ & Hr & Hn & _).
  set (r := entry (index_of reg) f) in *.
  split; [by apply wf_put_props|]. unfold put_props. cbn [live].
  rewrite Forall2_fmap_r. apply Forall2_same_length_lookup.
  split; [by eapply Forall2_length|]. intros i r0 r1' Hr0 Hr1'.
  destruct (Forall2_lookup_lr _ _ _ _ _ _ Hall Hr0 Hr1') as (Hid & Hname & Hout & Hin).
  unfold compose, put_rec. case_decide as Hid1; [|done].
  apply list_elem_of_lookup_2 in Hr0, Hr1'.
  assert (r1' = r1) as ->.
  { apply find_key_Some in Hr1 as Hr1e. destruct Hr1e as [Hr1e Hr1i].
    pose proof (lookup_id_elem_of r1' mid Hmid Hr1') as E. rewrite Hid1 in E. congruence. }
  assert (r0 = r) as ->.
  { pose proof (lookup_id_elem_of r0 reg Hreg Hr0) as E1.
    pose proof (lookup_id_elem_of r reg Hreg Hr) as E2.
    rewrite <- Hid, Hid1 in E1. congruence. }
  destruct (with_props_record l' r1 (wf_record_elem_of r1 mid Hmid Hr1') Hl')
    as (_ & Hid' & Hn' & Hp').
  split_and!; [congruence|congruence|..].
  - intros []. rewrite Hn. by apply list_elem_of_fmap_2.
  - intros f' Hf' Hnf'. rewrite (file_by_name f f') by congruence. rewrite Hp'.
    apply Hhalf, Hin; [done|congruence].
Qed.

(** Every request of the plan of a file keeps the registry halfway. *)
Lemma serve_partial f o mid :
  f ∈ files → o ∈ file_ops d (entry (index_of reg) f) f →
  partial d files reg mid → partial d files reg (serve (op_request o) mid).2.
Proof.
  intros Hf Ho Hmid. destruct (origin_ready f Hf) as (_ & Hr & _ & _ & Hupd & _).
  destruct (wf_record_elem_of _ _ Hreg Hr) as (_ & _ & Hid).
  pose proof (wf_record_props _ (wf_record_elem_of _ _ Hreg Hr)) as Hcur.
  rewrite <- rec_id_delete_prop in Hid.
  destruct (planned_halfway _ _ Hupd Hcur _ o Hid Ho) as (fn & Hfn & Hhalf).
  rewrite rec_id_delete_prop in Hfn.
  unfold serve, registry_remote, serve_registry, on_props. rewrite Hfn.
  destruct (lookup_id _ (live mid)) as [rm|] eqn:Hrm; [|done].
  destruct (fn (rec_props rm)) as [l'|] eqn:Hl'; [|done].
  apply (put_props_partial f l' rm); [done..| |by eauto].
  apply (prop_action_acceptable _ _ _ _ _ Hfn) in Hl'; [done|].
  apply find_key_Some in Hrm as [Hrm _]. destruct Hmid as [Hmid _].
  apply wf_record_props. by eapply wf_record_elem_of.
Qed.

End partial.

(** ** A run behind the failing transport *)

Section faulty.
Context (d : disk) (files : list (string * string)) (reg : registry).
Context (Hreg : wf_registry reg) (Hfiles : batch_ready d (index_of reg) reg files).
Implicit Types (f : string * string) (meta : index) (w : world flaky).

(** The update of one file keeps the registry halfway, and when it returns
    the entry of the file is consumed. *)
Lemma update_one_partial meta f w :
  f ∈ files → entry meta f = entry (index_of reg) f →
  partial d files reg (inner (remote w)) →
  partial d files reg (inner (remote (update_one d meta (resolved f) w).2)) ∧
  ∀ meta', (update_one d meta (resolved f) w).1 = Ok meta' →
           meta' = assoc_set meta f.2 (delete_prop (entry meta f) "properties").
Proof.
  intros Hf He Hw. pose proof (origin_ready d files reg Hfiles f Hf) as Hrf.
  pose proof (ready_truthy d _ reg f Hreg Hrf) as Htr.
  pose proof (ready_record d _ reg f Hreg Hrf) as Hwf.
  destruct Hrf as ([us Hread] & Hr & _ & Hus).
  rewrite (update_one_present d meta f us) by (by rewrite <- ?He in Htr).
  fold (entry meta f). rewrite He.
  unfold local_schema in Hus. rewrite Hread in Hus.
  rewrite (updateSchema_script _ _ _ _ _ _ (follows_reconcile us _ Hwf Hus)).
  assert (partial d files reg (inner (remote
            (run_ops (planned (spec_plan (rec_props us) (rec_props (entry (index_of reg) f)))
                        (delete_prop (entry (index_of reg) f) "properties")) w).2))) as Hrun.
  { eapply (flaky_invariant (partial d files reg)); [|apply run_ops_emits|done].
    intros rq mid (o & -> & Ho)%list_elem_of_fmap Hmid.
    apply (serve_partial d files reg Hreg Hfiles f); [done| |done].
    unfold file_ops, file_plan, local_schema. by rewrite Hread. }
  destruct (run_ops _ w) as [[[]|e] w']; [|done]. split; [done|]. by intros _ [= <-].
Qed.

(** The loop keeps the registry halfway, wherever it ends. *)
Lemma update_files_partial rest meta w :
  rest ⊆ files → NoDup rest.*2 →
  (∀ f, f ∈ rest → entry meta f = entry (index_of reg) f) →
  partial d files reg (inner (remote w)) →
  partial d files reg
    (inner (remote (for_fold (resolved <$> rest) (update_one d) meta w).2)).
Proof.
  revert meta w. induction rest as [|f rest IH]; intros meta w Hsub Hnd Hmeta Hw; [done|].
  rewrite fmap_cons in Hnd. apply NoDup_cons in Hnd as [Hf Hnd].
  rewrite fmap_cons. cbn [for_fold]. rewrite bind_run.
  destruct (update_one_partial meta f w) as [Hw1 Hmeta1];
    [apply Hsub; left|apply Hmeta; left|done|].
  destruct (update_one d meta (resolved f) w) as [[meta1|e] w1]; [|done].
  rewrite (Hmeta1 meta1 eq_refl). apply IH; [set_solver|done| |done].
  intros f' Hf'. rewrite <- (Hmeta f') by (by right). apply entry_ext.
  rewrite assoc_set_lookup, decide_False; [done|].
  intros Heq. apply Hf. rewrite <- Heq. by apply list_elem_of_fmap_2.
Qed.

(** Whatever the faults, a run of [updateSchemas] leaves the registry
    halfway. *)
Lemma updateSchemas_partial g fs c k :
  objectTypes d g = resolved <$> files →
  partial d files reg
    (inner (remote (updateSchemas d g (World (Flaky reg fs) c k)).2)).
Proof.
  intros Hg. unfold updateSchemas. rewrite Hg, bind_run.
  destruct (decide (default Pass (head fs) = Pass)) as [Hfs|Hfs].
  - rewrite getExistingSchemas_pass, bind_run by done.
    pose proof (update_files_partial files (index_of reg)
      (World (Flaky reg (tail fs)) c (k ++ [schemas_request]))) as Hloop.
    destruct (for_fold _ _ _ _) as [[meta|e] w1];
      (apply Hloop; [done|by destruct Hfiles|done|by apply partial_start]).
  - rewrite getExistingSchemas_run. cbn [remote].
    destruct fs as [|[] fs]; try done; rewrite serve_flaky; by apply partial_start.
Qed.

End faulty.

(** ** The run that resumes *)

Section resume.
Context (d : disk) (files : list (string * string)) (reg : registry).
Context (Hreg : wf_registry reg) (Hfiles : batch_ready d (index_of reg) reg files).
Context (Hst : Forall (stable_file d) files).
Implicit Types (f : string * string) (r p q : value) (mid : registry).

(** What was comparable with the properties of the record is comparable
    with the properties halfway. *)
Lemma halfway_comparable upd cur l p :
  Forall named cur → NoDup (names upd) → p ∈ upd → stable p →
  comparable cur p → halfway upd cur l → comparable l p.
Proof.
  intros Hcur Hnd Hp Hsp Hcmp Hl q1 Hq1.
  assert (Forall (λ k, comparable_field (field p k) (field p k)) (keys_of p)) as Hself.
  { eapply Forall_impl; [exact Hsp|]. intros k. apply stable_field_comparable. }
  destruct (Hl (pname p)) as [Hs|Hs]; rewrite Hq1 in Hs; [by apply Hcmp|].
  rewrite (first_named_NoDup upd p Hnd Hp) in Hs.
  destruct (first_named cur (pname p)) as [q|] eqn:Hq; simpl in Hs; simplify_eq; [|done].
  destruct (prop_differs p q); [|by apply Hcmp].
  apply first_named_Some in Hq as [Hq _]. rewrite Forall_forall in Hcur.
  apply Forall_forall. intros k Hk. rewrite field_merge, decide_True by auto.
  by eapply Forall_forall in Hself.
Qed.

(** The record of a file in a registry that is halfway. *)
Lemma partial_record f mid :
  f ∈ files → partial d files reg mid →
  ∃ rm, rm ∈ live mid ∧ rec_name rm = f.2 ∧
        rec_id rm = rec_id (entry (index_of reg) f) ∧
        halfway (rec_props (local_schema d f)) (rec_props (entry (index_of reg) f))
          (rec_props rm).
Proof.
  intros Hf [_ Hall]. destruct (origin_ready d files reg Hfiles f Hf) as (_ & Hr & Hn & _).
  apply list_elem_of_lookup in Hr as [i Hi].
  destruct (Forall2_lookup_l _ _ _ _ _ Hall Hi) as (rm & Hrm & Hid & Hname & _ & Hhalf).
  exists rm. split_and!; [by eapply list_elem_of_lookup_2|congruence|done|by apply Hhalf].
Qed.

Lemma partial_other r mid :
  partial d files reg mid → r ∈ live reg → rec_name r ∉ files.*2 → r ∈ live mid.
Proof.
  intros [_ Hall] [i Hi]%list_elem_of_lookup Hn.
  destruct (Forall2_lookup_l _ _ _ _ _ Hall Hi) as (rm & Hrm & _ & _ & Hout & _).
  rewrite <- (Hout Hn). by eapply list_elem_of_lookup_2.
Qed.

(** A registry that is halfway can be updated with the same files. *)
Lemma partial_ready mid :
  partial d files reg mid → batch_ready d (index_of mid) mid files.
Proof.
  intros Hmid. split; [by destruct Hfiles|]. apply Forall_forall. intros f Hf.
  destruct (partial_record f mid Hf Hmid) as (rm & Hrm & Hn & _ & Hhalf).
  destruct (origin_ready d files reg Hfiles f Hf) as (Hread & Hr & _ & Hus & [Hupd Hnd] & Hcmp).
  destruct (wf_record_props _ (wf_record_elem_of _ _ Hreg Hr)) as [Hcur _].
  rewrite (entry_index mid rm f) by (done || by destruct Hmid).
  do 3 (split; [done|]). do 2 (split; [done|]).
  rewrite Forall_forall in Hcmp. apply Forall_forall. intros p Hp.
  eapply halfway_comparable; [by apply acceptable_named|done..| |by apply Hcmp|done].
  eapply Forall_forall in Hst; [|exact Hf]. by eapply Forall_forall in Hst.
Qed.

(** Runs that fail, however many, leave the registry halfway. *)
Lemma retries_partial g fss mid c k :
  objectTypes d g = resolved <$> files → partial d files reg mid →
  partial d files reg (remote (retries (updateSchemas d g) fss (World mid c k))).
Proof.
  intros Hg. revert mid c k. induction fss as [|fs fss IH]; intros mid c k Hmid; [done|].
  cbn [retries remote console calls]. apply IH. apply (partial_trans _ _ _ mid); [done|].
  apply updateSchemas_partial; [by destruct Hmid|by apply partial_ready|done].
Qed.

End resume.

(** ** Theorems *)

Section theorems.
Context (d : disk).
Implicit Types (reg : registry) (f : string * string) (r : value)
  (files : list (string * string)) (c : list string) (k : list request)
  (fs : list fault).

(** From properties that are halfway, synchronisation gives what it gives
    from the properties of the record. *)
Lemma halfway_synchronised upd cur l :
  halfway upd cur l →
  synchronised (prop_map upd) (prop_map l) = synchronised (prop_map upd) (prop_map cur).
Proof.
  intros Hl. apply synchronised_resume. intros s. rewrite !lookup_prop_map. apply Hl.
Qed.

(** From a registry that is halfway, a run with a reliable transport
    completes the update. *)
Lemma partial_completes g files reg mid c k :
  wf_registry reg → objectTypes d g = resolved <$> files →
  batch_ready d (index_of reg) reg files → Forall (stable_file d) files →
  partial d files reg mid →
  ∃ w2, updateSchemas d g (World mid c k) = (Ok (), w2) ∧ completed d files reg (remote w2).
Proof.
  intros Hreg Hg Hfiles Hst Hmid.
  pose proof (partial_ready d files reg Hreg Hfiles Hst _ Hmid) as Hready.
  destruct (updateSchemas_applied d g files mid c k)
    as (w2 & Hrun & Hwf & Hrec & Hother); [by destruct Hmid|done..|].
  exists w2. split; [done|]. split; [done|]. split.
  - intros f Hf. destruct (Hrec f Hf) as (rm' & r' & Hrm' & Hn' & Hr' & Hnr' & Hid' & Hp').
    destruct (partial_record d files reg Hfiles f _ Hf Hmid) as (rm & Hrm & Hn & Hid & Hhalf).
    destruct (origin_ready d files reg Hfiles f Hf) as (_ & Hr & Hname & Hus).
    destruct Hmid as [Hmid _].
    assert (rm' = rm) as ->.
    { rewrite <- (entry_index _ rm' f Hmid Hrm' Hn'). by apply entry_index. }
    exists (entry (index_of reg) f), r'. split_and!; [done..|congruence|].
    rewrite Hp', <- (halfway_synchronised _ _ _ Hhalf).
    apply (record_synchronised _ _ _ Hus (wf_record_elem_of _ _ Hmid Hrm)).
  - intros r Hr Hn. apply Hother; [|done]. by eapply partial_other.
Qed.

(** C34. Halfway is an invariant of [update] behind the failing transport.
    Let the files name different object types, each with a record of the
    registry [reg] that the file's schema follows, with local fields that
    are primitives or option lists.  A registry is halfway when it is well
    formed and holds the records of [reg], with their identifiers and
    names and in their order, the records that no file names unchanged,
    and every property name of the others either as [reg] has it or as
    the file synchronised with [reg] has it.  The registry [reg] is
    halfway, and a run of [updateSchemas] on a registry that is halfway,
    whatever requests and answers the transport loses and wherever the run
    ends, leaves a registry that is halfway. *)
Theorem partial_invariant g files reg :
  wf_registry reg → objectTypes d g = resolved <$> files →
  batch_ready d (index_of reg) reg files → Forall (stable_file d) files →
  partial d files reg reg ∧
  ∀ mid fs c k, partial d files reg mid →
    partial d files reg (inner (remote (updateSchemas d g (World (Flaky mid fs) c k)).2)).
Proof.
  intros Hreg Hg Hfiles Hst. split; [by apply partial_start|].
  intros mid fs c k Hmid.
  exact (retries_partial d files reg Hreg Hfiles Hst g [fs] mid c k Hg Hmid).
Qed.

(** C10. [update] can be run until it succeeds.  Let [update] be run
    any number of times through a transport that loses any of the
    requests or of their answers, so that a run ends early, or skips a
    patch, or thinks it failed when it did not, each run on the registry
    the one before left.  When the files name different object types,
    each with a record that the file's schema follows, and the local
    fields are primitives or option lists, the failed runs leave the
    registry halfway (every name of every record as it was or as it
    shall be), and the next run, with a reliable transport, returns and
    leaves the registry the first run would have left without a failure:
    by name, the properties of the record of every file are those of the
    record the first run found, synchronised with the file; the records
    keep their identifiers and names, and the records of other names are
    untouched. *)
Theorem update_resumes g files reg fss c k w1 :
  wf_registry reg → objectTypes d g = resolved <$> files →
  batch_ready d (index_of reg) reg files → Forall (stable_file d) files →
  retries (updateSchemas d g) fss (World reg c k) = w1 →
  partial d files reg (remote w1) ∧
  ∃ w2,
    updateSchemas d g w1 = (Ok (), w2) ∧
    wf_registry (remote w2) ∧
    (∀ f, f ∈ files →
       ∃ r r', r ∈ live reg ∧ rec_name r = f.2 ∧
         r' ∈ live (remote w2) ∧ rec_name r' = f.2 ∧ rec_id r' = rec_id r ∧
         prop_map (rec_props r') =
           synchronised (prop_map (rec_props (local_schema d f)))
             (prop_map (rec_props r))) ∧
    (∀ r, r ∈ live reg → rec_name r ∉ files.*2 → r ∈ live (remote w2)).
Proof.
  intros Hreg Hg Hfiles Hst <-.
  pose proof (retries_partial d files reg Hreg Hfiles Hst g fss reg c k Hg
                (partial_start d files reg Hreg)) as Hmid.
  split; [done|]. destruct (retries _ _ _) as [mid c' k'].
  by apply (partial_completes g files reg).
Qed.

End theorems.

(** ** An update that fails halfway, worked *)

(** The creation of [fresh] is lost: [legacy_field] is deleted, [fresh] is
    not created, [amount] is not patched, and the run throws. *)
Definition ex_faults : list fault := [Pass; Pass; Lost].

Example update_fails_halfway :
  let out := updateSchemas ex_disk_deal "schemas/*.json" (World (Flaky ex_registry ex_faults) [] []) in
  out.1 = Err HttpError ∧
  names ∘ rec_props <$> live (inner (remote out.2)) =
    [["status"; "amount"; "hs_object_id"; "maths_score"]].
Proof. done. Qed.

(** A second run loses the patch of [amount], which is caught: the run
    returns, and the registry is halfway still. *)
Definition ex_faults_again : list fault := [Pass; Pass; Lost].

Lemma update_resumes_witness :
  partial ex_disk_deal [("schemas", "deal_x")] ex_registry
    (remote (retries (updateSchemas ex_disk_deal "schemas/*.json")
               [ex_faults; ex_faults_again] (World ex_registry [] []))) ∧
  ∃ w2,
    updateSchemas ex_disk_deal "schemas/*.json"
      (retries (updateSchemas ex_disk_deal "schemas/*.json")
         [ex_faults; ex_faults_again] (World ex_registry [] [])) = (Ok (), w2) ∧
    wf_registry (remote w2) ∧
    (∀ f, f ∈ [("schemas", "deal_x")] →
       ∃ r r', r ∈ live ex_registry ∧ rec_name r = f.2 ∧
         r' ∈ live (remote w2) ∧ rec_name r' = f.2 ∧ rec_id r' = rec_id r ∧
         prop_map (rec_props r') =
           synchronised (prop_map (rec_props (local_schema ex_disk_deal f)))
             (prop_map (rec_props r))) ∧
    (∀ r, r ∈ live ex_registry → rec_name r ∉ [("schemas", "deal_x")].*2 →
          r ∈ live (remote w2)).
Proof.
  apply (update_resumes ex_disk_deal "schemas/*.json" [("schemas", "deal_x")]
           ex_registry [ex_faults; ex_faults_again] [] []);
    [compute_done | reflexivity | split; compute_done | compute_done | reflexivity].
Defined.

Lemma partial_invariant_witness :
  partial ex_disk_deal [("schemas", "deal_x")] ex_registry ex_registry ∧
  ∀ mid fs c k, partial ex_disk_deal [("schemas", "deal_x")] ex_registry mid →
    partial ex_disk_deal [("schemas", "deal_x")] ex_registry
      (inner (remote (updateSchemas ex_disk_deal "schemas/*.json"
                        (World (Flaky mid fs) c k)).2)).
Proof.
  apply (partial_invariant ex_disk_deal "schemas/*.json" [("schemas", "deal_x")] ex_registry);
    [compute_done | reflexivity | split; compute_done | compute_done].
Defined.

(** The three runs, side by side: the names of the properties after the
    first, after the second, and after the run that meets no failure. *)
Example update_three_runs :
  let w1 := retries (updateSchemas ex_disk_deal "schemas/*.json") [ex_faults]
              (World ex_registry [] []) in
  let w2 := retries (updateSchemas ex_disk_deal "schemas/*.json") [ex_faults_again] w1 in
  let w3 := (updateSchemas ex_disk_deal "schemas/*.json" w2).2 in
  names ∘ rec_props <$> live (remote w1) =
    [["status"; "amount"; "hs_object_id"; "maths_score"]] ∧
  names ∘ rec_props <$> live (remote w2) =
    [["status"; "amount"; "hs_object_id"; "maths_score"; "fresh"]] ∧
  names ∘ rec_props <$> live (remote w3) =
    [["status"; "amount"; "hs_object_id"; "maths_score"; "fresh"]] ∧
  (λ r, (λ p, field p "type") <$> first_named (rec_props r) "amount") <$> live (remote w2) =
    [Some (VStr "string")] ∧
  (λ r, (λ p, field p "type") <$> first_named (rec_props r) "amount") <$> live (remote w3) =
    [Some (VStr "number")].
Proof. by vm_compute. Qed.
