(* ===== verification/Recreate.v ===== *)
(** * Resuming a creation

    [create] ([src/src/cli.ts], lines 74-118) catches every failure of a
    request and goes on, so that a run through a failing transport leaves
    some of the schemas created and the others not, and may have created
    a schema whose creation it reports as failed.  A later run submits
    every schema again: the registry rejects those it has and accepts the
    others.

    This file shows that the command can be run until it succeeds
    ([create_resumes]): whatever failed in any number of runs, after the
    first run that meets no failure the registry holds its former records
    and exactly one record for each file, the schema of the file with an
    identifier.  The argument is an invariant of the requests of the
    batch ([from_batch]). *)

From Stdlib Require Import Ascii.
From stdpp Require Import prelude strings.
From S2P Require Import Prelude JsValue Lodash Loader Options Reconcile Remote Client.
From S2P Require Import Service Commands EndToEnd Lifecycle Frame Reach Faults.

(** ** The requests of a batch *)

(** A request of the creation of a batch of files: the fetch of the
    index, the schema of a file, or an association. *)
Definition batch_request (d : disk) (files : list (string * string)) (rq : request)
    : Prop :=
  is_fetch rq ∨ (∃ f, f ∈ files ∧ rq = create_request (schema_of d f)) ∨
  is_association rq.

(** A record the registry made of the schema of a file. *)
Definition record_of (d : disk) (f : string * string) (r : value) : Prop :=
  ∃ n, r = with_field "objectTypeId" (VStr (mk_id n)) (schema_of d f).

(** A registry whose records are those of [reg] and records of the files:
    well formed, with the records of [reg] in their places. *)
Definition from_batch (d : disk) (files : list (string * string)) (reg mid : registry)
    : Prop :=
  wf_registry mid ∧ grows reg mid ∧
  ∀ r, r ∈ live mid → r ∈ live reg ∨ ∃ f, f ∈ files ∧ record_of d f r.

(** ** What the commands request *)

Section requests.
Context `{Remote R} (d : disk).
Implicit Types (f : string * string) (s : value) (files : list (string * string)).

Lemma createSchema_request s : emits (λ rq, rq = create_request s) (createSchema s).
Proof. unfold createSchema. solve_emits. done. Qed.

(** The first loop submits the schema of the file. *)
Lemma create_one_request st f :
  emits (λ rq, rq = create_request (schema_of d f)) (create_one d st (resolved f)).
Proof.
  unfold create_one, resolved, schema_of.
  apply emits_lift_bind. intros [fp ot] [= <- <-].
  apply emits_lift_bind. intros schema Hread. simpl in Hread. rewrite Hread.
  apply emits_lift_bind. intros [a s'] Hpick.
  assert (s' = delete_prop schema "associations") as ->.
  { unfold pick in Hpick. by destruct (get_prop schema "associations"); simplify_eq/=. }
  apply emits_lift_bind. intros targets _. apply emits_bind; [apply createSchema_request|].
  intros id. destruct (to_boolean id); solve_emits.
Qed.

(** The first loop, on a file that can be loaded, returns whatever the
    service answers; the service has seen the schema of the file. *)
Lemma create_one_remote st f (w : world R) :
  loadable_file d f →
  is_Ok (create_one d st (resolved f) w).1 ∧
  remote (create_one d st (resolved f) w).2 =
    (serve (create_request (schema_of d f)) (remote w)).2.
Proof.
  unfold loadable_file, schema_of.
  destruct (read_json _ _) as [schema|] eqn:Hread; [|done].
  intros [Hs Harr]. unfold create_one, resolved.
  rewrite lift_bind_run. simpl. rewrite lift_bind_run, Hread.
  rewrite lift_bind_run, pick_non_nullish by done.
  destruct (if to_boolean _ then _ else _) as [| | | | |targets|] eqn:Ht; try done.
  rewrite lift_bind_run. simpl. rewrite bind_run.
  rewrite createSchema_run by (by apply delete_prop_non_nullish).
  destruct (serve _ _) as [[data|e] rem]; [destruct (is_nullish data)|];
    run_M; try destruct (to_boolean (field data _)); by split; [eexists|].
Qed.

Lemma createSchemas_batch g files :
  objectTypes d g = resolved <$> files → emits (batch_request d files) (createSchemas d g).
Proof.
  intros Hg. unfold createSchemas. rewrite Hg. apply emits_bind.
  - eapply emits_mono; [|apply getExistingSchemas_emits]. intros rq Hrq. by left.
  - intros meta. apply emits_bind.
    + apply emits_for_fold_in. intros st x (f & -> & Hf)%list_elem_of_fmap.
      eapply emits_mono; [|apply create_one_request]. intros rq ->. right. left. eauto.
    + intros st. apply emits_for_of. intros a.
      eapply emits_mono; [|apply associate_emits]. intros rq Hrq. by do 2 right.
Qed.

End requests.

(** ** What the requests of a batch do to the registry *)

Section registry.
Context (d : disk) (files : list (string * string)) (reg : registry).
Implicit Types (f : string * string) (s r : value) (mid : registry) (rq : request)
  (x : string).

(** A path that goes on after a slash has two segments at least. *)
Lemma split_on_cons x cur : ∃ a l, split_on "/"%char x cur = a :: l.
Proof.
  revert cur. induction x as [|c x IH]; intros cur; simpl; [by eauto|].
  case_decide; [by eauto|apply IH].
Qed.

Lemma split_on_two x rest cur :
  ∃ a b l, split_on "/"%char (x +:+ String "/" rest) cur = a :: b :: l.
Proof.
  revert cur. induction x as [|c x IH]; intros cur.
  - rewrite append_nil_l. simpl.
    destruct (split_on_cons rest "") as (b & l & ->). by eauto.
  - rewrite append_cons. simpl. case_decide; [|apply IH].
    destruct (IH "") as (a & b & l & ->). by eauto.
Qed.

(** The path of an association names no endpoint that changes the
    registry. *)
Lemma serve_association rq mid : is_association rq → (serve rq mid).2 = mid.
Proof.
  destruct rq as [m path body]. intros [Hm [id Hp]]. simpl in Hm, Hp. subst.
  unfold serve, registry_remote, serve_registry, prop_action, endpoint_of.
  cbn [req_method req_path req_body].
  change ("/crm/v3/schemas/" +:+ id +:+ "/associations")
    with (String "/" ("crm" +:+ String "/" ("v3" +:+ String "/" ("schemas" +:+
            String "/" (id +:+ String "/" "associations"))))).
  rewrite split_segment by compute_done. rewrite split_on_sep by compute_done.
  rewrite split_on_sep by compute_done.
  destruct (split_on_two id "associations" "") as (a & b & l & ->).
  rewrite !append_nil_l.
  destruct l as [|c [|e ?]]; simpl; repeat case_decide; try done.
  unfold associate_schemas. by case_decide.
Qed.

Lemma serve_create_request s mid : serve (create_request s) mid = create_schema s mid.
Proof. done. Qed.

(** The registry has a record of the name of every acceptable schema it
    was asked to create. *)
Lemma create_schema_ensures s mid :
  wf_registry mid → schema_ok s → rec_name s ∈ rnames (live (create_schema s mid).2).
Proof.
  intros Hmid Hs. destruct (new_record_spec s mid Hs) as (Hr & Hid & Hn & _).
  unfold create_schema. case_decide as Hok; cbn [snd live].
  - unfold rnames. rewrite fmap_app, elem_of_app. right. rewrite <- Hn. by left.
  - apply dec_stable. intros Hnew. apply Hok. split_and!; [done..|by rewrite Hn|].
    rewrite Hid. by apply next_id_fresh.
Qed.

Lemma from_batch_start : wf_registry reg → from_batch d files reg reg.
Proof. intros Hreg. split_and!; [done|reflexivity|by left]. Qed.

(** Every request of the batch keeps the registry made of the records
    of [reg] and of records of the files. *)
Lemma serve_from_batch rq mid :
  batch_request d files rq → from_batch d files reg mid →
  from_batch d files reg (serve rq mid).2.
Proof.
  intros [->|[(f & Hf & ->)|Hrq]] (Hmid & Hgrows & Hrecs);
    [by rewrite serve_fetch| |by rewrite serve_association].
  rewrite serve_create_request.
  split_and!; [by apply create_schema_wf|etrans; [done|apply create_schema_grows]|].
  unfold create_schema. case_decide; [|done]. cbn [snd live].
  intros r [Hr|Hr%list_elem_of_singleton]%elem_of_app; [by apply Hrecs|].
  right. exists f. split; [done|]. by exists (issued mid).
Qed.

(** Records stay, and so do their names. *)
Lemma grows_names mid mid' n :
  grows mid mid' → n ∈ rnames (live mid) → n ∈ rnames (live mid').
Proof.
  intros [[new ->] _]. unfold rnames. rewrite fmap_app, elem_of_app. by left.
Qed.

End registry.

(** ** A run with a reliable transport *)

Section again.
Context (d : disk).
Implicit Types (f : string * string) (files : list (string * string))
  (w : world registry) (st : index * list value) (mid : registry).

(** Whatever the registry holds, the first loop leaves a record of the
    name of the file. *)
Lemma create_one_present st f w :
  wf_registry (remote w) → loadable_file d f → schema_ok (schema_of d f) →
  new_name d f ∈ rnames (live (remote (create_one d st (resolved f) w).2)).
Proof.
  intros Hw Hf Hs. destruct (create_one_remote d st f w Hf) as [_ ->].
  rewrite serve_create_request. by apply create_schema_ensures.
Qed.

(** The first loop returns, and leaves a record of the name of every
    file. *)
Lemma create_files_present files st w :
  wf_registry (remote w) →
  Forall (λ f, loadable_file d f ∧ schema_ok (schema_of d f)) files →
  is_Ok (for_fold (resolved <$> files) (create_one d) st w).1 ∧
  ∀ f, f ∈ files →
    new_name d f ∈ rnames (live (remote (for_fold (resolved <$> files) (create_one d) st w).2)).
Proof.
  intros Hw Hfiles. revert st w Hw.
  induction Hfiles as [|f files [Hf Hs] Hfiles IH]; intros st w Hw.
  { split; [by eexists|]. by intros f ?%elem_of_nil. }
  rewrite fmap_cons. cbn [for_fold]. rewrite bind_run.
  pose proof (create_one_present st f w Hw Hf Hs) as Hp.
  destruct (create_one_remote d st f w Hf) as [[st1 Hst1] Hrem].
  assert (wf_registry (remote (create_one d st (resolved f) w).2)) as Hw1
    by (rewrite Hrem; by apply serve_wf).
  destruct (create_one d st (resolved f) w) as [[st1'|e] w1]; simplify_eq/=.
  destruct (IH st1 w1 Hw1) as [Hok Hrest]. split; [done|].
  intros f' [->|Hf']%elem_of_cons; [|by apply Hrest].
  eapply grows_names; [|done].
  apply (emits_invariant (grows (remote w1)) is_creation); [| |reflexivity].
  - intros. by apply creation_grows.
  - apply emits_for_fold. intros st' x. eapply emits_mono; [|apply create_one_emits].
    intros rq Hrq. right. by left.
Qed.

(** [createSchemas] returns, whatever the registry holds, and leaves a
    record of the name of every file. *)
Lemma createSchemas_again g files mid c k :
  wf_registry mid → objectTypes d g = resolved <$> files →
  Forall (λ f, loadable_file d f ∧ schema_ok (schema_of d f)) files →
  ∃ w2, createSchemas d g (World mid c k) = (Ok (), w2) ∧
        ∀ f, f ∈ files → new_name d f ∈ rnames (live (remote w2)).
Proof.
  intros Hmid Hg Hfiles. unfold createSchemas.
  rewrite Hg, bind_run, getExistingSchemas_registry. cbn beta iota. rewrite bind_run.
  set (w := World mid c (k ++ [schemas_request])).
  destruct (create_files_present files (index_of mid, []) w Hmid Hfiles) as [_ Hp].
  destruct (create_files_run d files (index_of mid, []) w) as (st & Hst & Hnn & _);
    [by eapply Forall_impl; [exact Hfiles|intros ? []]|done|].
  fold (index_of mid) in *. destruct (for_fold _ _ _ w) as [[st'|e] w1]; simplify_eq/=.
  pose proof (for_of_Ok st.2 (associate st.1) w1) as Hok.
  assert (grows (remote w1) (remote (for_of st.2 (associate st.1) w1).2)) as Hgrows.
  { apply (emits_invariant (grows (remote w1)) is_creation); [| |reflexivity].
    - intros. by apply creation_grows.
    - apply emits_for_of. intros a. eapply emits_mono; [|apply associate_emits].
      intros rq Hrq. by do 2 right. }
  destruct (for_of _ _ w1) as [r w2]. simpl in *. exists w2. split.
  - rewrite Hok; [done|]. intros a w' Ha. apply associate_Ok. by eapply Forall_forall in Hnn.
  - intros f Hf. eapply grows_names; [done|by apply Hp].
Qed.

End again.

(** ** Theorems *)

Section theorems.
Context (d : disk).
Implicit Types (reg : registry) (f : string * string) (r : value)
  (files : list (string * string)) (c : list string) (k : list request)
  (fs : list fault).

(** In a registry made of the records of [reg] and of records of files
    with new names, the record of the name of a file is a record of the
    file. *)
Lemma from_batch_record files reg mid f r :
  creatable d reg files → from_batch d files reg mid → f ∈ files →
  r ∈ live mid → rec_name r = new_name d f → record_of d f r.
Proof.
  intros (Hfiles & Hnd & Hnew) (_ & _ & Hrecs) Hf Hr Hn.
  rewrite Forall_forall in Hfiles, Hnew.
  destruct (Hrecs r Hr) as [Hold|(f' & Hf' & n & ->)].
  { destruct (Hnew f Hf). rewrite <- Hn. by apply list_elem_of_fmap_2. }
  destruct (with_id_record (mk_id n) (schema_of d f')) as (_ & _ & Hn');
    [by apply Hfiles|apply mk_id_valid|].
  rewrite Hn' in Hn. fold (new_name d f') in Hn.
  pose proof (find_key_NoDup (new_name d) files f Hnd Hf) as E1.
  pose proof (find_key_NoDup (new_name d) files f' Hnd Hf') as E2.
  rewrite Hn in E2. assert (f' = f) as -> by congruence. by exists n.
Qed.

(** C11. [create] can be run until it succeeds.  Let [create] be run any
    number of times through a transport that loses any of the requests
    or of their answers, so that schemas are missing, or were created
    and reported as failed, each run on the registry the one before
    left.  When the files hold schemas the registry accepts, under
    different names that are new to the registry the first run found,
    the next run, with a reliable transport, returns and completes the
    creation: the registry is well formed, holds the records the first
    run found, in their places, and a record for every file, the schema
    of the file with an identifier; it has no other record: its names
    are the former names and the names of the files. *)
Theorem create_resumes g files reg fss c k w1 :
  wf_registry reg → objectTypes d g = resolved <$> files → creatable d reg files →
  retries (createSchemas d g) fss (World reg c k) = w1 →
  ∃ w2,
    createSchemas d g w1 = (Ok (), w2) ∧
    wf_registry (remote w2) ∧ grows reg (remote w2) ∧
    (∀ f, f ∈ files → ∃ r, r ∈ live (remote w2) ∧ record_of d f r) ∧
    rnames (live (remote w2)) ≡ₚ rnames (live reg) ++ (new_name d <$> files).
Proof.
  intros Hreg Hg Hfiles <-.
  assert (from_batch d files reg
            (remote (retries (createSchemas d g) fss (World reg c k)))) as Hmid.
  { apply (retries_invariant (from_batch d files reg) (batch_request d files));
      [apply serve_from_batch|by apply createSchemas_batch|by apply from_batch_start]. }
  destruct (retries _ _ _) as [mid c' k']. cbn [remote] in Hmid.
  destruct (createSchemas_again d g files mid c' k')
    as (w2 & Hrun & Hpresent); [by destruct Hmid|done|by destruct Hfiles|].
  assert (from_batch d files reg (remote w2)) as Hend.
  { replace w2 with (createSchemas d g (World mid c' k')).2 by (by rewrite Hrun).
    apply (emits_invariant (from_batch d files reg) (batch_request d files));
      [intros; by apply serve_from_batch|by apply createSchemas_batch|done]. }
  pose proof (λ f r, from_batch_record files reg _ f r Hfiles Hend) as Hrecord.
  exists w2. destruct Hend as (Hwf & Hgrows & Hrecs). split_and!; [done..| |].
  - intros f Hf. pose proof (Hpresent f Hf) as (r & Hn & Hr)%list_elem_of_fmap.
    exists r. split; [done|]. by apply Hrecord.
  - destruct Hfiles as (Hok & Hnd & Hnew). apply NoDup_Permutation.
    + by destruct Hwf as (_ & _ & ? & _).
    + apply NoDup_app. split_and!; [by destruct Hreg as (_ & _ & ? & _)| |done].
      intros n Hn (f & -> & Hf)%list_elem_of_fmap.
      rewrite Forall_forall in Hnew. by apply (Hnew f Hf).
    + intros n. rewrite elem_of_app. split.
      * intros (r & -> & Hr)%list_elem_of_fmap.
        destruct (Hrecs r Hr) as [Hold|(f & Hf & m & ->)];
          [left; by apply list_elem_of_fmap_2|right].
        rewrite Forall_forall in Hok.
        destruct (with_id_record (mk_id m) (schema_of d f)) as (_ & _ & ->);
          [by apply Hok|apply mk_id_valid|]. by apply (list_elem_of_fmap_2 (new_name d)).
      * intros [Hn|(f & -> & Hf)%list_elem_of_fmap]; [by eapply grows_names|by apply Hpresent].
Qed.

End theorems.

(** ** A creation that fails halfway, worked *)

(** The answer to the creation of [deal_x] is lost: the schema is created
    and the run reports a failure; the second run loses the request and
    reports a failure; the third reports a failure too, rightly, and the
    registry holds the schema once. *)
Lemma create_resumes_witness :
  ∃ w2,
    createSchemas ex_disk_deal "schemas/*.json"
      (retries (createSchemas ex_disk_deal "schemas/*.json")
         [[Pass; Unanswered]; [Pass; Lost]] (World empty_registry [] [])) = (Ok (), w2) ∧
    wf_registry (remote w2) ∧ grows empty_registry (remote w2) ∧
    (∀ f, f ∈ [("schemas", "deal_x")] →
       ∃ r, r ∈ live (remote w2) ∧ record_of ex_disk_deal f r) ∧
    rnames (live (remote w2)) ≡ₚ
      rnames (live empty_registry) ++ (new_name ex_disk_deal <$> [("schemas", "deal_x")]).
Proof.
  apply (create_resumes ex_disk_deal "schemas/*.json" [("schemas", "deal_x")]
           empty_registry [[Pass; Unanswered]; [Pass; Lost]] [] []);
    [compute_done | reflexivity | compute_done | reflexivity].
Defined.

Example create_thrice_console :
  let w1 := retries (createSchemas ex_disk_deal "schemas/*.json")
              [[Pass; Unanswered]; [Pass; Lost]] (World empty_registry [] []) in
  console (createSchemas ex_disk_deal "schemas/*.json" w1).2 =
    [ "Failed to Create Schema deal_x"; "Failed to Create Schema deal_x";
      "Failed to Create Schema deal_x" ] ∧
  rnames (live (remote (createSchemas ex_disk_deal "schemas/*.json" w1).2)) = ["deal_x"].
Proof. done. Qed.
