(* ===== verification/Reserved.v ===== *)
(** * Reserved properties survive

    The specification asks one thing of [update] above all: a property the
    platform manages, whose name carries [hs_] or [hubspot_], is never
    deleted.  [Reconcile] shows it of the list [toDelete]
    ([src/src/cli.ts], lines 152-157).  This file shows it of the
    registry: whatever the files hold, whatever fails in transit and
    however often the command is run, [update] leaves every record with a
    property of every reserved name it had ([reserved_survive]).

    The files are arbitrary here, so the run is followed as it is, with
    its exceptions: a file may not load, its schema may not compare, an
    entry of the index may have been consumed by an earlier file.  What
    is known is the index, which comes from the registry: the record
    passed to [updateSchema] is a record of the registry ([index_ok]), so
    the properties it may delete are properties with names, and a name
    that the reserved-name test let through is not reserved. *)

From Stdlib Require Import Ascii.
From stdpp Require Import prelude strings.
From S2P Require Import Prelude JsValue Lodash Loader Options Reconcile Remote Client Update.
From S2P Require Import Registry Service Commands EndToEnd Frame Faults.

(** ** Requests and registries *)

(** A request of [update] that removes no reserved property: a request
    on properties or the fetch, and when it is a [DELETE] that names a
    property, the name is not reserved. *)
Definition spares_reserved (rq : request) : Prop :=
  is_change rq ∧
  (req_method rq = DELETE → ∀ id name,
     endpoint_of (req_path rq) = Property id name → reserved_name name = false).

(** A record that has a property of every reserved name [r] has. *)
Definition guarded (r r' : value) : Prop :=
  rec_id r' = rec_id r ∧ rec_name r' = rec_name r ∧
  ∀ n, reserved_name n = true → n ∈ names (rec_props r) → n ∈ names (rec_props r').

(** The records are the former ones, each with its reserved properties. *)
Definition guards (reg reg' : registry) : Prop :=
  Forall2 guarded (live reg) (live reg').

(** An entry of the index that [updateSchema] has consumed: no schema can
    be reconciled with it any more. *)
Definition spent (cs : value) : Prop := ∀ us, ∃ e, reconcile us cs = Err e.

(** The index of a run: every entry is a record of the registry or was
    consumed. *)
Definition index_ok (meta : index) : Prop :=
  Forall (λ kv, wf_record kv.2 ∨ spent kv.2) meta.

Section relations.
Implicit Types (reg : registry) (r : value).

#[export] Instance guarded_refl : Reflexive guarded.
Proof. by intros r. Qed.

#[export] Instance guarded_trans : Transitive guarded.
Proof.
  intros r1 r2 r3 (? & ? & H12) (? & ? & H23). split_and!; [congruence..|auto].
Qed.

#[export] Instance guards_refl : Reflexive guards.
Proof. intros reg. by apply Forall_Forall2_diag, Forall_true. Qed.

#[export] Instance guards_trans : Transitive guards.
Proof. intros reg1 reg2 reg3 H12 H23. unfold guards in *. by etrans. Qed.

(** What [guards] says of one property. *)
Lemma guards_property reg reg' r q :
  guards reg reg' → r ∈ live reg → q ∈ rec_props r → reserved_name (pname q) = true →
  ∃ r' q', r' ∈ live reg' ∧ rec_id r' = rec_id r ∧ q' ∈ rec_props r' ∧ pname q' = pname q.
Proof.
  intros Hg [i Hi]%list_elem_of_lookup Hq Hres.
  destruct (Forall2_lookup_l _ _ _ _ _ Hg Hi) as (r' & Hr' & Hid & _ & Hn).
  destruct (proj1 (list_elem_of_fmap _ _ _) (Hn _ Hres (list_elem_of_fmap_2 pname _ _ Hq)))
    as (q' & Hq' & Hin).
  exists r', q'. split_and!; [by eapply list_elem_of_lookup_2|done..].
Qed.

End relations.

(** ** What a request does to the reserved properties *)

Section requests.
Implicit Types (reg : registry) (rq : request) (r : value) (id n : string)
  (l : list value).

(** The change a request asks for keeps the reserved names, unless it
    deletes one. *)
Lemma prop_action_reserved rq id fn l l' n :
  prop_action rq = Some (id, fn) →
  (req_method rq = DELETE → ∀ id name,
     endpoint_of (req_path rq) = Property id name → reserved_name name = false) →
  fn l = Some l' → reserved_name n = true → n ∈ names l → n ∈ names l'.
Proof.
  unfold prop_action. intros Hrq Hdel Hfn Hn Hl.
  destruct (req_method rq), (endpoint_of (req_path rq)) as [| | | |id'|id' name|] eqn:He;
    simplify_eq.
  - unfold create_named in Hfn. case_decide; simplify_eq.
    unfold names. rewrite fmap_app, elem_of_app. by left.
  - unfold patch_named in Hfn. case_decide as Hok; simplify_eq.
    rewrite patch_one_name; [done|by destruct Hok].
  - unfold delete_named in Hfn. case_decide; simplify_eq.
    apply list_elem_of_fmap in Hl as (q & -> & Hq). apply list_elem_of_fmap_2.
    apply list_elem_of_filter. split; [|done]. intros Heq.
    rewrite Heq, (Hdel eq_refl _ _ eq_refl) in Hn. done.
Qed.

(** New properties of a record that keep its reserved names. *)
Lemma put_props_guards id l' r reg :
  wf_registry reg → lookup_id id (live reg) = Some r → acceptable_props l' →
  (∀ n, reserved_name n = true → n ∈ names (rec_props r) → n ∈ names l') →
  guards reg (put_props id l' reg).
Proof.
  intros Hreg Hr Hl' Hnames. unfold guards, put_props. cbn [live].
  rewrite Forall2_fmap_r. apply Forall_Forall2_diag, Forall_forall. intros r0 Hr0.
  unfold compose, put_rec. case_decide as Hid; [|done].
  pose proof (lookup_id_elem_of r0 reg Hreg Hr0) as E. rewrite Hid, Hr in E.
  injection E as ->.
  destruct (with_props_record l' r0 (wf_record_elem_of r0 reg Hreg Hr0) Hl')
    as (_ & ? & ? & Hp). split_and!; [done..|]. by rewrite Hp.
Qed.

(** A request that spares the reserved properties leaves every record
    with its reserved names. *)
Lemma serve_guards rq reg :
  wf_registry reg → spares_reserved rq → guards reg (serve rq reg).2.
Proof.
  intros Hreg [[->|[Hm [x Hp]%prefix_app_iff]] Hdel]; [by rewrite serve_fetch|].
  unfold serve, registry_remote, serve_registry.
  destruct (prop_action rq) as [[id fn]|] eqn:Hrq.
  - unfold on_props. destruct (lookup_id id (live reg)) as [r|] eqn:Hr; [|reflexivity].
    destruct (fn (rec_props r)) as [l'|] eqn:Hl'; [|reflexivity].
    apply (put_props_guards id l' r); [done..| |by eauto using prop_action_reserved].
    apply (prop_action_acceptable _ _ _ _ _ Hrq) in Hl'; [done|].
    apply find_key_Some in Hr as [Hr _]. by eapply wf_record_props, wf_record_elem_of.
  - destruct rq as [m path body]. cbn [req_method req_path] in *. subst path.
    pose proof (endpoint_props ("v2/" +:+ x)) as He.
    change ("/properties/" +:+ "v2/" +:+ x) with ("/properties/v2/" +:+ x) in He.
    destruct m, (endpoint_of ("/properties/v2/" +:+ x)); try done; reflexivity.
Qed.

End requests.

(** ** The requests of a plan *)

Section plans.
Implicit Types (us cs p : value) (pl : plan) (o : op).

Lemma endpoint_delete_op cs p :
  valid_name (rec_id cs) → acceptable p →
  endpoint_of (req_path (op_request (delete_op cs p))) = Property (rec_id cs) (pname p).
Proof.
  intros Hid%valid_name_segment Hp. unfold delete_op. simpl.
  rewrite (acceptable_name p Hp). fold (rec_id cs).
  rewrite endpoint_property; [done..|]. by destruct Hp as [_ ?%valid_name_segment].
Qed.

(** The plan of a record of the registry deletes no reserved property,
    whatever the local schema. *)
Lemma planned_spares us cs pl us' cs' o :
  wf_record cs → reconcile us cs = Ok (pl, us', cs') → o ∈ planned pl cs' →
  spares_reserved (op_request o).
Proof.
  intros Hcs (upd & cur & _ & Hcur & _ & -> & Hdel & _)%reconcile_inv.
  unfold planned. rewrite !elem_of_app, !list_elem_of_fmap.
  intros [(p & -> & Hp)|[(p & -> & Hp)|(p & -> & Hp)]];
    (split; [right; split; [done|apply prefix_app_iff; eauto]|]); try done.
  intros _ id name He.
  pose proof (wf_record_props cs Hcs) as [Hacc _]. unfold rec_props in Hacc.
  unfold field in Hacc. rewrite Hcur in Hacc. rewrite Forall_forall in Hacc.
  apply toDelete_inv in Hdel as (l & [= <-] & _ & Hin). apply Hin in Hp as [Hp Hw].
  apply delete_wanted_true in Hw as (name0 & _ & Hn0 & Hres & _).
  destruct (Hacc p Hp) as [Hnamed Hvalid].
  rewrite (named_get_name p Hnamed) in Hn0. injection Hn0 as <-.
  rewrite endpoint_delete_op in He; [|by rewrite rec_id_delete_prop; destruct Hcs as (_ & _ & ?)|done].
  injection He as _ <-. by apply is_reserved_false.
Qed.

End plans.

(** ** A run behind the failing transport *)

Section runs.
Context (d : disk) (reg : registry) (Hreg : wf_registry reg).
Implicit Types (us cs entry : value) (meta : index) (w : world flaky)
  (mid : registry).

(** What the run maintains of the registry. *)
Lemma serve_spares rq mid :
  spares_reserved rq → wf_registry mid ∧ guards reg mid →
  wf_registry (serve rq mid).2 ∧ guards reg (serve rq mid).2.
Proof.
  intros Hrq [Hmid Hg]. split; [by apply serve_wf|]. etrans; [done|by apply serve_guards].
Qed.

(** [updateSchema] on an entry of the index, whatever the schema. *)
Lemma updateSchema_spares us cs w :
  wf_record cs ∨ spent cs →
  wf_registry (inner (remote w)) ∧ guards reg (inner (remote w)) →
  (wf_registry (inner (remote (updateSchema us cs w).2)) ∧
   guards reg (inner (remote (updateSchema us cs w).2))) ∧
  ∀ out, (updateSchema us cs w).1 = Ok out → spent out.2.
Proof.
  intros Hcs Hw. destruct (reconcile us cs) as [[[pl us'] cs']|e] eqn:Hrec.
  - destruct Hcs as [Hcs|Hcs]; [|destruct (Hcs us); congruence].
    rewrite (updateSchema_script _ _ _ _ _ _ Hrec).
    assert (wf_registry (inner (remote (run_ops (planned pl cs') w).2)) ∧
            guards reg (inner (remote (run_ops (planned pl cs') w).2))) as Hrun.
    { eapply (flaky_invariant (λ mid, wf_registry mid ∧ guards reg mid));
        [|apply run_ops_emits|done].
      intros rq mid (o & -> & Ho)%list_elem_of_fmap. apply serve_spares.
      by eapply planned_spares. }
    destruct (run_ops _ w) as [[[]|e] w']; [|done]. split; [done|].
    intros out [= <-] us2. exists TypeError. by eapply reconcile_consumed.
  - by rewrite (updateSchema_pure_error _ _ _ _ Hrec).
Qed.

Lemma index_ok_set meta key cs :
  index_ok meta → wf_record cs ∨ spent cs → index_ok (assoc_set meta key cs).
Proof.
  unfold index_ok. rewrite !Forall_forall. intros Hmeta Hcs kv [->|Hkv]%elem_of_assoc_set; auto.
Qed.

Lemma index_ok_entry meta key :
  index_ok meta → to_boolean (default VUndefined (assoc meta key)) = true →
  wf_record (default VUndefined (assoc meta key)) ∨
  spent (default VUndefined (assoc meta key)).
Proof.
  intros Hmeta Htr. destruct (assoc meta key) as [cs|] eqn:Hcs; [|done].
  apply assoc_elem_of in Hcs. unfold index_ok in Hmeta. rewrite Forall_forall in Hmeta.
  apply (Hmeta _ Hcs).
Qed.

(** The index a reliable fetch builds from the registry. *)
Lemma index_of_ok mid : wf_registry mid → index_ok (index_of mid).
Proof.
  intros Hmid. apply Forall_forall. intros kv [Hkv _]%keyBy_entry. left.
  by eapply wf_record_elem_of.
Qed.

(** The body of the loop, on any entry of [objectTypes]. *)
Lemma update_one_spares meta entry w :
  index_ok meta →
  wf_registry (inner (remote w)) ∧ guards reg (inner (remote w)) →
  (wf_registry (inner (remote (update_one d meta entry w).2)) ∧
   guards reg (inner (remote (update_one d meta entry w).2))) ∧
  ∀ meta', (update_one d meta entry w).1 = Ok meta' → index_ok meta'.
Proof.
  intros Hmeta Hw. unfold update_one. rewrite lift_bind_run.
  destruct (destructure_pair entry) as [[fp ot]|]; [|done]. rewrite lift_bind_run.
  destruct (readJSON d fp) as [us|]; [|done]. rewrite lift_bind_run, get_prop_obj.
  destruct (to_boolean (default VUndefined (assoc meta (to_string ot)))) eqn:Htr; simpl.
  - rewrite bind_run.
    destruct (updateSchema_spares us _ w (index_ok_entry meta _ Hmeta Htr) Hw) as [Hw' Hdone].
    destruct (updateSchema us _ w) as [[out|e] w']; [|done]. split; [done|].
    intros meta' [= <-]. apply index_ok_set; [done|]. right. by apply Hdone.
  - split; [done|]. by intros meta' [= <-].
Qed.

(** The loop, on any list of entries. *)
Lemma update_all_spares entries meta w :
  index_ok meta →
  wf_registry (inner (remote w)) ∧ guards reg (inner (remote w)) →
  wf_registry (inner (remote (for_fold entries (update_one d) meta w).2)) ∧
  guards reg (inner (remote (for_fold entries (update_one d) meta w).2)).
Proof.
  revert meta w. induction entries as [|entry entries IH]; intros meta w Hmeta Hw; [done|].
  cbn [for_fold]. rewrite bind_run.
  destruct (update_one_spares meta entry w Hmeta Hw) as [Hw' Hmeta'].
  destruct (update_one d meta entry w) as [[meta'|e] w']; [|done]. by apply IH; [apply Hmeta'|].
Qed.

End runs.

(** ** Theorems *)

Section theorems.
Context (d : disk).
Implicit Types (reg : registry) (r q : value) (c : list string) (k : list request)
  (fs : list fault).

(** One run: the registry stays well formed and keeps its reserved
    properties. *)
Lemma updateSchemas_guards g reg fs c k :
  wf_registry reg →
  wf_registry (inner (remote (updateSchemas d g (World (Flaky reg fs) c k)).2)) ∧
  guards reg (inner (remote (updateSchemas d g (World (Flaky reg fs) c k)).2)).
Proof.
  intros Hreg. unfold updateSchemas. rewrite bind_run.
  destruct (decide (default Pass (head fs) = Pass)) as [Hfs|Hfs].
  - rewrite getExistingSchemas_pass, bind_run by done.
    pose proof (update_all_spares d reg (objectTypes d g) (index_of reg)
      (World (Flaky reg (tail fs)) c (k ++ [schemas_request]))
      (index_of_ok reg Hreg) (conj Hreg (reflexivity reg))) as Hloop.
    by destruct (for_fold _ _ _ _) as [[meta|e] w1].
  - rewrite getExistingSchemas_run. cbn [remote].
    by destruct fs as [|[] fs]; try done; rewrite serve_flaky.
Qed.

(** C4. Reserved properties survive [update], whatever the files hold,
    whatever fails in transit and however often the command is run.
    From a well-formed registry, behind a transport that loses any
    request or answer, and for files of any content, any number of runs
    of [updateSchemas], each on the registry the one before left, leave
    a well-formed registry with the same records, by identifier and name
    and in the same order, and every record has a property of every
    reserved name it had ([guards], [guards_property]): no property
    whose name carries [hs_] or [hubspot_] was removed. *)
Theorem reserved_survive g reg fss c k :
  wf_registry reg →
  wf_registry (remote (retries (updateSchemas d g) fss (World reg c k))) ∧
  guards reg (remote (retries (updateSchemas d g) fss (World reg c k))).
Proof.
  intros Hreg. apply (retries_related wf_registry guards); [|done].
  intros. by apply updateSchemas_guards.
Qed.

End theorems.

(** ** A file that lists no property *)

Definition ex_disk_bare : disk :=
  Disk (λ _, ["schemas/deal_x.json"])
       (λ _, Ok (VObj [("name", VStr "deal_x"); ("properties", VArr [])])).

Lemma reserved_survive_witness :
  wf_registry (remote (retries (updateSchemas ex_disk_bare "schemas/*.json")
                         [[Pass; Lost]; []] (World ex_registry [] []))) ∧
  guards ex_registry
    (remote (retries (updateSchemas ex_disk_bare "schemas/*.json")
               [[Pass; Lost]; []] (World ex_registry [] []))).
Proof. apply (reserved_survive ex_disk_bare). compute_done. Defined.

(** With a reliable transport the run deletes every property but the two
    whose names carry [hs_]. *)
Example update_bare :
  names ∘ rec_props <$>
    live (inner (remote (updateSchemas ex_disk_bare "schemas/*.json"
                           (World (Flaky ex_registry []) [] [])).2)) =
  [["hs_object_id"; "maths_score"]].
Proof. done. Qed.
