(* ===== verification/Cost.v ===== *)
(** * How many requests a command issues

    The registry limits the rate of requests, and the program
    ([src/src/cli.ts]) never retries one: the number of requests of a
    command is bounded by what it reads.  This file gives the bound for
    the three commands, whatever the files hold and whatever the service
    answers.

    The bounds are read off the code with [costs], a judgement in the
    style of [Remote.emits] that counts: [costs n Q m] says that [m]
    issues at most [n] requests, after those issued before, and that its
    result satisfies [Q] when it returns.  The postcondition is what lets
    a bound depend on what an earlier step computed: the associations
    that the first loop of [createSchemas] collects are the requests of
    its second loop. *)

From stdpp Require Import prelude strings.
From S2P Require Import Prelude JsValue Lodash Loader Options Reconcile Remote Client Update.
From S2P Require Import Commands.

(** ** What the bounds are made of *)

(** The association targets the file of an entry declares: what the
    first loop of [createSchemas] pushes for it (lines 81-91). *)
Definition declared (d : disk) (entry : value) : nat :=
  match
    pair ← destructure_pair entry;
    schema ← readJSON d pair.1;
    picked ← pick schema "associations" (VArr []);
    as_array picked.1
  with
  | Ok targets => length targets
  | Err _ => 0
  end.

(** The properties [updateSchema] is given for an entry: those of the
    schema of the file and those of the record the index holds for it,
    none when the index has no record and the file is skipped
    (lines 215-221). *)
Definition listed (d : disk) (meta : index) (entry : value) : nat :=
  match
    pair ← destructure_pair entry;
    schema ← readJSON d pair.1;
    current ← get_prop (VObj meta) (to_string pair.2);
    Ok (if to_boolean current then props_count current + props_count schema else 0)
  with
  | Ok n => n
  | Err _ => 0
  end.

(** An index whose records list no more properties than those of the
    index that was fetched, and that has a record only where that index
    has one. *)
Definition within (meta0 meta : index) : Prop :=
  ∀ key, props_count (field (VObj meta) key) ≤ props_count (field (VObj meta0) key) ∧
         (to_boolean (field (VObj meta) key) = true →
          to_boolean (field (VObj meta0) key) = true).

(** The index a command fetched, empty when the fetch failed. *)
Definition fetched `{Remote R} (w : world R) : index :=
  match (getExistingSchemas w).1 with Ok meta => meta | Err _ => [] end.

(** ** Counting requests *)

Section costs.
Context `{Remote R}.

(** [m] issues at most [n] requests and returns a result that satisfies
    [Q]. *)
Definition costs {A} (n : nat) (Q : A → Prop) (m : M R A) : Prop :=
  ∀ w, (∃ new, calls (m w).2 = calls w ++ new ∧ length new ≤ n) ∧
       ∀ a, (m w).1 = Ok a → Q a.

Lemma costs_weaken {A} n n' (Q Q' : A → Prop) (m : M R A) :
  n ≤ n' → (∀ a, Q a → Q' a) → costs n Q m → costs n' Q' m.
Proof.
  intros Hn HQ Hm w. destruct (Hm w) as [(new & Hc & Hl) Ha].
  split; [exists new; split; [done|lia]|auto].
Qed.

Lemma costs_silent {A} (Q : A → Prop) (m : M R A) :
  (∀ w, calls (m w).2 = calls w ∧ ∀ a, (m w).1 = Ok a → Q a) → costs 0 Q m.
Proof.
  intros Hm w. destruct (Hm w) as [Hc Ha]. split; [|done].
  exists []. by rewrite app_nil_r.
Qed.

Lemma costs_ret {A} (Q : A → Prop) (a : A) : Q a → costs 0 Q (mret a).
Proof. intros Ha. apply costs_silent. intros w. split; [done|]. by intros ? [= <-]. Qed.

Lemma costs_lift {A} (Q : A → Prop) (r : result A) :
  (∀ a, r = Ok a → Q a) → costs 0 Q (lift r).
Proof. intros Hr. by apply costs_silent. Qed.

Lemma costs_log line : costs 0 (λ _, True) (log line).
Proof. by apply costs_silent. Qed.

Lemma costs_http rq : costs 1 (λ _, True) (http rq).
Proof.
  intros w. split; [|done]. exists [rq]. unfold http. by destruct (serve _ _).
Qed.

Lemma costs_bind {A B} n1 n2 (P : A → Prop) (Q : B → Prop) (m : M R A) (f : A → M R B) :
  costs n1 P m → (∀ a, P a → costs n2 Q (f a)) → costs (n1 + n2) Q (m ≫= f).
Proof.
  intros Hm Hf w. rewrite bind_run. destruct (Hm w) as [(new & Hc & Hl) Ha].
  destruct (m w) as [[a|e] w1]; simpl in *.
  - destruct (Hf a (Ha a eq_refl) w1) as [(new' & Hc' & Hl') Hb]. split; [|done].
    exists (new ++ new'). rewrite Hc', Hc, <- app_assoc, length_app. split; [done|lia].
  - split; [|done]. exists new. split; [done|lia].
Qed.

Lemma costs_try_catch {A} n1 n2 (Q : A → Prop) (m : M R A) (h : error → M R A) :
  costs n1 Q m → (∀ e, costs n2 Q (h e)) → costs (n1 + n2) Q (try_catch m h).
Proof.
  intros Hm Hh w. unfold try_catch. destruct (Hm w) as [(new & Hc & Hl) Ha].
  destruct (m w) as [[a|e] w1]; simpl in *.
  - split; [|done]. exists new. split; [done|lia].
  - destruct (Hh e w1) as [(new' & Hc' & Hl') Hb]. split; [|done].
    exists (new ++ new'). rewrite Hc', Hc, <- app_assoc, length_app. split; [done|lia].
Qed.

(** A loop costs the sum of its iterations; its invariant may depend on
    the elements seen so far. *)
Lemma costs_for_fold {S A} (n : A → nat) (I : list A → S → Prop)
    (l : list A) (body : S → A → M R S) seen s :
  I seen s →
  (∀ seen s x, I seen s → costs (n x) (I (seen ++ [x])) (body s x)) →
  costs (sum_list (n <$> l)) (I (seen ++ l)) (for_fold l body s).
Proof.
  intros Hs Hbody. revert seen s Hs. induction l as [|x l IH]; intros seen s Hs.
  - rewrite app_nil_r. by apply costs_ret.
  - cbn [for_fold fmap list_fmap sum_list]. eapply costs_bind; [by apply Hbody|].
    intros s' Hs'. rewrite (cons_middle x seen l), app_assoc. by apply IH.
Qed.

Lemma costs_for_of {A} (n : A → nat) (l : list A) (body : A → M R unit) :
  (∀ x, costs (n x) (λ _, True) (body x)) →
  costs (sum_list (n <$> l)) (λ _, True) (for_of l body).
Proof.
  intros Hbody. induction l as [|x l IH]; [by apply costs_ret|].
  cbn [for_of fmap list_fmap sum_list]. eapply costs_bind; [apply Hbody|done].
Qed.

(** A pure step costs nothing, and what follows may use its result. *)
Lemma costs_lift_bind {A B} n (Q : B → Prop) (r : result A) (f : A → M R B) :
  (∀ a, r = Ok a → costs n Q (f a)) → costs n Q (lift r ≫= f).
Proof.
  intros Hf w. rewrite lift_bind_run. destruct r as [a|e]; [by apply Hf|].
  split; [|done]. exists []. simpl. split; [by rewrite app_nil_r|lia].
Qed.

Lemma sum_list_const {A} (l : list A) n : sum_list ((λ _, n) <$> l) = length l * n.
Proof. induction l as [|x l IH]; [done|]. rewrite fmap_cons. simpl. by rewrite IH. Qed.

End costs.

(** ** The client *)

Section client.
Context `{Remote R}.
Implicit Types (s a id : value).

Lemma getExistingSchemas_costs : costs 1 (λ _, True) getExistingSchemas.
Proof.
  unfold getExistingSchemas. eapply (costs_bind 1 0); [apply costs_http|]. intros data _.
  apply costs_lift_bind. intros results _. by apply costs_ret.
Qed.

Lemma createSchema_costs s : costs 1 (λ _, True) (createSchema s).
Proof.
  unfold createSchema. apply (costs_try_catch 1 0).
  - eapply (costs_bind 1 0); [apply costs_http|]. intros data _. by apply costs_lift.
  - intros e. apply costs_lift_bind. intros name _.
    eapply (costs_bind 0 0); [apply costs_log|]. intros _ _. by apply costs_ret.
Qed.

Lemma createAssociation_costs a : costs 1 (λ _, True) (createAssociation a).
Proof.
  unfold createAssociation. apply (costs_try_catch 1 0).
  - apply costs_lift_bind. intros from _.
    eapply (costs_bind 1 0); [apply costs_http|]. intros data _. by apply costs_ret.
  - intros e. apply costs_lift_bind. intros name _.
    eapply (costs_bind 0 0); [apply costs_log|]. intros _ _. by apply costs_ret.
Qed.

(** A request whose rejection is logged and thrown again. *)
Lemma logged_costs rq :
  costs 1 (λ _, True)
    (try_catch (http rq) (λ e, log (error_line e);; throw e) : M R value).
Proof.
  apply (costs_try_catch 1 0); [apply costs_http|]. intros e.
  eapply (costs_bind 0 0); [apply costs_log|]. intros _ _. by apply costs_lift.
Qed.

Lemma deleteSchema_costs id : costs 2 (λ _, True) (deleteSchema id).
Proof.
  unfold deleteSchema. apply (costs_try_catch 2 0).
  - eapply (costs_bind 1 1); [apply logged_costs|]. intros _ _.
    eapply (costs_bind 1 0); [apply logged_costs|]. intros _ _. by apply costs_ret.
  - intros e. eapply (costs_bind 0 0); [apply costs_log|]. intros _ _. by apply costs_ret.
Qed.

End client.

(** ** The bodies of the loops *)

Section bodies.
Context `{Remote R} (d : disk).
Implicit Types (st : index * list value) (meta : index) (entry a : value).

(** The first loop of [createSchemas]: one request, and the associations
    the file declares. *)
Lemma create_one_costs st entry :
  costs 1 (λ st', length st'.2 ≤ length st.2 + declared d entry) (create_one d st entry).
Proof.
  unfold create_one, declared.
  apply costs_lift_bind. intros [fp ot] ->. rewrite bind_Ok. cbn [fst].
  apply costs_lift_bind. intros schema ->. rewrite bind_Ok.
  apply costs_lift_bind. intros [picked schema'] ->. rewrite bind_Ok. cbn [fst].
  apply costs_lift_bind. intros targets ->. cbn zeta.
  eapply (costs_bind 1 0); [apply createSchema_costs|]. intros id _.
  destruct (to_boolean id).
  - eapply (costs_bind 0 0); [apply costs_log|]. intros _ _. apply costs_ret. simpl.
    rewrite length_app, length_fmap. lia.
  - apply costs_ret. simpl. rewrite length_app, length_fmap. lia.
Qed.

Lemma associate_costs meta a : costs 1 (λ _, True) (associate meta a).
Proof.
  unfold associate. do 3 (apply costs_lift_bind; intros ? _).
  eapply (costs_bind 1 0); [apply createAssociation_costs|]. intros _ _. by apply costs_ret.
Qed.

Lemma delete_one_costs meta entry : costs 2 (λ _, True) (delete_one meta entry).
Proof.
  unfold delete_one. apply costs_lift_bind. intros [fp ot] _.
  do 2 (apply costs_lift_bind; intros ? _).
  eapply (costs_bind 2 0); [apply deleteSchema_costs|]. intros [] _;
    [apply costs_log|by apply costs_ret].
Qed.

End bodies.

(** ** [update] *)

Section update.
Context `{Remote R} (d : disk).
Implicit Types (meta : index) (entry us cs : value) (key : string).

(** [updateSchema] issues at most one request for each property of the
    two schemas, and consumes the record it was given. *)
Lemma updateSchema_costs us cs :
  costs (props_count cs + props_count us) (λ out, props_count out.2 = 0)
    (updateSchema us cs).
Proof.
  intros w. split; [apply updateSchema_bound|]. intros [us' cs'] Hout.
  destruct (updateSchema us cs w) as [r w'] eqn:E. simpl in Hout. subst r.
  apply updateSchema_Ok_inv in E as [pl (upd & cur & _ & Hcs & _ & -> & _)%reconcile_inv].
  destruct (get_prop_properties_obj _ _ Hcs) as [ps ->].
  unfold props_count. cbn [snd]. rewrite get_prop_delete_prop. by case_decide.
Qed.

Lemma update_one_costs meta0 meta entry :
  within meta0 meta →
  costs (listed d meta0 entry) (within meta0) (update_one d meta entry).
Proof.
  intros Hmeta. unfold update_one, listed.
  apply costs_lift_bind. intros [fp ot] ->. rewrite bind_Ok. cbn [fst snd].
  apply costs_lift_bind. intros us ->. rewrite bind_Ok, get_prop_obj, bind_Ok.
  apply costs_lift_bind. intros current [= <-].
  destruct (Hmeta (to_string ot)) as [Hkey Htrue]. unfold field in Hkey, Htrue.
  rewrite !get_prop_obj in Hkey, Htrue.
  destruct (to_boolean (default _ (assoc meta _))) eqn:Hb; simpl.
  - rewrite Htrue by done.
    eapply costs_weaken; [| |eapply (costs_bind _ 0); [apply updateSchema_costs|] ].
    + lia.
    + intros meta' Hmeta'. exact Hmeta'.
    + intros out Hout. apply costs_ret. intros key. unfold field.
      rewrite !get_prop_obj, assoc_set_lookup. case_decide as Hk; [|apply Hmeta].
      subst key. simpl. rewrite Hout. split; [lia|by intros _; apply Htrue].
  - eapply (costs_weaken 0); [lia|done|].
    eapply (costs_bind 0 0); [apply costs_log|]. intros _ _. by apply costs_ret.
Qed.

End update.

(** ** The commands *)

Section commands.
Context `{Remote R} (d : disk).
Implicit Types (g : string) (w : world R).

Lemma createSchemas_costs g :
  costs (1 + (length (objectTypes d g) + sum_list (declared d <$> objectTypes d g)))
    (λ _, True) (createSchemas d g).
Proof.
  unfold createSchemas. eapply costs_bind; [apply getExistingSchemas_costs|]. intros meta _.
  eapply costs_bind.
  - eapply costs_weaken; [| |apply (costs_for_fold (λ _, 1)
      (λ seen st, length st.2 ≤ sum_list (declared d <$> seen)) _ _ [] (meta, []))].
    + by rewrite sum_list_const, Nat.mul_1_r.
    + intros st Hst. exact Hst.
    + simpl. lia.
    + intros seen st x Hst. eapply costs_weaken; [done| |apply create_one_costs].
      intros st' Hst'. rewrite fmap_app, sum_list_with_app. simpl in *.
      unfold sum_list in *. lia.
  - intros st Hst. eapply costs_weaken; [|done|apply (costs_for_of (λ _, 1))].
    + by rewrite sum_list_const, Nat.mul_1_r.
    + intros a. apply associate_costs.
Qed.

Lemma deleteSchemas_costs g :
  costs (1 + 2 * length (objectTypes d g)) (λ _, True) (deleteSchemas d g).
Proof.
  unfold deleteSchemas. eapply costs_bind; [apply getExistingSchemas_costs|]. intros meta _.
  eapply costs_weaken; [|done|apply (costs_for_of (λ _, 2))].
  - rewrite sum_list_const. lia.
  - intros entry. apply delete_one_costs.
Qed.

(** The loop of [updateSchemas], from the index that was fetched. *)
Lemma update_all_costs meta g :
  costs (sum_list (listed d meta <$> objectTypes d g)) (λ _, True)
    (for_fold (objectTypes d g) (update_one d) meta;; mret ()).
Proof.
  eapply (costs_weaken (sum_list (listed d meta <$> objectTypes d g) + 0)); [lia|done|].
  eapply costs_bind.
  - apply (costs_for_fold (listed d meta) (λ _, within meta) _ _ [] meta);
      [done|].
    intros _ meta' entry Hmeta'. by apply update_one_costs.
  - intros meta' _. by apply (costs_ret (λ _, True)).
Qed.

(** The bound of a judgement, at a world. *)
Lemma costs_calls {A} n (Q : A → Prop) (m : M R A) w :
  costs n Q m → ∃ new, calls (m w).2 = calls w ++ new ∧ length new ≤ n.
Proof. intros Hm. apply Hm. Qed.

Lemma updateSchemas_costs g w :
  ∃ new, calls (updateSchemas d g w).2 = calls w ++ new ∧
         length new ≤ 1 + sum_list (listed d (fetched w) <$> objectTypes d g).
Proof.
  unfold updateSchemas, fetched. rewrite bind_run.
  destruct (getExistingSchemas_costs w) as [(new & Hc & Hl) _].
  destruct (getExistingSchemas w) as [[meta|e] w1]; simpl in *.
  - destruct (update_all_costs meta g w1) as [(new' & Hc' & Hl') _].
    exists (new ++ new'). rewrite Hc', Hc, <- app_assoc, length_app. split; [done|lia].
  - exists new. split; [done|lia].
Qed.

(** C19. Whatever the files hold and whatever the service answers, a command
    issues its requests after those issued before, and at most: for
    [create], the fetch of the index, one request for each file and one for
    each association the files declare; for [delete], the fetch and two
    requests for each file; for [update], the fetch and one request for each
    property of each file and of the record the fetched index holds for
    it. *)
Theorem commands_bound g w :
  (∃ new, calls (createSchemas d g w).2 = calls w ++ new ∧
     length new ≤ 1 + (length (objectTypes d g) + sum_list (declared d <$> objectTypes d g))) ∧
  (∃ new, calls (deleteSchemas d g w).2 = calls w ++ new ∧
     length new ≤ 1 + 2 * length (objectTypes d g)) ∧
  (∃ new, calls (updateSchemas d g w).2 = calls w ++ new ∧
     length new ≤ 1 + sum_list (listed d (fetched w) <$> objectTypes d g)).
Proof.
  split_and!.
  - eapply costs_calls, createSchemas_costs.
  - eapply costs_calls, deleteSchemas_costs.
  - apply updateSchemas_costs.
Qed.

End commands.

(** ** Worked bounds *)

(** The bound of [create] is met when every schema is accepted: the two
    files of [ex_disk] declare one association, and the run issues four
    requests. *)
Example createSchemas_bound_met :
  1 + (length (objectTypes ex_disk "schemas/*.json") +
       sum_list (declared ex_disk <$> objectTypes ex_disk "schemas/*.json")) = 4 ∧
  length (calls (createSchemas ex_disk "schemas/*.json"
            (ex_world [ex_index []; ex_assigned "2-10"; ex_assigned "2-11"])).2) = 4.
Proof. split; reflexivity. Qed.

(** The bound of [delete] is met when every soft delete is accepted. *)
Example deleteSchemas_bound_met :
  length (calls (deleteSchemas ex_disk "schemas/*.json"
            (ex_world [ex_index [VObj [("name", VStr "company"); ("objectTypeId", VStr "2-1")];
                                 VObj [("name", VStr "deal"); ("objectTypeId", VStr "2-2")]];
                       Ok VNull; Ok VNull; Ok VNull; Ok VNull])).2) =
  1 + 2 * length (objectTypes ex_disk "schemas/*.json").
Proof. reflexivity. Qed.

(** The bound of [update] is met when no property of the record is in
    the file: the one property of the record is deleted and the one of the
    file is created. *)
Definition ex_contact_index : result value :=
  ex_index [VObj [("name", VStr "contact_custom"); ("objectTypeId", VStr "2-5");
                  ("properties", VArr [mk_prop "bar" [("type", VStr "string")]])]].

Example updateSchemas_bound_met :
  length (calls (updateSchemas ex_disk_contact "schemas/*.json"
            (ex_world [ex_contact_index; Ok VNull; Ok VNull])).2) = 3 ∧
  1 + sum_list (listed ex_disk_contact
                  (fetched (ex_world [ex_contact_index; Ok VNull; Ok VNull]))
                  <$> objectTypes ex_disk_contact "schemas/*.json") = 3.
Proof. split; reflexivity. Qed.
