(* ===== verification/Session.v ===== *)
(** * Commands in sequence

    The program ([src/src/cli.ts]) runs one command and ends; the
    registry is what one run leaves to the next.  A [session] is a
    sequence of command lines, each run as a process of its own
    ([EndToEnd.run], lines 225-229) on the registry the one before left,
    with the files unchanged in between.

    This file states how the three commands compose against the
    reference registry:

    - whatever the command lines, a session keeps the registry among
      those that requests build ([session_reachable]);
    - a batch that was created is in step: [update] after [create]
      fetches the index and does nothing else ([create_then_update]);
    - [delete] after [delete] throws at its first file, as the index has
      no record of it any more ([delete_twice]);
    - [update] after [delete] skips every file ([delete_then_update]).

    With [EndToEnd.update_twice], [Lifecycle.create_delete_roundtrip] and
    [Recreate.create_resumes] these are the outcomes of every pair of
    commands on one batch of files. *)

From stdpp Require Import prelude strings.
From S2P Require Import Prelude JsValue Lodash Loader Options Reconcile Remote Client Update.
From S2P Require Import Registry Service Commands Cli EndToEnd Lifecycle Reach.

(** ** Sessions *)

(** The command line of a command on a pattern. *)
Definition line (name fileGlob : string) : list string := [name; fileGlob].

(** The runs of a list of command lines, one process after the other.
    Each starts on the world the one before left, whatever its outcome; a
    command line that names no command runs nothing.  The outcomes are
    listed in the order of the command lines. *)
Fixpoint session (d : disk) (lines : list (list string)) (w : world registry)
    : list (option (result unit)) * world registry :=
  match lines with
  | [] => ([], w)
  | argv :: lines' =>
      match run d argv w with
      | Some out =>
          (Some out.1 :: (session d lines' out.2).1, (session d lines' out.2).2)
      | None => (None :: (session d lines' w).1, (session d lines' w).2)
      end
  end.

(** The command lines of a session, parsed and run. *)
Ltac run_session := unfold session, line, run; simpl.

(** ** A schema against itself *)

Section same.
Implicit Types (l : list value) (p : value).

(** Properties of distinct names whose fields compare equal to their own
    copies need no request against themselves. *)
Lemma spec_plan_same l :
  NoDup (names l) → Forall stable l → spec_plan l l = Plan [] [] [].
Proof.
  intros Hnd Hst. unfold spec_plan. f_equal; apply elem_of_nil_inv; intros p.
  - intros (Hp & _ & Hn)%elem_of_spec_toDelete. by apply Hn, list_elem_of_fmap_2.
  - intros (Hp & Hn)%elem_of_spec_toCreate. by apply Hn, list_elem_of_fmap_2.
  - intros (Hp & q & Hq & Hd)%elem_of_spec_toUpdate.
    rewrite first_named_NoDup in Hq by done. injection Hq as <-.
    rewrite prop_differs_same in Hd; [done| |done]. by eapply Forall_forall in Hst.
Qed.

Lemma comparable_same l :
  NoDup (names l) → Forall stable l → Forall (comparable l) l.
Proof.
  intros Hnd Hst. apply Forall_forall. intros p Hp q Hq.
  rewrite first_named_NoDup in Hq by done. injection Hq as <-.
  eapply Forall_forall in Hst; [|exact Hp].
  eapply Forall_impl; [exact Hst|]. intros k. apply stable_field_comparable.
Qed.

End same.

(** ** The records of a batch that was created *)

Section created.
Context (d : disk).
Implicit Types (reg : registry) (f : string * string) (r : value) (id : string)
  (files : list (string * string)) (n : nat).

Lemma rec_props_with_field (k : string) (v s : value) :
  k ≠ "properties" → rec_props (with_field k v s) = rec_props s.
Proof.
  intros Hk. destruct s; try done. unfold rec_props, with_field.
  by rewrite field_assoc_set, decide_False.
Qed.

(** The record the registry made of the schema of a file has the
    properties of the file. *)
Lemma created_props f id :
  rec_props (with_field "objectTypeId" (VStr id) (schema_of d f)) =
  rec_props (local_schema d f).
Proof.
  rewrite rec_props_with_field by done. unfold schema_of, local_schema, rec_props.
  destruct (read_json _ _); [|done]. by rewrite field_delete_other.
Qed.

(** The file follows the record made of it. *)
Lemma created_follows f id :
  schema_ok (schema_of d f) → stable_file d f →
  follows (local_schema d f) (with_field "objectTypeId" (VStr id) (schema_of d f)).
Proof.
  intros (ps & n & l & Hps & _ & Hl & _ & Hacc)%schema_ok_inv Hst.
  unfold follows. rewrite created_props.
  assert (field (local_schema d f) "properties" = VArr l) as Hl'.
  { revert Hl. unfold schema_of, local_schema.
    destruct (read_json _ _); [|done]. by rewrite field_delete_other. }
  assert (rec_props (local_schema d f) = l) as Hprops by (unfold rec_props; by rewrite Hl').
  rewrite Hprops. unfold stable_file in Hst. rewrite Hprops in Hst. split_and!; [|done|].
  - revert Hps Hl'. unfold schema_of, local_schema.
    destruct (read_json _ _) as [[| | | | | |qs]|]; try done. intros _.
    unfold field. rewrite get_prop_obj. by intros ->.
  - apply comparable_same; [by destruct Hacc|done].
Qed.

Lemma new_records_elem_of n files f :
  f ∈ files →
  ∃ m, with_field "objectTypeId" (VStr (mk_id m)) (schema_of d f) ∈ new_records d n files.
Proof.
  revert n. induction files as [|f' files IH]; intros n; [by intros ?%elem_of_nil|].
  intros [->|Hf]%elem_of_cons; [exists n; by left|].
  destruct (IH (S n) Hf) as [m Hm]. exists m. by right.
Qed.

End created.

(** ** The commands, in pairs *)

Section pairs.
Context (d : disk).
Implicit Types (reg : registry) (f : string * string) (r : value) (g : string)
  (files : list (string * string)) (c : list string) (k : list request).

(** After the creation of a batch of files named after their schemas,
    every file is ready for an update, and its plan is empty. *)
Lemma created_ready files reg :
  wf_registry reg → creatable d reg files → Forall (λ f, dotless f.2) files →
  Forall (λ f, new_name d f = f.2) files → Forall (stable_file d) files →
  let reg' := (added d (index_of reg, reg) files).2 in
  wf_registry reg' ∧ batch_ready d (index_of reg') reg' files ∧
  Forall (λ f, file_plan d (entry (index_of reg') f) f = Plan [] [] []) files.
Proof.
  intros Hreg Hfiles Hdot Hnames Hst reg'.
  destruct (added_spec d files (index_of reg) reg) as (Hwf & _);
    [done|done|done|by apply index_resolves|].
  fold reg' in Hwf. destruct Hfiles as (Hok & Hnd & _).
  assert (∀ f, f ∈ files →
            ready d (entry (index_of reg') f) reg' f ∧
            file_plan d (entry (index_of reg') f) f = Plan [] [] []) as Hall.
  { intros f Hf. rewrite Forall_forall in Hok, Hnames, Hst.
    destruct (Hok f Hf) as [Hload Hs].
    destruct (new_records_elem_of d (issued reg) files f Hf) as [m Hm].
    set (r := with_field "objectTypeId" (VStr (mk_id m)) (schema_of d f)) in *.
    assert (r ∈ live reg') as Hr.
    { unfold reg'. rewrite added_registry. apply elem_of_app. by right. }
    assert (rec_name r = f.2) as Hn.
    { destruct (with_id_record (mk_id m) _ Hs (mk_id_valid m)) as (_ & _ & Hn).
      fold r in Hn. rewrite Hn. by apply Hnames. }
    pose proof (created_follows d f (mk_id m) Hs (Hst f Hf)) as Hus.
    rewrite (entry_index reg' r f) by done. split.
    - unfold ready. split_and!; try done.
      unfold loadable_file in Hload. by destruct (read_json _ _); [eexists|].
    - unfold file_plan, r. rewrite created_props.
      destruct Hus as (_ & [_ Hprops] & _). apply spec_plan_same; [done|by apply Hst]. }
  split; [done|]. split; [split|]; [|apply Forall_forall; intros; by apply Hall..].
  by rewrite <- (Forall_fmap_ext_1 _ _ _ Hnames).
Qed.

(** C21. A batch that was created is in step with its files.  When the
    files hold schemas the registry accepts, each under the name of its
    file, new to the registry and different from the others, with
    association targets that are files of the batch or records, and
    properties whose fields are primitives or well-formed option lists,
    [create] followed by [update] returns, and the update fetches the
    index and does nothing else: no other request, no line on the
    console, the registry as the creation left it. *)
Theorem create_then_update g files reg c k :
  wf_registry reg → objectTypes d g = resolved <$> files → creatable d reg files →
  Forall (λ f, Forall (known (targets reg files)) (targets_of d f)) files →
  Forall (λ f, new_name d f = f.2) files → Forall (stable_file d) files →
  ∃ w1,
    session d [line "create" g] (World reg c k) = ([Some (Ok ())], w1) ∧
    session d [line "create" g; line "update" g] (World reg c k) =
      ([Some (Ok ()); Some (Ok ())],
       World (remote w1) (console w1) (calls w1 ++ [schemas_request])).
Proof.
  intros Hreg Hg Hfiles Htargets Hnames Hst.
  destruct (created_ready files reg) as (Hwf & Hready & Hplans);
    [done|done|by eapply objectTypes_dotless|done..|].
  eexists. run_session.
  rewrite (createSchemas_registry d g files) by done. simpl. split; [done|].
  rewrite (updateSchemas_registry d g files) by done.
  destruct (batch_noop d _ _ _ Hwf Hready Hplans) as [-> ->]. simpl.
  by rewrite app_nil_r.
Qed.

(** The index has no entry for a name that no live record has. *)
Lemma index_missing reg (n : string) :
  n ∉ rnames (live reg) → assoc (index_of reg) n = None.
Proof.
  intros Hn. apply keyBy_None. intros r Hr Hk. apply Hn. rewrite <- Hk.
  by apply (list_elem_of_fmap_2 rec_name).
Qed.

(** The names of the files are gone once the batch was deleted. *)
Lemma dropped_names files reg f :
  wf_registry reg → deletable (index_of reg) reg files → f ∈ files →
  assoc (index_of (dropped (index_of reg) reg files)) f.2 = None.
Proof.
  intros Hreg Hfiles Hf. apply index_missing.
  intros (r & Hn & [_ Hr]%live_dropped)%list_elem_of_fmap; [|done..].
  apply Hr. rewrite <- Hn. by apply list_elem_of_fmap_2.
Qed.

(** [delete] cannot be repeated.  When the files name different object
    types that the registry holds, a first [delete] returns, and a second
    one on the same files fetches the index and throws a [TypeError] at
    its first file: the index has no record of it any more.  Nothing is
    requested after the fetch, and the registry stays as the first run
    left it. *)
Theorem delete_twice g f files reg c k :
  wf_registry reg → objectTypes d g = resolved <$> f :: files →
  NoDup (f :: files).*2 → Forall (λ f', f'.2 ∈ rnames (live reg)) (f :: files) →
  ∃ w1,
    session d [line "delete" g] (World reg c k) = ([Some (Ok ())], w1) ∧
    session d [line "delete" g; line "delete" g] (World reg c k) =
      ([Some (Ok ()); Some (Err TypeError)],
       World (remote w1) (console w1) (calls w1 ++ [schemas_request])).
Proof.
  intros Hreg Hg Hnd Hfiles.
  pose proof (deletable_index reg _ Hreg Hnd Hfiles) as Hdel.
  eexists. run_session.
  rewrite (deleteSchemas_registry d g (f :: files)) by done.
  pose proof (dropped_names (f :: files) reg f Hreg Hdel) as Hgone.
  set (reg1 := dropped _ _ _) in *. simpl. split; [done|].
  unfold deleteSchemas. rewrite bind_run, getExistingSchemas_registry, Hg.
  cbn beta iota. rewrite fmap_cons. cbn [for_of]. rewrite bind_run.
  fold (index_of reg1). rewrite delete_one_missing; [done|]. apply Hgone. by left.
Qed.

(** [update] after [delete] skips every file: it fetches the index,
    reports for each file that its object type does not exist, and
    requests nothing else. *)
Theorem delete_then_update g files reg c k :
  wf_registry reg → objectTypes d g = resolved <$> files →
  NoDup files.*2 → Forall (λ f, f.2 ∈ rnames (live reg)) files →
  Forall (λ f, is_Ok (read_json d (path_of f.1 f.2))) files →
  ∃ w1,
    session d [line "delete" g] (World reg c k) = ([Some (Ok ())], w1) ∧
    session d [line "delete" g; line "update" g] (World reg c k) =
      ([Some (Ok ()); Some (Ok ())],
       World (remote w1) (console w1 ++ (skip_line <$> files))
         (calls w1 ++ [schemas_request])).
Proof.
  intros Hreg Hg Hnd Hfiles Hread.
  pose proof (deletable_index reg _ Hreg Hnd Hfiles) as Hdel.
  eexists. run_session.
  rewrite (deleteSchemas_registry d g files) by done.
  pose proof (λ f, dropped_names files reg f Hreg Hdel) as Hgone.
  set (reg1 := dropped _ _ _) in *. simpl. split; [done|].
  unfold updateSchemas. rewrite bind_run, getExistingSchemas_registry, Hg.
  cbn beta iota. rewrite bind_run, for_fold_skip; [done|].
  apply Forall_forall. intros f Hf. split; [by eapply Forall_forall in Hread|].
  unfold field. rewrite get_prop_obj. fold (index_of reg1). by rewrite Hgone.
Qed.

End pairs.

(** ** Any session *)

Section sessions.
Context (d : disk).
Implicit Types (lines : list (list string)) (w : world registry).

Lemma session_app lines1 lines2 w :
  session d (lines1 ++ lines2) w =
  ((session d lines1 w).1 ++ (session d lines2 (session d lines1 w).2).1,
   (session d lines2 (session d lines1 w).2).2).
Proof.
  revert w. induction lines1 as [|argv lines1 IH]; intros w; [by destruct (session _ _ _)|].
  simpl. destruct (run d argv w) as [out|]; simpl; by rewrite IH.
Qed.

(** One outcome for each command line. *)
Lemma session_length lines w : length (session d lines w).1 = length lines.
Proof.
  revert w. induction lines as [|argv lines IH]; intros w; [done|].
  simpl. destruct (run d argv w); simpl; by rewrite IH.
Qed.

(** Whatever the command lines and whatever the files hold, a session
    takes a registry built from the empty one by requests to a registry
    built by requests: it is well formed, and an identifier it gave once
    is not given again, in a later run either. *)
Theorem session_reachable lines w :
  reachable (remote w) →
  reachable (remote (session d lines w).2) ∧
  wf_registry (remote (session d lines w).2) ∧ unique_ids (remote (session d lines w).2).
Proof.
  intros Hw. assert (reachable (remote (session d lines w).2)) as Hout;
    [|by split; [|apply reachable_invariant]].
  revert w Hw. induction lines as [|argv lines IH]; intros w Hw; [done|].
  simpl. destruct (run d argv w) as [out|] eqn:Hrun; simpl; [|by apply IH].
  apply IH. by destruct (run_reachable d argv w out Hrun Hw).
Qed.

End sessions.

(** ** A worked session *)

Lemma create_then_update_witness :
  ∃ w1,
    session ex_cyclic_disk [line "create" "schemas/*.json"]
      (World (Registry [ex_ticket] [] 8) [] []) = ([Some (Ok ())], w1) ∧
    session ex_cyclic_disk [line "create" "schemas/*.json"; line "update" "schemas/*.json"]
      (World (Registry [ex_ticket] [] 8) [] []) =
      ([Some (Ok ()); Some (Ok ())],
       World (remote w1) (console w1) (calls w1 ++ [schemas_request])).
Proof.
  apply (create_then_update ex_cyclic_disk "schemas/*.json"
           [("schemas", "company_x"); ("schemas", "deal_x")] (Registry [ex_ticket] [] 8));
    [compute_done | reflexivity | compute_done..].
Defined.

Lemma delete_twice_example :
  ∃ w1,
    session ex_disk_deal [line "delete" "schemas/*.json"] (World ex_registry [] []) =
      ([Some (Ok ())], w1) ∧
    session ex_disk_deal [line "delete" "schemas/*.json"; line "delete" "schemas/*.json"]
      (World ex_registry [] []) =
      ([Some (Ok ()); Some (Err TypeError)],
       World (remote w1) (console w1) (calls w1 ++ [schemas_request])).
Proof.
  apply (delete_twice ex_disk_deal "schemas/*.json" ("schemas", "deal_x") []);
    [compute_done | reflexivity | compute_done..].
Defined.

(** The batch of [ex_cyclic_disk] through a session: created, found in
    step, deleted, and then unknown to [delete] and to [update]; the
    last command line names no command.  The registry ends as it began,
    with two identifiers used up. *)
Example session_example :
  let s := session ex_cyclic_disk
             [ line "create" "schemas/*.json"; line "update" "schemas/*.json";
               line "delete" "schemas/*.json"; line "delete" "schemas/*.json";
               line "update" "schemas/*.json"; ["purge"] ]
             (World (Registry [ex_ticket] [] 8) [] []) in
  s.1 = [Some (Ok ()); Some (Ok ()); Some (Ok ()); Some (Err TypeError); Some (Ok ()); None] ∧
  remote s.2 = Registry [ex_ticket] [] 10 ∧
  console s.2 =
    [ "Created company_x"; "Created deal_x"; "Deleted company_x"; "Deleted deal_x";
      "Object Type company_x does not exist to be updated.";
      "Object Type deal_x does not exist to be updated." ] ∧
  length (calls s.2) = 15.
Proof. by vm_compute. Qed.
