(* ===== verification/Order.v ===== *)
(** * The order of the files

    The loops of the commands ([src/src/cli.ts], lines 81, 124 and 215)
    take the files in the order in which [glob.sync] lists them, which
    the program does not choose.  This file shows that the order is
    immaterial to [update] and to [delete] against the reference
    registry: two runs on the same files, listed in two orders, leave
    the same registry, and issue the same requests and print the same
    lines up to their order ([update_any_order], [delete_any_order]).

    The argument is that the index is fetched once, before the loop, so
    that the change a file makes does not depend on the files before it,
    and that the changes of two files of different object types commute
    ([file_update_comm]).  [create] is different: the registry gives its
    identifiers in the order of the requests ([create_order_matters]);
    the records the two orders leave are the same but for their
    identifiers ([create_any_order]). *)

From stdpp Require Import prelude strings.
From S2P Require Import Prelude JsValue Lodash Loader Options Reconcile Remote Client Update.
From S2P Require Import Registry Service Commands EndToEnd Lifecycle.

(** ** Folds over a permutation *)

(** A left fold over two lists with the same elements gives the same
    result when the steps of different elements commute. *)
Lemma foldl_permutation {A B} `{EqDecision A} (f : B → A → B) (l1 l2 : list A) :
  l1 ≡ₚ l2 →
  (∀ a1 a2 b, a1 ∈ l1 → a2 ∈ l1 → a1 ≠ a2 → f (f b a1) a2 = f (f b a2) a1) →
  ∀ b, foldl f b l1 = foldl f b l2.
Proof.
  induction 1 as [|x l1 l2 _ IH|x y l|l1 l2 l3 Hl IH _ IH']; intros Hf b.
  - done.
  - simpl. apply IH. intros a1 a2 b' H1 H2. apply Hf; by right.
  - simpl. destruct (decide (x = y)) as [->|Hxy]; [done|].
    f_equal. apply Hf; [by left|by right; left|congruence].
  - rewrite IH by done. apply IH'. intros a1 a2 b' H1 H2. apply Hf; by rewrite Hl.
Qed.

(** ** Changes that commute *)

Section commute.
Context (d : disk).
Implicit Types (meta : index) (reg : registry) (f : string * string) (r : value)
  (id : string) (l : list value) (files : list (string * string)).

Lemma put_props_comm id1 id2 l1 l2 reg :
  id1 ≠ id2 →
  put_props id2 l2 (put_props id1 l1 reg) = put_props id1 l1 (put_props id2 l2 reg).
Proof.
  intros Hid. unfold put_props. simpl. f_equal. rewrite <- !list_fmap_compose.
  apply list_fmap_ext. intros _ r _. simpl. unfold put_rec.
  repeat (case_decide; rewrite ?rec_id_with_props in *); congruence.
Qed.

(** The files of a batch have different records in the index. *)
Lemma ready_ids meta reg f1 f2 :
  wf_registry reg → ready d (entry meta f1) reg f1 → ready d (entry meta f2) reg f2 →
  f1.2 ≠ f2.2 → rec_id (entry meta f1) ≠ rec_id (entry meta f2).
Proof.
  intros Hreg (_ & Hr1 & Hn1 & _) (_ & Hr2 & Hn2 & _) Hne Hid.
  apply (same_record reg _ _ Hreg Hr1 Hr2) in Hid. congruence.
Qed.

Lemma batch_ready_distinct meta reg files f1 f2 :
  batch_ready d meta reg files → f1 ∈ files → f2 ∈ files → f1 ≠ f2 → f1.2 ≠ f2.2.
Proof.
  intros [Hnd _] H1 H2 Hne Heq. apply Hne.
  pose proof (find_key_NoDup snd files f1 Hnd H1) as E1.
  pose proof (find_key_NoDup snd files f2 Hnd H2) as E2.
  rewrite Heq in E1. congruence.
Qed.

(** The changes of two files of a batch commute. *)
Lemma file_update_comm meta reg0 reg files f1 f2 :
  wf_registry reg0 → batch_ready d meta reg0 files → f1 ∈ files → f2 ∈ files → f1 ≠ f2 →
  file_update d (entry meta f2) (file_update d (entry meta f1) reg f1) f2 =
  file_update d (entry meta f1) (file_update d (entry meta f2) reg f2) f1.
Proof.
  intros Hreg Hfiles H1 H2 Hne. apply put_props_comm.
  pose proof (batch_ready_distinct meta reg0 files f1 f2 Hfiles H1 H2 Hne) as Hn.
  destruct Hfiles as [_ Hall]. rewrite Forall_forall in Hall.
  apply (ready_ids meta reg0); auto.
Qed.

Lemma batch_update_permutation meta reg files files' :
  wf_registry reg → batch_ready d meta reg files → files ≡ₚ files' →
  batch_update d meta reg files = batch_update d meta reg files'.
Proof.
  intros Hreg Hfiles Hp. unfold batch_update. apply foldl_permutation; [done|].
  intros f1 f2 reg' H1 H2 Hne. by apply (file_update_comm meta reg reg' files).
Qed.

Lemma batch_ops_permutation meta files files' :
  files ≡ₚ files' → batch_ops d meta files ≡ₚ batch_ops d meta files'.
Proof. intros Hp. unfold batch_ops. by rewrite Hp. Qed.

Lemma batch_ready_permutation meta reg files files' :
  files ≡ₚ files' → batch_ready d meta reg files → batch_ready d meta reg files'.
Proof. intros Hp [Hnd Hall]. split; by rewrite <- Hp. Qed.

End commute.

(** ** Deletions commute *)

Section deletions.
Implicit Types (meta : index) (reg : registry) (files : list (string * string)).

Lemma dropped_permutation meta reg files files' :
  files ≡ₚ files' → dropped meta reg files = dropped meta reg files'.
Proof.
  intros Hp. rewrite !dropped_registry.
  assert (∀ r, rec_id r ∉ file_ids meta files ↔ rec_id r ∉ file_ids meta files') as Hids.
  { intros r. unfold file_ids. by rewrite Hp. }
  f_equal; by apply list_filter_iff.
Qed.

Lemma batch_deletes_permutation meta files files' :
  files ≡ₚ files' → batch_deletes meta files ≡ₚ batch_deletes meta files'.
Proof. intros Hp. unfold batch_deletes. by rewrite Hp. Qed.

End deletions.

(** ** Creations, up to the identifiers *)

(** A record without the identifier the registry gave it. *)
Definition unnamed (r : value) : value := delete_prop r "objectTypeId".

Section creations.
Context (d : disk).
Implicit Types (reg : registry) (files : list (string * string)) (n : nat).

Lemma filter_assoc_set (ps : list (string * value)) (k : string) (v : value) :
  filter (λ kv, kv.1 ≠ k) (assoc_set ps k v) = filter (λ kv, kv.1 ≠ k) ps.
Proof.
  induction ps as [|[k' v'] ps IH]; cbn [assoc_set].
  - by rewrite filter_cons_False by (intros Hk; by apply Hk).
  - case_decide as Hk.
    + subst k'. by rewrite !(filter_cons_False _ (k, _)) by (intros Hk; by apply Hk).
    + rewrite !(filter_cons_True _ (k', v')) by (simpl; congruence). by rewrite IH.
Qed.

Lemma unnamed_with_id (id : string) (s : value) :
  unnamed (with_field "objectTypeId" (VStr id) s) = unnamed s.
Proof.
  destruct s as [| | | | | |ps]; try done. unfold unnamed, with_field.
  cbn [delete_prop]. by rewrite filter_assoc_set.
Qed.

Lemma unnamed_new_records n files :
  unnamed <$> new_records d n files = unnamed ∘ schema_of d <$> files.
Proof.
  revert n. induction files as [|f files IH]; intros n; [done|].
  cbn [new_records]. by rewrite !fmap_cons, IH, unnamed_with_id.
Qed.

Lemma creatable_permutation reg files files' :
  files ≡ₚ files' → creatable d reg files → creatable d reg files'.
Proof. intros Hp (Hok & Hnd & Hnew). split_and!; by rewrite <- Hp. Qed.

Lemma known_permutation reg files files' :
  files ≡ₚ files' →
  Forall (λ f, Forall (known (targets reg files)) (targets_of d f)) files →
  Forall (λ f, Forall (known (targets reg files')) (targets_of d f)) files'.
Proof.
  intros Hp Hall. rewrite <- Hp. eapply Forall_impl; [exact Hall|]. intros f Hf.
  eapply Forall_impl; [exact Hf|]. intros [] Ht; try done. revert Ht.
  unfold known, targets. by rewrite Hp.
Qed.

End creations.

(** ** Theorems *)

Section theorems.
Context (d : disk).
Implicit Types (reg : registry) (f : string * string) (g : string)
  (files : list (string * string)) (c : list string) (k : list request).

(** C22. The order of the files is immaterial to [update].  Let two
    patterns list the same files in two orders, the files naming
    different object types, each with a record in the registry that its
    schema can follow.  The two runs of [update] return and leave the
    same registry; they issue the same requests and print the same lines,
    up to their order. *)
Theorem update_any_order g g' files files' reg c k :
  wf_registry reg →
  objectTypes d g = resolved <$> files → objectTypes d g' = resolved <$> files' →
  files ≡ₚ files' → batch_ready d (index_of reg) reg files →
  ∃ w w',
    updateSchemas d g (World reg c k) = (Ok (), w) ∧
    updateSchemas d g' (World reg c k) = (Ok (), w') ∧
    remote w = remote w' ∧ console w ≡ₚ console w' ∧ calls w ≡ₚ calls w'.
Proof.
  intros Hreg Hg Hg' Hp Hfiles.
  pose proof (batch_ready_permutation d _ _ _ _ Hp Hfiles) as Hfiles'.
  pose proof (batch_ops_permutation d (index_of reg) _ _ Hp) as Hops.
  eexists _, _. split; [by apply updateSchemas_registry|].
  split; [by apply updateSchemas_registry|]. simpl.
  split; [by apply batch_update_permutation|]. by rewrite Hops.
Qed.

(** The order of the files is immaterial to [delete] as well: when the
    files name different object types that the registry holds, the two
    runs return and leave the same registry, with the same requests and
    the same lines up to their order. *)
Theorem delete_any_order g g' files files' reg c k :
  wf_registry reg →
  objectTypes d g = resolved <$> files → objectTypes d g' = resolved <$> files' →
  files ≡ₚ files' → NoDup files.*2 → Forall (λ f, f.2 ∈ rnames (live reg)) files →
  ∃ w w',
    deleteSchemas d g (World reg c k) = (Ok (), w) ∧
    deleteSchemas d g' (World reg c k) = (Ok (), w') ∧
    remote w = remote w' ∧ console w ≡ₚ console w' ∧ calls w ≡ₚ calls w'.
Proof.
  intros Hreg Hg Hg' Hp Hnd Hfiles.
  pose proof (deletable_index reg files Hreg Hnd Hfiles) as Hdel.
  assert (deletable (index_of reg) reg files') as Hdel'.
  { apply deletable_index; [done|by rewrite <- Hp..]. }
  pose proof (batch_deletes_permutation (index_of reg) _ _ Hp) as Hrqs.
  eexists _, _. split; [by apply deleteSchemas_registry|].
  split; [by apply deleteSchemas_registry|]. simpl.
  split; [by apply dropped_permutation|]. split; [by rewrite Hp|by rewrite Hrqs].
Qed.

(** The order of the files decides the identifiers that [create] has
    the registry give, and nothing else: when the files can be created,
    the two runs return, and leave the same records but for their
    identifiers, up to their order, and print the same lines up to their
    order. *)
Theorem create_any_order g g' files files' reg c k :
  wf_registry reg →
  objectTypes d g = resolved <$> files → objectTypes d g' = resolved <$> files' →
  files ≡ₚ files' → creatable d reg files →
  Forall (λ f, Forall (known (targets reg files)) (targets_of d f)) files →
  ∃ w w',
    createSchemas d g (World reg c k) = (Ok (), w) ∧
    createSchemas d g' (World reg c k) = (Ok (), w') ∧
    unnamed <$> live (remote w) ≡ₚ unnamed <$> live (remote w') ∧
    console w ≡ₚ console w'.
Proof.
  intros Hreg Hg Hg' Hp Hfiles Htargets.
  pose proof (creatable_permutation d reg _ _ Hp Hfiles) as Hfiles'.
  pose proof (known_permutation d reg _ _ Hp Htargets) as Htargets'.
  eexists _, _. split; [by apply createSchemas_registry|].
  split; [by apply createSchemas_registry|]. cbn [remote console].
  rewrite !added_registry. cbn [live]. rewrite !fmap_app, !unnamed_new_records.
  split; by rewrite Hp.
Qed.

End theorems.

(** ** Two orders, worked *)

(** The files of [ex_cyclic_disk], listed in one order by the first
    pattern and in the other by every other pattern. *)
Definition ex_disk_orders : disk :=
  Disk (λ g, if decide (g = "schemas/*.json")
             then ["schemas/company_x.json"; "schemas/deal_x.json"]
             else ["schemas/deal_x.json"; "schemas/company_x.json"])
       (read_json ex_cyclic_disk).

Definition ex_company_record : value :=
  VObj [("name", VStr "company_x"); ("objectTypeId", VStr "2-5");
        ("properties", VArr [mk_prop "legacy_field" [("type", VStr "string")]])].

Definition ex_orders_registry : registry := Registry [ex_remote; ex_company_record] [] 124.

Lemma update_any_order_witness :
  ∃ w w',
    updateSchemas ex_disk_orders "schemas/*.json" (World ex_orders_registry [] []) =
      (Ok (), w) ∧
    updateSchemas ex_disk_orders "schemas/*/*.json" (World ex_orders_registry [] []) =
      (Ok (), w') ∧
    remote w = remote w' ∧ console w ≡ₚ console w' ∧ calls w ≡ₚ calls w'.
Proof.
  apply (update_any_order ex_disk_orders _ _
           [("schemas", "company_x"); ("schemas", "deal_x")]
           [("schemas", "deal_x"); ("schemas", "company_x")]);
    [compute_done | reflexivity | reflexivity | apply perm_swap | compute_done].
Defined.

(** The two runs of the update, side by side: the lines come in the
    order of the files. *)
Example update_two_orders :
  console (updateSchemas ex_disk_orders "schemas/*.json"
             (World ex_orders_registry [] [])).2 =
    [ "Deleting property legacy_field on company_x";
      "Deleting property legacy_field on deal_x";
      "Creating property fresh on deal_x";
      "Updating property amount on deal_x" ] ∧
  console (updateSchemas ex_disk_orders "schemas/*/*.json"
             (World ex_orders_registry [] [])).2 =
    [ "Deleting property legacy_field on deal_x";
      "Creating property fresh on deal_x";
      "Updating property amount on deal_x";
      "Deleting property legacy_field on company_x" ].
Proof. by vm_compute. Qed.

(** The order matters to [create]: the registry gives its identifiers in
    the order in which the schemas arrive, so that the two orders leave
    the same schemas under different identifiers. *)
Example create_order_matters :
  let ids_of g :=
    (λ r, (rec_name r, rec_id r)) <$>
      live (remote (createSchemas ex_disk_orders g
                      (World (Registry [ex_ticket] [] 8) [] [])).2) in
  ids_of "schemas/*.json" =
    [("ticket_x", "2-7"); ("company_x", "2-8"); ("deal_x", "2-9")] ∧
  ids_of "schemas/*/*.json" =
    [("ticket_x", "2-7"); ("deal_x", "2-8"); ("company_x", "2-9")].
Proof. by vm_compute. Qed.
