(* ===== verification/Others.v ===== *)
(** * Other clients

    The registry is shared: the specification notes that the index a
    command fetches is the registry at that instant, and that nothing
    keeps it fresh while the command runs.  Here the registry of
    [Service] is shared with other clients, whose requests arrive between
    those of the command ([busy]).  This is a third instance of the
    interface [Remote], and the commands of [src/src/cli.ts] run on it
    unchanged.

    With nobody else the shared registry is the registry
    ([nobody_else]).  What every request preserves is preserved whatever
    the other clients send ([busy_invariant], [others_keep_registry]).  [update] and
    [delete] are isolated from what the others do to other object types:
    when no request of the others addresses an object type that a file
    names ([elsewhere], [watched]), the run returns, requests and prints
    what it does alone, whatever the files hold and whether the registry
    accepts its requests or not, and the records of these object types
    end as it leaves them alone ([update_isolated], [delete_isolated]),
    so that the commands achieve what they achieve alone
    ([update_among_others], [delete_among_others]).
    The argument is a simulation of the run alone by the run on the shared
    registry, in the logic of [Sim]: the relation is [agree], and the
    requests of the two commands are answered alike.  [create] is not
    isolated: the identifiers it is given depend on what the others
    created ([create_not_isolated]).  A request of another client on an
    object type of the files is what the index cannot show: [update] then
    works from a stale index, and either throws ([update_stale]) or
    returns with the registry out of step with the files
    ([update_stale_silent]). *)

From Stdlib Require Import Ascii.
From stdpp Require Import prelude strings.
From S2P Require Import Prelude JsValue Lodash Loader Reconcile Remote Client Update.
From S2P Require Import Registry Service Commands Cli EndToEnd Lifecycle Sim.

(** ** The shared registry *)

(** The registry and the requests of the other clients to come: those
    that arrive after the next request of the command, those that arrive
    after the one that follows, and so on. *)
Record busy : Type := Busy {
  behind : registry;
  others : list (list request) }.

#[export] Instance busy_remote : Remote busy := λ rq b,
  let out := serve rq (behind b) in
  (out.1, Busy (serve_all (default [] (head (others b))) out.2) (tail (others b))).

(** The object type a request addresses: the one whose properties it
    changes, or that it removes or purges. *)
Definition target (rq : request) : option string :=
  match prop_action rq with
  | Some (id, _) => Some id
  | None =>
      match req_method rq, endpoint_of (req_path rq) with
      | DELETE, Schema id | DELETE, Purge id => Some id
      | _, _ => None
      end
  end.

(** A request that addresses no object type of [ids]. *)
Definition elsewhere (ids : list string) (rq : request) : Prop :=
  ∀ id, target rq = Some id → id ∉ ids.

#[export] Instance elsewhere_dec ids rq : Decision (elsewhere ids rq).
Proof.
  unfold elsewhere. destruct (target rq) as [id|].
  - destruct (decide (id ∈ ids)) as [Hid|Hid]; [right|left].
    + intros Hrq. by apply (Hrq id).
    + by intros ? [= <-].
  - left. by intros.
Defined.

(** The object types the entries of a pattern name: the identifiers of
    the live records filed under the keys of the entries. *)
Definition watched (reg : registry) (entries : list value) : list string :=
  rec_id <$> filter (λ r, rec_name r ∈ omap entry_key entries) (live reg).

(** Two registries hold the same for the object type [id]: the same live
    record or none, and a record that awaits its purge in both or in
    neither. *)
Definition same_at (id : string) (reg1 reg : registry) : Prop :=
  lookup_id id (live reg1) = lookup_id id (live reg) ∧
  (id ∈ ids (trash reg1) ↔ id ∈ ids (trash reg)).

(** An identifier the registry has issued. *)
Definition issued_by (reg : registry) (id : string) : Prop :=
  id ∈ mk_id <$> seq 0 (issued reg).

(** The shared registry and the registry alone hold the same for the
    object types of [ids], which the other clients keep off. *)
Definition agree (ids : list string) (b : busy) (reg : registry) : Prop :=
  wf_registry (behind b) ∧ wf_registry reg ∧
  Forall (Forall (elsewhere ids)) (others b) ∧
  Forall (issued_by (behind b)) ids ∧
  Forall (λ id, same_at id (behind b) reg) ids.

(** The shared registry when there is nobody else. *)
Definition unshared (b : busy) (reg : registry) : Prop := b = Busy reg [].

(** A request that every registry rejects and ignores. *)
Definition unrouted (rq : request) : Prop :=
  ∀ reg : registry, serve rq reg = (Err HttpError, reg).

(** ** What the others cannot break *)

Section invariant.
Implicit Types (b : busy) (reg : registry) (rq : request) (rqs : list request).

Lemma serve_busy_run rq b :
  serve rq b = ((serve rq (behind b)).1,
                Busy (serve_all (default [] (head (others b))) (serve rq (behind b)).2)
                  (tail (others b))).
Proof. done. Qed.

Lemma serve_all_cons rq rqs reg : serve_all (rq :: rqs) reg = serve_all rqs (serve rq reg).2.
Proof. done. Qed.

Lemma serve_all_invariant (J : registry → Prop) Q rqs reg :
  (∀ rq reg, Q rq → J reg → J (serve rq reg).2) →
  Forall Q rqs → J reg → J (serve_all rqs reg).
Proof.
  intros Hserve Hrqs. revert reg. induction Hrqs as [|rq rqs Hrq _ IH]; intros reg Hreg;
    [done|]. apply IH. by apply Hserve.
Qed.

Lemma others_turn {A} (P : A → Prop) (os : list (list A)) :
  Forall (Forall P) os → Forall P (default [] (head os)) ∧ Forall (Forall P) (tail os).
Proof. by intros [|rqs rest Hrqs Hrest]. Qed.

(** What the requests of a program and those of the other clients
    preserve on the registry, the program preserves on the shared
    registry. *)
Lemma busy_invariant {A} (J : registry → Prop) P Q (m : M busy A) w :
  (∀ rq reg, P rq ∨ Q rq → J reg → J (serve rq reg).2) →
  emits P m → Forall (Forall Q) (others (remote w)) → J (behind (remote w)) →
  J (behind (remote (m w).2)).
Proof.
  intros Hserve Hm Hothers Hw.
  apply (emits_invariant (λ b, J (behind b) ∧ Forall (Forall Q) (others b)) P m w);
    [|done|done].
  intros rq b Hrq [Hreg [Hrqs Hrest]%others_turn]. rewrite serve_busy_run.
  split; [|done]. apply (serve_all_invariant J Q); [auto..|]. apply Hserve; auto.
Qed.

End invariant.

(** ** Requests and the record of an object type *)

Section records.
Implicit Types (reg : registry) (rq : request) (rqs : list request)
  (id : string) (r : value) (recs : list value).

#[export] Instance same_at_refl id : Reflexive (same_at id).
Proof. by intros reg. Qed.

#[export] Instance same_at_trans id : Transitive (same_at id).
Proof. intros reg1 reg2 reg3 [Hl Ht] [Hl' Ht']. split; [congruence|by rewrite Ht]. Qed.

Lemma lookup_id_snoc id r recs :
  rec_id r ≠ id → lookup_id id (recs ++ [r]) = lookup_id id recs.
Proof.
  intros Hr. unfold lookup_id. induction recs as [|r' recs IH]; simpl.
  - by rewrite bool_decide_eq_false_2.
  - by destruct (bool_decide _).
Qed.

Lemma lookup_id_filter id id' recs :
  id ≠ id' → lookup_id id (filter (λ r, rec_id r ≠ id') recs) = lookup_id id recs.
Proof.
  intros Hid. unfold lookup_id. induction recs as [|r recs IH]; [done|].
  destruct (decide (rec_id r = id')) as [Hr|Hr].
  - rewrite filter_cons_False by (intros Hn; by apply Hn). simpl.
    by rewrite bool_decide_eq_false_2 by congruence.
  - rewrite filter_cons_True by done. simpl. by rewrite IH.
Qed.

Lemma lookup_id_filter_same id recs :
  lookup_id id (filter (λ r, rec_id r ≠ id) recs) = None.
Proof.
  destruct (lookup_id _ _) as [r|] eqn:Hr; [|done].
  by apply find_key_Some in Hr as [[Hne _]%list_elem_of_filter Heq].
Qed.

Lemma elem_of_ids_filter id id' recs :
  id ∈ ids (filter (λ r, rec_id r ≠ id') recs) ↔ id ≠ id' ∧ id ∈ ids recs.
Proof.
  unfold ids. rewrite !list_elem_of_fmap. split.
  - intros (r & -> & [? ?]%list_elem_of_filter). eauto.
  - intros [Hid (r & -> & Hr)]. exists r. split; [done|]. by apply list_elem_of_filter.
Qed.

Lemma lookup_put_props_other id id' l reg :
  id ≠ id' → lookup_id id (live (put_props id' l reg)) = lookup_id id (live reg).
Proof.
  intros Hid. rewrite lookup_put_props.
  destruct (lookup_id id (live reg)) as [r|] eqn:Hr; [|done]. simpl. unfold put_rec.
  apply find_key_Some in Hr as [_ Hr]. by rewrite decide_False by congruence.
Qed.

Lemma issued_by_fresh reg id : issued_by reg id → mk_id (issued reg) ≠ id.
Proof.
  intros (n & -> & Hn%elem_of_seq)%list_elem_of_fmap Heq%mk_id_inj. lia.
Qed.

Lemma issued_by_mono reg reg' id :
  issued reg ≤ issued reg' → issued_by reg id → issued_by reg' id.
Proof.
  intros Hle (n & -> & Hn%elem_of_seq)%list_elem_of_fmap.
  apply list_elem_of_fmap_2, elem_of_seq. lia.
Qed.

(** The registry issues identifiers and takes none back. *)
Lemma serve_issued rq reg : issued reg ≤ issued (serve rq reg).2.
Proof.
  unfold serve, registry_remote, serve_registry.
  destruct (prop_action rq) as [[id f]|].
  - unfold on_props. destruct (lookup_id id (live reg)); [|done]. by destruct (f _).
  - destruct (req_method rq), (endpoint_of (req_path rq)) as [|id|id|id| | |]; try done.
    + unfold create_schema. case_decide; simpl; lia.
    + unfold associate_schemas. by case_decide.
    + unfold delete_schema. by destruct (lookup_id id (live reg)).
    + unfold purge_schema. by case_decide.
Qed.

(** A request that does not address the object type [id] leaves what the
    registry holds for it. *)
Lemma serve_keeps rq id reg :
  target rq ≠ Some id → issued_by reg id → same_at id (serve rq reg).2 reg.
Proof.
  intros Hrq Hid. unfold target in Hrq.
  unfold serve, registry_remote, serve_registry.
  destruct (prop_action rq) as [[id' f]|].
  - unfold on_props. destruct (lookup_id id' (live reg)); [|done].
    destruct (f _); [|done]. split; [|done]. apply lookup_put_props_other. congruence.
  - destruct (req_method rq), (endpoint_of (req_path rq)) as [|id'|id'|id'| | |];
      try done.
    + unfold create_schema. case_decide as Hs; [|done]. split; [|done]. cbn [snd live].
      apply lookup_id_snoc. destruct Hs as [Hs _].
      destruct (new_record_spec _ reg Hs) as (_ & -> & _). by apply issued_by_fresh.
    + unfold associate_schemas. by case_decide.
    + unfold delete_schema. destruct (lookup_id id' (live reg)) as [r|] eqn:Hr; [|done].
      apply find_key_Some in Hr as [_ Hr]. split; cbn [snd live trash].
      * apply lookup_id_filter. congruence.
      * unfold ids. rewrite fmap_cons, elem_of_cons. split; [|by right].
        intros [->|?]; [|done]. destruct Hrq. by rewrite Hr.
    + unfold purge_schema. case_decide; [|done]. split; [done|]. cbn [snd trash].
      rewrite elem_of_ids_filter. split; [by intros [_ ?]|]. split; [congruence|done].
Qed.

(** The requests of other clients, elsewhere. *)
Lemma serve_all_keeps ids0 rqs reg :
  Forall (elsewhere ids0) rqs → wf_registry reg → Forall (issued_by reg) ids0 →
  wf_registry (serve_all rqs reg) ∧ issued reg ≤ issued (serve_all rqs reg) ∧
  Forall (λ id, same_at id (serve_all rqs reg) reg) ids0.
Proof.
  intros Hrqs. revert reg. induction Hrqs as [|rq rqs Hrq _ IH]; intros reg Hreg Hids.
  - split; [done|]. split; [done|]. by apply Forall_true.
  - pose proof (serve_issued rq reg) as Hle. rewrite serve_all_cons.
    destruct (IH (serve rq reg).2) as (Hwf & Hle' & Hsame); [by apply serve_wf|..].
    { eapply Forall_impl; [exact Hids|]. intros id. by apply issued_by_mono. }
    split; [done|]. split; [lia|]. rewrite Forall_forall in Hsame, Hids.
    apply Forall_forall. intros id Hid. etrans; [by apply Hsame|].
    apply serve_keeps; [|by apply Hids]. intros Ht. by apply (Hrq id).
Qed.

(** A request that addresses [id] is answered by what the registry holds
    for [id]: two registries that hold the same for it give the same
    answer, and hold the same afterwards for every object type for which
    they held the same. *)
Lemma serve_same rq id reg1 reg :
  target rq = Some id → same_at id reg1 reg →
  (serve rq reg1).1 = (serve rq reg).1 ∧
  ∀ id', same_at id' reg1 reg → same_at id' (serve rq reg1).2 (serve rq reg).2.
Proof.
  intros Hrq [Hl Ht]. unfold target in Hrq.
  unfold serve, registry_remote, serve_registry.
  destruct (prop_action rq) as [[id0 f]|].
  - injection Hrq as ->. unfold on_props. rewrite Hl.
    destruct (lookup_id id (live reg)) as [r|]; [|done].
    destruct (f (rec_props r)) as [l|]; [|done]. split; [done|].
    intros id' [Hl' Ht']. split; [|done]. cbn [snd]. by rewrite !lookup_put_props, Hl'.
  - destruct (req_method rq), (endpoint_of (req_path rq)) as [|id0|id0|id0| | |];
      try done; injection Hrq as ->.
    + unfold delete_schema. rewrite Hl.
      destruct (lookup_id id (live reg)) as [r|]; [|done]. split; [done|].
      intros id' [Hl' Ht']. split; cbn [snd live trash].
      * destruct (decide (id' = id)) as [->|Hne]; [by rewrite !lookup_id_filter_same|].
        by rewrite !lookup_id_filter.
      * unfold ids in *. rewrite !fmap_cons, !elem_of_cons. by rewrite Ht'.
    + unfold purge_schema.
      destruct (decide (id ∈ ids (trash reg1))) as [Hin|Hin];
        [rewrite decide_True by (by apply Ht)|rewrite decide_False by (by rewrite <- Ht)];
        [|done].
      split; [done|]. intros id' [Hl' Ht']. split; [done|]. cbn [snd trash].
      by rewrite !elem_of_ids_filter, Ht'.
Qed.

End records.

(** ** The requests that are answered alike *)

Section alike.
Context (ids0 : list string).
Implicit Types (b : busy) (reg : registry) (rq : request) (id : string).

(** After a request of the command the others take their turn. *)
Lemma agree_step b reg reg1 reg' :
  agree ids0 b reg → wf_registry reg1 → wf_registry reg' →
  issued (behind b) ≤ issued reg1 → Forall (λ id, same_at id reg1 reg') ids0 →
  agree ids0 (Busy (serve_all (default [] (head (others b))) reg1) (tail (others b))) reg'.
Proof.
  intros (_ & _ & [Hrqs Hrest]%others_turn & Hiss & _) Hwf1 Hwf' Hle Hsame.
  assert (Forall (issued_by reg1) ids0) as Hiss1.
  { eapply Forall_impl; [exact Hiss|]. intros id. by apply issued_by_mono. }
  destruct (serve_all_keeps ids0 _ reg1 Hrqs Hwf1 Hiss1) as (Hwf & Hle' & Hkept).
  split; [done|]. split; [done|]. split; [done|]. cbn [behind]. split.
  - eapply Forall_impl; [exact Hiss1|]. intros id. by apply issued_by_mono.
  - rewrite Forall_forall in Hkept, Hsame. apply Forall_forall. intros id Hid.
    etrans; [by apply Hkept|by apply Hsame].
Qed.

(** A request on an object type of [ids0] is answered alike. *)
Lemma alike_target rq id : target rq = Some id → id ∈ ids0 → alike (agree ids0) rq.
Proof.
  intros Hrq Hid b reg Hb. pose proof Hb as (Hwf & Hwf' & _ & _ & Hsame).
  rewrite Forall_forall in Hsame.
  destruct (serve_same rq id (behind b) reg Hrq (Hsame id Hid)) as [Hres Hafter].
  rewrite serve_busy_run. split; [done|]. cbn [snd].
  apply (agree_step b reg); [done|by apply serve_wf..|apply serve_issued|].
  apply Forall_forall. intros id' Hid'. by apply Hafter, Hsame.
Qed.

(** So is a request that no registry routes. *)
Lemma alike_unrouted rq : unrouted rq → alike (agree ids0) rq.
Proof.
  intros Hrq b reg Hb. pose proof Hb as (Hwf & Hwf' & _ & _ & Hsame).
  rewrite serve_busy_run, !Hrq. split; [done|]. cbn [snd]. by apply (agree_step b reg).
Qed.

Lemma issued_by_segment reg id : issued_by reg id → free_of "/"%char id.
Proof. intros (n & -> & _)%list_elem_of_fmap. apply valid_name_segment, mk_id_valid. Qed.

(** The paths under the properties of an object type lead to its
    properties or nowhere. *)
Lemma on_properties_routed id rq :
  free_of "/"%char id → on_properties id rq → target rq = Some id ∨ unrouted rq.
Proof.
  intros Hid [Hm [x Hpath]]. destruct rq as [m path body]. simpl in Hm, Hpath. subst path.
  unfold unrouted, target, serve, registry_remote, serve_registry, prop_action, endpoint_of.
  cbn [req_method req_path req_body].
  change ("/properties/v2/" +:+ id +:+ String "/" x)
    with ("" +:+ String "/" ("properties" +:+ String "/" ("v2" +:+ String "/"
            (id +:+ String "/" x)))).
  rewrite !split_on_sep by (done || compute_done). rewrite !append_nil_l.
  destruct (split_on "/"%char x "") as [|s1 [|s2 [|s3 [|s4 ?]]]]; destruct m;
    repeat (case_decide; simplify_eq); auto.
Qed.

Lemma alike_properties id rq : id ∈ ids0 → on_properties id rq → alike (agree ids0) rq.
Proof.
  intros Hid Hrq b reg Hb. pose proof Hb as (_ & _ & _ & Hiss & _).
  rewrite Forall_forall in Hiss.
  destruct (on_properties_routed id rq) as [Ht|Hu];
    [by eapply issued_by_segment, Hiss|done|..].
  - by apply (alike_target rq id).
  - by apply alike_unrouted.
Qed.

Lemma delete_requests_target id (idv : value) :
  free_of "/"%char id → to_string idv = id →
  target (soft_delete idv) = Some id ∧ target (purge idv) = Some id.
Proof.
  intros Hid <-. unfold target, prop_action, soft_delete, purge. simpl.
  by rewrite endpoint_schema, endpoint_purge.
Qed.

Lemma alike_deletion (idv : value) :
  to_string idv ∈ ids0 → alike (agree ids0) (soft_delete idv) ∧ alike (agree ids0) (purge idv).
Proof.
  intros Hid.
  split; intros b reg Hb; pose proof Hb as (_ & _ & _ & Hiss & _);
    rewrite Forall_forall in Hiss;
    destruct (delete_requests_target (to_string idv) idv) as [Hsoft Hpurge];
    try done; try (by eapply issued_by_segment, Hiss);
    by eapply alike_target.
Qed.

End alike.

(** ** [update] and [delete] among the others *)

Section commands.
Context (d : disk).
Implicit Types (reg : registry) (g : string) (entries : list value)
  (os : list (list request)) (c : list string) (k : list request).

(** The fetch of the index: the others take their turn after it. *)
Lemma getExistingSchemas_busy reg os c k :
  getExistingSchemas (World (Busy reg os) c k) =
  (Ok (index_of reg),
   World (Busy (serve_all (default [] (head os)) reg) (tail os)) c (k ++ [schemas_request])).
Proof. rewrite getExistingSchemas_run. simpl. unfold after. simpl. by rewrite app_nil_r. Qed.

(** The index files the watched object types under the keys of the
    entries. *)
Lemma index_covered reg entries :
  covered (.∈ watched reg entries) (omap entry_key entries) (index_of reg).
Proof.
  intros key r Hkey [Hr Hname]%keyBy_elem_of _.
  apply (list_elem_of_fmap_2 rec_id), list_elem_of_filter. split; [|done].
  by rewrite <- Hname in Hkey.
Qed.

(** Before the first request the two registries are the same one. *)
Lemma agree_start reg entries os :
  wf_registry reg → Forall (Forall (elsewhere (watched reg entries))) os →
  agree (watched reg entries) (Busy reg os) reg.
Proof.
  intros Hreg Hos. split; [done|]. split; [done|]. split; [done|].
  split; [|by apply Forall_true]. destruct Hreg as (_ & _ & _ & Hiss).
  rewrite Forall_forall in Hiss. apply Forall_forall.
  intros id (r & -> & [_ Hr]%list_elem_of_filter)%list_elem_of_fmap.
  apply Hiss, list_elem_of_fmap_2, elem_of_app. by left.
Qed.

(** After the fetch. *)
Lemma agree_fetched reg entries os :
  wf_registry reg → Forall (Forall (elsewhere (watched reg entries))) os →
  agree (watched reg entries) (Busy (serve_all (default [] (head os)) reg) (tail os)) reg.
Proof.
  intros Hreg Hos. apply (agree_step _ (Busy reg os) reg); [by apply agree_start|done..|].
  by apply Forall_true.
Qed.

Lemma updateSchemas_agree g reg os c k :
  wf_registry reg → Forall (Forall (elsewhere (watched reg (objectTypes d g)))) os →
  (updateSchemas d g (World (Busy reg os) c k)).1 = (updateSchemas d g (World reg c k)).1 ∧
  console (updateSchemas d g (World (Busy reg os) c k)).2 =
    console (updateSchemas d g (World reg c k)).2 ∧
  calls (updateSchemas d g (World (Busy reg os) c k)).2 =
    calls (updateSchemas d g (World reg c k)).2 ∧
  agree (watched reg (objectTypes d g))
    (remote (updateSchemas d g (World (Busy reg os) c k)).2)
    (remote (updateSchemas d g (World reg c k)).2).
Proof.
  intros Hreg Hos. unfold updateSchemas.
  rewrite !bind_run, getExistingSchemas_busy, getExistingSchemas_registry. cbn beta iota.
  apply (sim_run _ (λ _, True)); [|by apply agree_fetched].
  apply (update_loop_sim _ d (.∈ watched reg (objectTypes d g))
           (omap entry_key (objectTypes d g))); [|done|apply index_covered].
  intros id rq. apply alike_properties.
Qed.

(** The same of [deleteSchemas], by the rule of its loop. *)
Lemma deleteSchemas_agree g reg os c k :
  wf_registry reg → Forall (Forall (elsewhere (watched reg (objectTypes d g)))) os →
  (deleteSchemas d g (World (Busy reg os) c k)).1 = (deleteSchemas d g (World reg c k)).1 ∧
  console (deleteSchemas d g (World (Busy reg os) c k)).2 =
    console (deleteSchemas d g (World reg c k)).2 ∧
  calls (deleteSchemas d g (World (Busy reg os) c k)).2 =
    calls (deleteSchemas d g (World reg c k)).2 ∧
  agree (watched reg (objectTypes d g))
    (remote (deleteSchemas d g (World (Busy reg os) c k)).2)
    (remote (deleteSchemas d g (World reg c k)).2).
Proof.
  intros Hreg Hos. unfold deleteSchemas.
  rewrite !bind_run, getExistingSchemas_busy, getExistingSchemas_registry. cbn beta iota.
  apply (sim_run _ (λ _, True)); [|by apply agree_fetched].
  apply (delete_loop_sim _ (.∈ watched reg (objectTypes d g))
           (omap entry_key (objectTypes d g))); [|done|apply index_covered].
  intros idv. apply alike_deletion.
Qed.

End commands.

(** ** Theorems *)

Section theorems.
Context (d : disk).
Implicit Types (reg : registry) (g : string) (files : list (string * string))
  (os : list (list request)) (c : list string) (k : list request).

(** C23. [update] is isolated from what other clients do to other object
    types.  On a well-formed registry shared with other clients, whose
    requests arrive between those of the command, and whatever the files
    hold: when no request of the others addresses an object type that a
    file names, [updateSchemas] ends as it does alone, with the same
    result or the same exception, the same lines on the console and the
    same requests; the shared registry stays well formed, and it holds
    for these object types what the registry holds after the run alone. *)
Theorem update_isolated g reg os c k :
  wf_registry reg → Forall (Forall (elsewhere (watched reg (objectTypes d g)))) os →
  (updateSchemas d g (World (Busy reg os) c k)).1 = (updateSchemas d g (World reg c k)).1 ∧
  console (updateSchemas d g (World (Busy reg os) c k)).2 =
    console (updateSchemas d g (World reg c k)).2 ∧
  calls (updateSchemas d g (World (Busy reg os) c k)).2 =
    calls (updateSchemas d g (World reg c k)).2 ∧
  agree (watched reg (objectTypes d g))
    (remote (updateSchemas d g (World (Busy reg os) c k)).2)
    (remote (updateSchemas d g (World reg c k)).2).
Proof. apply updateSchemas_agree. Qed.

(** C24. [delete] is isolated from what other clients do to other object
    types.  On a well-formed registry shared with other clients, whose
    requests arrive between those of the command, and whatever the files
    hold: when no request of the others addresses an object type that a
    file names, [deleteSchemas] ends as it does alone, with the same
    result or the same exception, the same lines on the console and the
    same requests, soft deletes and purges alike; the shared registry
    stays well formed, and for these object types it holds what the
    registry holds after the run alone: the same live record or none, and
    the same record awaiting a purge or none. *)
Theorem delete_isolated g reg os c k :
  wf_registry reg → Forall (Forall (elsewhere (watched reg (objectTypes d g)))) os →
  (deleteSchemas d g (World (Busy reg os) c k)).1 = (deleteSchemas d g (World reg c k)).1 ∧
  console (deleteSchemas d g (World (Busy reg os) c k)).2 =
    console (deleteSchemas d g (World reg c k)).2 ∧
  calls (deleteSchemas d g (World (Busy reg os) c k)).2 =
    calls (deleteSchemas d g (World reg c k)).2 ∧
  agree (watched reg (objectTypes d g))
    (remote (deleteSchemas d g (World (Busy reg os) c k)).2)
    (remote (deleteSchemas d g (World reg c k)).2).
Proof. apply deleteSchemas_agree. Qed.

(** The record a file names is watched. *)
Lemma named_watched reg files f r :
  r ∈ live reg → rec_name r = f.2 → f ∈ files →
  rec_id r ∈ watched reg (resolved <$> files).
Proof.
  intros Hr Hname Hf. apply (list_elem_of_fmap_2 rec_id), list_elem_of_filter.
  split; [|done]. rewrite Hname. apply list_elem_of_omap. exists (resolved f).
  split; [by apply list_elem_of_fmap_2|done].
Qed.

(** Among the others [update] achieves what it achieves alone: when the
    files name different object types, each with a record that its schema
    can follow, the command returns and the record of every file is
    brought to its plan applied. *)
Theorem update_among_others g files reg os c k :
  wf_registry reg → objectTypes d g = resolved <$> files →
  batch_ready d (index_of reg) reg files →
  Forall (Forall (elsewhere (watched reg (objectTypes d g)))) os →
  (updateSchemas d g (World (Busy reg os) c k)).1 = Ok () ∧
  wf_registry (behind (remote (updateSchemas d g (World (Busy reg os) c k)).2)) ∧
  ∀ f, f ∈ files →
    lookup_id (rec_id (entry (index_of reg) f))
      (live (behind (remote (updateSchemas d g (World (Busy reg os) c k)).2))) =
    Some (updated_record d (entry (index_of reg) f) f).
Proof.
  intros Hreg Hg Hfiles Hos.
  destruct (updateSchemas_agree d g reg os c k Hreg Hos)
    as (-> & _ & _ & Hwf & _ & _ & _ & Hsame).
  rewrite (updateSchemas_registry d g files) in * by done. cbn [fst snd remote] in *.
  split; [done|]. split; [done|]. intros f Hf. rewrite Forall_forall in Hsame.
  destruct (Hsame (rec_id (entry (index_of reg) f))) as [-> _].
  { rewrite Hg. destruct Hfiles as [_ Hready]. rewrite Forall_forall in Hready.
    destruct (Hready f Hf) as (_ & Hr & Hname & _). by apply (named_watched reg files f). }
  pose proof (batch_update_record d _ reg files f Hreg Hfiles Hf) as Hrec.
  apply lookup_id_elem_of in Hrec; [|by apply batch_update_wf].
  unfold updated_record in Hrec at 1. by rewrite rec_id_with_props in Hrec.
Qed.

(** And so does [delete]: when the files name different object types
    that the registry holds, the command returns and reports every
    deletion, and the records of the files are gone from the shared
    registry, none awaiting a purge. *)
Theorem delete_among_others g files reg os c k :
  wf_registry reg → objectTypes d g = resolved <$> files →
  deletable (index_of reg) reg files →
  Forall (Forall (elsewhere (watched reg (objectTypes d g)))) os →
  (deleteSchemas d g (World (Busy reg os) c k)).1 = Ok () ∧
  console (deleteSchemas d g (World (Busy reg os) c k)).2 = c ++ (deleted_line <$> files) ∧
  ∀ f, f ∈ files →
    lookup_id (rec_id (entry (index_of reg) f))
      (live (behind (remote (deleteSchemas d g (World (Busy reg os) c k)).2))) = None ∧
    rec_id (entry (index_of reg) f) ∉
      ids (trash (behind (remote (deleteSchemas d g (World (Busy reg os) c k)).2))).
Proof.
  intros Hreg Hg Hfiles Hos.
  destruct (deleteSchemas_agree d g reg os c k Hreg Hos)
    as (-> & -> & _ & _ & _ & _ & _ & Hsame).
  rewrite (deleteSchemas_registry d g files) in * by done. cbn [fst snd remote console] in *.
  split; [done|]. split; [done|]. intros f Hf. rewrite Forall_forall in Hsame.
  assert (rec_id (entry (index_of reg) f) ∈ file_ids (index_of reg) files) as Hid
    by (by apply (list_elem_of_fmap_2 (λ f, rec_id (entry (index_of reg) f)))).
  destruct (Hsame (rec_id (entry (index_of reg) f))) as [-> ->].
  { rewrite Hg. destruct Hfiles as [_ Hdel]. rewrite Forall_forall in Hdel.
    destruct (Hdel f Hf) as [Hr Hname]. by apply (named_watched reg files f). }
  rewrite dropped_registry. cbn [live trash]. split.
  - destruct (lookup_id _ _) as [r|] eqn:Hr; [|done].
    apply find_key_Some in Hr as [[Hn _]%list_elem_of_filter Hr]. by rewrite Hr in Hn.
  - intros (r & Hr & [Hn _]%list_elem_of_filter)%list_elem_of_fmap. by rewrite <- Hr in Hn.
Qed.

(** With nobody else, every command line runs on the shared registry as
    it runs on the registry. *)
Theorem nobody_else argv m m0 reg c k :
  parse d argv = Some m → parse d argv = Some m0 →
  (m (World (Busy reg []) c k)).1 = (m0 (World reg c k)).1 ∧
  console (m (World (Busy reg []) c k)).2 = console (m0 (World reg c k)).2 ∧
  calls (m (World (Busy reg []) c k)).2 = calls (m0 (World reg c k)).2 ∧
  remote (m (World (Busy reg []) c k)).2 = Busy (remote (m0 (World reg c k)).2) [].
Proof.
  intros Hm Hm0. eapply (run_alike unshared d); [|done..]. by intros rq b reg' ->.
Qed.

(** Whatever the other clients send, and whatever the command line, the
    shared registry stays well formed. *)
Theorem others_keep_registry argv m (w : world busy) :
  parse d argv = Some m → wf_registry (behind (remote w)) →
  wf_registry (behind (remote (m w).2)).
Proof.
  intros [g Hm]%parse_Some.
  apply (busy_invariant wf_registry is_endpoint (λ _, True)).
  - intros rq reg _. apply serve_wf.
  - destruct Hm as [-> | [-> | ->]];
      auto using createSchemas_endpoints, deleteSchemas_endpoints,
        updateSchemas_endpoints.
  - apply Forall_true. intros rqs. by apply Forall_true.
Qed.

End theorems.

(** ** Worked runs among other clients *)

(** The registry holds [deal_x] and [ticket_x]; the file is that of
    [deal_x]. *)
Definition ex_shared : registry := Registry [ex_remote; ex_ticket] [] 124.

(** Another client adds a property to [ticket_x] after the fetch of the
    index, and creates [invoice_x] and deletes [ticket_x] two requests
    later. *)
Definition ex_others : list (list request) :=
  [ [Request POST "/properties/v2/2-7/properties"
       (mk_prop "severity" [("type", VStr "string")])];
    [];
    [Request POST "/crm/v3/schemas"
       (VObj [("name", VStr "invoice_x"); ("properties", VArr [])]);
     Request DELETE "/crm/v3/schemas/2-7" VUndefined] ].

(** Another client deletes [legacy_field] of [deal_x] after the fetch. *)
Definition ex_meddling : list (list request) :=
  [ [Request DELETE "/properties/v2/2-123/properties/named/legacy_field" VUndefined] ].

(** Another client adds [extra] to [deal_x] after the fetch. *)
Definition ex_late : list (list request) :=
  [ [Request POST "/properties/v2/2-123/properties"
       (mk_prop "extra" [("type", VStr "string")])] ].

(** Another client deletes [deal_x] after the fetch, without the purge. *)
Definition ex_racing : list (list request) :=
  [ [Request DELETE "/crm/v3/schemas/2-123" VUndefined] ].

(** Another client creates [invoice_x] after the fetch. *)
Definition ex_creating : list (list request) :=
  [ [Request POST "/crm/v3/schemas"
       (VObj [("name", VStr "invoice_x"); ("properties", VArr [])])] ].

Lemma update_isolated_witness :
  (updateSchemas ex_disk_deal "schemas/*.json" (World (Busy ex_shared ex_others) [] [])).1 =
    (updateSchemas ex_disk_deal "schemas/*.json" (World ex_shared [] [])).1 ∧
  console (updateSchemas ex_disk_deal "schemas/*.json"
             (World (Busy ex_shared ex_others) [] [])).2 =
    console (updateSchemas ex_disk_deal "schemas/*.json" (World ex_shared [] [])).2 ∧
  calls (updateSchemas ex_disk_deal "schemas/*.json"
           (World (Busy ex_shared ex_others) [] [])).2 =
    calls (updateSchemas ex_disk_deal "schemas/*.json" (World ex_shared [] [])).2 ∧
  agree (watched ex_shared (objectTypes ex_disk_deal "schemas/*.json"))
    (remote (updateSchemas ex_disk_deal "schemas/*.json"
               (World (Busy ex_shared ex_others) [] [])).2)
    (remote (updateSchemas ex_disk_deal "schemas/*.json" (World ex_shared [] [])).2).
Proof.
  apply (update_isolated ex_disk_deal "schemas/*.json" ex_shared ex_others [] []);
    compute_done.
Defined.

Lemma delete_isolated_witness :
  (deleteSchemas ex_disk_deal "schemas/*.json" (World (Busy ex_shared ex_others) [] [])).1 =
    (deleteSchemas ex_disk_deal "schemas/*.json" (World ex_shared [] [])).1 ∧
  console (deleteSchemas ex_disk_deal "schemas/*.json"
             (World (Busy ex_shared ex_others) [] [])).2 =
    console (deleteSchemas ex_disk_deal "schemas/*.json" (World ex_shared [] [])).2 ∧
  calls (deleteSchemas ex_disk_deal "schemas/*.json"
           (World (Busy ex_shared ex_others) [] [])).2 =
    calls (deleteSchemas ex_disk_deal "schemas/*.json" (World ex_shared [] [])).2 ∧
  agree (watched ex_shared (objectTypes ex_disk_deal "schemas/*.json"))
    (remote (deleteSchemas ex_disk_deal "schemas/*.json"
               (World (Busy ex_shared ex_others) [] [])).2)
    (remote (deleteSchemas ex_disk_deal "schemas/*.json" (World ex_shared [] [])).2).
Proof.
  apply (delete_isolated ex_disk_deal "schemas/*.json" ex_shared ex_others [] []);
    compute_done.
Defined.

(** The run among [ex_others]: [deal_x] is brought to its file, and what
    the other client did is there as well. *)
Example update_among_others_run :
  let out := updateSchemas ex_disk_deal "schemas/*.json"
               (World (Busy ex_shared ex_others) [] []) in
  watched ex_shared (objectTypes ex_disk_deal "schemas/*.json") = ["2-123"] ∧
  out.1 = Ok () ∧
  (λ r, (rec_name r, names (rec_props r))) <$> live (behind (remote out.2)) =
    [("deal_x", ["status"; "amount"; "hs_object_id"; "maths_score"; "fresh"]);
     ("invoice_x", [])] ∧
  (λ r, (rec_name r, names (rec_props r))) <$> trash (behind (remote out.2)) =
    [("ticket_x", ["severity"])].
Proof. by vm_compute. Qed.

(** A stale index, noticed: the property the plan deletes is gone when the
    request arrives, the registry rejects it, and the command throws with
    the rest of the plan not issued. *)
Example update_stale :
  ¬ Forall (Forall (elsewhere (watched ex_shared (objectTypes ex_disk_deal "schemas/*.json"))))
      ex_meddling ∧
  let out := updateSchemas ex_disk_deal "schemas/*.json"
               (World (Busy ex_shared ex_meddling) [] []) in
  out.1 = Err HttpError ∧
  console out.2 = ["Deleting property legacy_field on deal_x"] ∧
  length (calls out.2) = 2 ∧
  names ∘ rec_props <$> live (behind (remote out.2)) =
    [["status"; "amount"; "hs_object_id"; "maths_score"]; []].
Proof. split; [compute_done|by vm_compute]. Qed.

(** A stale index, unnoticed: a property added after the fetch is not in
    the plan; the command returns and the property stays, although the file
    does not have it.  The next run deletes it. *)
Example update_stale_silent :
  let out := updateSchemas ex_disk_deal "schemas/*.json"
               (World (Busy ex_shared ex_late) [] []) in
  let again := updateSchemas ex_disk_deal "schemas/*.json" out.2 in
  out.1 = Ok () ∧
  names ∘ rec_props <$> live (behind (remote out.2)) =
    [["status"; "amount"; "hs_object_id"; "maths_score"; "extra"; "fresh"]; []] ∧
  again.1 = Ok () ∧
  names ∘ rec_props <$> live (behind (remote again.2)) =
    [["status"; "amount"; "hs_object_id"; "maths_score"; "fresh"]; []].
Proof. by vm_compute. Qed.

(** [delete] among [ex_others], and against a client that deletes the
    same object type first: the soft delete is rejected, the failure is
    reported, and the record is left awaiting a purge that the command
    does not request. *)
Example delete_among_others_run :
  let out := deleteSchemas ex_disk_deal "schemas/*.json"
               (World (Busy ex_shared ex_others) [] []) in
  let raced := deleteSchemas ex_disk_deal "schemas/*.json"
                 (World (Busy ex_shared ex_racing) [] []) in
  (out.1, console out.2) = (Ok (), ["Deleted deal_x"]) ∧
  rnames (live (behind (remote out.2))) = ["invoice_x"] ∧
  rnames (trash (behind (remote out.2))) = ["ticket_x"] ∧
  (raced.1, console raced.2) =
    (Ok (), ["Error: Request failed"; "Failed to Delete Schema 2-123"]) ∧
  rnames (trash (behind (remote raced.2))) = ["deal_x"].
Proof. by vm_compute. Qed.

(** [create] is not isolated: the identifiers of the schemas it creates
    are the next ones of the registry, and another client that creates a
    schema in between shifts them; the associations are then requested
    with other identifiers. *)
Example create_not_isolated :
  let out := createSchemas ex_cyclic_disk "schemas/*.json"
               (World (Busy (Registry [ex_ticket] [] 8) ex_creating) [] []) in
  let alone := createSchemas ex_cyclic_disk "schemas/*.json"
                 (World (Registry [ex_ticket] [] 8) [] []) in
  Forall (Forall (elsewhere (watched (Registry [ex_ticket] [] 8)
                               (objectTypes ex_cyclic_disk "schemas/*.json")))) ex_creating ∧
  out.1 = alone.1 ∧ console out.2 = console alone.2 ∧ calls out.2 ≠ calls alone.2 ∧
  (λ r, (rec_name r, rec_id r)) <$> live (behind (remote out.2)) =
    [("ticket_x", "2-7"); ("invoice_x", "2-8"); ("company_x", "2-9"); ("deal_x", "2-10")] ∧
  (λ r, (rec_name r, rec_id r)) <$> live (remote alone.2) =
    [("ticket_x", "2-7"); ("company_x", "2-8"); ("deal_x", "2-9")].
Proof. split; [compute_done|]. by vm_compute. Qed.
